(* ===== verification/_CoqProject ===== *)
-Q . S2P
Prelude.v
Errors.v
Resilience.v
Lock.v
RedisLock.v
Timer.v
Registries.v
AuditTrail.v
Tcp.v
Ws.v
Cluster.v
Trpc.v
Accept.v
Crypto.v
Mq.v
Store.v
Derive.v
CodecImpls.v
I18n.v
Router.v
HttpStack.v
RateLimit.v
HttpClient.v
Tasks.v
Paths.v
Cache.v
FileStore.v
Admin.v
Serde.v
Config.v
ConfigLoad.v
RedisStreams.v
Nats.v
SqlStores.v
Scripts.v
Plugins.v
Builtin.v
AppState.v
AdminRoutes.v
Runtime.v
Lifecycle.v
Cli.v
Proxy.v
Telemetry.v
Grpc.v
Site.v
ClusterWire.v
Assembly.v
Programs.v
ClusterSystem.v
ClusterSuite.v
UnitSuites.v
ServiceSuites.v
SecuritySuites.v
RpcSystem.v
WebExample.v
