(* ===== verification/Prelude.v ===== *)
(** * A verification of the rinfra application framework

    rinfra is an application framework in Rust.  [src/rinfra-core] defines the
    interfaces and the logic that needs no I/O (error codes, circuit breaker,
    retry policy, plugin context and registry, registries of components, query
    specifications), [src/rinfra-plugins] the implementations (timer engine,
    locks, TCP and HTTP servers, cluster membership, tRPC, key rotation,
    message bus, stores, caches, rate limiters, the application runtime),
    [src/rinfra-admin/backend] the admin interface.  A program
    built on it registers plugins; the runtime builds them into an application
    state, starts the listeners of its configuration, optionally joins a
    cluster, and at shutdown drains its connections and runs the plugins'
    hooks.  This library models those parts and proves what makes them
    correct, and where the code falls short states exactly how.

    ** How the program is modelled

    Pure Rust functions are functions of the same name; a [&mut self] method
    takes and returns the state.  [Result<A, AppError>] is [Result A]; a
    computation that may panic is an [outcome]; an asynchronous function over
    shared state is a computation of the state monad [M], in which an [await]
    at which others may run is part of the effect.  Integers are [Z], with the
    wrap-around of casts written out ([as_u64], [as_i64]) and the arithmetic
    that panics on overflow in the debug profile as [u64_add] and the like.
    An [Instant] or a [Duration] is a number of nanoseconds.  Clocks, fresh
    identifiers, randomness and the answers of libraries and of the network
    are arguments of the definitions that use them; a library is a parameter
    of a Section or a type class ([Redis], [RedisCounters]) that states the
    documented behaviour the code relies on.  Concurrent code is a machine
    whose steps are the code between two await points, run in any order: the
    timer's loops, the waiting [acquire] of the locks, the tRPC client, the
    WebSocket drain.  Logging is left out everywhere, metrics and
    tracing outside [Telemetry].

    ** The files

    - [Prelude]: results, panics, the state monad, machine integers, strings,
      JSON, the [rinfra] hint database and tactics, lemmas on lists and
      counting that the components share.
    - [Errors]: [rinfra-core/src/error], [response].  The error codes, their
      wire names, HTTP statuses and translation keys, application errors and
      the response envelope; the tables are invertible ([as_str_inj],
      [i18n_key_inj], [http_status_is_error]).
    - [Resilience]: [resilience].  [CircuitBreaker] is the three-state machine
      with its overflow-checked counters, [Retry] the backoff policy
      and [with_retry], [Wrappers] the combinators of
      [rinfra-plugins/src/resilience].
    - [Lock]: the [DistributedLock] class, which states the interface of
      [rinfra-core/src/lock] with its laws, and [InMemoryLock] as an instance,
      with its waiting [acquire] as a machine.  [RedisLock]: the scripts and
      operations of [redis_lock.rs] as a second instance, over any [Redis].
    - [Timer]: [timer].  Task definitions, and [SimpleTimer]: spawned loops
      interleaved at their await points, whose cluster-scoped tasks are
      coordinated through any [DistributedLock].
    - [Registries]: the registries of named components, middleware ordering,
      codecs and data sources.
    - [AuditTrail]: [audit].  Events, filters, the append-only JSON-lines file.
    - [Tcp]: [net/tcp.rs], [net/transform.rs].  Byte-transform pipelines,
      middleware chains, the life of a connection.  [Ws]: [net/ws.rs], the life
      of a WebSocket connection, and [Drain], the wait for all to close.
    - [Cluster]: [cluster].  [Server], the main node's registry and connection
      handler; [WorkerConn], the worker's connection loop.
    - [Trpc]: [rpc/trpc].  [Protocol], length-prefixed frames; the two servers;
      [Client], the multiplexing client as a machine.  [Accept]: the accept
      loops of both servers and a connection of the stand-alone one.
    - [Crypto]: [crypto].  Versioned keys with rotation, key providers, the
      AES-GCM wrapper.
    - [Mq]: [mq].  The in-memory bus with bounded channels.
    - [Store]: [store].  Database values with their conversions, query
      specifications, the generic repository that writes SQL.
    - [I18n]: [i18n].  The class of the interface; the YAML catalogues.
    - [Router]: axum's [Router] as an interface, used by the next file, [Site],
      [Runtime] and [Assembly]: the operations, those of them that panic, the
      endpoints and the handler of a request as the library documents them; and
      a router that is its list of endpoints.
    - [HttpStack]: [net/middleware], [net/http.rs].  The HTTP middlewares as
      functions on handlers, the factory and the stack it assembles around any
      such router.
    - [RateLimit]: [ratelimit].  The fixed window over any [RedisCounters], the
      token buckets.
    - [HttpClient]: [http_client].  The client with retries behind its breaker.
    - [Tasks]: the monad of an asynchronous task that other tasks may overtake
      at its awaits, with the rules the next components share.
    - [Paths]: [std::path] as the file store uses it, with its panics.
    - [Cache]: [cache].  The caches as records of operations, the Redis cache
      over a class of commands, and the two-level cache over any two, the
      second of which forgets what was written with a time to live.
    - [FileStore]: [filestore].  Keys, paths and listings over a file system.
    - [Admin]: [auth/store.rs], [auth/middleware.rs], [auth/routes.rs] of the
      admin backend: the token list and its file, the layer, the token routes.
    - [Serde]: derived (de)serialisation of structs and enums, with the laws
      of reading what was written and of reading only valid values.
      [Config]: [config/model.rs], the 60 sections with defaults, written from
      one scheme.  [ConfigLoad]: [Load], environment overrides; [Watch], the
      file watcher and its handlers.
    - [RedisStreams]: [mq/redis.rs].  The consumer-group bus over a class of
      stream commands, as a task.  [Nats]: [mq/nats.rs], the bus on JetStream,
      its consumer loops and acknowledgements.
    - [SqlStores]: [store/mod.rs], [executor.rs], [transaction.rs], [mysql.rs],
      [sqlite.rs].  Pools, executors, transactions, decoding of rows.
    - [Scripts]: [script].  The line protocol of a worker process, the engines
      as calls that compete for it and can be cancelled, the one-shot process.
    - [Plugins]: [plugin], [appstate.rs], [health].  The build context with its
      type map, startup and shutdown of the plugins, the readiness endpoint.
    - [Builtin]: [plugin/builtin.rs].  Every built-in plugin as a [plugin] of
      the framework over what the libraries answer, and the script that their
      startup amounts to.  [AppState]: [appstate.rs], the accessors.
    - [AdminRoutes]: [routes.rs] of the admin backend.  [Metrics] reads the
      Prometheus text, [AdminApi] the pages over the application state.
    - [Runtime]: [runtime/mod.rs].  The builder's tables and the listeners.
    - [Lifecycle]: the rest of [runtime/mod.rs], [log/mod.rs],
      [telemetry/mod.rs].  [Build], [Observability], [WorkerSetup] and [Run],
      the phases from the configuration to the last hook.
    - [Cli]: [cli].  The command line: its configuration, its client of the
      admin interface, its commands and their exit statuses.
    - [Derive]: [rinfra-derive].  The three derive macros: which structs they
      accept, the code they generate, and [Mapped], the generic repository over
      a derived entity.
    - [CodecImpls]: [codec], [compress].  The JSON, MessagePack and protobuf
      codecs, the compressors and their registry.
    - [Telemetry]: [telemetry/otel.rs], [metrics], the trace propagation and
      metrics middlewares.  [Grpc]: [rpc/grpc], the start and end of the gRPC
      server.
    - [Site]: [lib.rs] of the admin backend and [net/http.rs].  [AdminSite]
      and [HttpServer], over [Router].
    - [ClusterWire]: [cluster/codec.rs].  The JSON of every cluster message and
      its frames over a class of framings.
    - [Proxy]: [rinfra-examples/src/proxy.rs], the round robin over the web
      nodes and the forwarding of requests.
    - [Assembly]: [ApplicationBuilder] with all its methods, [build] and [run]
      over the parts above, the shutdown token, and the builder that the
      command line fills.  [Programs]: the main functions of the examples.
    - [ClusterSystem]: main node, workers and their connections running
      together, with anybody else who connects; a move is one step of one part
      or the delivery of one message.
    - [RpcSystem]: the tRPC client, a connection as two streams of bytes and
      the server's task running together; frames may break off and either side
      may be lost.
    - [WebExample]: [rinfra-examples/src/web.rs], the page and its format
      string.
    - [ClusterSuite], [UnitSuites], [ServiceSuites] and [SecuritySuites]: the
      cluster's integration tests and the unit tests of fifteen components as
      scenarios over their models.

    ** What the theorems show

    - Safety of shared state: mutual exclusion through both locks
      ([lock_exclusive], [redis_lock_exclusive]), a stale handle is harmless,
      cluster-scoped tasks never overlap on two nodes
      ([cluster_task_exclusive]), handlers in flight are bounded, the limiter's
      window bound holds across processes ([window_limit_holds]), connection
      counts are balanced ([active_count_balanced], [ws_lifecycle]).
    - Protocols: an answer reaches the request it belongs to
      ([answers_match_requests]), the end of a connection answers every request
      that is registered by then and no other, so that one which registers
      later waits for ever ([read_end_answers_all]), frames survive the wire
      ([frames_roundtrip]), the two servers agree, registration needs the
      token, silent peers are dropped, hooks are paired.  With a positive ping
      interval the registry tracks the connections of nodes that take turns
      with theirs ([registry_tracks_connections]); with none it shows nodes
      nobody serves ([zero_interval_leaves_online]).
    - Protocols end to end: a remote call has the result of the service applied
      to its own payload ([remote_call_is_a_call]), no request is served twice
      ([requests_served_at_most_once]) or lost while the parts run
      ([no_request_lost]), and its answer can always come
      ([waiting_ask_completes]).  A worker's list is that of a state the main
      node was in and never of an earlier one than before
      ([views_never_go_back]), lists only nodes that hold the token
      ([listed_nodes_hold_token]) and can always be brought up to date
      ([list_can_be_refreshed]); what is proved of the parts holds of the whole
      ([executions_project]).
    - The models agree with the repository's own tests
      ([cluster_suite_passes], [unit_suites_pass], [service_suites_pass],
      [security_suites_pass]).
    - State machines and arithmetic: the breaker never overflows, trips,
      rejects - until its time is over or the program resets it - and
      recovers; delays and retries are what the policy says.
    - Assembly: the HTTP stack is the composition its orders call for, or
      panics on what axum and tower-http refuse ([stack_composition]), a
      request without a token never reaches the application, every listener
      serves what was registered for it unless its routes overlap or its tRPC
      services panic ([listeners_served]), shutdown hooks run in reverse, readiness reports
      every checker.  Startup with the built-in plugins runs a fixed script
      that an error or a library's panic ends ([builtin_startup_runs_script]), a
      shutdown takes bounded time but for the flush of the traces
      ([shutdown_is_bounded]) and a failed startup runs none of it
      ([run_phases]).
    - Configuration: what is loaded is well typed and survives saving
      ([loaded_config_well_typed]), the defaults are stated consistently, an
      override reaches its field and no other
      ([override_reaches_its_field]).
    - Messages: a stream message is delivered at most once and never again when
      it was not acknowledged ([stream_delivers_at_most_once],
      [unacknowledged_is_never_redelivered]), and survives its encoding; what
      a script engine returns is the answer to that call, while no call is
      cancelled and no script writes a line of its own
      ([script_answers_match]), a NATS acknowledgement settles its delivery.
    - Administration: no path but an excluded one is reached without a token
      that a record accepts ([admin_auth_gate]), the token routes need the root role, one root is
      kept, an acknowledged change is on the file, and a command's exit status
      says whether it did its work ([exit_status_tells]).
    - Caches, files and clients: the two-level cache is a map that may
      forget a value once its time to live is over ([multilevel_refines_map])
      and need not ([ttl_outlived]), a listing reports every entry, a request is
      retried until it is answered ([request_retries_until_answered]).
    - Data: statements and parameters are aligned ([statements_aligned]), where
      clauses, values and keys survive their conversions, a dotted key is a
      path in its catalogue, audit queries return what they should.  A derived
      entity that is stored is the one found ([create_then_find]) and its row
      is read back ([derived_roundtrip]); a document survives the codecs as far
      as they can carry it ([protobuf_roundtrip]); every cluster message
      arrives as it was sent, however the bytes are split
      ([cluster_messages_delivered]).
    - Composition: whatever calls a program makes on the builder, the running
      application serves what they ask for, or panics because routes overlap or
      a tRPC service is registered ([application_serves_calls]), from the
      command line too ([server_runs_its_calls]); every route of the admin
      site but those outside the interface is behind the token
      ([every_admin_route_guarded]); the web example becomes a backend of the
      proxy ([web_program_is_found]), whose choice is fair
      ([round_robin_fair]).
    - Shortcomings, proved as they are: lost wake-ups ([acquire_misses_release],
      [drain_misses_early_close]), hooks that are never run
      ([failed_build_runs_no_hook]), requests that hang or leak, a node hidden
      by a stale disconnect, a limit shared by all addresses, a loaded
      configuration that is never watched, a revoked token that returns, a
      metrics page that loses samples or panics, scripts that answer for each
      other after a cancelled call ([cancelled_call_shifts_answers]), topics
      that share a consumer, SQL columns read as nulls
      ([narrow_columns_read_as_null]).

    ** Fuel and bounds

    No definition takes fuel from outside except where the code itself runs
    for as long as events arrive: those functions recurse on the list of
    events, so every theorem about all lists is about all finite runs.
    [replace_fuel] in [I18n] takes the length of the text, which shrinks at
    every step.  Floats are [SpecFloat] at binary64 precision.

    ** What is not modelled

    The insides of libraries: the encoders and compressors, the exporters of
    traces and metrics, tonic's routing and axum's beyond the laws of [Router],
    the drivers and clients;
    what the code relies on of them is an argument, a class or an outcome.  The
    worker scripts in Python and JavaScript appear as the lines they answer.
    Sockets, spawning and signals appear as the events they deliver.  The tests
    other than those of these suites and the re-exports of the crates'
    roots are left out. *)


From stdpp Require Export base tactics numbers option list strings gmap fin_maps pretty relations.
From Stdlib Require Export ZArith Lia.

Set Default Goal Selector "!".

(** ** Results and panics

    [result E A] is Rust's [Result<A, E>]; [outcome A] separates a returned
    value from a panic (arithmetic overflow checks, [Instant] overflow,
    out-of-range indexing).  Both are monads with stdpp's notations. *)

Inductive result (E A : Type) : Type :=
| Ok (a : A)
| Err (e : E).
Arguments Ok {E A} a.
Arguments Err {E A} e.

Inductive outcome (A : Type) : Type :=
| Ret (a : A)
| Panic (why : string).
Arguments Ret {A} a.
Arguments Panic {A} why.

#[export] Instance result_ret E : MRet (result E) := fun A a => Ok a.
#[export] Instance result_bind E : MBind (result E) := fun A B f m =>
  match m with Ok a => f a | Err e => Err e end.
#[export] Instance outcome_ret : MRet outcome := fun A a => Ret a.
#[export] Instance outcome_bind : MBind outcome := fun A B f m =>
  match m with Ret a => f a | Panic w => Panic w end.

#[export] Instance result_eq_dec {E A} `{!EqDecision E, !EqDecision A} :
  EqDecision (result E A).
Proof. solve_decision. Defined.
#[export] Instance outcome_eq_dec {A} `{!EqDecision A} : EqDecision (outcome A).
Proof. solve_decision. Defined.

Definition is_ok {E A} (r : result E A) : bool :=
  match r with Ok _ => true | Err _ => false end.
Definition map_err {E F A} (f : E -> F) (r : result E A) : result F A :=
  match r with Ok a => Ok a | Err e => Err (f e) end.
Definition result_to_option {E A} (r : result E A) : option A :=
  match r with Ok a => Some a | Err _ => None end.
Definition ok_or {E A} (e : E) (o : option A) : result E A :=
  match o with Some a => Ok a | None => Err e end.

(** Collecting an iterator of results into a result of a list: the first
    error stops the collection ([iter().map(f).collect::<Result<Vec<_>, _>>()]). *)
Fixpoint collect {E A B} (f : A -> result E B) (l : list A) : result E (list B) :=
  match l with
  | [] => Ok []
  | x :: l =>
      match f x with
      | Err e => Err e
      | Ok y => match collect f l with Ok ys => Ok (y :: ys) | Err e => Err e end
      end
  end.

(** ** Machine integers

    A Rust integer is a [Z] in range.  The operators of the source panic on
    overflow ([u32_add] and the like, as in a build with overflow checks);
    where a theorem shows that they return, a wrapping build behaves alike. *)
Open Scope Z_scope.

Definition u8_max : Z := 255.
Definition u32_max : Z := 4294967295.
Definition u64_max : Z := 18446744073709551615.
Definition i64_max : Z := 9223372036854775807.
Definition i64_min : Z := -9223372036854775808.
Definition usize_max : Z := u64_max.

Definition in_u32 (n : Z) : Prop := 0 <= n <= u32_max.
Definition in_u64 (n : Z) : Prop := 0 <= n <= u64_max.
Definition in_i64 (n : Z) : Prop := i64_min <= n <= i64_max.

Definition checked (hi r : Z) (what : string) : outcome Z :=
  if (0 <=? r) && (r <=? hi) then Ret r else Panic what.
Definition u32_add (a b : Z) : outcome Z := checked u32_max (a + b) "attempt to add with overflow".
Definition u64_add (a b : Z) : outcome Z := checked u64_max (a + b) "attempt to add with overflow".
Definition u64_mul (a b : Z) : outcome Z :=
  checked u64_max (a * b) "attempt to multiply with overflow".
Definition u64_saturating_mul (a b : Z) : Z := Z.min (a * b) u64_max.
Definition u64_saturating_sub (a b : Z) : Z := Z.max (a - b) 0.
(** [x as u32], [x as i32], [x as u64] for an [i64]/[usize]/[u128] value. *)
Definition as_u32 (n : Z) : Z := n mod 2 ^ 32.
Definition as_u64 (n : Z) : Z := n mod 2 ^ 64.
Definition as_i32 (n : Z) : Z := (n + 2 ^ 31) mod 2 ^ 32 - 2 ^ 31.
Definition as_i64 (n : Z) : Z := (n + 2 ^ 63) mod 2 ^ 64 - 2 ^ 63.

(** ** Time

    [Instant] and [Duration] are nanosecond counts.  An [Instant] on 64-bit
    Unix holds an [i64] number of seconds; adding a [Duration] past it panics. *)
Definition nanos_per_sec : Z := 1000000000.
Definition nanos_per_milli : Z := 1000000.
Definition instant_max : Z := i64_max * nanos_per_sec + (nanos_per_sec - 1).
Definition from_secs (s : Z) : Z := s * nanos_per_sec.
Definition from_millis (ms : Z) : Z := ms * nanos_per_milli.
Definition as_secs (d : Z) : Z := d / nanos_per_sec.
Definition as_millis (d : Z) : Z := d / nanos_per_milli.
Definition instant_add (t d : Z) : outcome Z :=
  if t + d <=? instant_max then Ret (t + d)
  else Panic "overflow when adding duration to instant".
(** [later.duration_since(earlier)], which saturates at zero. *)
Definition duration_since (later earlier : Z) : Z := Z.max 0 (later - earlier).

(** ** Strings

    A Rust string is its byte sequence.  [to_lowercase] is modelled on ASCII
    letters, the only ones the names of the source contain. *)
Definition ascii_lower (c : Ascii.ascii) : Ascii.ascii :=
  let n := Ascii.N_of_ascii c in
  if ((65 <=? n) && (n <=? 90))%N then Ascii.ascii_of_N (n + 32) else c.
Fixpoint to_lowercase (s : string) : string :=
  match s with
  | EmptyString => EmptyString
  | String c s => String (ascii_lower c) (to_lowercase s)
  end.
(** [s.strip_prefix(p)] and [s.starts_with(p)]. *)
Fixpoint strip_prefix (p s : string) : option string :=
  match p, s with
  | EmptyString, _ => Some s
  | String a p, String b s => if Ascii.eqb a b then strip_prefix p s else None
  | String _ _, EmptyString => None
  end.
Lemma strip_prefix_app p s : strip_prefix p (p +:+ s) = Some s.
Proof.
  induction p as [|a p IH]; [by destruct s|]. change (String a p +:+ s) with (String a (p +:+ s)).
  cbn [strip_prefix]. by rewrite Ascii.eqb_refl.
Qed.
Definition starts_with (p s : string) : bool :=
  match strip_prefix p s with Some _ => true | None => false end.
(** [str::replace] of one character by another. *)
Fixpoint replace_char (a b : Ascii.ascii) (s : string) : string :=
  match s with
  | EmptyString => EmptyString
  | String c s => String (if Ascii.eqb c a then b else c) (replace_char a b s)
  end.
(** [s.contains(pat)] *)
Fixpoint contains (pat s : string) : bool :=
  starts_with pat s || match s with EmptyString => false | String _ s => contains pat s end.
(** [parts.join(sep)] *)
Fixpoint join (sep : string) (parts : list string) : string :=
  match parts with
  | [] => ""
  | [p] => p
  | p :: ps => p +:+ sep +:+ join sep ps
  end.

Lemma str_app_assoc (a b c : string) : (a +:+ b) +:+ c = a +:+ (b +:+ c).
Proof. induction a as [|x a IH]; [done|]. unfold String.app in *; simpl. by rewrite IH. Qed.
Lemma str_app_nil (a : string) : a +:+ "" = a.
Proof. induction a as [|x a IH]; [done|]. unfold String.app in *; simpl. by rewrite IH. Qed.

Lemma substring_app n (a b : string) : (n <= String.length a)%nat ->
  String.substring 0 n (a +:+ b) = String.substring 0 n a.
Proof.
  revert n. induction a as [|c a IH]; intros n; simpl; intros H.
  - replace n with 0%nat by lia. by destruct b.
  - change (String c a +:+ b) with (String c (a +:+ b)).
    destruct n as [|n]; [done|]. simpl. rewrite IH; [done|lia].
Qed.

(** Whether a character occurs in a string. *)
Fixpoint has_char (c : Ascii.ascii) (s : string) : bool :=
  match s with EmptyString => false | String a s => Ascii.eqb a c || has_char c s end.
Fixpoint all_chars (p : Ascii.ascii -> bool) (s : string) : bool :=
  match s with EmptyString => true | String a s => p a && all_chars p s end.
Lemma has_char_app c a b : has_char c (a +:+ b) = has_char c a || has_char c b.
Proof.
  induction a as [|x a IH]; [done|]. unfold String.app in *; simpl. by rewrite IH, orb_assoc.
Qed.
Lemma has_char_substring c n s : has_char c s = false -> has_char c (String.substring 0 n s) = false.
Proof.
  revert n. induction s as [|x s IH]; intros [|n]; simpl; try done.
  intros [-> H]%orb_false_iff. by apply IH.
Qed.
(** [str::trim_matches] of the double quote *)
Definition quote : Ascii.ascii := Ascii.ascii_of_N 34.
Fixpoint trim_start_quotes (s : string) : string :=
  match s with String a s' => if Ascii.eqb a quote then trim_start_quotes s' else s | EmptyString => "" end.
Fixpoint trim_end_quotes (s : string) : string :=
  match s with
  | EmptyString => ""
  | String a s' => if all_chars (fun c => Ascii.eqb c quote) s then "" else String a (trim_end_quotes s')
  end.
Definition trim_quotes (s : string) : string := trim_end_quotes (trim_start_quotes s).
Definition quoted (v : string) : string := String quote (v +:+ String quote "").
Lemma trim_end_quotes_quoted v : has_char quote v = false -> trim_end_quotes (v +:+ String quote "") = v.
Proof.
  induction v as [|x v IH]; intros H; [done|]. apply orb_false_iff in H as [Hx Hv].
  change (String x v +:+ String quote "") with (String x (v +:+ String quote "")). simpl. by rewrite Hx, IH.
Qed.
Lemma trim_start_quotes_solid v : has_char quote v = false ->
  trim_start_quotes (v +:+ String quote "") = if String.eqb v "" then "" else v +:+ String quote "".
Proof. destruct v as [|x v]; [done|]. intros [Hx _]%orb_false_iff. simpl. by rewrite Hx. Qed.
Lemma trim_quotes_quoted v : has_char quote v = false -> trim_quotes (quoted v) = v.
Proof.
  intros H. unfold trim_quotes, quoted. simpl. rewrite trim_start_quotes_solid by done.
  destruct (String.eqb_spec v "") as [->|]; [done|]. by apply trim_end_quotes_quoted.
Qed.
Definition newline : Ascii.ascii := Ascii.ascii_of_N 10.
Definition carriage_return : Ascii.ascii := Ascii.ascii_of_N 13.
Definition is_whitespace (c : Ascii.ascii) : bool :=
  let n := Ascii.N_of_ascii c in ((n =? 32) || ((9 <=? n) && (n <=? 13)))%N.
Fixpoint last_char (s : string) : option Ascii.ascii :=
  match s with
  | EmptyString => None
  | String c EmptyString => Some c
  | String _ s => last_char s
  end.

(** [serde_json::Value], an object's entries in order, numbers as written. *)
Inductive json : Type :=
| JNull
| JBool (b : bool)
| JNumber (literal : string)
| JString (s : string)
| JArray (items : list json)
| JObject (entries : list (string * json)).

(** ** Stateful computations

    [M S A] is a computation over the shared state [S] that either panics or
    returns a value and the next state.  An [await] point at which other tasks
    may run is a computation of [M] like any other: whatever they do to the
    shared state is part of its effect. *)
Definition M (S A : Type) : Type := S -> outcome (A * S).
#[export] Instance M_ret S : MRet (M S) := fun A a s => Ret (a, s).
#[export] Instance M_bind S : MBind (M S) := fun A B f m s =>
  match m s with
  | Ret (a, s') => f a s'
  | Panic w => Panic w
  end.

Definition lift_outcome {S A} (o : outcome A) : M S A := fun s => a ← o; Ret (a, s).

Lemma M_bind_ret {S A B} (f : A -> M S B) (m : M S A) s a s' :
  m s = Ret (a, s') -> (m ≫= f) s = f a s'.
Proof. intros H. unfold mbind, M_bind. by rewrite H. Qed.

Lemma M_bind_inv {S A B} (f : A -> M S B) (m : M S A) s r :
  (m ≫= f) s = Ret r -> exists a s', m s = Ret (a, s') /\ f a s' = Ret r.
Proof. unfold mbind, M_bind. destruct (m s) as [[a s']|w]; [eauto|discriminate]. Qed.

(** A computation that leaves an observation of the state unchanged. *)
Definition preserves {S X A} (obs : S -> X) (m : M S A) : Prop :=
  forall s a s', m s = Ret (a, s') -> obs s' = obs s.

Lemma preserves_ret {S X A} (obs : S -> X) (a : A) : preserves obs (mret a : M S A).
Proof. intros s b s' [= _ ->]. done. Qed.
Lemma preserves_bind {S X A B} (obs : S -> X) (m : M S A) (f : A -> M S B) :
  preserves obs m -> (forall a, preserves obs (f a)) -> preserves obs (m ≫= f).
Proof.
  intros Hm Hf s b s' (a & s1 & H1 & H2)%M_bind_inv. rewrite (Hf _ _ _ _ H2). by eapply Hm.
Qed.

(** ** Proof automation *)

Create HintDb rinfra discriminated.

#[export] Hint Resolve preserves_ret preserves_bind : rinfra.
#[export] Hint Unfold in_u32 in_u64 in_i64 : rinfra.

(** Case analysis on every [match]/[if] of the goal or of a hypothesis, with
    the equations kept, then the easy contradictions. *)
Ltac cases :=
  repeat match goal with
    | |- context [match ?x with _ => _ end] => destruct x eqn:?; simplify_eq/=
    end.
Ltac cases_in H :=
  repeat match type of H with
    | context [match ?x with _ => _ end] => destruct x eqn:?; simplify_eq/=
    end.
(** Boolean comparisons to propositions, then linear arithmetic. *)
Ltac bools :=
  repeat match goal with
    | H : (_ && _)%bool = true |- _ => apply andb_true_iff in H as [? ?]
    | H : (_ && _)%bool = false |- _ => apply andb_false_iff in H
    | H : (_ <=? _) = true |- _ => apply Z.leb_le in H
    | H : (_ <=? _) = false |- _ => apply Z.leb_gt in H
    | H : (_ <? _) = true |- _ => apply Z.ltb_lt in H
    | H : (_ <? _) = false |- _ => apply Z.ltb_ge in H
    | H : (_ =? _) = true |- _ => apply Z.eqb_eq in H
    | H : (_ =? _) = false |- _ => apply Z.eqb_neq in H
    end.
Ltac arith := bools; unfold in_u32, in_u64, in_i64, u32_max, u64_max, i64_max, i64_min in *; lia.

Lemma checked_ret hi r w : 0 <= r <= hi -> checked hi r w = Ret r.
Proof. intros H. unfold checked. cases; bools; [done|lia]. Qed.
Lemma u32_add_ret a b : 0 <= a + b <= u32_max -> u32_add a b = Ret (a + b).
Proof. apply checked_ret. Qed.
Lemma u64_add_ret a b : 0 <= a + b <= u64_max -> u64_add a b = Ret (a + b).
Proof. apply checked_ret. Qed.
Lemma u64_mul_ret a b : 0 <= a * b <= u64_max -> u64_mul a b = Ret (a * b).
Proof. apply checked_ret. Qed.

(** ** Lists updated by index *)

Lemma list_alter_Some {A} (f : A -> A) i (l : list A) x :
  l !! i = Some x -> alter f i l = <[i := f x]> l.
Proof.
  revert i. induction l as [|y l IH]; intros [|i] H; simplify_eq/=; [done|].
  f_equal. by apply IH.
Qed.

Lemma list_alter_None {A} (f : A -> A) i (l : list A) : l !! i = None -> alter f i l = l.
Proof.
  revert i. induction l as [|y l IH]; intros [|i] H; simplify_eq/=; [done..|].
  f_equal. by apply IH.
Qed.

Lemma forallb_Forall {A} (f : A -> bool) l : forallb f l = true <-> Forall (fun x => f x = true) l.
Proof. by rewrite List.forallb_forall, List.Forall_forall. Qed.

Lemma map_reverse {A B} (f : A -> B) l : map f (reverse l) = reverse (map f l).
Proof.
  induction l as [|x l IH]; [done|]. rewrite reverse_cons, map_app, IH. simpl.
  by rewrite reverse_cons.
Qed.

(** The number of elements satisfying a boolean predicate. *)
Definition count {A} (p : A -> bool) (l : list A) : nat := length (filter (fun x => p x = true) l).

Lemma count_app {A} (p : A -> bool) l1 l2 : count p (l1 ++ l2) = (count p l1 + count p l2)%nat.
Proof. unfold count. by rewrite filter_app, length_app. Qed.
Lemma count_cons {A} (p : A -> bool) x l : count p (x :: l) = (Nat.b2n (p x) + count p l)%nat.
Proof. unfold count. rewrite filter_cons. by destruct (p x). Qed.
Lemma count_nil {A} (p : A -> bool) : count p [] = 0%nat.
Proof. done. Qed.
Lemma count_insert {A} (p : A -> bool) i x y l :
  l !! i = Some x -> (count p (<[i := y]> l) + Nat.b2n (p x) = count p l + Nat.b2n (p y))%nat.
Proof.
  revert i. induction l as [|z l IH]; intros [|i] H; simplify_eq/=; rewrite !count_cons; [lia|].
  specialize (IH _ H). lia.
Qed.
