(* ===== verification/Errors.v ===== *)
(** Error codes, application errors and the HTTP response envelope:
    [rinfra-core/src/error/{code,mod}.rs], [rinfra-core/src/response/mod.rs]. *)

From S2P Require Import Prelude.

(** ** [enum ErrorCode] *)
Inductive error_code : Type :=
| PluginAlreadyRegistered
| PluginNotFound
| PluginInitFailed
| PluginShutdownFailed
| PluginShutdownTimeout
| EventSendFailed
| CodecEncodeFailed
| CodecDecodeFailed
| CodecNotFound
| ConfigFileMissing
| ConfigParseFailed
| ConfigValidationFailed
| LogInitFailed
| ServerBindFailed
| ServerStartFailed
| StoreConnectionFailed
| StoreQueryFailed
| StoreMigrationFailed
| StoreNotFound
| CacheGetFailed
| CacheSetFailed
| CacheDeleteFailed
| CacheConnectionFailed
| RateLimitExceeded
| CryptoEncryptFailed
| CryptoDecryptFailed
| CryptoKeyNotFound
| MqPublishFailed
| MqSubscribeFailed
| WsUpgradeFailed
| WsSendFailed
| RpcServerFailed
| RpcServiceError
| ScriptExecFailed
| ScriptLoadFailed
| ScriptTimeout
| ClusterNodeNotFound
| ClusterRegisterFailed
| ClusterMainUnreachable
| ClusterHeartbeatFailed
| ClusterAuthFailed
| AuthTokenMissing
| AuthTokenInvalid
| AuthTokenExpired
| TimerScheduleFailed
| TimerTaskNotFound
| TimerInvalidSchedule
| FileNotFound
| FileReadFailed
| FileWriteFailed
| FileDeleteFailed
| HttpRequestFailed
| HttpTimeout
| LockAcquireFailed
| LockConflict
| ConfigReloadFailed
| CircuitBreakerOpen
| AuditLogFailed
| I18nLoadFailed
| Internal
| InvalidArgument.

#[export] Instance error_code_eq_dec : EqDecision error_code.
Proof. solve_decision. Defined.

(** [ErrorCode::as_str] *)
Definition as_str (c : error_code) : string :=
  match c with
  | PluginAlreadyRegistered => "PLUGIN_ALREADY_REGISTERED"
  | PluginNotFound => "PLUGIN_NOT_FOUND"
  | PluginInitFailed => "PLUGIN_INIT_FAILED"
  | PluginShutdownFailed => "PLUGIN_SHUTDOWN_FAILED"
  | PluginShutdownTimeout => "PLUGIN_SHUTDOWN_TIMEOUT"
  | EventSendFailed => "EVENT_SEND_FAILED"
  | CodecEncodeFailed => "CODEC_ENCODE_FAILED"
  | CodecDecodeFailed => "CODEC_DECODE_FAILED"
  | CodecNotFound => "CODEC_NOT_FOUND"
  | ConfigFileMissing => "CONFIG_FILE_MISSING"
  | ConfigParseFailed => "CONFIG_PARSE_FAILED"
  | ConfigValidationFailed => "CONFIG_VALIDATION_FAILED"
  | LogInitFailed => "LOG_INIT_FAILED"
  | ServerBindFailed => "SERVER_BIND_FAILED"
  | ServerStartFailed => "SERVER_START_FAILED"
  | StoreConnectionFailed => "STORE_CONNECTION_FAILED"
  | StoreQueryFailed => "STORE_QUERY_FAILED"
  | StoreMigrationFailed => "STORE_MIGRATION_FAILED"
  | StoreNotFound => "STORE_NOT_FOUND"
  | CacheGetFailed => "CACHE_GET_FAILED"
  | CacheSetFailed => "CACHE_SET_FAILED"
  | CacheDeleteFailed => "CACHE_DELETE_FAILED"
  | CacheConnectionFailed => "CACHE_CONNECTION_FAILED"
  | RateLimitExceeded => "RATE_LIMIT_EXCEEDED"
  | CryptoEncryptFailed => "CRYPTO_ENCRYPT_FAILED"
  | CryptoDecryptFailed => "CRYPTO_DECRYPT_FAILED"
  | CryptoKeyNotFound => "CRYPTO_KEY_NOT_FOUND"
  | MqPublishFailed => "MQ_PUBLISH_FAILED"
  | MqSubscribeFailed => "MQ_SUBSCRIBE_FAILED"
  | WsUpgradeFailed => "WS_UPGRADE_FAILED"
  | WsSendFailed => "WS_SEND_FAILED"
  | RpcServerFailed => "RPC_SERVER_FAILED"
  | RpcServiceError => "RPC_SERVICE_ERROR"
  | ScriptExecFailed => "SCRIPT_EXEC_FAILED"
  | ScriptLoadFailed => "SCRIPT_LOAD_FAILED"
  | ScriptTimeout => "SCRIPT_TIMEOUT"
  | ClusterNodeNotFound => "CLUSTER_NODE_NOT_FOUND"
  | ClusterRegisterFailed => "CLUSTER_REGISTER_FAILED"
  | ClusterMainUnreachable => "CLUSTER_MAIN_UNREACHABLE"
  | ClusterHeartbeatFailed => "CLUSTER_HEARTBEAT_FAILED"
  | ClusterAuthFailed => "CLUSTER_AUTH_FAILED"
  | AuthTokenMissing => "AUTH_TOKEN_MISSING"
  | AuthTokenInvalid => "AUTH_TOKEN_INVALID"
  | AuthTokenExpired => "AUTH_TOKEN_EXPIRED"
  | TimerScheduleFailed => "TIMER_SCHEDULE_FAILED"
  | TimerTaskNotFound => "TIMER_TASK_NOT_FOUND"
  | TimerInvalidSchedule => "TIMER_INVALID_SCHEDULE"
  | FileNotFound => "FILE_NOT_FOUND"
  | FileReadFailed => "FILE_READ_FAILED"
  | FileWriteFailed => "FILE_WRITE_FAILED"
  | FileDeleteFailed => "FILE_DELETE_FAILED"
  | HttpRequestFailed => "HTTP_REQUEST_FAILED"
  | HttpTimeout => "HTTP_TIMEOUT"
  | LockAcquireFailed => "LOCK_ACQUIRE_FAILED"
  | LockConflict => "LOCK_CONFLICT"
  | ConfigReloadFailed => "CONFIG_RELOAD_FAILED"
  | CircuitBreakerOpen => "CIRCUIT_BREAKER_OPEN"
  | AuditLogFailed => "AUDIT_LOG_FAILED"
  | I18nLoadFailed => "I18N_LOAD_FAILED"
  | Internal => "INTERNAL"
  | InvalidArgument => "INVALID_ARGUMENT"
  end.

(** [ErrorCode::http_status] *)
Definition http_status (c : error_code) : Z :=
  match c with
  | PluginAlreadyRegistered => 409
  | PluginNotFound => 404
  | PluginInitFailed => 500
  | PluginShutdownFailed => 500
  | PluginShutdownTimeout => 504
  | EventSendFailed => 500
  | CodecEncodeFailed => 500
  | CodecDecodeFailed => 400
  | CodecNotFound => 404
  | ConfigFileMissing => 404
  | ConfigParseFailed => 400
  | ConfigValidationFailed => 400
  | LogInitFailed => 500
  | ServerBindFailed => 500
  | ServerStartFailed => 500
  | StoreConnectionFailed => 500
  | StoreQueryFailed => 500
  | StoreMigrationFailed => 500
  | StoreNotFound => 404
  | CacheGetFailed => 500
  | CacheSetFailed => 500
  | CacheDeleteFailed => 500
  | CacheConnectionFailed => 500
  | RateLimitExceeded => 429
  | CryptoEncryptFailed => 500
  | CryptoDecryptFailed => 500
  | CryptoKeyNotFound => 404
  | MqPublishFailed => 500
  | MqSubscribeFailed => 500
  | WsUpgradeFailed => 400
  | WsSendFailed => 500
  | RpcServerFailed => 500
  | RpcServiceError => 500
  | ScriptExecFailed => 500
  | ScriptLoadFailed => 400
  | ScriptTimeout => 504
  | ClusterNodeNotFound => 404
  | ClusterRegisterFailed => 500
  | ClusterMainUnreachable => 503
  | ClusterHeartbeatFailed => 500
  | ClusterAuthFailed => 401
  | AuthTokenMissing => 401
  | AuthTokenInvalid => 401
  | AuthTokenExpired => 401
  | TimerScheduleFailed => 500
  | TimerTaskNotFound => 404
  | TimerInvalidSchedule => 400
  | FileNotFound => 404
  | FileReadFailed => 500
  | FileWriteFailed => 500
  | FileDeleteFailed => 500
  | HttpRequestFailed => 502
  | HttpTimeout => 504
  | LockAcquireFailed => 500
  | LockConflict => 409
  | ConfigReloadFailed => 500
  | CircuitBreakerOpen => 503
  | AuditLogFailed => 500
  | I18nLoadFailed => 500
  | Internal => 500
  | InvalidArgument => 400
  end.

(** [ErrorCode::i18n_key] *)
Definition i18n_key (c : error_code) : string := "error." +:+ to_lowercase (as_str c).

(** ** [struct AppError]

    [source] is the boxed cause; only its presence and text matter here. *)
Record app_error : Type := AppError {
  err_code : error_code;
  err_message : string;
  err_source : option string;
}.

#[export] Instance app_error_eq_dec : EqDecision app_error.
Proof. solve_decision. Defined.

(** [AppError::new], [AppError::with_source], [Display for AppError]. *)
Definition new_error (c : error_code) (message : string) : app_error :=
  AppError c message None.
Definition with_source (c : error_code) (message source : string) : app_error :=
  AppError c message (Some source).
Definition error_to_string (e : app_error) : string :=
  "[" +:+ as_str (err_code e) +:+ "] " +:+ err_message e.

(** Fallible operations of the program. *)
Abbreviation Result := (result app_error).
Definition fail {A} (c : error_code) (message : string) : Result A := Err (new_error c message).

(** ** [struct ApiResponse<T>] *)
Record api_response (T : Type) : Type := ApiResponse {
  resp_code : string;
  resp_data : option T;
  resp_message : string;
}.
Arguments ApiResponse {T} resp_code resp_data resp_message.
Arguments resp_code {T}.
Arguments resp_data {T}.
Arguments resp_message {T}.

Definition response_success {T} (data : T) : api_response T := ApiResponse "OK" (Some data) "ok".
Definition response_success_with_message {T} (data : T) (message : string) : api_response T :=
  ApiResponse "OK" (Some data) message.
Definition response_error (e : app_error) : api_response unit :=
  ApiResponse (as_str (err_code e)) None (err_message e).
Definition from_error_code (c : error_code) (message : string) : api_response unit :=
  ApiResponse (as_str c) None message.
(** [ApiResponse::error_i18n]: [t] is the translation function of an [I18n]. *)
Definition error_i18n (t : string -> string -> string) (e : app_error) (locale : string) :
    api_response unit :=
  let key := i18n_key (err_code e) in
  let translated := t key locale in
  let message := if decide (translated = key) then err_message e else translated in
  ApiResponse (as_str (err_code e)) None message.

(** ** The table of codes is a faithful, invertible encoding *)

(** Every error code, in declaration order. *)
Definition all_error_codes : list error_code :=
  [PluginAlreadyRegistered; PluginNotFound; PluginInitFailed; PluginShutdownFailed; PluginShutdownTimeout; EventSendFailed; CodecEncodeFailed; CodecDecodeFailed; CodecNotFound; ConfigFileMissing; ConfigParseFailed; ConfigValidationFailed; LogInitFailed; ServerBindFailed; ServerStartFailed; StoreConnectionFailed; StoreQueryFailed; StoreMigrationFailed; StoreNotFound; CacheGetFailed; CacheSetFailed; CacheDeleteFailed; CacheConnectionFailed; RateLimitExceeded; CryptoEncryptFailed; CryptoDecryptFailed; CryptoKeyNotFound; MqPublishFailed; MqSubscribeFailed; WsUpgradeFailed; WsSendFailed; RpcServerFailed; RpcServiceError; ScriptExecFailed; ScriptLoadFailed; ScriptTimeout; ClusterNodeNotFound; ClusterRegisterFailed; ClusterMainUnreachable; ClusterHeartbeatFailed; ClusterAuthFailed; AuthTokenMissing; AuthTokenInvalid; AuthTokenExpired; TimerScheduleFailed; TimerTaskNotFound; TimerInvalidSchedule; FileNotFound; FileReadFailed; FileWriteFailed; FileDeleteFailed; HttpRequestFailed; HttpTimeout; LockAcquireFailed; LockConflict; ConfigReloadFailed; CircuitBreakerOpen; AuditLogFailed; I18nLoadFailed; Internal; InvalidArgument].

(** The code a wire string denotes, by search in the table. *)
Definition code_of_str (s : string) : option error_code :=
  snd <$> list_find (fun c => as_str c = s) all_error_codes.

Lemma code_of_str_as_str c : code_of_str (as_str c) = Some c.
Proof. destruct c; vm_compute; reflexivity. Qed.

Lemma all_error_codes_complete c : c ∈ all_error_codes.
Proof.
  pose proof (code_of_str_as_str c) as H. unfold code_of_str in H.
  apply fmap_Some in H as ([i c'] & Hf & ->).
  apply list_find_Some in Hf as (Hl & _). by eapply list_elem_of_lookup_2.
Qed.

Lemma as_str_inj c1 c2 : as_str c1 = as_str c2 -> c1 = c2.
Proof.
  intros H. apply (inj Some). by rewrite <-!code_of_str_as_str, H.
Qed.

(** The lower-case table, searched the same way. *)
Definition code_of_i18n_key (s : string) : option error_code :=
  snd <$> list_find (fun c => i18n_key c = s) all_error_codes.

Lemma code_of_i18n_key_i18n_key c : code_of_i18n_key (i18n_key c) = Some c.
Proof. destruct c; vm_compute; reflexivity. Qed.

Lemma i18n_key_inj c1 c2 : i18n_key c1 = i18n_key c2 -> c1 = c2.
Proof.
  intros H. apply (inj Some). by rewrite <-!code_of_i18n_key_i18n_key, H.
Qed.

Lemma http_status_is_error c : 400 <= http_status c <= 599.
Proof. destruct c; vm_compute; split; discriminate. Qed.

#[export] Hint Resolve http_status_is_error : rinfra.
