(* ===== verification/Resilience.v ===== *)
(** Circuit breaker and retry policy ([rinfra-core/src/resilience]) with their
    asynchronous wrappers ([rinfra-plugins/src/resilience/mod.rs]). *)

From S2P Require Import Prelude Errors.

(** * The circuit breaker *)
Module CircuitBreaker.

(** [enum CircuitState] *)
Inductive circuit_state : Type := Closed | Open | HalfOpen.
#[export] Instance circuit_state_eq_dec : EqDecision circuit_state.
Proof. solve_decision. Defined.

(** [struct CircuitBreakerConfig] and its [Default]. *)
Record config : Type := Config {
  failure_threshold : Z;   (* u32 *)
  success_threshold : Z;   (* u32 *)
  open_duration_secs : Z;  (* u64 *)
}.
Definition default_config : config := Config 5 2 30.

(** [struct InternalState], the value under the breaker's mutex. *)
Record internal_state : Type := InternalState {
  status : circuit_state;
  failure_count : Z;             (* u32 *)
  success_count : Z;             (* u32 *)
  last_failure_at : option Z;    (* Option<Instant> *)
}.
#[export] Instance internal_state_eq_dec : EqDecision internal_state.
Proof. solve_decision. Defined.

(** [CircuitBreaker::new] *)
Definition new : internal_state := InternalState Closed 0 0 None.

(** [maybe_transition_half_open]: the lazy Open -> HalfOpen transition. *)
Definition maybe_transition_half_open (cfg : config) (now : Z) (s : internal_state) :
    internal_state :=
  if decide (status s = Open) then
    match last_failure_at s with
    | Some last =>
        if open_duration_secs cfg <=? as_secs (duration_since now last)
        then InternalState HalfOpen (failure_count s) 0 (last_failure_at s)
        else s
    | None => s
    end
  else s.

(** [CircuitBreaker::state] *)
Definition state (cfg : config) (now : Z) (s : internal_state) : circuit_state * internal_state :=
  let s := maybe_transition_half_open cfg now s in (status s, s).

(** [CircuitBreaker::allow_request] *)
Definition allow_request (cfg : config) (now : Z) (s : internal_state) : bool * internal_state :=
  let s := maybe_transition_half_open cfg now s in
  (match status s with Closed => true | Open => false | HalfOpen => true end, s).

(** [CircuitBreaker::record_success] *)
Definition record_success (cfg : config) (s : internal_state) : outcome internal_state :=
  match status s with
  | Closed => Ret (InternalState Closed 0 (success_count s) (last_failure_at s))
  | HalfOpen =>
      n ← u32_add (success_count s) 1;
      if success_threshold cfg <=? n
      then Ret (InternalState Closed 0 0 None)
      else Ret (InternalState HalfOpen (failure_count s) n (last_failure_at s))
  | Open => Ret s
  end.

(** [CircuitBreaker::record_failure]; [now] is the [Instant::now()] it reads. *)
Definition record_failure (cfg : config) (now : Z) (s : internal_state) :
    outcome internal_state :=
  match status s with
  | Closed =>
      n ← u32_add (failure_count s) 1;
      if failure_threshold cfg <=? n
      then Ret (InternalState Open n 0 (Some now))
      else Ret (InternalState Closed n (success_count s) (Some now))
  | HalfOpen => Ret (InternalState Open (failure_count s) 0 (Some now))
  | Open => Ret (InternalState Open (failure_count s) (success_count s) (Some now))
  end.

(** [CircuitBreaker::reset] *)
Definition reset (s : internal_state) : internal_state := InternalState Closed 0 0 None.

(** The calls a program can make on a shared breaker, each with the instant
    at which it takes the mutex, and their execution in the order of the
    mutex. *)
Inductive call : Type :=
| CallState (now : Z)
| CallAllow (now : Z)
| CallSuccess
| CallFailure (now : Z)
| CallReset.

Definition run_call (cfg : config) (c : call) (s : internal_state) : outcome internal_state :=
  match c with
  | CallState now => Ret (snd (state cfg now s))
  | CallAllow now => Ret (snd (allow_request cfg now s))
  | CallSuccess => record_success cfg s
  | CallFailure now => record_failure cfg now s
  | CallReset => Ret (reset s)
  end.

Fixpoint run_calls (cfg : config) (cs : list call) (s : internal_state) :
    outcome internal_state :=
  match cs with
  | [] => Ret s
  | c :: cs => s ← run_call cfg c s; run_calls cfg cs s
  end.

(** ** Invariant *)

Definition config_ok (cfg : config) : Prop :=
  in_u32 (failure_threshold cfg) /\ in_u32 (success_threshold cfg) /\
  in_u64 (open_duration_secs cfg).

(** The counters stay below the thresholds that consume them (a threshold of
    zero acts as one), an idle counter is zero and an open breaker knows when
    it last failed. *)
Definition breaker_inv (cfg : config) (s : internal_state) : Prop :=
  0 <= failure_count s <= Z.max 1 (failure_threshold cfg) /\
  match status s with
  | Closed => failure_count s < Z.max 1 (failure_threshold cfg) /\ success_count s = 0
  | Open => success_count s = 0 /\ is_Some (last_failure_at s)
  | HalfOpen =>
      0 <= success_count s < Z.max 1 (success_threshold cfg) /\ is_Some (last_failure_at s)
  end.

Section proofs.
Context (cfg : config) (Hcfg : config_ok cfg).

Lemma u32_succ_ret n : 0 <= n < Z.max 1 (failure_threshold cfg) \/
    0 <= n < Z.max 1 (success_threshold cfg) -> u32_add n 1 = Ret (n + 1).
Proof. destruct Hcfg as (? & ? & ?). intros ?. apply u32_add_ret. arith. Qed.

Lemma maybe_inv now s : breaker_inv cfg s -> breaker_inv cfg (maybe_transition_half_open cfg now s).
Proof.
  unfold maybe_transition_half_open. intros Hs.
  destruct (decide _) as [e|]; [|done].
  destruct (last_failure_at s) eqn:El; [|done].
  destruct (_ <=? _); [|done].
  unfold breaker_inv in *; simpl. rewrite e in Hs. split; [tauto|]. split; [lia|eauto].
Qed.

Lemma record_success_inv s :
  breaker_inv cfg s -> exists s', record_success cfg s = Ret s' /\ breaker_inv cfg s'.
Proof.
  unfold breaker_inv, record_success. intros [Hf Hs].
  destruct (status s) eqn:Est.
  - eexists; split; [done|]. simpl. split; [lia|]. split; [lia|tauto].
  - eexists; split; [done|]. rewrite Est. tauto.
  - rewrite u32_succ_ret by (right; tauto). simpl.
    destruct (_ <=? _) eqn:E; eexists; (split; [done|]); simpl; bools;
      (split; [lia|]); [lia|]. split; [lia|tauto].
Qed.

Lemma record_failure_inv now s :
  breaker_inv cfg s -> exists s', record_failure cfg now s = Ret s' /\ breaker_inv cfg s'.
Proof.
  unfold breaker_inv, record_failure. intros [Hf Hs].
  destruct (status s) eqn:Est.
  - rewrite u32_succ_ret by (left; lia). simpl.
    destruct (_ <=? _) eqn:E; eexists; (split; [done|]); simpl; bools;
      (split; [lia|]); [by eauto|lia].
  - eexists; split; [done|]. simpl. split; [lia|]. split; [tauto|eauto].
  - eexists; split; [done|]. simpl. split; [lia|]. split; [lia|eauto].
Qed.

Lemma run_call_inv c s :
  breaker_inv cfg s -> exists s', run_call cfg c s = Ret s' /\ breaker_inv cfg s'.
Proof.
  intros Hs. destruct c; simpl.
  - eauto using maybe_inv.
  - eauto using maybe_inv.
  - by apply record_success_inv.
  - by apply record_failure_inv.
  - eexists; split; [done|]. unfold breaker_inv; simpl. lia.
Qed.

Lemma run_calls_inv cs s :
  breaker_inv cfg s -> exists s', run_calls cfg cs s = Ret s' /\ breaker_inv cfg s'.
Proof.
  revert s. induction cs as [|c cs IH]; intros s Hs; simpl; [eauto|].
  destruct (run_call_inv c s Hs) as (s' & -> & Hs'). simpl. by apply IH.
Qed.

Lemma new_inv : breaker_inv cfg new.
Proof. unfold breaker_inv; simpl. lia. Qed.
End proofs.
#[export] Hint Resolve new_inv maybe_inv : rinfra.

Lemma run_calls_app cfg cs1 cs2 s s' :
  run_calls cfg cs1 s = Ret s' -> run_calls cfg (cs1 ++ cs2) s = run_calls cfg cs2 s'.
Proof.
  revert s. induction cs1 as [|c cs1 IH]; intros s; simpl; [by intros [= ->]|].
  unfold mbind, outcome_bind. destruct (run_call cfg c s); [apply IH|done].
Qed.

(** ** Behaviour *)

(** [n] failures in a row, at the given instants, from a closed breaker. *)
Lemma failures_closed cfg ts s :
  config_ok cfg -> status s = Closed -> 0 <= failure_count s ->
  failure_count s + Z.of_nat (length ts) < failure_threshold cfg ->
  exists last, run_calls cfg (CallFailure <$> ts) s =
    Ret (InternalState Closed (failure_count s + Z.of_nat (length ts)) (success_count s) last).
Proof.
  intros Hc. revert s. induction ts as [|t ts IH]; intros [st fc sc lf] Hst H0 Hlt; simpl in *; subst.
  - exists lf. by rewrite Z.add_0_r.
  - unfold record_failure; simpl. destruct Hc as (? & ? & ?).
    rewrite u32_add_ret by arith. simpl. cases; bools; [lia|].
    destruct (IH (InternalState Closed (fc + 1) sc (Some t))) as [l Hl]; simpl in *; try lia; [done|].
    exists l. rewrite Hl. do 2 f_equal. lia.
Qed.

(** Failures keep an open breaker open and trip a closed one at the
    threshold. *)
Lemma failures_keep_open cfg ts s s' :
  status s = Open -> run_calls cfg (CallFailure <$> ts) s = Ret s' -> status s' = Open.
Proof.
  revert s. induction ts as [|t ts IH]; intros s Hst; simpl; [by intros [= <-]|].
  unfold record_failure. rewrite Hst. simpl. by apply IH.
Qed.

Lemma failures_trip cfg ts s s' :
  status s = Closed -> (0 < length ts)%nat ->
  failure_threshold cfg <= failure_count s + Z.of_nat (length ts) ->
  run_calls cfg (CallFailure <$> ts) s = Ret s' -> status s' = Open.
Proof.
  revert s. induction ts as [|t ts IH]; intros s Hst Hpos Hlen; simpl; [simpl in Hpos; lia|].
  unfold record_failure. rewrite Hst. unfold u32_add, checked.
  destruct ((0 <=? failure_count s + 1) && (failure_count s + 1 <=? u32_max)); [|done].
  simpl in *. destruct (failure_threshold cfg <=? failure_count s + 1) eqn:E; simpl.
  - by apply failures_keep_open.
  - bools. destruct ts as [|t' ts]; [simpl in *; lia|]. apply IH; simpl in *; [done|lia|lia].
Qed.

(** An open breaker stays open, and rejects, as long as every clock reading
    is within the open period that follows the last recorded failure. *)
Definition within (cfg : config) (last now : Z) : Prop :=
  as_secs (duration_since now last) < open_duration_secs cfg.

(** The calls other than [reset] that keep an open breaker open, [last] being
    the failure it counts from: state queries and request checks within the
    open period of the latest failure, successes at any time, and late
    failures, each of which starts the open period afresh. *)
Fixpoint held (cfg : config) (last : Z) (cs : list call) : Prop :=
  match cs with
  | [] => True
  | (CallState now | CallAllow now) :: cs => within cfg last now /\ held cfg last cs
  | CallSuccess :: cs => held cfg last cs
  | CallFailure t :: cs => held cfg t cs
  | CallReset :: _ => False
  end.

(** The latest failure recorded by [cs], [last] being the one before it. *)
Fixpoint latest (last : Z) (cs : list call) : Z :=
  match cs with
  | [] => last
  | CallFailure t :: cs => latest t cs
  | _ :: cs => latest last cs
  end.

Lemma maybe_open_within cfg now s last :
  status s = Open -> last_failure_at s = Some last -> within cfg last now ->
  maybe_transition_half_open cfg now s = s.
Proof.
  unfold maybe_transition_half_open, within. intros Hst -> Hw. rewrite decide_True by done.
  cases; bools; [lia|done].
Qed.

Lemma maybe_open_elapsed cfg now s last :
  status s = Open -> last_failure_at s = Some last -> ~ within cfg last now ->
  maybe_transition_half_open cfg now s =
    InternalState HalfOpen (failure_count s) 0 (Some last).
Proof.
  unfold maybe_transition_half_open, within. intros Hst Hl Hw. rewrite Hl, decide_True by done.
  cases; bools; [done|lia].
Qed.

Lemma held_calls_keep_open cfg cs fc sc last :
  held cfg last cs ->
  run_calls cfg cs (InternalState Open fc sc (Some last)) =
    Ret (InternalState Open fc sc (Some (latest last cs))).
Proof.
  revert last. induction cs as [|c cs IH]; intros last H; simpl; [done|].
  destruct c; simpl in *; try done; [| |by apply IH|by apply IH];
    destruct H as [Hw H]; rewrite (maybe_open_within _ _ _ last) by done; by apply IH.
Qed.

(** [n] successes in a row from a half-open breaker below its threshold. *)
Lemma successes_half_open cfg n s :
  config_ok cfg -> status s = HalfOpen -> 0 <= success_count s ->
  success_count s + Z.of_nat n < success_threshold cfg ->
  run_calls cfg (replicate n CallSuccess) s =
    Ret (InternalState HalfOpen (failure_count s) (success_count s + Z.of_nat n)
           (last_failure_at s)).
Proof.
  intros Hc. revert s. induction n as [|n IH]; intros [st fc sc lf] Hst H0 Hlt; simpl in *; subst.
  - by rewrite Z.add_0_r.
  - unfold record_success; simpl. destruct Hc as (? & ? & ?).
    rewrite u32_add_ret by arith. simpl. cases; bools; [lia|].
    rewrite IH; simpl; [|done|lia|lia]. do 2 f_equal. lia.
Qed.

(** C1: whatever calls a program makes on a breaker, in whatever order and at
    whatever instants, none of the [u32] counters overflows, and the counters
    stay below the thresholds that consume them. *)
Theorem breaker_never_overflows (cfg : config) (cs : list call) :
  config_ok cfg ->
  exists s, run_calls cfg cs new = Ret s /\ breaker_inv cfg s.
Proof. intros H. apply run_calls_inv; auto with rinfra. Qed.

Lemma breaker_never_overflows_witness :
  config_ok default_config /\
  exists s, run_calls default_config [CallFailure 0; CallAllow 5; CallReset] new = Ret s /\
    breaker_inv default_config s.
Proof.
  assert (H : config_ok default_config) by (repeat split; vm_compute; discriminate).
  split; [exact H|]. apply (breaker_never_overflows default_config _ H).
Defined.

(** C3: the breaker trips on exactly the [failure_threshold]-th consecutive
    failure, not before; once open, and unless the program calls [reset], it
    rejects every request until [open_duration_secs] whole seconds have passed
    since the latest failure: state queries, request checks, late successes
    and late failures, in any order, do not open it to requests before, and a
    late failure only moves the instant the period counts from.  [reset]
    closes it at once, and the next request is let through. *)
Theorem breaker_trips_and_rejects (cfg : config) (ts : list Z) (t now : Z) (cs : list call) :
  config_ok cfg ->
  Z.of_nat (length ts) + 1 = failure_threshold cfg ->
  held cfg t cs -> within cfg (latest t cs) now ->
  (exists s0, run_calls cfg (CallFailure <$> ts) new = Ret s0 /\ status s0 = Closed) /\
  exists s1, run_calls cfg ((CallFailure <$> ts) ++ CallFailure t :: cs) new = Ret s1 /\
    status s1 = Open /\ last_failure_at s1 = Some (latest t cs) /\
    allow_request cfg now s1 = (false, s1) /\
    forall now', run_call cfg CallReset s1 = Ret new /\ fst (allow_request cfg now' new) = true.
Proof.
  intros Hc Hlen Hq Hw.
  destruct (failures_closed cfg ts new Hc) as [l Hl]; simpl; [done|lia|lia|].
  split; [by eexists|]. rewrite (run_calls_app _ _ _ _ _ Hl). simpl.
  unfold record_failure; simpl. destruct Hc as (? & ? & ?).
  rewrite u32_add_ret by arith. simpl. cases; bools; [|lia].
  rewrite held_calls_keep_open by done.
  eexists; split; [done|]. split; [done|]. split; [done|]. split; [|done].
  unfold allow_request. by rewrite (maybe_open_within _ _ _ (latest t cs)).
Qed.

Lemma breaker_trips_and_rejects_witness :
  let cs := [CallSuccess; CallAllow 30000000009; CallFailure 30000000009; CallState 60000000008] in
  held default_config 10 cs /\ latest 10 cs = 30000000009 /\
  exists s1, run_calls default_config ((CallFailure <$> [1; 2; 3; 4]) ++ CallFailure 10 :: cs) new = Ret s1 /\
    status s1 = Open /\ allow_request default_config 60000000008 s1 = (false, s1).
Proof.
  intros cs. assert (Hq : held default_config 10 cs) by (repeat split; vm_compute; reflexivity).
  split; [exact Hq|]. split; [reflexivity|].
  destruct (breaker_trips_and_rejects default_config [1; 2; 3; 4] 10 60000000008 cs)
    as [_ (s1 & H1 & H2 & _ & H3 & _)].
  - repeat split; vm_compute; discriminate.
  - reflexivity.
  - exact Hq.
  - vm_compute; reflexivity.
  - by exists s1.
Defined.

(** C11: an open breaker recovers: the first request check after the open
    period is let through, [success_threshold] successes then close the
    breaker and clear its counters, and a single failure before that opens
    it again. *)
Theorem breaker_recovers (cfg : config) (s : internal_state) (last now t : Z) (n : nat) :
  config_ok cfg -> status s = Open -> last_failure_at s = Some last ->
  ~ within cfg last now -> Z.of_nat n + 1 = success_threshold cfg ->
  fst (allow_request cfg now s) = true /\
  run_calls cfg (CallAllow now :: replicate (n + 1) CallSuccess) s = Ret new /\
  exists s', run_calls cfg (CallAllow now :: replicate n CallSuccess ++ [CallFailure t]) s = Ret s' /\
    status s' = Open /\ last_failure_at s' = Some t.
Proof.
  intros Hc Hst Hl Hw Hn. simpl. unfold allow_request.
  rewrite (maybe_open_elapsed _ _ _ last) by done. split; [done|]. simpl.
  rewrite replicate_add.
  pose proof (successes_half_open cfg n
    (InternalState HalfOpen (failure_count s) 0 (Some last)) Hc) as Hrun; simpl in Hrun.
  rewrite !(run_calls_app _ _ _ _ _ (Hrun eq_refl ltac:(lia) ltac:(lia))). simpl.
  unfold record_success; simpl. destruct Hc as (? & ? & ?).
  rewrite u32_add_ret by arith. simpl. cases; bools; [|lia].
  split; [done|]. eexists; split; [done|]. done.
Qed.

Lemma breaker_recovers_witness :
  run_calls default_config (CallAllow 30000000000 :: replicate (1 + 1) CallSuccess)
    (InternalState Open 5 0 (Some 0)) = Ret new.
Proof.
  apply (breaker_recovers default_config (InternalState Open 5 0 (Some 0)) 0 30000000000 7 1).
  - repeat split; vm_compute; discriminate.
  - reflexivity.
  - reflexivity.
  - vm_compute. discriminate.
  - reflexivity.
Defined.

End CircuitBreaker.

(** * The retry policy *)
Module Retry.

(** [enum RetryStrategy], [struct RetryPolicy], its [Default] and constructors. *)
Inductive strategy : Type :=
| Fixed (delay_ms : Z)
| Exponential (base_ms max_ms : Z).
Record policy : Type := Policy { max_attempts : Z; strat : strategy }.

Definition default_policy : policy := Policy 3 (Exponential 200 5000).
Definition fixed (attempts delay_ms : Z) : policy := Policy attempts (Fixed delay_ms).
Definition exponential (attempts base_ms max_ms : Z) : policy :=
  Policy attempts (Exponential base_ms max_ms).

(** [u64::checked_shl] *)
Definition u64_checked_shl (x n : Z) : option Z :=
  if n <? 64 then Some (Z.shiftl x n mod 2 ^ 64) else None.

(** [RetryPolicy::delay_for_attempt], a [Duration]. *)
Definition delay_for_attempt (p : policy) (attempt : Z) : Z :=
  match strat p with
  | Fixed delay_ms => from_millis delay_ms
  | Exponential base_ms max_ms =>
      let multiplier := default u64_max (u64_checked_shl 1 attempt) in
      let delay := u64_saturating_mul base_ms multiplier in
      from_millis (Z.min delay max_ms)
  end.

(** [RetryPolicy::exhausted] *)
Definition exhausted (p : policy) (attempt : Z) : bool := max_attempts p <=? attempt.

(** [with_retry]: the [for] loop over [1..=max_attempts].  [f] is one call of
    the closure with its future awaited; [sleep] is [tokio::time::sleep]. *)
Section with_retry.
Context {S A : Type} (sleep : Z -> S -> S).

Fixpoint retry_loop (p : policy) (f : M S (Result A)) (budget : nat) (attempt : Z)
    (last_err : option app_error) : M S (Result A) :=
  match budget with
  | O => mret (Err (default (new_error Internal "retry policy exhausted") last_err))
  | Datatypes.S budget =>
      r ← f;
      match r with
      | Ok v => mret (Ok v)
      | Err e =>
          if exhausted p attempt then mret (Err e)
          else
            _ ← (fun s => Ret (tt, sleep (delay_for_attempt p (attempt - 1)) s));
            retry_loop p f budget (attempt + 1) (Some e)
      end
  end.

Definition with_retry (p : policy) (f : M S (Result A)) : M S (Result A) :=
  retry_loop p f (Z.to_nat (max_attempts p)) 1 None.
End with_retry.

(** ** The back-off never overflows *)

Lemma shl_1 n : 0 <= n < 64 -> u64_checked_shl 1 n = Some (2 ^ n).
Proof.
  intros H. unfold u64_checked_shl. cases; bools; [|lia].
  rewrite Z.shiftl_1_l, Z.mod_small; [done|].
  split; [lia|]. apply Z.pow_lt_mono_r; lia.
Qed.

Lemma pow2_mono a b : 0 <= a <= b -> 2 ^ a <= 2 ^ b.
Proof. intros. apply Z.pow_le_mono_r; lia. Qed.

(** For every attempt number, including those past the width of the
    shift, the exponential delay is [min (base * 2^attempt) max]
    milliseconds: the checked shift and the saturating product lose nothing. *)
Theorem exponential_delay_exact (attempts base_ms max_ms attempt : Z) :
  in_u64 base_ms -> in_u64 max_ms -> in_u32 attempt ->
  delay_for_attempt (exponential attempts base_ms max_ms) attempt =
    from_millis (Z.min (base_ms * 2 ^ attempt) max_ms).
Proof.
  intros Hb Hm Ha. unfold delay_for_attempt, exponential, u64_saturating_mul. simpl. f_equal.
  destruct (decide (attempt < 64)) as [Hlt|Hge].
  - rewrite shl_1 by arith. simpl. unfold in_u64 in *. lia.
  - unfold u64_checked_shl. cases; bools; [lia|]. simpl.
    assert (2 ^ 64 <= 2 ^ attempt) by (apply pow2_mono; lia).
    unfold in_u64, u64_max in *. change (2 ^ 64) with 18446744073709551616 in *.
    destruct (decide (base_ms = 0)) as [->|]; [lia|]. nia.
Qed.

Lemma exponential_delay_exact_witness :
  in_u64 100 /\ delay_for_attempt (exponential 5 100 2000) 70 =
    from_millis (Z.min (100 * 2 ^ 70) 2000).
Proof.
  split; [split; vm_compute; discriminate|].
  apply (exponential_delay_exact 5 100 2000 70); split; vm_compute; discriminate.
Defined.

(** ** The loop against its reference *)

(** A closure whose [k]-th call resolves to [script k]; the state counts the
    calls and records the sleeps. *)
Section scripted.
Context {A : Type} (script : nat -> Result A).

Definition scripted_state : Type := nat * list Z.
Definition scripted_call : M scripted_state (Result A) :=
  fun '(k, slept) => Ret (script k, (Datatypes.S k, slept)).
Definition scripted_sleep (d : Z) (s : scripted_state) : scripted_state :=
  (s.1, s.2 ++ [d]).

(** The number of attempts a budget of [n] pays for, from call [k] on: up
    to and including the first success. *)
Fixpoint attempts_made (k n : nat) : nat :=
  match n with
  | O => O
  | Datatypes.S n =>
      if is_ok (script k) then 1%nat else Datatypes.S (attempts_made (Datatypes.S k) n)
  end.

Lemma attempts_made_pos k n : (0 < n)%nat -> (0 < attempts_made k n)%nat.
Proof. destruct n; simpl; [lia|]. destruct (is_ok _); lia. Qed.

Lemma retry_loop_scripted p n k slept last :
  (0 < n)%nat -> Z.of_nat (k + n) = max_attempts p ->
  retry_loop scripted_sleep p scripted_call n (Z.of_nat k + 1) last (k, slept) =
    let m := attempts_made k n in
    Ret (script (k + m - 1),
         ((k + m)%nat, slept ++ ((fun i => delay_for_attempt p (Z.of_nat i)) <$> seq k (m - 1)))).
Proof.
  revert k slept last. induction n as [|n IH]; intros k slept last Hpos Hmax; [lia|].
  cbn [retry_loop attempts_made]. unfold mbind at 1, M_bind at 1. simpl.
  destruct (script k) as [v|e] eqn:Ek; simpl.
  - replace (k + 1 - 1)%nat with k by lia. rewrite Ek, app_nil_r.
    by replace (k + 1)%nat with (Datatypes.S k) by lia.
  - unfold exhausted. destruct (_ <=? _) eqn:Eex; bools.
    + assert (n = 0%nat) as -> by lia. simpl. rewrite app_nil_r.
      replace (k + 1 - 1)%nat with k by lia. rewrite Ek.
      by replace (k + 1)%nat with (Datatypes.S k) by lia.
    + unfold mbind at 1, M_bind at 1. unfold scripted_sleep at 2; simpl.
      replace (Z.of_nat k + 1 + 1) with (Z.of_nat (Datatypes.S k) + 1) by lia.
      rewrite IH by lia. cbv zeta.
      pose proof (attempts_made_pos (Datatypes.S k) n ltac:(lia)) as Hm.
      set (m := attempts_made (Datatypes.S k) n) in *.
      replace (Datatypes.S k + m - 1)%nat with (k + Datatypes.S m - 1)%nat by lia.
      replace (Datatypes.S k + m)%nat with (k + Datatypes.S m)%nat by lia.
      replace (m - 0)%nat with (Datatypes.S (m - 1)) by lia.
      rewrite <-app_assoc. simpl.
      by replace (Z.of_nat k + 1 - 1) with (Z.of_nat k) by lia.
Qed.
End scripted.

(** C20: [with_retry] returns the first success among [max_attempts] calls, or
    else the last error; it makes exactly the calls up to that point and
    sleeps exactly the policy's delays between them, and a budget of zero
    makes no call at all. *)
Theorem with_retry_spec {A} (p : policy) (script : nat -> Result A) :
  in_u32 (max_attempts p) ->
  let m := attempts_made script 0 (Z.to_nat (max_attempts p)) in
  with_retry scripted_sleep p (scripted_call script) (0%nat, []) =
    Ret (if decide (max_attempts p = 0) then fail Internal "retry policy exhausted"
         else script (m - 1)%nat,
         (m, (fun i => delay_for_attempt p (Z.of_nat i)) <$> seq 0 (m - 1))).
Proof.
  intros Hp. simpl. unfold with_retry. destruct (decide _) as [H0|H0].
  - by rewrite H0.
  - destruct Hp as [Hp _].
    pose proof (retry_loop_scripted script p (Z.to_nat (max_attempts p)) 0 [] None) as H.
    change (Z.of_nat 0 + 1) with 1 in H. by rewrite H by lia.
Qed.

Lemma with_retry_spec_witness :
  let script := fun k => if decide (k < 2)%nat then fail Internal "boom" else Ok k in
  with_retry scripted_sleep (exponential 5 100 2000) (scripted_call script) (0%nat, []) =
    Ret (Ok 2%nat, (3%nat, [from_millis 100; from_millis 200])).
Proof.
  intros script. unfold script.
  refine (eq_trans (with_retry_spec (exponential 5 100 2000) script _) _).
  - split; vm_compute; discriminate.
  - vm_compute. reflexivity.
Defined.

End Retry.

(** * The asynchronous wrappers *)
Module Wrappers.
Import CircuitBreaker Retry.

Section wrappers.
(** [clock] is [Instant::now()]: the reading and the world after it. *)
Context {W A : Type} (clock : W -> Z * W) (sleep : Z -> W -> W).
Context (cfg : config) (name : string).

Definition St : Type := internal_state * W.

(** A breaker method that reads the clock. *)
Definition timed {B} (op : Z -> internal_state -> B * internal_state) : M St B :=
  fun '(s, w) => let '(now, w) := clock w in let '(b, s) := op now s in Ret (b, (s, w)).
Definition timed_failure : M St unit :=
  fun '(s, w) =>
    let '(now, w) := clock w in s' ← record_failure cfg now s; Ret (tt, (s', w)).
Definition untimed_success : M St unit :=
  fun '(s, w) => s' ← record_success cfg s; Ret (tt, (s', w)).

(** [with_circuit_breaker]: [f] is the operation awaited between the check
    and the bookkeeping; the breaker is shared, so [f] may change it too.
    [prev_state] and [new_state] feed a counter only, but reading them
    performs the lazy transition. *)
Definition with_circuit_breaker (f : M St (Result A)) : M St (Result A) :=
  allowed ← timed (allow_request cfg);
  if negb allowed then
    mret (fail CircuitBreakerOpen ("circuit breaker '" +:+ name +:+ "' is open"))
  else
    r ← f;
    match r with
    | Ok v => _ ← untimed_success; mret (Ok v)
    | Err e =>
        _ ← timed (state cfg);
        _ ← timed_failure;
        _ ← timed (state cfg);
        mret (Err e)
    end.

(** [with_retry_and_breaker]: each attempt first calls the closure, which
    makes the future [fut], and then awaits it under the breaker. *)
Definition with_retry_and_breaker (p : policy) (f : M St (M St (Result A))) :
    M St (Result A) :=
  with_retry (fun d '(s, w) => (s, sleep d w)) p (fut ← f; with_circuit_breaker fut).

Definition open_error : app_error :=
  new_error CircuitBreakerOpen ("circuit breaker '" +:+ name +:+ "' is open").

Lemma with_circuit_breaker_open f s w last :
  status s = Open -> last_failure_at s = Some last -> within cfg last (fst (clock w)) ->
  with_circuit_breaker f (s, w) = Ret (Err open_error, (s, snd (clock w))).
Proof.
  intros Hst Hl Hw. unfold with_circuit_breaker, mbind at 1, M_bind at 1, timed at 1.
  destruct (clock w) as [now w'] eqn:Ec; simpl in *. unfold allow_request.
  rewrite (maybe_open_within _ _ _ last) by done. by rewrite Hst.
Qed.

(** The retry loop around an open breaker, at any attempt. *)
Lemma retry_loop_open p (make : W -> M St (Result A) * W) s last n k lasterr w :
  status s = Open -> last_failure_at s = Some last ->
  (forall w, within cfg last (fst (clock w))) ->
  (0 < n)%nat -> k + Z.of_nat n = max_attempts p + 1 ->
  exists w', retry_loop (fun d '(s, w) => (s, sleep d w)) p
      (fut ← (fun '(s, w) => let '(fut, w) := make w in Ret (fut, (s, w)));
       with_circuit_breaker fut) n k lasterr (s, w) = Ret (Err open_error, (s, w')).
Proof.
  intros Hst Hl Hw. revert k lasterr w. induction n as [|n IH]; intros k lasterr w Hn Hm; [lia|].
  cbn [retry_loop]. unfold mbind at 1, M_bind at 1. unfold mbind at 1, M_bind at 1.
  destruct (make w) as [fut w1].
  rewrite (with_circuit_breaker_open _ _ _ last) by done.
  unfold exhausted. destruct (_ <=? _) eqn:E; bools; [by eexists|].
  unfold mbind at 1, M_bind at 1. destruct n as [|n]; [lia|].
  apply IH; lia.
Qed.
End wrappers.

(** C23: while the breaker is open no retry attempt polls its future: the
    closure may build one on every attempt, but even a future that would
    panic is never run, every attempt fails with [CircuitBreakerOpen], the
    breaker is untouched and that error is the result. *)
Theorem open_breaker_polls_nothing {W A} (clock : W -> Z * W) (sleep : Z -> W -> W)
    (cfg : config) (name : string) (p : policy)
    (make : W -> M (@St W) (Result A) * W) (s : internal_state) (w : W) (last : Z) :
  in_u32 (max_attempts p) -> 1 <= max_attempts p ->
  status s = Open -> last_failure_at s = Some last ->
  (forall w, within cfg last (fst (clock w))) ->
  exists w', with_retry_and_breaker clock sleep cfg name p
      (fun '(s, w) => let '(fut, w) := make w in Ret (fut, (s, w))) (s, w) =
    Ret (Err (open_error name), (s, w')).
Proof.
  intros Hp H1 Hst Hl Hw. unfold with_retry_and_breaker, with_retry.
  apply retry_loop_open with last; try done; lia.
Qed.

Lemma open_breaker_polls_nothing_witness :
  let tripped := InternalState Open 5 0 (Some 0) in
  let make := fun w : Z => ((fun _ => Panic "polled") : M (@St Z) (Result Z), w + 1) in
  exists w', with_retry_and_breaker (fun w : Z => (7, w)) (fun _ w => w) default_config "db"
      default_policy (fun '(s, w) => let '(fut, w) := make w in Ret (fut, (s, w)))
      (tripped, 0) =
    Ret (Err (open_error "db"), (tripped, w')).
Proof.
  intros tripped make.
  apply (open_breaker_polls_nothing (fun w : Z => (7, w)) (fun _ w => w) default_config "db"
    default_policy make tripped 0 0).
  - split; vm_compute; discriminate.
  - vm_compute; discriminate.
  - reflexivity.
  - reflexivity.
  - intros w. vm_compute. reflexivity.
Defined.

End Wrappers.
