(* ===== verification/Lock.v ===== *)
(** Distributed locks: the [DistributedLock] interface
    ([rinfra-core/src/lock/mod.rs]) as a type class with its laws, what follows
    from the laws alone, and the in-memory implementation
    ([rinfra-plugins/src/lock/memory.rs]). *)

From S2P Require Import Prelude Errors.

(** [struct LockHandle] *)
Record lock_handle : Type := LockHandle {
  handle_key : string;
  handle_token : string;
  acquired_at_ms : Z;
}.

(** * The interface

    [lk_holder l now key] is the token that owns [key] at instant [now]; the
    laws say what each operation may do to it, a backend being allowed to fail.  [lk_try] and [lk_release] are
    the operations a client such as the timer engine uses: the instant, the
    fresh token and the wall clock they read are arguments. *)
Class DistributedLock (L : Type) : Type := {
  lk_try : Z -> Z -> string -> string -> Z -> L -> outcome (Result (option lock_handle) * L);
  lk_release : Z -> lock_handle -> L -> outcome (Result bool * L);
  lk_holder : L -> Z -> string -> option string;
  lk_holder_mono l now now' key tok :
    lk_holder l now' key = Some tok -> now <= now' -> lk_holder l now key = Some tok;
  lk_try_some now wall tok key ttl l h l' :
    lk_try now wall tok key ttl l = Ret (Ok (Some h), l') ->
    lk_holder l now key = None /\ handle_key h = key /\ handle_token h = tok /\
    (forall now', now <= now' < now + from_secs ttl -> lk_holder l' now' key = Some tok) /\
    (forall now' key', now <= now' -> key' <> key ->
       lk_holder l' now' key' = lk_holder l now' key');
  lk_try_none now wall tok key ttl l l' :
    lk_try now wall tok key ttl l = Ret (Ok None, l') ->
    is_Some (lk_holder l now key) /\
    (forall now' key', now <= now' -> lk_holder l' now' key' = lk_holder l now' key');
  lk_try_err now wall tok key ttl l e l' :
    lk_try now wall tok key ttl l = Ret (Err e, l') ->
    forall now' key' tok', now <= now' ->
      lk_holder l now' key' = Some tok' -> lk_holder l' now' key' = Some tok';
  lk_release_spec now h l r l' :
    lk_release now h l = Ret (r, l') ->
    (lk_holder l now (handle_key h) = Some (handle_token h) ->
       (r = Ok true /\ lk_holder l' now (handle_key h) = None) \/ exists e, r = Err e) /\
    (forall now' key', now <= now' ->
       key' <> handle_key h \/ lk_holder l now' key' <> Some (handle_token h) ->
       lk_holder l' now' key' = lk_holder l now' key');
}.

(** * The in-memory lock *)
Module InMemoryLock.

(** [struct LockEntry], [struct InMemoryLock].  [notifications] counts the
    [notify_waiters] calls on the lock's [Notify]: a waiter registered when
    the count was [n] is woken once it exceeds [n]. *)
Record lock_entry : Type := LockEntry { token : string; expires_at : Z }.
Record in_memory_lock : Type := InMemory {
  locks : gmap string lock_entry;
  notifications : nat;
}.
Definition new : in_memory_lock := InMemory ∅ 0.

(** [try_acquire]: [now] and [wall] are its clock readings, [uuid] the
    [Uuid::new_v4()] it would generate. *)
Definition try_acquire (now wall : Z) (uuid key : string) (ttl_secs : Z) (l : in_memory_lock) :
    outcome (Result (option lock_handle) * in_memory_lock) :=
  let m :=
    match locks l !! key with
    | Some entry => if expires_at entry <=? now then delete key (locks l) else locks l
    | None => locks l
    end in
  match m !! key with
  | Some _ => Ret (Ok None, InMemory m (notifications l))
  | None =>
      expiry ← instant_add now (from_secs ttl_secs);
      Ret (Ok (Some (LockHandle key uuid wall)),
           InMemory (<[key := LockEntry uuid expiry]> m) (notifications l))
  end.

(** [release] *)
Definition release (h : lock_handle) (l : in_memory_lock) : Result bool * in_memory_lock :=
  match locks l !! handle_key h with
  | Some entry =>
      if decide (token entry = handle_token h)
      then (Ok true, InMemory (delete (handle_key h) (locks l)) (S (notifications l)))
      else (Ok false, l)
  | None => (Ok false, l)
  end.

(** [extend] *)
Definition extend (now : Z) (h : lock_handle) (ttl_secs : Z) (l : in_memory_lock) :
    outcome (Result bool * in_memory_lock) :=
  match locks l !! handle_key h with
  | Some entry =>
      if decide (token entry = handle_token h)
      then
        expiry ← instant_add now (from_secs ttl_secs);
        Ret (Ok true,
             InMemory (<[handle_key h := LockEntry (token entry) expiry]> (locks l))
               (notifications l))
      else Ret (Ok false, l)
  | None => Ret (Ok false, l)
  end.

(** [acquire], as the points between which other tasks may run: the attempt
    (one critical section), the deadline check, and the wait registered with
    the [Notify] for a notification or until the deadline. *)
Inductive acquire_pc : Type :=
| AtTry (deadline : Z)
| AtCheck (deadline : Z)
| AtWait (deadline : Z) (registered : nat) (wake_at : Z)
| Finished (r : Result lock_handle).

Definition acquire_start (now wait_timeout_secs : Z) : outcome acquire_pc :=
  deadline ← instant_add now (from_secs wait_timeout_secs); Ret (AtTry deadline).

Definition acquire_step (now wall : Z) (uuid key : string) (ttl_secs : Z)
    (pc : acquire_pc) (l : in_memory_lock) : outcome (acquire_pc * in_memory_lock) :=
  match pc with
  | AtTry deadline =>
      r ← try_acquire now wall uuid key ttl_secs l;
      match r with
      | (Ok (Some h), l) => Ret (Finished (Ok h), l)
      | (Ok None, l) => Ret (AtCheck deadline, l)
      | (Err e, l) => Ret (Finished (Err e), l)
      end
  | AtCheck deadline =>
      let remaining := duration_since deadline now in
      if remaining =? 0
      then Ret (Finished (fail LockAcquireFailed
                  ("timed out waiting for lock '" +:+ key +:+ "'")), l)
      else Ret (AtWait deadline (notifications l) (now + remaining), l)
  | AtWait deadline registered wake_at =>
      if (registered <? notifications l)%nat || (wake_at <=? now)
      then Ret (AtTry deadline, l)
      else Ret (AtWait deadline registered wake_at, l)
  | Finished r => Ret (Finished r, l)
  end.

(** ** The owner of a key *)

Definition holder (l : in_memory_lock) (now : Z) (key : string) : option string :=
  match locks l !! key with
  | Some e => if now <? expires_at e then Some (token e) else None
  | None => None
  end.

Lemma holder_mono l now now' key tok :
  holder l now' key = Some tok -> now <= now' -> holder l now key = Some tok.
Proof.
  unfold holder. destruct (locks l !! key) as [e|]; [|done].
  destruct (now' <? _) eqn:E1; [|done]. intros [= <-] ?. bools.
  destruct (now <? _) eqn:E2; bools; [done|lia].
Qed.

(** The two branches of [try_acquire]. *)
Lemma try_acquire_inv now wall uuid key ttl l r :
  try_acquire now wall uuid key ttl l = Ret r ->
  (exists e, locks l !! key = Some e /\ now < expires_at e /\ r = (Ok None, l)) \/
  (holder l now key = None /\
   r = (Ok (Some (LockHandle key uuid wall)),
        InMemory (<[key := LockEntry uuid (now + from_secs ttl)]> (locks l)) (notifications l))).
Proof.
  unfold try_acquire, holder, instant_add.
  destruct (locks l !! key) as [e|] eqn:E.
  - destruct (_ <=? now) eqn:Ex; bools.
    + rewrite lookup_delete_eq. destruct (_ <=? instant_max); [|done].
      intros [= <-]. right. rewrite insert_delete_eq.
      destruct (now <? _) eqn:?; bools; [lia|done].
    + rewrite E. intros [= <-]. left. destruct l; simpl in *. eauto.
  - rewrite E. destruct (_ <=? instant_max); [|done]. intros [= <-]. by right.
Qed.

Lemma holder_insert l now key key' tok t n :
  holder (InMemory (<[key := LockEntry tok t]> (locks l)) n) now key' =
    if decide (key = key') then if now <? t then Some tok else None else holder l now key'.
Proof. unfold holder; simpl. rewrite lookup_insert. by destruct (decide _). Qed.

Lemma holder_delete l now key key' n :
  holder (InMemory (delete key (locks l)) n) now key' =
    if decide (key = key') then None else holder l now key'.
Proof. unfold holder; simpl. rewrite lookup_delete. by destruct (decide _). Qed.

(** [release] removes the entry exactly when it carries the handle's token. *)
Lemma release_cases h l :
  (exists e, locks l !! handle_key h = Some e /\ token e = handle_token h /\
     release h l = (Ok true, InMemory (delete (handle_key h) (locks l)) (S (notifications l)))) \/
  ((forall e, locks l !! handle_key h = Some e -> token e <> handle_token h) /\
   release h l = (Ok false, l)).
Proof.
  unfold release. destruct (locks l !! handle_key h) as [e|] eqn:E.
  - destruct (decide _); [left; eauto|right]. split; [|done]. by intros ? [= <-].
  - right. by split.
Qed.

Lemma extend_inv now h ttl l r :
  extend now h ttl l = Ret r ->
  (exists e, locks l !! handle_key h = Some e /\ token e = handle_token h /\
     r = (Ok true, InMemory (<[handle_key h := LockEntry (token e) (now + from_secs ttl)]> (locks l))
                     (notifications l))) \/
  ((forall e, locks l !! handle_key h = Some e -> token e <> handle_token h) /\
   r = (Ok false, l)).
Proof.
  unfold extend, instant_add. destruct (locks l !! handle_key h) as [e|] eqn:E.
  - destruct (decide _); [|intros [= <-]; right; split; [|done]; by intros ? [= <-]].
    destruct (_ <=? instant_max); [|done]. intros [= <-]. left. eauto.
  - intros [= <-]. right. by split.
Qed.

(** The in-memory lock implements the interface. *)
#[export] Program Instance in_memory_distributed_lock : DistributedLock in_memory_lock := {|
  lk_try := try_acquire;
  lk_release _ h l := Ret (release h l);
  lk_holder := holder;
|}.
Next Obligation. eauto using holder_mono. Qed.
Next Obligation.
  intros now wall tok key ttl l h l' [(e & _ & _ & [=])|(Hh & [= -> ->])]%try_acquire_inv.
  simpl. split; [done|]. split; [done|]. split; [done|]. split.
  - intros now' ?. rewrite holder_insert, decide_True by done.
    destruct (_ <? _) eqn:?; bools; [done|lia].
  - intros now' key' _ Hne. rewrite holder_insert, decide_False by congruence. done.
Qed.
Next Obligation.
  intros now wall tok key ttl l l' [(e & He & Hlt & [= ->])|(_ & [=])]%try_acquire_inv.
  split; [|done]. unfold holder. rewrite He. destruct (_ <? _) eqn:?; bools; [eauto|lia].
Qed.
Next Obligation.
  intros now wall tok key ttl l e l' [(? & _ & _ & [=])|(_ & [=])]%try_acquire_inv.
Qed.
Next Obligation.
  intros now h l r l' [= Hr].
  destruct (release_cases h l) as [(e & He & Ht & Hrel)|(Hno & Hrel)];
    rewrite Hrel in Hr; simplify_eq.
  - split; [intros _; left; split; [done|by rewrite holder_delete, decide_True]|].
    intros now' key' _ Hor. rewrite holder_delete. destruct (decide _) as [<-|]; [|done].
    destruct Hor as [?|Hor]; [done|]. revert Hor. unfold holder. rewrite He.
    destruct (_ <? _); congruence.
  - split; [|done]. unfold holder. destruct (locks l' !! _) as [e|] eqn:E; [|done].
    destruct (_ <? _); [|done]. intros [= Ht]. by destruct (Hno e eq_refl).
Qed.

(** ** Sequences of operations

    Every operation holds the table's mutex, so concurrent tasks amount to a
    sequence of operations, each with the instants it reads. *)
Inductive op : Type :=
| OpTry (now wall : Z) (uuid key : string) (ttl_secs : Z)
| OpRelease (h : lock_handle)
| OpExtend (now : Z) (h : lock_handle) (ttl_secs : Z).

Definition run_op (o : op) (l : in_memory_lock) : outcome in_memory_lock :=
  match o with
  | OpTry now wall uuid key ttl => r ← try_acquire now wall uuid key ttl l; Ret (snd r)
  | OpRelease h => Ret (snd (release h l))
  | OpExtend now h ttl => r ← extend now h ttl l; Ret (snd r)
  end.

Fixpoint run_ops (os : list op) (l : in_memory_lock) : outcome in_memory_lock :=
  match os with
  | [] => Ret l
  | o :: os => l ← run_op o l; run_ops os l
  end.

(** An operation of somebody who does not hold [h]: an attempt before [h]
    expires, or a release or extension that does not present [h]'s proof of
    ownership. *)
Definition foreign (h : lock_handle) (expiry : Z) (o : op) : Prop :=
  match o with
  | OpTry now _ _ key _ => key = handle_key h -> now < expiry
  | OpRelease h' | OpExtend _ h' _ =>
      handle_key h' <> handle_key h \/ handle_token h' <> handle_token h
  end.

Lemma foreign_keeps_entry h t o l l' :
  foreign h t o -> locks l !! handle_key h = Some (LockEntry (handle_token h) t) ->
  run_op o l = Ret l' -> locks l' !! handle_key h = Some (LockEntry (handle_token h) t).
Proof.
  intros Hf He. destruct o as [now wall uuid key ttl|h'|now h' ttl]; simpl in *.
  - destruct (try_acquire _ _ _ _ _ _) as [r|] eqn:Er; [|done]. intros [= <-].
    apply try_acquire_inv in Er as [(e & _ & _ & ->)|(Hh & ->)]; simpl; [done|].
    rewrite lookup_insert_ne; [done|]. intros ->.
    revert Hh. unfold holder. rewrite He. simpl.
    destruct (now <? t) eqn:E; bools; [done|]. specialize (Hf eq_refl). lia.
  - intros [= <-]. destruct (release_cases h' l) as [(e & He' & Ht & ->)|(_ & ->)]; simpl; [|done].
    rewrite lookup_delete_ne; [done|]. intros Heq. rewrite Heq, He in He'. simplify_eq.
    destruct Hf; simpl in *; congruence.
  - destruct (extend _ _ _ _) as [r|] eqn:Er; [|done]. intros [= <-].
    apply extend_inv in Er as [(e & He' & Ht & ->)|(_ & ->)]; simpl; [|done].
    rewrite lookup_insert_ne; [done|]. intros Heq. rewrite Heq, He in He'. simplify_eq.
    destruct Hf; simpl in *; congruence.
Qed.

Lemma foreign_keeps_entries h t os l l' :
  Forall (foreign h t) os -> locks l !! handle_key h = Some (LockEntry (handle_token h) t) ->
  run_ops os l = Ret l' -> locks l' !! handle_key h = Some (LockEntry (handle_token h) t).
Proof.
  intros Hf. revert l. induction Hf as [|o os Ho _ IH]; intros l Hl; simpl; [by intros [= ->]|].
  unfold mbind, outcome_bind. destruct (run_op o l) as [l1|] eqn:E; [|done].
  eauto using foreign_keeps_entry.
Qed.

Lemma try_acquire_held now wall uuid key ttl l e :
  locks l !! key = Some e -> now < expires_at e ->
  try_acquire now wall uuid key ttl l = Ret (Ok None, l).
Proof.
  intros He Hlt. unfold try_acquire. rewrite He.
  destruct (_ <=? now) eqn:E; bools; [lia|]. rewrite He. by destruct l.
Qed.

(** C30: mutual exclusion.  Once an attempt returned a handle, then whatever
    the other tasks do - attempts on any key, releases and extensions with
    any other proof of ownership - every attempt on the key fails until the
    time to live has run out, and the handle still releases the lock, which
    is then free. *)
Theorem lock_exclusive (now wall ttl : Z) (tok key : string) (h : lock_handle)
    (l0 l1 l2 : in_memory_lock) (os : list op) :
  try_acquire now wall tok key ttl l0 = Ret (Ok (Some h), l1) ->
  Forall (foreign h (now + from_secs ttl)) os ->
  run_ops os l1 = Ret l2 ->
  (forall now' wall' uuid ttl', now' < now + from_secs ttl ->
     try_acquire now' wall' uuid key ttl' l2 = Ret (Ok None, l2)) /\
  fst (release h l2) = Ok true /\
  forall now', holder (snd (release h l2)) now' key = None.
Proof.
  intros [(e & _ & _ & [=])|(Hh & [= -> ->])]%try_acquire_inv Hf Hrun.
  assert (He : locks l2 !! key = Some (LockEntry tok (now + from_secs ttl))).
  { eapply (foreign_keeps_entries (LockHandle key tok wall)); [done| |done]. apply lookup_insert_eq. }
  split; [intros; by eapply try_acquire_held|].
  unfold release; simpl. rewrite He. simpl. rewrite decide_True by done. split; [done|].
  intros now'. simpl. by rewrite holder_delete, decide_True.
Qed.

Definition example_handle : lock_handle := LockHandle "job" "t1" 0.

Lemma lock_exclusive_witness :
  let l1 := InMemory {["job" := LockEntry "t1" (from_secs 10)]} 0 in
  try_acquire 0 0 "t1" "job" 10 new = Ret (Ok (Some example_handle), l1) /\
  fst (release example_handle l1) = Ok true.
Proof.
  intros l1. split; [vm_compute; reflexivity|].
  refine (proj1 (proj2 (lock_exclusive 0 0 10 "t1" "job" example_handle new l1 l1
    [OpTry 5 5 "t2" "job" 3; OpRelease (LockHandle "job" "t2" 5)] _ _ _))).
  - vm_compute; reflexivity.
  - apply Forall_cons_2; [intros _; vm_compute; reflexivity|].
    apply Forall_cons_2; [right; discriminate|apply Forall_nil_2].
  - vm_compute; reflexivity.
Defined.

(** An expired handle is harmless.  After its time to live the key can be
    acquired again, and the old handle then neither releases nor extends the
    new owner's lock: both calls report [false] and change nothing. *)
Theorem stale_handle_harmless (now ttl now' wall' ttl' : Z) (key uuid : string)
    (h : lock_handle) (l : in_memory_lock) :
  locks l !! key = Some (LockEntry (handle_token h) (now + from_secs ttl)) ->
  handle_key h = key -> now + from_secs ttl <= now' -> uuid <> handle_token h ->
  now' + from_secs ttl' <= instant_max ->
  exists l', try_acquire now' wall' uuid key ttl' l =
      Ret (Ok (Some (LockHandle key uuid wall')), l') /\
    release h l' = (Ok false, l') /\
    forall t s, extend t h s l' = Ret (Ok false, l').
Proof.
  intros He Hk Hexp Hne Hmax. unfold try_acquire. rewrite He; simpl.
  destruct (_ <=? now') eqn:E; bools; [|lia]. rewrite lookup_delete_eq.
  unfold instant_add. destruct (_ <=? instant_max) eqn:E2; bools; [|lia].
  eexists; split; [done|].
  split; [|intros t s]; unfold release, extend; simpl;
    rewrite Hk, lookup_insert_eq; simpl; by rewrite decide_False.
Qed.

Lemma stale_handle_harmless_witness :
  let l := InMemory {["job" := LockEntry "t1" (0 + from_secs 10)]} 0 in
  exists l', try_acquire (from_secs 11) 0 "t2" "job" 5 l =
      Ret (Ok (Some (LockHandle "job" "t2" 0)), l') /\
    release example_handle l' = (Ok false, l') /\
    forall t s, extend t example_handle s l' = Ret (Ok false, l').
Proof.
  intros l. apply (stale_handle_harmless 0 10).
  - vm_compute; reflexivity.
  - reflexivity.
  - vm_compute; discriminate.
  - discriminate.
  - vm_compute; discriminate.
Defined.

(** ** The waiting acquire *)

(** One step of the waiter after whatever the other tasks did to the table. *)
Record tick : Type := Tick {
  tick_env : in_memory_lock -> in_memory_lock;
  tick_now : Z;
  tick_wall : Z;
  tick_uuid : string;
}.

Fixpoint run_acquire (key : string) (ttl : Z) (ts : list tick) (pc : acquire_pc)
    (l : in_memory_lock) : outcome (acquire_pc * in_memory_lock) :=
  match ts with
  | [] => Ret (pc, l)
  | t :: ts =>
      r ← acquire_step (tick_now t) (tick_wall t) (tick_uuid t) key ttl pc (tick_env t l);
      run_acquire key ttl ts (fst r) (snd r)
  end.

(** What every point of [acquire] knows about its deadline. *)
Definition pc_ok (deadline : Z) (pc : acquire_pc) : Prop :=
  match pc with
  | AtTry d | AtCheck d => d = deadline
  | AtWait d _ wake_at => d = deadline /\ wake_at = deadline
  | Finished _ => True
  end.

(** Steps left once the deadline has passed. *)
Definition steps_left (pc : acquire_pc) : nat :=
  match pc with AtWait _ _ _ => 3 | AtTry _ => 2 | AtCheck _ => 1 | Finished _ => 0 end.

Lemma acquire_step_ok deadline now wall uuid key ttl pc l pc' l' :
  pc_ok deadline pc -> acquire_step now wall uuid key ttl pc l = Ret (pc', l') ->
  pc_ok deadline pc' /\ (deadline <= now -> (steps_left pc' <= steps_left pc - 1)%nat).
Proof.
  intros Hpc. destruct pc as [d|d|d reg w|r]; simpl in *; subst.
  - destruct (try_acquire _ _ _ _ _ _) as [[[[h|]|e] l1]|]; simpl; try done;
      intros [= <- <-]; simpl; split; intros; try done; lia.
  - unfold duration_since. destruct (_ =? _) eqn:E; intros [= <- <-]; bools; simpl.
    + split; [done|lia].
    + split; [lia|lia].
  - destruct Hpc as [-> ->]. destruct (_ || _) eqn:E; intros [= <- <-]; simpl; [split; [done|lia]|].
    split; [done|]. apply orb_false_iff in E as [_ E]. bools. lia.
  - intros [= <- <-]. simpl. split; [done|lia].
Qed.

Lemma run_acquire_ok deadline key ttl ts pc l pc' l' :
  pc_ok deadline pc -> run_acquire key ttl ts pc l = Ret (pc', l') ->
  pc_ok deadline pc' /\
  (Forall (fun t => deadline <= tick_now t) ts -> (steps_left pc' <= steps_left pc - length ts)%nat).
Proof.
  revert pc l. induction ts as [|t ts IH]; intros pc l Hpc; simpl.
  - intros [= <- <-]. split; [done|lia].
  - destruct (acquire_step _ _ _ _ _ _ _) as [[pc1 l1]|] eqn:E; simpl; [|done].
    destruct (acquire_step_ok _ _ _ _ _ _ _ _ _ _ Hpc E) as [Hpc1 Hs1].
    intros Hr. destruct (IH _ _ Hpc1 Hr) as [? Hs2]. split; [done|].
    inversion 1; subst. specialize (Hs1 ltac:(done)). specialize (Hs2 ltac:(done)). lia.
Qed.

Lemma run_acquire_app key ttl ts1 ts2 pc l :
  run_acquire key ttl (ts1 ++ ts2) pc l =
    (r ← run_acquire key ttl ts1 pc l; run_acquire key ttl ts2 (fst r) (snd r)).
Proof.
  revert pc l. induction ts1 as [|t ts1 IH]; intros pc l; [done|]. simpl.
  destruct (acquire_step _ _ _ _ _ _ _); simpl; [apply IH|done].
Qed.

(** C36: [acquire] does not wait past its deadline: however the other tasks
    interleave, once three of its steps run at or after the deadline it has
    returned. *)
Theorem acquire_terminates (now0 timeout ttl : Z) (key : string)
    (before after : list tick) (pc0 pc' : acquire_pc) (l l' : in_memory_lock) :
  acquire_start now0 timeout = Ret pc0 ->
  (3 <= length after)%nat ->
  Forall (fun t => now0 + from_secs timeout <= tick_now t) after ->
  run_acquire key ttl (before ++ after) pc0 l = Ret (pc', l') ->
  exists r, pc' = Finished r.
Proof.
  unfold acquire_start, instant_add. destruct (_ <=? _); simpl; [|done]. intros [= <-].
  set (deadline := now0 + from_secs timeout). intros Hlen Hafter. rewrite run_acquire_app.
  destruct (run_acquire _ _ before _ _) as [[pc1 l1]|] eqn:E; simpl; [|done].
  apply (run_acquire_ok deadline) in E as [Hpc1 _]; [|done]. intros E2.
  destruct (run_acquire_ok deadline _ _ _ _ _ _ _ Hpc1 E2) as [_ Hs].
  specialize (Hs Hafter).
  assert (steps_left pc1 <= 3)%nat by (destruct pc1; simpl; lia).
  destruct pc'; simpl in Hs; try lia. eauto.
Qed.

Definition idle_tick (now : Z) : tick := Tick (fun l => l) now 0 "t2".

Lemma acquire_terminates_witness :
  let l := InMemory {["job" := LockEntry "t1" (from_secs 10)]} 0 in
  let late := idle_tick (from_secs 2) in
  acquire_start 0 1 = Ret (AtTry (from_secs 1)) /\
  exists r, Finished (fail LockAcquireFailed "timed out waiting for lock 'job'") = Finished r.
Proof.
  intros l late. split; [vm_compute; reflexivity|].
  refine (acquire_terminates 0 1 5 "job" [idle_tick 0; idle_tick 1] [late; late; late]
    (AtTry (from_secs 1)) _ l l _ _ _ _).
  - vm_compute; reflexivity.
  - simpl; lia.
  - repeat constructor; vm_compute; discriminate.
  - vm_compute; reflexivity.
Defined.

(** A waiter can miss the release it waits for.  If the owner releases
    between the failed attempt and the registration with the [Notify], the
    waiter sleeps until its deadline although the lock is free all along. *)
Theorem acquire_misses_release (deadline now0 now1 wall ttl : Z) (uuid key : string)
    (h : lock_handle) (e : lock_entry) (l : in_memory_lock) :
  locks l !! key = Some e -> now0 < expires_at e ->
  handle_key h = key -> handle_token h = token e -> now1 < deadline ->
  acquire_step now0 wall uuid key ttl (AtTry deadline) l = Ret (AtCheck deadline, l) /\
  exists l' pc, release h l = (Ok true, l') /\ (forall now, holder l' now key = None) /\
    acquire_step now1 wall uuid key ttl (AtCheck deadline) l' = Ret (pc, l') /\
    forall now2 wall2 uuid2, now2 < deadline ->
      acquire_step now2 wall2 uuid2 key ttl pc l' = Ret (pc, l').
Proof.
  intros He Hlt Hk Ht Hd. split.
  { simpl. by erewrite try_acquire_held. }
  unfold release. rewrite Hk, He, decide_True by done.
  do 2 eexists. split; [done|]. split.
  { intros now. by rewrite holder_delete, decide_True. }
  simpl. unfold duration_since. destruct (_ =? _) eqn:E; bools; [lia|].
  split; [done|]. intros now2 wall2 uuid2 H2. simpl.
  rewrite (proj2 (Nat.ltb_ge _ _)) by lia. simpl.
  destruct (_ <=? now2) eqn:E2; bools; [lia|done].
Qed.

Lemma acquire_misses_release_witness :
  let l := InMemory {["job" := LockEntry "t1" (from_secs 10)]} 0 in
  acquire_step 1 0 "t2" "job" 5 (AtTry (from_secs 30)) l = Ret (AtCheck (from_secs 30), l) /\
  exists l' pc, release example_handle l = (Ok true, l') /\
    (forall now, holder l' now "job" = None) /\
    acquire_step 2 0 "t2" "job" 5 (AtCheck (from_secs 30)) l' = Ret (pc, l') /\
    forall now2 wall2 uuid2, now2 < from_secs 30 ->
      acquire_step now2 wall2 uuid2 "job" 5 pc l' = Ret (pc, l').
Proof.
  intros l. apply (acquire_misses_release (from_secs 30) 1 2 0 5 "t2" "job" example_handle
    (LockEntry "t1" (from_secs 10))).
  - vm_compute; reflexivity.
  - vm_compute; reflexivity.
  - reflexivity.
  - reflexivity.
  - vm_compute; reflexivity.
Defined.

End InMemoryLock.
