(* ===== verification/RedisLock.v ===== *)
(** The Redis lock ([rinfra-plugins/src/lock/redis_lock.rs]): [SET NX PX] to
    acquire, two scripts to release and extend, a polling [acquire].  The
    Redis server is a parameter, of which the lock uses the documented
    behaviour of the commands; every command may also fail, with or without
    having been applied. *)

From S2P Require Import Prelude Errors Lock.

(** * The server

    [view r now k] is the value [k] has at instant [now]; [eval] runs a script
    as one atomic step. *)
Class Redis (R : Type) : Type := {
  view : R -> Z -> string -> option string;
  set_nx_px : Z -> string -> string -> Z -> R -> result string bool * R;
  del : string -> R -> R;
  pexpire : Z -> string -> Z -> R -> R;
  eval : forall A, (R -> A * R) -> R -> result string A * R;
  view_mono r now now' k v : view r now' k = Some v -> now <= now' -> view r now k = Some v;
  set_done now k v ms r r' :
    set_nx_px now k v ms r = (Ok true, r') ->
    view r now k = None /\
    (forall now', now <= now' < now + from_millis ms -> view r' now' k = Some v) /\
    (forall now' k', now <= now' -> k' <> k -> view r' now' k' = view r now' k');
  set_refused now k v ms r r' :
    set_nx_px now k v ms r = (Ok false, r') ->
    is_Some (view r now k) /\ (forall now' k', now <= now' -> view r' now' k' = view r now' k');
  set_failed now k v ms r e r' :
    set_nx_px now k v ms r = (Err e, r') ->
    forall now' k' v', now <= now' -> view r now' k' = Some v' -> view r' now' k' = Some v';
  view_del k r now k' : view (del k r) now k' = if decide (k' = k) then None else view r now k';
  view_pexpire now k ms r now' k' :
    now <= now' -> view (pexpire now k ms r) now' k' =
      if decide (k' = k) then if now' <? now + from_millis ms then view r now k else None
      else view r now' k';
  eval_done A f r a r' : eval A f r = (Ok a, r') -> f r = (a, r');
  eval_failed A f r e r' : eval A f r = (Err e, r') -> r' = r \/ r' = snd (f r);
}.

Module RedisLock.
Section redis_lock.
Context {R : Type} `{!Redis R}.

(** [struct RedisLockConfig] and [struct RedisLock] with the server behind its
    connection *)
Record redis_lock : Type := MkRedisLock {
  key_prefix : string;
  connected : bool;
  server : R;
}.
Definition full_key (l : redis_lock) (key : string) : string := key_prefix l +:+ key.
Definition get_conn (l : redis_lock) : Result unit :=
  if connected l then Ok tt else fail LockAcquireFailed "redis not connected".
Definition with_server (r : R) (l : redis_lock) : redis_lock := MkRedisLock (key_prefix l) (connected l) r.

(** [RELEASE_SCRIPT] and [EXTEND_SCRIPT] *)
Definition release_script (now : Z) (k tok : string) (r : R) : Z * R :=
  if decide (view r now k = Some tok) then (1, del k r) else (0, r).
Definition extend_script (now : Z) (k tok : string) (ms : Z) (r : R) : Z * R :=
  if decide (view r now k = Some tok) then (1, pexpire now k ms r) else (0, r).

(** [try_acquire] *)
Definition try_acquire (now wall : Z) (uuid key : string) (ttl_secs : Z) (l : redis_lock) :
    outcome (Result (option lock_handle) * redis_lock) :=
  match get_conn l with
  | Err e => Ret (Err e, l)
  | Ok _ =>
      ms ← u64_mul ttl_secs 1000;
      let '(r, s) := set_nx_px now (full_key l key) uuid ms (server l) in
      Ret (match r with
           | Err e => fail LockAcquireFailed ("redis SET NX failed: " +:+ e)
           | Ok true => Ok (Some (LockHandle key uuid (as_u64 (as_millis wall))))
           | Ok false => Ok None
           end, with_server s l)
  end.

(** [release] *)
Definition release (now : Z) (h : lock_handle) (l : redis_lock) : Result bool * redis_lock :=
  match get_conn l with
  | Err e => (Err e, l)
  | Ok _ =>
      let '(r, s) := eval Z (release_script now (full_key l (handle_key h)) (handle_token h)) (server l) in
      (match r with
       | Err e => fail LockAcquireFailed ("redis release script failed: " +:+ e)
       | Ok n => Ok (n =? 1)
       end, with_server s l)
  end.

(** [extend] *)
Definition extend (now : Z) (h : lock_handle) (ttl_secs : Z) (l : redis_lock) :
    outcome (Result bool * redis_lock) :=
  match get_conn l with
  | Err e => Ret (Err e, l)
  | Ok _ =>
      ms ← u64_mul ttl_secs 1000;
      let '(r, s) := eval Z (extend_script now (full_key l (handle_key h)) (handle_token h) ms) (server l) in
      Ret (match r with
           | Err e => fail LockAcquireFailed ("redis extend script failed: " +:+ e)
           | Ok n => Ok (n =? 1)
           end, with_server s l)
  end.

(** [acquire] between its await points: an attempt, the deadline check, and
    the sleep of a poll interval. *)
Inductive poll_pc : Type :=
| AtAttempt
| AtDeadline
| AtSleep (wake_at : Z)
| Returned (r : Result lock_handle).
Definition poll_interval (wait_timeout_secs : Z) : Z := Z.min (from_millis 50) (from_secs wait_timeout_secs).
Definition acquire_start (now wait_timeout_secs : Z) : outcome (Z * poll_pc) :=
  deadline ← instant_add now (from_secs wait_timeout_secs); Ret (deadline, AtAttempt).
Definition acquire_step (deadline wait_timeout_secs now wall : Z) (uuid key : string) (ttl_secs : Z)
    (pc : poll_pc) (l : redis_lock) : outcome (poll_pc * redis_lock) :=
  match pc with
  | AtAttempt =>
      r ← try_acquire now wall uuid key ttl_secs l;
      match r with
      | (Ok (Some h), l) => Ret (Returned (Ok h), l)
      | (Ok None, l) => Ret (AtDeadline, l)
      | (Err e, l) => Ret (Returned (Err e), l)
      end
  | AtDeadline =>
      if deadline <=? now
      then Ret (Returned (fail LockAcquireFailed ("timed out waiting for lock '" +:+ key +:+ "'")), l)
      else Ret (AtSleep (now + poll_interval wait_timeout_secs), l)
  | AtSleep wake_at => if wake_at <=? now then Ret (AtAttempt, l) else Ret (AtSleep wake_at, l)
  | Returned r => Ret (Returned r, l)
  end.

(** ** The owner of a key *)
Definition holder (l : redis_lock) (now : Z) (key : string) : option string :=
  view (server l) now (full_key l key).

Lemma full_key_inj l k k' : full_key l k = full_key l k' -> k = k'.
Proof.
  unfold full_key. induction (key_prefix l) as [|c p IH]; [done|]. intros [= H]. by apply IH.
Qed.

Lemma redis_try_acquire_inv now wall uuid key ttl l r l' :
  try_acquire now wall uuid key ttl l = Ret (r, l') ->
  (exists e, r = Err e /\ l' = l) \/
  exists a s, set_nx_px now (full_key l key) uuid (ttl * 1000) (server l) = (a, s) /\ l' = with_server s l /\
    0 <= ttl * 1000 <= u64_max /\
    match a with
    | Err _ => exists e, r = Err e
    | Ok true => exists wall', r = Ok (Some (LockHandle key uuid wall'))
    | Ok false => r = Ok None
    end.
Proof.
  unfold try_acquire. destruct (get_conn l) as [u|e]; [|intros [= <- <-]; left; eauto].
  unfold u64_mul, checked. destruct (_ && _) eqn:E; [|done]. simpl.
  destruct (set_nx_px _ _ _ _ _) as [a s]. intros [= <- <-]. right. exists a, s.
  split; [done|]. split; [done|]. split; [bools; lia|]. destruct a as [[]|]; unfold fail; eauto.
Qed.

Lemma release_inv now h l r l' :
  release now h l = (r, l') ->
  (exists e, r = Err e) /\ (l' = l \/
     l' = with_server (snd (release_script now (full_key l (handle_key h)) (handle_token h) (server l))) l) \/
  exists n s, release_script now (full_key l (handle_key h)) (handle_token h) (server l) = (n, s) /\
    r = Ok (n =? 1) /\ l' = with_server s l.
Proof.
  unfold release. destruct (get_conn l) as [u|e]; [|intros [= <- <-]; left; eauto].
  destruct (eval _ _ _) as [[n|e] s] eqn:E; intros [= <- <-].
  - right. exists n, s. apply eval_done in E. done.
  - left. split; [unfold fail; eauto|]. apply eval_failed in E as [-> | ->]; [left; by destruct l|by right].
Qed.

(** A release script can only remove the key it names, from its owner. *)
Lemma release_script_view now k tok r now' k' : now <= now' -> k' <> k \/ view r now' k' <> Some tok ->
  view (snd (release_script now k tok r)) now' k' = view r now' k'.
Proof.
  intros Hn H. unfold release_script. case_decide as Hv; simpl; [|done]. rewrite view_del.
  case_decide as Hk; [|done]. destruct H as [?|H]; [done|]. subst k'.
  destruct (view r now' k) as [v|] eqn:E; [|done]. pose proof (view_mono _ _ _ _ _ E Hn). congruence.
Qed.

Lemma full_key_or l key' h (now' : Z) :
  key' <> handle_key h \/ holder l now' key' <> Some (handle_token h) ->
  full_key l key' <> full_key l (handle_key h) \/ view (server l) now' (full_key l key') <> Some (handle_token h).
Proof. intros [Hne|Ht]; [left|by right]. intros E. by apply full_key_inj in E. Qed.

#[export] Program Instance redis_distributed_lock : DistributedLock redis_lock := {|
  lk_try := try_acquire;
  lk_release now h l := Ret (release now h l);
  lk_holder := holder;
|}.
Next Obligation. intros l now now' key tok H Hn. exact (view_mono _ _ _ _ _ H Hn). Qed.
Next Obligation.
  intros now wall tok key ttl l h l' [(e & [=] & _)|(a & s & Hs & -> & Hb & Ha)]%redis_try_acquire_inv.
  destruct a as [[]|]; [|done|by destruct Ha]. destruct Ha as [wall' [= ->]].
  apply set_done in Hs as (Hnone & Hsome & Hother). split; [done|]. split; [done|]. split; [done|].
  split.
  - intros now' Hn. apply Hsome. unfold from_millis, from_secs, nanos_per_milli, nanos_per_sec in *. lia.
  - intros now' key' Hn Hne. unfold holder, full_key in *. simpl. apply Hother; [done|].
    intros E. by apply (full_key_inj l) in E.
Qed.
Next Obligation.
  intros now wall tok key ttl l l' [(e & [=] & _)|(a & s & Hs & -> & Hb & Ha)]%redis_try_acquire_inv.
  destruct a as [[]|]; [by destruct Ha| |by destruct Ha]. apply set_refused in Hs as [Hsome Hsame].
  split; [done|]. intros now' key' Hn. unfold holder, full_key. simpl. by apply Hsame.
Qed.
Next Obligation.
  intros now wall tok key ttl l e l' [(e' & _ & ->)|(a & s & Hs & -> & Hb & Ha)]%redis_try_acquire_inv; [done|].
  intros now' key' tok' Hn Hh. destruct a as [[]|e']; [by destruct Ha|done|].
  eapply set_failed; [exact Hs|done|exact Hh].
Qed.
Next Obligation.
  intros now h l r l' [= H]. apply release_inv in H as [[[e ->] Hl]|(n & s & Hs & -> & ->)].
  - split; [eauto|]. intros now' key' Hn Hor. destruct Hl as [-> | ->]; [done|].
    unfold holder. simpl. apply release_script_view; [done|]. by apply full_key_or.
  - split.
    + intros Hh. left. unfold release_script in Hs. rewrite decide_True in Hs by done.
      injection Hs as <- <-. split; [done|]. unfold holder. simpl. by rewrite view_del, decide_True.
    + intros now' key' Hn Hor.
      assert (s = snd (release_script now (full_key l (handle_key h)) (handle_token h) (server l))) as ->
        by by rewrite Hs.
      unfold holder. simpl. apply release_script_view; [done|]. by apply full_key_or.
Qed.

(** ** Sequences of commands

    The server runs one command at a time, so concurrent clients amount to a
    sequence of operations in the order of the instants it runs them. *)
Inductive op : Type :=
| OpTry (now wall : Z) (uuid key : string) (ttl_secs : Z)
| OpRelease (now : Z) (h : lock_handle)
| OpExtend (now : Z) (h : lock_handle) (ttl_secs : Z).
Definition op_now (o : op) : Z :=
  match o with OpTry now _ _ _ _ => now | OpRelease now _ => now | OpExtend now _ _ => now end.
Definition run_op (o : op) (l : redis_lock) : outcome redis_lock :=
  match o with
  | OpTry now wall uuid key ttl => r ← try_acquire now wall uuid key ttl l; Ret (snd r)
  | OpRelease now h => Ret (snd (release now h l))
  | OpExtend now h ttl => r ← extend now h ttl l; Ret (snd r)
  end.
Fixpoint run_ops (os : list op) (l : redis_lock) : outcome redis_lock :=
  match os with [] => Ret l | o :: os => l ← run_op o l; run_ops os l end.
Fixpoint in_order (t : Z) (os : list op) : bool :=
  match os with [] => true | o :: os => (t <=? op_now o) && in_order (op_now o) os end.
Fixpoint end_time (t : Z) (os : list op) : Z :=
  match os with [] => t | o :: os => end_time (op_now o) os end.

(** An operation of somebody who cannot present [h]'s proof of ownership. *)
Definition foreign (h : lock_handle) (o : op) : bool :=
  match o with
  | OpTry _ _ _ _ _ => true
  | OpRelease _ h' | OpExtend _ h' _ =>
      negb (String.eqb (handle_key h') (handle_key h)) || negb (String.eqb (handle_token h') (handle_token h))
  end.
Definition held (h : lock_handle) (t expiry : Z) (l : redis_lock) : Prop :=
  forall now', t <= now' < expiry -> holder l now' (handle_key h) = Some (handle_token h).

Lemma with_server_prefix s l : key_prefix (with_server s l) = key_prefix l.
Proof. done. Qed.

Lemma extend_script_view now k tok ms r now' k' : now <= now' -> k' <> k \/ view r now k <> Some tok ->
  view (snd (extend_script now k tok ms r)) now' k' = view r now' k'.
Proof.
  intros Hn H. unfold extend_script. case_decide as Hv; simpl; [|done]. rewrite view_pexpire by done.
  case_decide as Hk; [|done]. by destruct H.
Qed.

Lemma foreign_keeps_lock h t expiry o l l' :
  foreign h o = true -> t <= op_now o -> held h t expiry l -> run_op o l = Ret l' ->
  held h (op_now o) expiry l'.
Proof.
  intros Hf Ht Hh Hrun now' Hn.
  assert (holder l now' (handle_key h) = Some (handle_token h)) as Hl by (apply Hh; lia).
  assert (holder l (op_now o) (handle_key h) = Some (handle_token h)) as Hl0 by (apply Hh; lia).
  destruct o as [now wall uuid key ttl|now h'|now h' ttl]; simpl in *.
  - destruct (try_acquire now wall uuid key ttl l) as [[r l1]|] eqn:E; [|done]. injection Hrun as <-. simpl.
    destruct r as [[h1|]|e].
    + destruct (lk_try_some (DistributedLock := redis_distributed_lock) _ _ _ _ _ _ _ _ E) as (Hnone & _ & _ & _ & Hother).
      destruct (decide (key = handle_key h)) as [->|Hne]; [simpl in Hnone; congruence|].
      rewrite <- Hl. apply (Hother now' (handle_key h)); [lia|congruence].
    + destruct (lk_try_none (DistributedLock := redis_distributed_lock) _ _ _ _ _ _ _ E) as [_ Hsame]. rewrite <- Hl. apply (Hsame now'). lia.
    + apply (lk_try_err (DistributedLock := redis_distributed_lock) _ _ _ _ _ _ _ _ E now'); [lia|done].
  - injection Hrun as <-. destruct (release now h' l) as [r l1] eqn:E. simpl.
    destruct (lk_release_spec (DistributedLock := redis_distributed_lock) now h' l r l1 ltac:(simpl; by rewrite E)) as [_ Hsame].
    rewrite <- Hl. apply (Hsame now' (handle_key h)); [lia|]. simpl. rewrite Hl.
    apply orb_true_iff in Hf as [Hf|Hf]; apply negb_true_iff, String.eqb_neq in Hf; [left|right]; congruence.
  - destruct (extend now h' ttl l) as [[r l1]|] eqn:E; [|done]. injection Hrun as <-. simpl.
    unfold extend in E. destruct (get_conn l); [|by injection E as _ <-].
    unfold u64_mul, checked in E. destruct (_ && _); [|done]. simpl in E.
    assert (forall s, s = server l \/
        s = snd (extend_script now (full_key l (handle_key h')) (handle_token h') (ttl * 1000) (server l)) ->
      view s now' (full_key l (handle_key h)) = Some (handle_token h)) as Hs.
    { intros s [-> | ->]; [done|]. rewrite extend_script_view; [done|lia|].
      apply orb_true_iff in Hf as [Hf|Hf]; apply negb_true_iff, String.eqb_neq in Hf.
      - left. intros E'. apply full_key_inj in E'. congruence.
      - destruct (decide (handle_key h' = handle_key h)) as [Hk|Hne].
        + right. rewrite Hk. unfold holder in Hl0. rewrite Hl0. congruence.
        + left. intros E'. apply full_key_inj in E'. congruence. }
    destruct (eval _ _ _) as [[n|e] s] eqn:Ev; injection E as _ <-; unfold holder; simpl; apply Hs.
    + right. apply eval_done in Ev. by rewrite Ev.
    + by apply eval_failed in Ev.
Qed.

Lemma foreigners_keep_lock h t expiry os l l' :
  forallb (foreign h) os = true -> in_order t os = true -> held h t expiry l -> run_ops os l = Ret l' ->
  held h (end_time t os) expiry l' /\ key_prefix l' = key_prefix l.
Proof.
  revert t l. induction os as [|o os IH]; intros t l; simpl; [by intros _ _ ? [= <-]|].
  intros [Hf Hfs]%andb_true_iff [Ht%Z.leb_le Hts]%andb_true_iff Hh. unfold mbind, outcome_bind.
  destruct (run_op o l) as [l1|] eqn:E; [|done]. intros Hrun.
  destruct (IH _ _ Hfs Hts (foreign_keeps_lock _ _ _ _ _ _ Hf Ht Hh E) Hrun) as [H1 H2].
  split.
  - exact H1.
  - rewrite H2. destruct o as [now wall uuid key ttl|now h'|now h' ttl]; simpl in E.
    + destruct (try_acquire _ _ _ _ _ _) as [[r l2]|] eqn:Et; [|done]. injection E as <-.
      by apply redis_try_acquire_inv in Et as [(e & _ & ->)|(a & s & _ & -> & _)].
    + injection E as <-. destruct (release now h' l) as [r l2] eqn:Er.
      by apply release_inv in Er as [[_ [-> | ->]]|(n & s & _ & _ & ->)].
    + destruct (extend now h' ttl l) as [[r l2]|] eqn:Ee; [|done]. injection E as <-.
      unfold extend in Ee. destruct (get_conn l); [|by injection Ee as _ <-].
      destruct (u64_mul ttl 1000); [|done]. simpl in Ee. destruct (eval _ _ _) as [[] s]; by injection Ee as _ <-.
Qed.
End redis_lock.

(** C28: mutual exclusion through Redis: once an attempt returned a handle,
    then whatever the other clients send the server - attempts, releases and
    extensions that do not present the handle's token, each possibly failing
    with or without having been applied - until the time to live has run out
    nobody's attempt on the key succeeds, and the owner's release frees it
    unless the release itself fails. *)
Theorem redis_lock_exclusive {R} `{!Redis R} (now wall ttl : Z) (tok key : string) (h : lock_handle)
    (l0 l1 l2 : redis_lock) (os : list op) :
  try_acquire now wall tok key ttl l0 = Ret (Ok (Some h), l1) ->
  forallb (foreign h) os = true -> in_order now os = true -> run_ops os l1 = Ret l2 ->
  forall now', end_time now os <= now' < now + from_secs ttl ->
    (forall wall' uuid ttl' r l3, try_acquire now' wall' uuid key ttl' l2 = Ret (r, l3) ->
       r = Ok None \/ exists e, r = Err e) /\
    (forall r l3, release now' h l2 = (r, l3) ->
       r = Ok true /\ holder l3 now' key = None \/ exists e, r = Err e).
Proof.
  intros Ht Hf Hord Hrun now' Hn.
  destruct (lk_try_some (DistributedLock := redis_distributed_lock) _ _ _ _ _ _ _ _ Ht) as (_ & Hk & Htok & Hheld & _). simpl in Hheld.
  destruct (foreigners_keep_lock h now (now + from_secs ttl) os l1 l2 Hf Hord) as [Hh _]; [|done|].
  { intros t Htt. rewrite Hk, Htok. apply Hheld. lia. }
  specialize (Hh now' ltac:(lia)). rewrite Hk in Hh. split.
  - intros wall' uuid ttl' r l3 E. destruct r as [[h'|]|e]; [|by left|right; eauto].
    destruct (lk_try_some (DistributedLock := redis_distributed_lock) _ _ _ _ _ _ _ _ E) as [Hnone _]. simpl in Hnone. congruence.
  - intros r l3 E. destruct (lk_release_spec (DistributedLock := redis_distributed_lock) now' h l2 r l3 ltac:(simpl; by rewrite E)) as [Hown _].
    rewrite Hk in Hown. exact (Hown Hh).
Qed.
End RedisLock.

(** * Witness: a server that keeps its keys in a map *)
Module MapRedis.
Abbreviation map_redis := (gmap string (string * Z)).
Definition get (m : map_redis) (now : Z) (k : string) : option string :=
  '(v, expiry) ← m !! k; if now <? expiry then Some v else None.
Definition set_nx (now : Z) (k v : string) (ms : Z) (m : map_redis) : result string bool * map_redis :=
  if ms <=? 0 then (Err "invalid expire time in 'set' command", m)
  else
    match get m now k with
    | Some _ => (Ok false, m)
    | None => (Ok true, <[k := (v, now + from_millis ms)]> m)
    end.
Definition set_expiry (now : Z) (k : string) (ms : Z) (m : map_redis) : map_redis :=
  match get m now k with Some v => <[k := (v, now + from_millis ms)]> m | None => m end.

Lemma get_insert (m : map_redis) k v t now k' :
  get (<[k := (v, t)]> m) now k' = if decide (k' = k) then if now <? t then Some v else None else get m now k'.
Proof.
  unfold get. destruct (decide (k' = k)) as [->|Hne]; [by rewrite lookup_insert_eq|].
  by rewrite lookup_insert_ne.
Qed.
Lemma get_mono (m : map_redis) now now' k v : get m now' k = Some v -> now <= now' -> get m now k = Some v.
Proof.
  unfold get. destruct (m !! k) as [[x t]|]; [|done]. simpl. intros H Hn.
  destruct (now' <? t) eqn:E; [|done]. bools. by rewrite (proj2 (Z.ltb_lt now t)) by lia.
Qed.

#[export] Program Instance map_redis_server : Redis map_redis := {|
  view := get;
  set_nx_px := set_nx;
  del k m := delete k m;
  pexpire := set_expiry;
  eval A f m := let '(a, m) := f m in (Ok a, m);
|}.
Next Obligation. exact get_mono. Qed.
Next Obligation.
  intros now k v ms m m'. unfold set_nx. destruct (ms <=? 0) eqn:E; [done|].
  destruct (get m now k) eqn:Eg; intros [= <-]. split; [done|]. split.
  - intros now' Hn. rewrite get_insert, decide_True by done. by rewrite (proj2 (Z.ltb_lt _ _)) by lia.
  - intros now' k' _ Hne. by rewrite get_insert, decide_False.
Qed.
Next Obligation.
  intros now k v ms m m'. unfold set_nx. destruct (ms <=? 0); [done|].
  destruct (get m now k) eqn:Eg; intros [= <-]. split; [done|]. done.
Qed.
Next Obligation.
  intros now k v ms m e m'. unfold set_nx. destruct (ms <=? 0); [by intros [= _ <-]|].
  by destruct (get m now k).
Qed.
Next Obligation.
  intros k m now k'. unfold get. destruct (decide (k' = k)) as [->|Hne]; [by rewrite lookup_delete_eq|].
  by rewrite lookup_delete_ne.
Qed.
Next Obligation.
  intros now k ms m now' k' Hn. unfold set_expiry. destruct (get m now k) as [v|] eqn:E.
  - rewrite get_insert. done.
  - destruct (decide (k' = k)) as [->|]; [|done]. destruct (get m now' k) eqn:E'.
    + pose proof (get_mono _ _ _ _ _ E' Hn). congruence.
    + by destruct (now' <? _).
Qed.
Next Obligation. intros A f m a m'. simpl. destruct (f m). by intros [= <- <-]. Qed.
Next Obligation. intros A f m e m'. simpl. by destruct (f m). Qed.

Definition free : RedisLock.redis_lock (R := map_redis) := RedisLock.MkRedisLock "rinfra:lock:" true ∅.
Definition job : lock_handle := LockHandle "job" "t1" 0.
Definition locked : RedisLock.redis_lock (R := map_redis) :=
  RedisLock.MkRedisLock "rinfra:lock:" true {["rinfra:lock:job" := ("t1", from_secs 10)]}.
Definition others : list RedisLock.op :=
  [RedisLock.OpTry (from_secs 1) 0 "t2" "job" 5;
   RedisLock.OpRelease (from_secs 2) (LockHandle "job" "t2" 0);
   RedisLock.OpExtend (from_secs 3) (LockHandle "job" "t0" 0) 60].

Lemma redis_lock_exclusive_witness :
  RedisLock.try_acquire 0 0 "t1" "job" 10 free = Ret (Ok (Some job), locked) /\
  forall wall' uuid ttl' r l3, RedisLock.try_acquire (from_secs 9) wall' uuid "job" ttl' locked = Ret (r, l3) ->
    r = Ok None \/ exists e, r = Err e.
Proof.
  split; [vm_compute; reflexivity|].
  refine (proj1 (RedisLock.redis_lock_exclusive 0 0 10 "t1" "job" job free locked locked others _ _ _ _
    (from_secs 9) _)); [vm_compute; reflexivity..|].
  split; vm_compute; [discriminate|reflexivity].
Defined.
End MapRedis.
