(* ===== verification/Timer.v ===== *)
(** The timer engine: task definitions ([rinfra-core/src/timer/mod.rs]) and
    the in-process engine ([rinfra-plugins/src/timer/simple.rs]), whose spawned
    loops are state machines interleaved at their await points and whose
    cluster-scoped tasks are coordinated through any [DistributedLock]. *)

From S2P Require Import Prelude Errors Lock.

(** * Task definitions *)
Inductive timer_schedule : Type :=
| Cron (expr : string)
| Interval (secs : Z)
| Delay (secs : Z)
| Once (at_unix_ms : Z).

Inductive timer_scope : Type := Node | Cluster.
#[export] Instance timer_scope_eq_dec : EqDecision timer_scope.
Proof. solve_decision. Defined.

Record timer_task : Type := TimerTask {
  task_id : string;
  task_name : string;
  schedule_of : timer_schedule;
  task_scope : timer_scope;
  lock_ttl_secs : option Z;
  payload : list Byte.byte;
}.

Definition DEFAULT_LOCK_TTL_SECS : Z := 300.
(** [TimerTask::new] ([uuid] is the generated id) and its builders. *)
Definition new_task (uuid name : string) (schedule : timer_schedule) (payload : list Byte.byte) :
    timer_task := TimerTask uuid name schedule Node None payload.
Definition with_scope (s : timer_scope) (t : timer_task) : timer_task :=
  TimerTask (task_id t) (task_name t) (schedule_of t) s (lock_ttl_secs t) (payload t).
Definition lock_ttl (secs : Z) (t : timer_task) : timer_task :=
  TimerTask (task_id t) (task_name t) (schedule_of t) (task_scope t) (Some secs) (payload t).
Definition effective_lock_ttl (t : timer_task) : Z :=
  default DEFAULT_LOCK_TTL_SECS (lock_ttl_secs t).

Inductive timer_task_status : Type := Scheduled | Running | Completed | Failed | Cancelled.
#[export] Instance timer_task_status_eq_dec : EqDecision timer_task_status.
Proof. solve_decision. Defined.

(** [struct TaskState] and [struct TimerTaskInfo] *)
Record task_state : Type := TaskState {
  status : timer_task_status;
  last_run : option Z;
  next_run : option Z;
  run_count : Z;
}.
Record timer_task_info : Type := TimerTaskInfo {
  info_id : string;
  info_name : string;
  info_schedule : timer_schedule;
  info_scope : timer_scope;
  info_state : task_state;
}.

Definition recurring (t : timer_task) : bool :=
  match schedule_of t with Cron _ | Interval _ => true | Delay _ | Once _ => false end.

(** * The engine *)
Module SimpleTimer.
Section simple_timer.

(** The cron library: an expression parses to a schedule or an error message,
    and a schedule has a next fire time (wall clock, nanoseconds) or none. *)
Context {cron : Type}.
Variable cron_parse : string -> result string cron.
Variable cron_next : cron -> Z -> option Z.

(** The lock service is any implementation of the interface. *)
Context {L : Type} `{DL : DistributedLock L}.

(** What one step of a loop reads from outside: the monotonic clock, the wall
    clock (nanoseconds), a fresh token, and the handler's answer. *)
Record input : Type := Input {
  in_now : Z;
  in_wall : Z;
  in_uuid : string;
  in_answer : Result unit;
}.
(** [now_ms] *)
Definition now_ms (wall : Z) : Z := as_u64 (as_millis wall).

(** [compute_next_fire] *)
Definition compute_next_fire (schedule : timer_schedule) (wall : Z) : Result (option Z) :=
  match schedule with
  | Cron expr =>
      match cron_parse expr with
      | Err e => fail TimerInvalidSchedule
                   ("invalid cron expression '" +:+ expr +:+ "': " +:+ e)
      | Ok sched =>
          match cron_next sched wall with
          | None => fail TimerInvalidSchedule
                      ("cron expression '" +:+ expr +:+ "' has no upcoming fire time")
          | Some next => Ok (Some (if wall <=? next then next - wall else from_millis 100))
          end
      end
  | Interval secs => Ok (Some (from_secs secs))
  | Delay secs => Ok (Some (from_secs secs))
  | Once at_unix_ms =>
      let now := now_ms wall in
      if at_unix_ms <=? now then Ok (Some 0) else Ok (Some (from_millis (at_unix_ms - now)))
  end.

(** The spawned loop between its await points. *)
Inductive loop_pc : Type :=
| AtTop
| Sleeping (wake_at : Z)
| AtPermit
| AtLock
| InHandler (lock_handle : option lock_handle)
| AtRelease (lock_handle : option lock_handle) (r : Result unit)
| AtFinish (r : Result unit)
| Done
| Aborted.

Record timer_loop : Type := TimerLoop { ltask : timer_task; lstate : task_state; pc : loop_pc }.

Definition goto (p : loop_pc) (lp : timer_loop) : timer_loop :=
  TimerLoop (ltask lp) (lstate lp) p.
Definition set_status (st : timer_task_status) (lp : timer_loop) : timer_loop :=
  let s := lstate lp in
  TimerLoop (ltask lp) (TaskState st (last_run s) (next_run s) (run_count s)) (pc lp).
Definition set_next_run (ms : Z) (lp : timer_loop) : timer_loop :=
  let s := lstate lp in
  TimerLoop (ltask lp) (TaskState (status s) (last_run s) (Some ms) (run_count s)) (pc lp).

Definition lock_key (t : timer_task) : string := "timer:" +:+ task_id t.
Definition need_lock (has_lock : bool) (t : timer_task) : bool :=
  bool_decide (task_scope t = Cluster) && has_lock.

(** One step of [spawn_timer_loop]'s loop: from one await point to the next.
    [permits] is the engine's semaphore, [l] the lock service. *)
Definition loop_step (has_lock : bool) (i : input) (lp : timer_loop) (permits : nat) (l : L) :
    outcome (timer_loop * nat * L) :=
  let t := ltask lp in
  match pc lp with
  | AtTop =>
      match compute_next_fire (schedule_of t) (in_wall i) with
      | Ok (Some delay) =>
          next ← u64_add (now_ms (in_wall i)) (as_u64 (as_millis delay));
          Ret (goto (Sleeping (in_now i + delay)) (set_status Scheduled (set_next_run next lp)),
               permits, l)
      | Ok None => Ret (goto Done lp, permits, l)
      | Err _ => Ret (goto Done (set_status Failed lp), permits, l)
      end
  | Sleeping wake_at =>
      if wake_at <=? in_now i then Ret (goto AtPermit lp, permits, l) else Ret (lp, permits, l)
  | AtPermit =>
      match permits with
      | O => Ret (lp, permits, l)
      | S permits => Ret (goto AtLock lp, permits, l)
      end
  | AtLock =>
      if need_lock has_lock t then
        r ← lk_try (in_now i) (in_wall i) (in_uuid i) (lock_key t) (effective_lock_ttl t) l;
        match r with
        | (Ok (Some h), l) => Ret (goto (InHandler (Some h)) (set_status Running lp), permits, l)
        | (Ok None, l) => Ret (goto (if recurring t then AtTop else Done) lp, S permits, l)
        | (Err _, l) => Ret (goto (InHandler None) (set_status Running lp), permits, l)
        end
      else Ret (goto (InHandler None) (set_status Running lp), permits, l)
  | InHandler h => Ret (goto (AtRelease h (in_answer i)) lp, permits, l)
  | AtRelease (Some h) r =>
      if has_lock then
        x ← lk_release (in_now i) h l;
        Ret (goto (AtFinish r) lp, permits, snd x)
      else Ret (goto (AtFinish r) lp, permits, l)
  | AtRelease None r => Ret (goto (AtFinish r) lp, permits, l)
  | AtFinish r =>
      let s := lstate lp in
      count ← u64_add (run_count s) 1;
      let st := if recurring t then Scheduled else if is_ok r then Completed else Failed in
      Ret (TimerLoop t (TaskState st (Some (now_ms (in_wall i))) (next_run s) count)
             (if recurring t then AtTop else Done), S permits, l)
  | Done | Aborted => Ret (lp, permits, l)
  end.

(** Where a loop holds one of the semaphore's permits. *)
Definition holds_permit (lp : timer_loop) : bool :=
  match pc lp with
  | AtLock | InHandler _ | AtRelease _ _ | AtFinish _ => true
  | _ => false
  end.

(** [struct SimpleTimerEngine].  A spawned loop is known by its position in
    [loops], which is what a [JoinHandle] designates; a loop whose handle is
    dropped keeps running. *)
Record engine : Type := Engine {
  tasks : gmap string (timer_task * nat);
  loops : list timer_loop;
  concurrency : nat;
  has_lock : bool;
}.

Definition new (max_concurrent : nat) : engine := Engine ∅ [] max_concurrent false.
Definition with_lock (e : engine) : engine := Engine (tasks e) (loops e) (concurrency e) true.

(** [schedule] *)
Definition schedule (wall : Z) (task : timer_task) (e : engine) : outcome (Result unit * engine) :=
  match compute_next_fire (schedule_of task) wall with
  | Err err => Ret (Err err, e)
  | Ok initial_next =>
      next_run ← match initial_next with
                 | Some d => n ← u64_add (now_ms wall) (as_u64 (as_millis d)); Ret (Some n)
                 | None => Ret None
                 end;
      let lp := TimerLoop task (TaskState Scheduled None next_run 0) AtTop in
      Ret (Ok tt, Engine (<[task_id task := (task, length (loops e))]> (tasks e))
                    (loops e ++ [lp]) (concurrency e) (has_lock e))
  end.

(** [handle.abort()]: the loop stops at its await point and drops its permit. *)
Definition abort (j : nat) (e : engine) : engine :=
  match loops e !! j with
  | None => e
  | Some lp =>
      Engine (tasks e)
        (<[j := match pc lp with Done => lp | _ => goto Aborted lp end]> (loops e))
        (if holds_permit lp then S (concurrency e) else concurrency e) (has_lock e)
  end.

Definition set_tasks (m : gmap string (timer_task * nat)) (e : engine) : engine :=
  Engine m (loops e) (concurrency e) (has_lock e).
Definition set_loops (f : list timer_loop -> list timer_loop) (e : engine) : engine :=
  Engine (tasks e) (f (loops e)) (concurrency e) (has_lock e).

(** [cancel] *)
Definition cancel (task_id : string) (e : engine) : Result bool * engine :=
  match tasks e !! task_id with
  | Some (_, j) =>
      let e := abort j (set_tasks (delete task_id (tasks e)) e) in
      (Ok true, set_loops (alter (set_status Cancelled) j) e)
  | None => (Ok false, e)
  end.

(** [list_tasks] *)
Definition list_tasks (e : engine) : list timer_task_info :=
  omap (fun '(_, (t, j)) =>
          lp ← loops e !! j;
          Some (TimerTaskInfo (task_id t) (task_name t) (schedule_of t) (task_scope t) (lstate lp)))
    (map_to_list (tasks e)).

(** [shutdown] *)
Definition shutdown (e : engine) : Result unit * engine :=
  (Ok tt, foldr abort (set_tasks ∅ e) (map (fun x => snd (snd x)) (map_to_list (tasks e)))).

End simple_timer.

(** * Engines sharing a lock service

    Operations of the engines of a cluster and steps of their loops, in any
    order: each node has its own engine, all share the lock service. *)
Section world.
Context {cron : Type}.
Variable cron_parse : string -> result string cron.
Variable cron_next : cron -> Z -> option Z.
Context {L : Type} `{DL : DistributedLock L}.

Inductive engine_op : Type :=
| DoSchedule (wall : Z) (task : timer_task)
| DoCancel (id : string)
| DoShutdown
| DoLoop (j : nat) (i : input).

Definition engine_step (o : engine_op) (e : engine) (l : L) : outcome (engine * L) :=
  match o with
  | DoSchedule wall task => r ← schedule cron_parse cron_next wall task e; Ret (snd r, l)
  | DoCancel id => Ret (snd (cancel id e), l)
  | DoShutdown => Ret (snd (shutdown e), l)
  | DoLoop j i =>
      match loops e !! j with
      | None => Ret (e, l)
      | Some lp =>
          r ← loop_step cron_parse cron_next (has_lock e) i lp (concurrency e) l;
          let '(lp, permits, l) := r in
          Ret (Engine (tasks e) (<[j := lp]> (loops e)) permits (has_lock e), l)
      end
  end.

Record world : Type := World { nodes : list engine; lock : L }.

Definition world_step (x : nat * engine_op) (w : world) : outcome world :=
  match nodes w !! fst x with
  | None => Ret w
  | Some e =>
      r ← engine_step (snd x) e (lock w);
      Ret (World (<[fst x := fst r]> (nodes w)) (snd r))
  end.

Fixpoint world_steps (xs : list (nat * engine_op)) (w : world) : outcome world :=
  match xs with
  | [] => Ret w
  | x :: xs => w ← world_step x w; world_steps xs w
  end.

(** Invariants of engines hold in every world reached. *)
Lemma world_step_nodes (Q : nat -> engine -> Prop) x w w' :
  (forall n o e l e' l', Q n e -> engine_step o e l = Ret (e', l') -> Q n e') ->
  (forall n e, nodes w !! n = Some e -> Q n e) -> world_step x w = Ret w' ->
  (forall n e, nodes w' !! n = Some e -> Q n e).
Proof.
  intros Hstep Hw. unfold world_step. destruct x as [n o]; simpl.
  destruct (nodes w !! n) as [e|] eqn:En; [|by intros [= <-]].
  destruct (engine_step _ _ _) as [[e1 l1]|] eqn:E; simpl; [|done]. intros [= <-]. simpl.
  intros n' e' [(<- & <- & _)|[_ ?]]%list_lookup_insert_Some; eauto.
Qed.

Lemma world_steps_nodes (Q : nat -> engine -> Prop) xs w w' :
  (forall n o e l e' l', Q n e -> engine_step o e l = Ret (e', l') -> Q n e') ->
  (forall n e, nodes w !! n = Some e -> Q n e) -> world_steps xs w = Ret w' ->
  (forall n e, nodes w' !! n = Some e -> Q n e).
Proof.
  intros Hstep. revert w. induction xs as [|x xs IH]; intros w Hw; simpl; [by intros [= <-]|].
  destruct (world_step x w) as [w1|] eqn:E; simpl; [|done].
  apply IH. by eapply world_step_nodes.
Qed.

Lemma schedule_inv wall t e r e' :
  schedule cron_parse cron_next wall t e = Ret (r, e') ->
  e' = e \/ r = Ok tt /\ exists next, e' =
    Engine (<[task_id t := (t, length (loops e))]> (tasks e))
      (loops e ++ [TimerLoop t (TaskState Scheduled None next 0) AtTop])
      (concurrency e) (has_lock e).
Proof.
  unfold schedule. destruct (compute_next_fire _ _ _ _) as [[d|]|err]; simpl.
  - destruct (u64_add _ _); simpl; [|done]. intros [= <- <-]. eauto.
  - intros [= <- <-]. eauto.
  - intros [= <- <-]. eauto.
Qed.

(** ** How an operation changes the loops of its engine

    A predicate on loops holds of every loop after an operation if fresh
    loops satisfy it and the loops' own steps, abortion and cancellation
    preserve it. *)
Section loop_invariant.
Variable P : nat -> timer_loop -> Prop.
Definition all_loops (e : engine) : Prop := forall j lp, loops e !! j = Some lp -> P j lp.
Hypothesis P_abort : forall j lp, P j lp -> P j (goto Aborted lp).
Hypothesis P_cancel : forall j lp, P j lp -> pc lp = Done \/ pc lp = Aborted ->
  P j (set_status Cancelled lp).

Lemma abort_loops j e : all_loops e -> all_loops (abort j e).
Proof using P_abort.
  intros H. unfold abort. destruct (loops e !! j) as [lp|] eqn:E; [|done].
  intros j' lp' [(<- & <- & _)|[_ ?]]%list_lookup_insert_Some; [|auto].
  specialize (H _ _ E). destruct (pc lp); auto.
Qed.

Lemma shutdown_loops e : all_loops e -> all_loops (snd (shutdown e)).
Proof using P_abort.
  intros H. unfold shutdown; simpl. generalize (map (fun x => snd (snd x)) (map_to_list (tasks e))).
  intros js. induction js as [|j js IH]; simpl; [done|]. by apply abort_loops.
Qed.

Lemma abort_stops j e lp :
  loops (abort j e) !! j = Some lp -> pc lp = Done \/ pc lp = Aborted.
Proof.
  unfold abort. destruct (loops e !! j) as [lp'|] eqn:E; [|congruence]. simpl.
  rewrite list_lookup_insert_eq by eauto using lookup_lt_Some.
  intros [= <-]. destruct (pc lp') eqn:E2; simpl; auto.
Qed.

Lemma cancel_loops id e : all_loops e -> all_loops (snd (cancel id e)).
Proof using P_abort P_cancel.
  intros H. unfold cancel. destruct (tasks e !! id) as [[t j]|]; [|done]. simpl.
  set (e1 := set_tasks _ e). assert (H1 : all_loops (abort j e1)) by by apply abort_loops.
  intros j' lp'. simpl. destruct (decide (j' = j)) as [->|].
  - rewrite list_lookup_alter_eq. intros (lp & Hlp & ->)%fmap_Some_1.
    apply P_cancel; [auto|by eapply abort_stops].
  - rewrite list_lookup_alter_ne by done. apply H1.
Qed.

Hypothesis P_fresh : forall j t next, P j (TimerLoop t (TaskState Scheduled None next 0) AtTop).

Lemma engine_step_loops o e l e' l' :
  (forall hl j i lp n (l1 : L) lp' n' l1', o = DoLoop j i -> P j lp ->
     loop_step cron_parse cron_next hl i lp n l1 = Ret (lp', n', l1') -> P j lp') ->
  all_loops e -> engine_step o e l = Ret (e', l') -> all_loops e'.
Proof using P_abort P_cancel P_fresh.
  intros Hstep H. destruct o as [wall t|id| |j i]; simpl.
  - destruct (schedule _ _ _ _ _) as [[r e1]|] eqn:E; simpl; [|done]. intros [= <- <-].
    apply schedule_inv in E as [->|(_ & next & ->)]; [done|].
    intros j lp [?|(_ & [_ <-]%list_lookup_singleton_Some)]%lookup_app_Some; auto.
  - intros [= <- <-]. by apply cancel_loops.
  - intros [= <- <-]. by apply shutdown_loops.
  - destruct (loops e !! j) as [lp|] eqn:E; [|by intros [= <- <-]].
    destruct (loop_step _ _ _ _ _ _ _) as [[[lp1 n1] l1]|] eqn:Es; simpl; [|done].
    intros [= <- <-] j' lp' [(<- & <- & _)|[_ ?]]%list_lookup_insert_Some; eauto.
Qed.
End loop_invariant.


(** ** One-shot tasks and the semaphore *)

(** A one-shot task's loop has not called its handler before it ends, and has
    called it at most once when it ends. *)
Definition one_shot_ok (lp : timer_loop) : Prop :=
  recurring (ltask lp) = false ->
  match pc lp with
  | Done | Aborted =>
      run_count (lstate lp) = 0 \/
      run_count (lstate lp) = 1 /\ status (lstate lp) ∈ [Completed; Failed; Cancelled]
  | _ => run_count (lstate lp) = 0
  end.

Ltac step_cases H :=
  unfold loop_step, mbind, outcome_bind in H; simpl in H;
  repeat match type of H with context [recurring ?t] => destruct (recurring t) eqn:? end;
  cases_in H; cases.

Lemma loop_step_task hl i lp n (l : L) lp' n' l' :
  loop_step cron_parse cron_next hl i lp n l = Ret (lp', n', l') -> ltask lp' = ltask lp.
Proof. destruct lp as [t s p]. intros H. by step_cases H. Qed.

Lemma one_shot_ok_step hl i lp n (l : L) lp' n' l' :
  one_shot_ok lp -> loop_step cron_parse cron_next hl i lp n l = Ret (lp', n', l') ->
  one_shot_ok lp'.
Proof.
  unfold one_shot_ok. intros H Hstep. rewrite (loop_step_task _ _ _ _ _ _ _ _ Hstep).
  intros Hrec. specialize (H Hrec). destruct lp as [t s p]; simpl in *.
  destruct p as [|w| | |h|[h|] r|r| |]; simpl in H; try (step_cases Hstep; auto; congruence).
  unfold loop_step in Hstep; simpl in Hstep. rewrite Hrec, H, u64_add_ret in Hstep by arith.
  simplify_eq/=. right. split; [done|]. destruct (is_ok r); set_solver.
Qed.

Lemma holds_permit_step hl i lp n (l : L) lp' n' l' :
  loop_step cron_parse cron_next hl i lp n l = Ret (lp', n', l') ->
  (n + Nat.b2n (holds_permit lp) = n' + Nat.b2n (holds_permit lp'))%nat.
Proof.
  destruct lp as [t s p]. unfold holds_permit. intros H. step_cases H; lia.
Qed.

(** Permits in the semaphore and permits held by loops. *)
Definition permits_total (e : engine) : nat := (concurrency e + count holds_permit (loops e))%nat.

Lemma abort_permits j e : permits_total (abort j e) = permits_total e.
Proof.
  unfold permits_total, abort. destruct (loops e !! j) as [lp|] eqn:E; [|done]; simpl.
  set (lp' := match pc lp with Done => lp | _ => goto Aborted lp end).
  pose proof (count_insert holds_permit _ _ lp' _ E) as Hc.
  assert (holds_permit lp' = false) as Hf by (unfold lp', holds_permit; by destruct (pc lp) eqn:Hp; rewrite ?Hp).
  rewrite Hf in Hc. destruct (holds_permit lp); simpl in *; lia.
Qed.

Lemma shutdown_permits e : permits_total (snd (shutdown e)) = permits_total e.
Proof.
  unfold shutdown; simpl. generalize (map (fun x => snd (snd x)) (map_to_list (tasks e))).
  intros js. induction js as [|j js IH]; simpl; [done|]. by rewrite abort_permits.
Qed.

Lemma cancel_permits id e : permits_total (snd (cancel id e)) = permits_total e.
Proof.
  unfold cancel. destruct (tasks e !! id) as [[t j]|]; [|done]. simpl.
  set (e1 := set_tasks _ e). change (permits_total e) with (permits_total e1).
  rewrite <- (abort_permits j e1). unfold permits_total. simpl. f_equal.
  destruct (loops (abort j e1) !! j) as [lp|] eqn:E.
  - rewrite (list_alter_Some _ _ _ _ E).
    pose proof (count_insert holds_permit _ _ (set_status Cancelled lp) _ E) as Hc.
    change (holds_permit (set_status Cancelled lp)) with (holds_permit lp) in Hc. lia.
  - f_equal. by apply list_alter_None.
Qed.

Lemma engine_step_permits o e l e' l' :
  engine_step o e l = Ret (e', l') -> permits_total e' = permits_total e.
Proof.
  destruct o as [wall t|id| |j i]; simpl.
  - destruct (schedule _ _ _ _ _) as [[r e1]|] eqn:E; simpl; [|done]. intros [= <- <-].
    apply schedule_inv in E as [->|(_ & next & ->)]; [done|].
    unfold permits_total; simpl. rewrite count_app, count_cons, count_nil. simpl. lia.
  - intros [= <- <-]. apply cancel_permits.
  - intros [= <- <-]. apply shutdown_permits.
  - destruct (loops e !! j) as [lp|] eqn:E; [|by intros [= <- <-]].
    destruct (loop_step _ _ _ _ _ _ _) as [[[lp1 n1] l1]|] eqn:Es; simpl; [|done].
    intros [= <- <-]. unfold permits_total; simpl.
    apply holds_permit_step in Es. pose proof (count_insert holds_permit _ _ lp1 _ E). lia.
Qed.

Definition in_handler (lp : timer_loop) : bool :=
  match pc lp with InHandler _ => true | _ => false end.

Lemma in_handler_permits ls : (count in_handler ls <= count holds_permit ls)%nat.
Proof.
  induction ls as [|lp ls IH]; [done|]. rewrite !count_cons.
  assert (Nat.b2n (in_handler lp) <= Nat.b2n (holds_permit lp))%nat; [|lia].
  unfold in_handler, holds_permit. destruct (pc lp); simpl; lia.
Qed.

(** C39: at no point do more handlers of an engine run than its configured
    [max_concurrent], and no permit is ever lost: whatever tasks are scheduled,
    cancelled mid-run or shut down, and however loops of several engines
    interleave, the free permits and the held ones add up to the configured
    number. *)
Theorem handlers_bounded (configs : list nat) (xs : list (nat * engine_op)) (l : L)
    (w : world) (n : nat) (e : engine) (max : nat) :
  world_steps xs (World (map (fun m => with_lock (new m)) configs) l) = Ret w ->
  nodes w !! n = Some e -> configs !! n = Some max ->
  (count in_handler (loops e) <= max)%nat /\
  (concurrency e + count holds_permit (loops e))%nat = max.
Proof.
  intros Hrun He Hmax.
  assert (permits_total e = max) as Ht.
  { refine (world_steps_nodes (fun n e => forall max, configs !! n = Some max ->
      permits_total e = max) xs _ _ _ _ Hrun n e He max Hmax); clear.
    - intros n o e l1 e' l' IH Hs max Hmax. rewrite (engine_step_permits _ _ _ _ _ Hs). auto.
    - intros n e (m & -> & Hm)%list_lookup_fmap_Some_1 max Hmax. simplify_eq. unfold permits_total.
      simpl. rewrite count_nil. lia. }
  unfold permits_total in Ht. split; [|done]. pose proof (in_handler_permits (loops e)). lia.
Qed.

(** A one-shot task ([Delay] or [Once]) never runs its handler twice, and
    a finished loop that ran it reports [Completed], [Failed] or [Cancelled]:
    for every sequence of operations and loop steps on any number of engines. *)
Theorem one_shot_runs_once (configs : list nat) (xs : list (nat * engine_op)) (l : L)
    (w : world) (n : nat) (e : engine) (lp : timer_loop) :
  world_steps xs (World (map (fun m => with_lock (new m)) configs) l) = Ret w ->
  nodes w !! n = Some e -> lp ∈ loops e -> recurring (ltask lp) = false ->
  0 <= run_count (lstate lp) <= 1 /\
  (in_handler lp = true -> run_count (lstate lp) = 0) /\
  (run_count (lstate lp) = 1 -> status (lstate lp) ∈ [Completed; Failed; Cancelled]).
Proof.
  intros Hrun He Hin Hrec.
  assert (one_shot_ok lp) as Hok.
  { apply list_elem_of_lookup in Hin as [j Hj].
    refine (world_steps_nodes (fun _ => all_loops (fun _ => one_shot_ok)) xs _ _ _ _ Hrun n e He j lp Hj);
      clear.
    - intros _ o e l e' l' H Hs. refine (engine_step_loops _ _ _ _ o e l e' l' _ H Hs).
      + intros _ [t s p] Hok Hr. specialize (Hok Hr). simpl in *. destruct p; auto.
      + intros _ [t s p] Hok Hp Hr. specialize (Hok Hr). simpl in *.
        destruct Hp as [->| ->]; (destruct Hok as [Hok|[Hok _]]; [left|right; split]; [done..|set_solver]).
      + by intros _ t next _.
      + eauto using one_shot_ok_step.
    - simpl. by intros n' e' (m & -> & _)%list_lookup_fmap_Some_1. }
  specialize (Hok Hrec). unfold in_handler.
  destruct (pc lp); try (rewrite Hok; repeat split; lia || done);
    destruct Hok as [->|[-> ?]]; repeat split; lia || done.
Qed.

(** ** Cluster-scoped tasks *)

Definition loop_at (w : world) (n j : nat) : option timer_loop :=
  e ← nodes w !! n; loops e !! j.

(** The token of the lock a loop holds. *)
Definition lp_token (lp : timer_loop) : option string :=
  match pc lp with
  | InHandler (Some h) | AtRelease (Some h) _ => Some (handle_token h)
  | _ => None
  end.

(** What a step of a loop does to the lock service. *)
Lemma loop_step_lock hl i lp n (l : L) lp' n' l' :
  loop_step cron_parse cron_next hl i lp n l = Ret (lp', n', l') ->
  l' = l \/
  (exists r, lk_try (in_now i) (in_wall i) (in_uuid i) (lock_key (ltask lp))
               (effective_lock_ttl (ltask lp)) l = Ret (r, l')) \/
  (exists h r, lp_token lp = Some (handle_token h) /\ lk_release (in_now i) h l = Ret (r, l')).
Proof.
  destruct lp as [t s p]. unfold lp_token. intros H. step_cases H; eauto 8.
  all: match goal with H : lk_release _ _ _ = Ret ?x |- _ => destruct x; simplify_eq/= end; eauto 8.
Qed.

(** A loop's token is the one it held before or its attempt's fresh one. *)
Lemma loop_step_token hl i lp n (l : L) lp' n' l' tok :
  loop_step cron_parse cron_next hl i lp n l = Ret (lp', n', l') ->
  lp_token lp' = Some tok -> lp_token lp = Some tok \/ tok = in_uuid i.
Proof.
  destruct lp as [t s p]. unfold lp_token. intros H.
  step_cases H; intros; simplify_eq/=; auto.
  all: right; match goal with H : lk_try _ _ _ _ _ _ = _ |- _ => by apply lk_try_some in H as (_ & _ & <- & _) end.
Qed.

(** The key is held with [tok] from [T] until [expiry]. *)
Definition held (key tok : string) (T expiry : Z) (l : L) : Prop :=
  forall now, T <= now < expiry -> lk_holder l now key = Some tok.

Lemma held_try key tok T expiry now wall uuid key' ttl l r l' :
  held key tok T expiry l -> T <= now < expiry ->
  lk_try now wall uuid key' ttl l = Ret (r, l') ->
  held key tok now expiry l' /\ (key' = key -> r = Ok None \/ exists e, r = Err e).
Proof.
  intros Hh Hnow Ht. destruct r as [[h|]|e].
  - pose proof (lk_try_some _ _ _ _ _ _ _ _ Ht) as (Hnone & _ & _ & _ & Hother).
    destruct (decide (key' = key)) as [->|Hne].
    + rewrite Hh in Hnone by done. done.
    + split; [|done]. intros t Ht'. rewrite Hother by (lia || congruence). apply Hh; lia.
  - destruct (lk_try_none _ _ _ _ _ _ _ Ht) as [_ Hsame]. split; [|auto].
    intros t Ht'. rewrite Hsame by lia. apply Hh; lia.
  - pose proof (lk_try_err _ _ _ _ _ _ _ _ Ht) as Hsame. split; [|eauto].
    intros t Ht'. apply Hsame; [lia|]. apply Hh; lia.
Qed.

Lemma held_release key tok T expiry now h l r l' :
  held key tok T expiry l -> T <= now -> handle_token h <> tok ->
  lk_release now h l = Ret (r, l') -> held key tok now expiry l'.
Proof.
  intros Hh Hnow Hne Hr. destruct (lk_release_spec _ _ _ _ _ Hr) as [_ Hsame].
  intros t Ht. assert (lk_holder l t key = Some tok) as Ho by (apply Hh; lia).
  rewrite Hsame; [done|lia|]. destruct (decide (key = handle_key h)) as [->|]; [|by left].
  right. congruence.
Qed.

(** Operations of everything but loop [(n, j)]: the loops read the clock in
    order, before [expiry], and draw tokens other than [tok]. *)
Fixpoint others (n j : nat) (tok : string) (T expiry : Z) (xs : list (nat * engine_op)) : Prop :=
  match xs with
  | [] => True
  | (n', DoLoop j' i) :: xs =>
      (n', j') <> (n, j) /\ in_uuid i <> tok /\ T <= in_now i < expiry /\
      others n j tok (in_now i) expiry xs
  | _ :: xs => others n j tok T expiry xs
  end.

(** No other loop holds a lock with token [tok]. *)
Definition unshared (n j : nat) (tok : string) (n' : nat) (e : engine) : Prop :=
  all_loops (fun j' lp => (n', j') <> (n, j) -> lp_token lp <> Some tok) e.

Lemma unshared_step n j tok n' o e l e' l' :
  (forall j' i, o = DoLoop j' i -> in_uuid i <> tok) ->
  unshared n j tok n' e -> engine_step o e l = Ret (e', l') -> unshared n j tok n' e'.
Proof.
  intros Ho H Hs. refine (engine_step_loops _ _ _ _ o e l e' l' _ H Hs).
  - by intros.
  - intros j' [t s p]. by unfold lp_token; simpl.
  - by intros.
  - intros hl j' i lp m l1 lp' m' l1' -> HP Hl Hne Htok.
    destruct (loop_step_token _ _ _ _ _ _ _ _ _ Hl Htok) as [?|?]; [by apply HP|].
    by apply (Ho j' i).
Qed.

Lemma others_step n j tok key T expiry x xs w w' :
  others n j tok T expiry (x :: xs) -> held key tok T expiry (lock w) ->
  (forall n' e, nodes w !! n' = Some e -> unshared n j tok n' e) ->
  world_step x w = Ret w' ->
  exists T', T <= T' /\ others n j tok T' expiry xs /\ held key tok T' expiry (lock w') /\
    (forall n' e, nodes w' !! n' = Some e -> unshared n j tok n' e).
Proof.
  intros Ho Hh Hu. unfold world_step. destruct x as [n' o]; simpl.
  destruct (nodes w !! n') as [e|] eqn:En.
  2: { intros [= <-]. destruct o as [| | |j' i]; simpl in Ho; [exists T..|];
         [by repeat split; auto; lia..|]. destruct Ho as (_ & _ & ? & ?).
       exists (in_now i). repeat split; auto; [lia|]. intros t ?. apply Hh; lia. }
  destruct (engine_step _ _ _) as [[e1 l1]|] eqn:E; simpl; [|done]. intros [= <-]. simpl.
  assert (forall n'' e'', <[n':=e1]> (nodes w) !! n'' = Some e'' -> unshared n j tok n'' e'') as Hu'.
  { intros n'' e'' [(<- & <- & _)|[_ ?]]%list_lookup_insert_Some; [|auto].
    refine (unshared_step _ _ _ _ _ _ _ _ _ _ (Hu _ _ En) E). intros j' i ->. apply Ho. }
  destruct o as [wall t|id| |j' i]; simpl in E, Ho.
  - destruct (schedule _ _ _ _ _) as [[r e2]|]; simplify_eq/=. exists T. by repeat split; auto; lia.
  - simplify_eq/=. exists T. by repeat split; auto; lia.
  - simplify_eq/=. exists T. by repeat split; auto; lia.
  - destruct Ho as (Hne & Huuid & Hnow & Ho). exists (in_now i).
    split; [lia|]. split; [done|]. split; [|done].
    destruct (loops e !! j') as [lp|] eqn:El; [|simplify_eq; intros t ?; apply Hh; lia].
    destruct (loop_step _ _ _ _ _ _ _) as [[[lp1 m1] l2]|] eqn:Es; simplify_eq/=.
    destruct (loop_step_lock _ _ _ _ _ _ _ _ Es) as [->|[[r Hr]|(h & r & Htok & Hr)]].
    + intros t ?; apply Hh; lia.
    + by eapply held_try.
    + eapply held_release; [done|lia| |done]. intros Heq. apply (Hu _ _ En _ _ El Hne). congruence.
Qed.

Lemma others_steps n j tok key T expiry xs ys w w' :
  others n j tok T expiry (xs ++ ys) -> held key tok T expiry (lock w) ->
  (forall n' e, nodes w !! n' = Some e -> unshared n j tok n' e) ->
  world_steps xs w = Ret w' ->
  exists T', T <= T' /\ others n j tok T' expiry ys /\ held key tok T' expiry (lock w').
Proof.
  revert T w. induction xs as [|x xs IH]; intros T w Ho Hh Hu; simpl.
  - intros [= <-]. exists T. repeat split; auto; lia.
  - destruct (world_step x w) as [w1|] eqn:E; simpl; [|done]. intros Hr.
    destruct (others_step _ _ _ _ _ _ _ _ _ _ Ho Hh Hu E) as (T1 & ? & Ho1 & Hh1 & Hu1).
    destruct (IH _ _ Ho1 Hh1 Hu1 Hr) as (T2 & ? & ? & ?). exists T2. repeat split; auto; lia.
Qed.

(** C2: a cluster-scoped task runs on one node at a time.  Once a loop has
    entered its handler with the cluster lock, no other loop for a task with
    the same id - on any node, under any interleaving of schedules,
    cancellations, shutdowns and loop steps that reads the clock within the
    lock's time to live - enters its handler: its attempt is skipped (until
    the next trigger for a recurring task, for good for a one-shot one), unless
    the lock service itself answers with an error. *)
Theorem cluster_task_exclusive (w0 w1 w2 w3 : world) (n j n' j' : nat) (i i' : input)
    (lp lp1 lp' lp3 : timer_loop) (h : lock_handle) (e' : engine)
    (xs : list (nat * engine_op)) :
  loop_at w0 n j = Some lp -> pc lp = AtLock ->
  (forall n2 j2 lp2, loop_at w0 n2 j2 = Some lp2 -> lp_token lp2 <> Some (in_uuid i)) ->
  world_step (n, DoLoop j i) w0 = Ret w1 ->
  loop_at w1 n j = Some lp1 -> pc lp1 = InHandler (Some h) ->
  others n j (in_uuid i) (in_now i) (in_now i + from_secs (effective_lock_ttl (ltask lp)))
    (xs ++ [(n', DoLoop j' i')]) ->
  world_steps xs w1 = Ret w2 ->
  nodes w2 !! n' = Some e' -> has_lock e' = true -> loops e' !! j' = Some lp' ->
  pc lp' = AtLock -> task_scope (ltask lp') = Cluster -> task_id (ltask lp') = task_id (ltask lp) ->
  world_step (n', DoLoop j' i') w2 = Ret w3 -> loop_at w3 n' j' = Some lp3 ->
  pc lp3 = (if recurring (ltask lp') then AtTop else Done) \/
  pc lp3 = InHandler None /\ exists err l3, lk_try (in_now i') (in_wall i') (in_uuid i')
    (lock_key (ltask lp')) (effective_lock_ttl (ltask lp')) (lock w2) = Ret (Err err, l3).
Proof.
  intros Hlp Hpc Hfresh Hstep Hlp1 Hpc1 Ho Hrun He' Hl Hlp' Hpc' Hsc Hid Hstep3 Hlp3.
  (* the first loop's attempt *)
  unfold loop_at in Hlp. destruct (nodes w0 !! n) as [e|] eqn:En; simplify_eq/=.
  revert Hstep. unfold world_step; simpl. rewrite En, Hlp.
  destruct (loop_step _ _ _ _ _ _ _) as [[[lpx m] l1]|] eqn:Es; simpl; [|done].
  intros [= <-]. unfold loop_at in Hlp1. simpl in Hlp1.
  rewrite list_lookup_insert_eq in Hlp1 by eauto using lookup_lt_Some. simpl in Hlp1.
  rewrite list_lookup_insert_eq in Hlp1 by eauto using lookup_lt_Some. simplify_eq.
  assert (held (lock_key (ltask lp)) (in_uuid i) (in_now i)
            (in_now i + from_secs (effective_lock_ttl (ltask lp))) l1) as Hh.
  { destruct lp as [t s p]; simpl in *; subst p. step_cases Es; simplify_eq/=.
    all: match goal with H : lk_try _ _ _ _ _ _ = _ |- _ =>
           apply lk_try_some in H as (_ & _ & _ & ? & _) end; done. }
  eapply others_steps in Hrun as (T & _ & Hlast & Hh2); [|exact Ho|exact Hh|].
  2: { intros n2 e2 He2 j2 lp2 Hlp2 Hne Htok. simpl in He2.
       apply list_lookup_insert_Some in He2 as [(<- & <- & _)|[_ ?]]; simpl in Hlp2.
       - rewrite list_lookup_insert_ne in Hlp2 by congruence.
         eapply Hfresh; [|exact Htok]. unfold loop_at. rewrite En. exact Hlp2.
       - eapply Hfresh; [|exact Htok]. unfold loop_at. rewrite H. exact Hlp2. }
  (* the other loop's attempt *)
  destruct Hlast as (_ & _ & Hnow & _). revert Hstep3. unfold world_step; simpl. rewrite He', Hlp'.
  destruct (loop_step _ _ (has_lock e') i' lp' _ (lock w2)) as [[[lpy m'] l3]|] eqn:Es'; simpl; [|done].
  intros [= <-].
  unfold loop_at in Hlp3. simpl in Hlp3.
  rewrite list_lookup_insert_eq in Hlp3 by eauto using lookup_lt_Some. simpl in Hlp3.
  rewrite list_lookup_insert_eq in Hlp3 by eauto using lookup_lt_Some. simplify_eq.
  unfold loop_step in Es'. rewrite Hpc' in Es'. unfold need_lock in Es'.
  rewrite bool_decide_true, Hl in Es' by done. simpl in Es'.
  destruct (lk_try _ _ _ _ _ _) as [[r l4]|] eqn:Et; simpl in Es'; [|done].
  destruct (held_try _ _ _ _ _ _ _ _ _ _ _ _ Hh2 Hnow Et) as [_ Hr].
  destruct Hr as [->|[err ->]]; [by unfold lock_key; rewrite Hid|left|right]; simplify_eq/=; eauto.
Qed.

(** ** Scheduling an id again *)

(** Scheduling a task under an id already in use replaces the table entry
    but leaves the old loop running: a later [cancel] of that id reports
    success and stops only the newer loop, and the old one can no longer be
    reached by any [cancel] of its id. *)
Theorem reschedule_keeps_old_loop (wall : Z) (t t0 : timer_task) (j : nat) (lp : timer_loop)
    (e e2 : engine) :
  tasks e !! task_id t = Some (t0, j) -> loops e !! j = Some lp ->
  schedule cron_parse cron_next wall t e = Ret (Ok tt, e2) ->
  exists e3, cancel (task_id t) e2 = (Ok true, e3) /\
    loops e3 !! j = Some lp /\
    pc <$> loops e3 !! length (loops e) = Some Aborted /\
    cancel (task_id t) e3 = (Ok false, e3).
Proof.
  intros Hid Hlp Hs. assert (j < length (loops e))%nat as Hj by eauto using lookup_lt_Some.
  unfold schedule in Hs. destruct (compute_next_fire _ _ _ _) as [d|err]; [|done].
  assert (exists next, e2 = Engine (<[task_id t := (t, length (loops e))]> (tasks e))
    (loops e ++ [TimerLoop t (TaskState Scheduled None next 0) AtTop]) (concurrency e) (has_lock e))
    as [next ->].
  { destruct d as [d|]; simpl in Hs; [destruct (u64_add _ _); simpl in Hs|]; simplify_eq; eauto. }
  unfold cancel at 1. simpl. rewrite lookup_insert_eq. eexists. split; [done|].
  unfold abort; simpl. rewrite lookup_app_r, Nat.sub_diag by done. simpl.
  rewrite list_lookup_alter_ne, list_lookup_alter_eq, list_lookup_insert_ne by lia.
  rewrite list_lookup_insert_eq by (rewrite length_app; simpl; lia). split; [|split; [done|]].
  - by apply lookup_app_l_Some.
  - unfold cancel; simpl. by rewrite delete_insert_eq, lookup_delete_eq.
Qed.
End world.

(** ** The engines at work: two nodes, an in-memory lock service, no cron *)
#[local] Existing Instance InMemoryLock.in_memory_distributed_lock.
Definition no_cron (expr : string) : result string unit := Err "unsupported".
Definition never (_ : unit) (_ : Z) : option Z := None.
Definition report : timer_task :=
  with_scope Cluster (new_task "report" "daily report" (Delay 10) []).
Definition at_sec (s : Z) (uuid : string) : input := Input (from_secs s) (from_secs s) uuid (Ok tt).
Definition two_nodes : world :=
  World (map (fun m => with_lock (new m)) [2; 2]%nat) InMemoryLock.new.
Definition wake (n j : nat) (uuid : string) : list (nat * engine_op) :=
  [(n, DoLoop j (at_sec 0 uuid)); (n, DoLoop j (at_sec 10 uuid)); (n, DoLoop j (at_sec 10 uuid))].
(** Both nodes schedule the report, and both loops wake up for it. *)
Definition both_awake : outcome world :=
  world_steps no_cron never ((0, DoSchedule 0 report) :: (1, DoSchedule 0 report) ::
    wake 0 0 "a" ++ wake 1 0 "b")%nat two_nodes.
Definition the_world (w : outcome world) : world :=
  match w with Ret w => w | Panic _ => two_nodes end.
Definition awake : world := the_world both_awake.
Definition running : world :=
  the_world (world_step no_cron never (0%nat, DoLoop 0 (at_sec 10 "a")) awake).

Lemma handlers_bounded_witness :
  exists e, nodes running !! 0%nat = Some e /\ count in_handler (loops e) = 1%nat /\
    (count in_handler (loops e) <= 2)%nat.
Proof.
  eexists. split; [vm_compute; reflexivity|]. split; [vm_compute; reflexivity|].
  refine (proj1 (handlers_bounded no_cron never [2; 2]%nat
    (((0, DoSchedule 0 report) :: (1, DoSchedule 0 report) :: wake 0 0 "a" ++ wake 1 0 "b")
       ++ [(0, DoLoop 0 (at_sec 10 "a"))])%nat InMemoryLock.new running 0 _ 2 _ _ _));
    vm_compute; reflexivity.
Defined.

Lemma one_shot_runs_once_witness :
  exists e lp, nodes running !! 0%nat = Some e /\ loops e !! 0%nat = Some lp /\
    in_handler lp = true /\ run_count (lstate lp) = 0.
Proof.
  do 2 eexists. split; [vm_compute; reflexivity|]. split; [vm_compute; reflexivity|].
  split; [vm_compute; reflexivity|].
  refine (proj1 (proj2 (one_shot_runs_once no_cron never [2; 2]%nat
    (((0, DoSchedule 0 report) :: (1, DoSchedule 0 report) :: wake 0 0 "a" ++ wake 1 0 "b")
       ++ [(0, DoLoop 0 (at_sec 10 "a"))])%nat InMemoryLock.new running 0 _ _ _ _ _ _)) _).
  - vm_compute; reflexivity.
  - vm_compute; reflexivity.
  - apply list_elem_of_here.
  - reflexivity.
  - reflexivity.
Defined.

Definition loop_of (w : world (L := InMemoryLock.in_memory_lock)) (n j : nat) : timer_loop :=
  default (TimerLoop report (TaskState Failed None None 0) Done) (loop_at w n j).
Definition node_of (w : world (L := InMemoryLock.in_memory_lock)) (n : nat) : engine := default (new 0) (nodes w !! n).
Definition attempted : world :=
  the_world (world_step no_cron never (1, DoLoop 0 (at_sec 11 "b"))%nat running).

(** Node 1 attempts the report while node 0 runs it. *)
Lemma cluster_task_exclusive_witness :
  in_handler (loop_of running 0 0) = true /\ pc (loop_of running 1 0) = AtLock /\
  (pc (loop_of attempted 1 0) = Done \/
   pc (loop_of attempted 1 0) = InHandler None /\ exists err l3,
     lk_try (from_secs 11) (from_secs 11) "b" (lock_key report) (effective_lock_ttl report)
       (lock running) = Ret (Err err, l3)).
Proof.
  split; [vm_compute; reflexivity|]. split; [vm_compute; reflexivity|].
  refine (cluster_task_exclusive no_cron never awake running running attempted 0 0 1 0
    (at_sec 10 "a") (at_sec 11 "b") (loop_of awake 0 0) (loop_of running 0 0) (loop_of running 1 0)
    (loop_of attempted 1 0) (LockHandle "timer:report" "a" (from_secs 10)) (node_of running 1) []
    _ _ _ _ _ _ _ _ _ _ _ _ _ _ _ _);
    try (vm_compute; reflexivity).
  - intros [|[|n2]] [|j2] lp2; vm_compute; try discriminate; intros [= <-]; discriminate.
  - simpl. repeat split; try discriminate; vm_compute; discriminate.
Defined.

Definition node0 : engine := node_of awake 0.
Definition node0_again : engine :=
  match schedule no_cron never 0 report node0 with Ret (_, e) => e | Panic _ => node0 end.
Definition old_loop : timer_loop := loop_of awake 0 0.

Lemma reschedule_keeps_old_loop_witness :
  pc old_loop = AtLock /\
  exists e3, cancel "report" node0_again = (Ok true, e3) /\
    loops e3 !! 0%nat = Some old_loop /\
    pc <$> loops e3 !! 1%nat = Some Aborted /\ cancel "report" e3 = (Ok false, e3).
Proof.
  split; [vm_compute; reflexivity|].
  refine (reschedule_keeps_old_loop no_cron never 0 report report 0 old_loop node0 node0_again _ _ _);
    vm_compute; reflexivity.
Defined.

(** Both nodes run the report for the one trigger they woke up for: node 0
    releases the lock before node 1's attempt. *)
Lemma cluster_trigger_runs_twice :
  let a := at_sec 10 "a" in let b := at_sec 11 "b" in
  exists w e0 e1, world_steps no_cron never
    ([(0, DoLoop 0 a); (0, DoLoop 0 a); (0, DoLoop 0 a); (0, DoLoop 0 a);
      (1, DoLoop 0 b); (1, DoLoop 0 b); (1, DoLoop 0 b); (1, DoLoop 0 b)])%nat awake = Ret w /\
    nodes w = [e0; e1] /\
    map (fun lp => (pc lp, run_count (lstate lp))) (loops e0) = [(Done, 1)] /\
    map (fun lp => (pc lp, run_count (lstate lp))) (loops e1) = [(Done, 1)].
Proof. vm_compute. do 3 eexists. repeat split. Qed.

End SimpleTimer.
