(* ===== verification/Registries.v ===== *)
(** The registries of named components: timer and script engines, byte
    transforms, HTTP and TCP middleware, codecs and data sources
    ([rinfra-core/src/{timer,script,codec,store}/registry.rs],
    [rinfra-core/src/net/{transform,middleware,tcp}.rs]). *)

From stdpp Require Import sorting.
From S2P Require Import Prelude Errors.

(** * Registries keyed by a component's own name

    All of them refuse a second component with a name already present. *)
Section named.
Context {A : Type}.
Variable name : A -> string.
Variable duplicate : string -> string.

Definition register_named (x : A) (m : gmap string A) : Result unit * gmap string A :=
  match m !! name x with
  | Some _ => (fail PluginAlreadyRegistered (duplicate (name x)), m)
  | None => (Ok tt, <[name x := x]> m)
  end.

(** Registering a sequence of components, each failure being ignored. *)
Definition register_all (xs : list A) (m : gmap string A) : gmap string A :=
  fold_left (fun m x => snd (register_named x m)) xs m.

Lemma register_all_lookup xs m n :
  register_all xs m !! n =
    match m !! n with
    | Some x => Some x
    | None => snd <$> list_find (fun x => name x = n) xs
    end.
Proof.
  revert m. induction xs as [|x xs IH]; intros m; simpl; [by destruct (m !! n)|].
  rewrite IH. unfold register_named. destruct (m !! name x) as [y|] eqn:E; simpl.
  - destruct (m !! n) eqn:En; [done|]. rewrite decide_False by congruence.
    by destruct (list_find _ xs) as [[]|].
  - destruct (decide (name x = n)) as [<-|Hne].
    + by rewrite lookup_insert_eq, E.
    + rewrite lookup_insert_ne by done. destruct (m !! n); [done|].
      by destruct (list_find _ xs) as [[]|].
Qed.

(** With pairwise distinct names every component is registered. *)
Lemma register_all_values xs :
  NoDup (name <$> xs) -> (map_to_list (register_all xs ∅)).*2 ≡ₚ xs.
Proof.
  intros Hnd. assert (register_all xs ∅ = list_to_map ((fun x => (name x, x)) <$> xs)) as ->.
  { apply map_eq. intros n. rewrite register_all_lookup, lookup_empty.
    induction xs as [|x xs IH]; [done|]. apply NoDup_cons in Hnd as [_ Hnd]. csimpl.
    destruct (decide (name x = n)) as [<-|]; [by rewrite lookup_insert_eq|].
    rewrite lookup_insert_ne, <- IH by done. by destruct (list_find _ xs) as [[]|]. }
  rewrite map_to_list_to_map.
  - by rewrite <- list_fmap_compose, (list_fmap_ext _ id) by done; rewrite list_fmap_id.
  - rewrite <- list_fmap_compose. apply Hnd.
Qed.
End named.

Lemma StronglySorted_sublist {A} (R : A -> A -> Prop) l k :
  StronglySorted R k -> l `sublist_of` k -> StronglySorted R l.
Proof.
  intros Hs Hl. revert Hs. induction Hl as [|x l k Hl IH|x l k Hl IH]; intros Hs; [constructor| |];
    inversion Hs; subst; [|by apply IH].
  constructor; [by apply IH|]. eapply incl_Forall; [|done]. intros y Hy.
  rewrite <- list_elem_of_In in *. by eapply elem_of_submseteq, sublist_submseteq.
Qed.

(** ** Stable sorting by a key, over a hash map's values in any order

    [values] is the order in which the hash map enumerates its values: some
    permutation of them. *)
Section sorted.
Context {A : Type}.
Variable key : A -> Z.

Definition key_le (x y : A) : Prop := key x <= key y.
#[local] Instance key_le_dec x y : Decision (key_le x y) := Z_le_dec (key x) (key y).
#[local] Instance key_le_total : Total key_le.
Proof. intros x y. unfold key_le. lia. Qed.
#[local] Instance key_le_trans : Transitive key_le.
Proof. intros x y z. unfold key_le. lia. Qed.

(** [sort_by_key(|m| m.order())] *)
Definition sort_by_key (values : list A) : list A := merge_sort key_le values.

Lemma sort_by_key_sorted values : StronglySorted key_le (sort_by_key values).
Proof. apply StronglySorted_merge_sort; apply _. Qed.
Lemma sort_by_key_perm values : sort_by_key values ≡ₚ values.
Proof. apply merge_sort_Permutation. Qed.

Lemma NoDup_key_inj (l : list A) x y :
  NoDup (key <$> l) -> x ∈ l -> y ∈ l -> key x = key y -> x = y.
Proof.
  intros Hnd [i Hi]%list_elem_of_lookup [j Hj]%list_elem_of_lookup Hk.
  assert (i = j) as ->; [|congruence].
  eapply NoDup_lookup; [exact Hnd| |]; rewrite list_lookup_fmap;
    [by rewrite Hi|by rewrite Hj; simpl; rewrite Hk].
Qed.

(** With distinct keys the result does not depend on the enumeration order. *)
Lemma sort_by_key_unique values l :
  values ≡ₚ l -> NoDup (key <$> l) -> StronglySorted key_le l -> sort_by_key values = l.
Proof.
  intros Hp Hnd Hs. apply (StronglySorted_unique_strong key_le).
  - intros x y Hx Hy H1 H2. apply (NoDup_key_inj l); auto.
    + by rewrite <- Hp, <- sort_by_key_perm.
    + unfold key_le in *. lia.
  - apply sort_by_key_sorted.
  - done.
  - by rewrite sort_by_key_perm.
Qed.
End sorted.

Lemma StronglySorted_key {A B} (f : A -> B) (key : B -> Z) (l : list A) :
  StronglySorted (key_le key) (f <$> l) -> StronglySorted (key_le (key ∘ f)) l.
Proof.
  induction l as [|x l IH]; simpl; intros H; inversion H; subst; constructor; [by apply IH|].
  by apply (Forall_fmap f _ l) in H3.
Qed.

(** * Timer and script engines, byte transforms *)
Module Engines.
Section engines.
Context {engine : Type}.
Variable engine_name : engine -> string.

(** [TimerEngineRegistry::register] and [ScriptEngineRegistry::register] *)
Definition register_timer : engine -> gmap string engine -> Result unit * gmap string engine :=
  register_named engine_name
    (fun name => "timer engine '" +:+ name +:+ "' is already registered").
Definition register_script : engine -> gmap string engine -> Result unit * gmap string engine :=
  register_named engine_name
    (fun name => "script engine '" +:+ name +:+ "' is already registered").
(** [TransformRegistry::register] *)
Definition register_transform : engine -> gmap string engine -> Result unit * gmap string engine :=
  register_named engine_name (fun name => "transform '" +:+ name +:+ "' already registered").

(** [get], [list_names], [is_empty] *)
Definition get (n : string) (m : gmap string engine) : option engine := m !! n.
Definition list_names (m : gmap string engine) : list string := (map_to_list m).*1.
Definition is_empty (m : gmap string engine) : bool := bool_decide (m = ∅).

(** [TimerEngineRegistry::shutdown_all]: [shutdown] is an engine's own, and a
    failing one does not keep the others from being shut down. *)
Fixpoint shutdown_all {W} (shutdown : engine -> M W (Result unit)) (values : list engine) : M W unit :=
  match values with
  | [] => mret tt
  | e :: es => _ ← shutdown e; shutdown_all shutdown es
  end.
End engines.

(** The registries keep the first component registered under a name:
    whatever is registered in whatever order, [get] returns the first
    component with that name, a later one with the same name is refused with
    [PluginAlreadyRegistered] and changes nothing, and only registered names
    are listed. *)
Theorem first_registration_wins {engine : Type} (engine_name : engine -> string)
    (es : list engine) (e : engine) :
  let m := register_all engine_name (fun name => "timer engine '" +:+ name +:+ "' is already registered") es ∅ in
  (forall n, get n m = snd <$> list_find (fun x => engine_name x = n) es) /\
  (forall n, n ∈ list_names m <-> n ∈ engine_name <$> es) /\
  (engine_name e ∈ engine_name <$> es ->
     exists msg, register_timer engine_name e m = (fail PluginAlreadyRegistered msg, m)) /\
  (engine_name e ∉ engine_name <$> es ->
     register_timer engine_name e m = (Ok tt, <[engine_name e := e]> m)).
Proof.
  intros m.
  assert (Hget : forall n, m !! n = snd <$> list_find (fun x => engine_name x = n) es).
  { intros n. unfold m. by rewrite register_all_lookup, lookup_empty. }
  assert (Hin : forall n, is_Some (m !! n) <-> n ∈ engine_name <$> es).
  { intros n. rewrite Hget, fmap_is_Some. rewrite list_elem_of_fmap. split.
    - intros [[i x] (Hx & Hn & _)%list_find_Some]. exists x. split; [done|].
      by eapply list_elem_of_lookup_2.
    - intros (x & -> & Hx). by eapply list_find_elem_of. }
  split; [done|]. split; [|split].
  - intros n. unfold list_names. rewrite <- Hin, list_elem_of_fmap. split.
    + intros ([k x] & -> & Hx). apply elem_of_map_to_list in Hx. simpl. eauto.
    + intros [x Hx]. exists (n, x). split; [done|]. by apply elem_of_map_to_list.
  - intros [x Hx]%Hin. unfold register_timer, register_named. rewrite Hx. eauto.
  - intros Hn. rewrite <- Hin in Hn. unfold register_timer, register_named.
    apply eq_None_not_Some in Hn. by rewrite Hn.
Qed.
End Engines.

(** * Middleware *)
Module Middleware.
Section http.
Context {mw router : Type}.
Variable name : mw -> string.
Variable order : mw -> Z.
Variable apply : mw -> router -> outcome (Result router).

Definition register_http : mw -> gmap string mw -> Result unit * gmap string mw :=
  register_named name (fun n => "http middleware '" +:+ n +:+ "' already registered").
(** [sorted] *)
Definition sorted (values : list mw) : list mw := sort_by_key order values.
(** [apply_all]: the first failing middleware ends the assembly; one that
    panics unwinds it. *)
Fixpoint apply_each (ms : list mw) (r : router) : outcome (Result router) :=
  match ms with
  | [] => Ret (Ok r)
  | m :: ms => x ← apply m r; match x with Ok r => apply_each ms r | Err e => Ret (Err e) end
  end.
Definition apply_all (values : list mw) (r : router) : outcome (Result router) := apply_each (sorted values) r.
End http.

Section tcp.
Context {mw : Type}.
Variable name : mw -> string.
Variable order : mw -> Z.
Definition register_tcp : mw -> gmap string mw -> Result unit * gmap string mw :=
  register_named name (fun n => "tcp middleware '" +:+ n +:+ "' already registered").
(** [TcpMiddlewareRegistry::sorted] and [sorted_rev] *)
Definition tcp_sorted (values : list mw) : list mw := sort_by_key order values.
Definition tcp_sorted_rev (values : list mw) : list mw := sort_by_key (fun m => - order m) values.
End tcp.

Lemma StronglySorted_reverse {A} (R : A -> A -> Prop) l :
  StronglySorted R l -> StronglySorted (flip R) (reverse l).
Proof.
  induction 1 as [|x l Hl IH Hx]; [constructor|]. rewrite reverse_cons.
  apply StronglySorted_app. split; [|split; [done|repeat constructor]].
  intros y z Hy ->%list_elem_of_singleton. rewrite elem_of_reverse in Hy.
  unfold flip. rewrite Forall_forall in Hx. by apply Hx.
Qed.

(** The assembled HTTP stack depends only on the set of middlewares:
    for middlewares with distinct names and distinct orders, listed in
    ascending order, every order of registration and every enumeration order
    of the hash map apply exactly this list in turn, and stop at its first
    failure. *)
Theorem http_stack_deterministic {mw router : Type} (name : mw -> string) (order : mw -> Z)
    (apply : mw -> router -> outcome (Result router)) (ms registered values : list mw) (r : router) :
  NoDup (name <$> ms) -> NoDup (order <$> ms) -> StronglySorted (key_le order) ms ->
  registered ≡ₚ ms ->
  values ≡ₚ (map_to_list (register_all name
               (fun n => "http middleware '" +:+ n +:+ "' already registered") registered ∅)).*2 ->
  apply_all order apply values r = apply_each apply ms r.
Proof.
  intros Hn Ho Hs Hp Hv. unfold apply_all, sorted. f_equal.
  apply sort_by_key_unique; [|done..]. rewrite Hv, register_all_values; [done|]. by rewrite Hp.
Qed.

(** The outbound order of TCP middleware is exactly the reverse of the
    inbound order, for distinct orders and any enumeration of the hash map
    (two enumerations of the same map included). *)
Theorem tcp_outbound_reverses_inbound {mw : Type} (order : mw -> Z) (v1 v2 : list mw) :
  v1 ≡ₚ v2 -> NoDup (order <$> v1) ->
  tcp_sorted_rev order v1 = reverse (tcp_sorted order v2).
Proof.
  intros Hp Hnd. unfold tcp_sorted_rev, tcp_sorted. apply sort_by_key_unique.
  - by rewrite reverse_Permutation, sort_by_key_perm.
  - rewrite reverse_Permutation, sort_by_key_perm, <- Hp.
    change ((fun m => - order m) <$> v1) with (Z.opp ∘ order <$> v1). rewrite list_fmap_compose.
    apply NoDup_fmap; [|done]. intros x y. lia.
  - pose proof (StronglySorted_reverse _ _ (sort_by_key_sorted order v2)) as H.
    induction H as [|x l Hl IH Hx]; constructor; [done|].
    eapply Forall_impl; [exact Hx|]. intros y. unfold key_le, flip. lia.
Qed.

(** Middleware as (name, order); applying one records its name. *)
Definition mw_example : list (string * Z) := [("metrics", 10); ("auth", 20); ("cors", 60)].
Definition record (m : string * Z) (r : list string) : outcome (Result (list string)) := Ret (Ok (fst m :: r)).

Lemma http_stack_deterministic_witness :
  let v := [("cors", 60); ("metrics", 10); ("auth", 20)] in
  apply_all snd record v [] = Ret (Ok ["cors"; "auth"; "metrics"]) /\
  apply_all snd record v [] = apply_each record mw_example [].
Proof.
  intros v. split; [vm_compute; reflexivity|].
  assert (Hnd : NoDup (fst <$> mw_example)) by (apply (bool_decide_unpack _); vm_compute; exact I).
  refine (http_stack_deterministic fst snd record mw_example mw_example v [] Hnd _ _ _ _).
  - apply (bool_decide_unpack _). vm_compute. exact I.
  - unfold mw_example. repeat constructor; unfold key_le; simpl; lia.
  - reflexivity.
  - rewrite (register_all_values fst _ mw_example Hnd). unfold v, mw_example.
    rewrite Permutation_swap. apply perm_skip. apply Permutation_swap.
Defined.

Lemma tcp_outbound_reverses_inbound_witness :
  tcp_sorted_rev snd mw_example = [("cors", 60); ("auth", 20); ("metrics", 10)] /\
  tcp_sorted_rev snd mw_example = reverse (tcp_sorted snd mw_example).
Proof.
  split; [vm_compute; reflexivity|].
  refine (tcp_outbound_reverses_inbound snd mw_example mw_example _ _); [reflexivity|].
  apply (bool_decide_unpack _). vm_compute. exact I.
Defined.
End Middleware.

(** * Codecs *)
Module Codecs.
Section codecs.
Context {codec : Type}.
Variable name content_type : codec -> string.

(** [struct CodecRegistry] *)
Record codec_registry : Type := CodecRegistry {
  codecs : list codec;
  name_index : gmap string nat;
  content_type_index : gmap string nat;
}.
Definition new : codec_registry := CodecRegistry [] ∅ ∅.

(** [register] *)
Definition register (c : codec) (r : codec_registry) : Result unit * codec_registry :=
  match name_index r !! name c with
  | Some _ => (fail PluginAlreadyRegistered ("codec '" +:+ name c +:+ "' is already registered"), r)
  | None =>
      let idx := length (codecs r) in
      (Ok tt, CodecRegistry (codecs r ++ [c]) (<[name c := idx]> (name_index r))
                (<[content_type c := idx]> (content_type_index r)))
  end.

(** [self.codecs[idx]], which panics past the end. *)
Definition index (r : codec_registry) (idx : nat) : outcome codec :=
  match codecs r !! idx with Some c => Ret c | None => Panic "index out of bounds" end.
(** [get_by_name], [get_by_content_type] and [list_names] *)
Definition get_by_name (n : string) (r : codec_registry) : outcome (option codec) :=
  match name_index r !! n with None => Ret None | Some i => c ← index r i; Ret (Some c) end.
Definition get_by_content_type (ct : string) (r : codec_registry) : outcome (option codec) :=
  match content_type_index r !! ct with None => Ret None | Some i => c ← index r i; Ret (Some c) end.
Definition list_names (r : codec_registry) : list string := name <$> codecs r.

Definition register_codecs (cs : list codec) : codec_registry :=
  fold_left (fun r c => snd (register c r)) cs new.

(** The indexes point into the list, at a codec with the indexed key; the
    content type's points at the last registered one. *)
Definition indexed (r : codec_registry) : Prop :=
  NoDup (list_names r) /\
  (forall n i, name_index r !! n = Some i <-> list_names r !! i = Some n) /\
  (forall ct, get_by_content_type ct r =
     Ret (last (filter (fun c => content_type c = ct) (codecs r)))).

Lemma register_indexed c r : indexed r -> indexed (snd (register c r)).
Proof.
  intros (Hnd & Hn & Hct). unfold register. destruct (name_index r !! name c) eqn:E; [exact (conj Hnd (conj Hn Hct))|].
  assert (name c ∉ list_names r) as Hnew.
  { intros [i Hi]%list_elem_of_lookup. apply Hn in Hi. congruence. }
  simpl. split; [|split].
  - unfold list_names; simpl. rewrite fmap_app. apply NoDup_app. split; [done|]. split.
    + by intros x Hx ->%list_elem_of_singleton.
    + apply NoDup_singleton.
  - intros n i. unfold list_names; simpl. rewrite fmap_app, lookup_insert_Some, lookup_app_Some.
    simpl. rewrite list_lookup_singleton_Some, Hn. unfold list_names. rewrite length_fmap. split.
    + intros [[<- <-]|[_ ?]]; [right|by left]. split; [lia|]. split; [lia|done].
    + intros [Hi|(? & ? & <-)]; [right|left; split; [done|lia]]. split; [|done].
      intros <-. apply Hnew. by eapply list_elem_of_lookup_2.
  - intros ct. unfold get_by_content_type, index; simpl.
    rewrite filter_app, filter_cons, filter_nil. destruct (decide (content_type c = ct)) as [<-|Hne].
    + by rewrite lookup_insert_eq, list_lookup_middle, last_snoc.
    + rewrite lookup_insert_ne, app_nil_r, <- Hct by done. unfold get_by_content_type, index.
      destruct (content_type_index r !! ct) as [i|] eqn:Ei; [|done].
      specialize (Hct ct). unfold get_by_content_type, index in Hct. rewrite Ei in Hct.
      destruct (codecs r !! i) eqn:Ec; [|done]. by rewrite lookup_app_l_Some with (x := c0).
Qed.

Lemma register_codecs_indexed cs : indexed (register_codecs cs).
Proof.
  unfold register_codecs. assert (indexed new) as H.
  { split; [apply NoDup_nil_2|]. split; [intros n i; simpl; rewrite lookup_empty; done|].
    intros ct. unfold get_by_content_type; simpl. by rewrite lookup_empty. }
  revert H. generalize new. induction cs as [|c cs IH]; intros r H; simpl; [done|].
  apply IH. by apply register_indexed.
Qed.
End codecs.

(** Codec lookup never panics and is by the registered keys: after any
    sequence of registrations, [get_by_name] returns the one registered codec
    with that name, and [get_by_content_type] the last registered codec with
    that content type (a later codec with the same content type shadows an
    earlier one, which stays reachable by name). *)
Theorem codec_lookup {codec : Type} (name content_type : codec -> string) (cs : list codec) :
  let r := register_codecs name content_type cs in
  (forall n, get_by_name n r = Ret (snd <$> list_find (fun c => name c = n) (codecs r))) /\
  (forall c, c ∈ codecs r -> get_by_name (name c) r = Ret (Some c)) /\
  (forall ct, get_by_content_type ct r =
     Ret (last (filter (fun c => content_type c = ct) (codecs r)))).
Proof.
  intros r. destruct (register_codecs_indexed name content_type cs) as (Hnd & Hn & Hct).
  fold r in Hnd, Hn, Hct.
  assert (forall c, c ∈ codecs r -> get_by_name (name c) r = Ret (Some c)) as Hget.
  { intros c [i Hi]%list_elem_of_lookup. unfold get_by_name, index.
    rewrite (proj2 (Hn (name c) i)) by (unfold list_names; by rewrite list_lookup_fmap, Hi).
    by rewrite Hi. }
  split; [|done]. intros n. destruct (list_find _ _) as [[i c]|] eqn:E; simpl.
  - apply list_find_Some in E as (Hi & <- & _). apply Hget. by eapply list_elem_of_lookup_2.
  - unfold get_by_name. destruct (name_index r !! n) as [i|] eqn:Ei; [|done].
    apply Hn in Ei. unfold list_names in Ei. apply list_lookup_fmap_Some in Ei as (c & -> & Hi).
    apply list_find_None in E. rewrite Forall_forall in E. destruct (E c); [|done].
    by eapply list_elem_of_lookup_2.
Qed.
End Codecs.

(** * Data sources *)
Module Stores.
Section stores.
Context {db : Type}.

(** [struct StoreRegistry] *)
Record store_registry : Type := StoreRegistry { stores : gmap string db; default_name : string }.
Definition new : store_registry := StoreRegistry ∅ "default".
Definition is_empty (r : store_registry) : bool := bool_decide (stores r = ∅).
Definition len (r : store_registry) : nat := size (stores r).
Definition list_names (r : store_registry) : list string := (map_to_list (stores r)).*1.

(** [register]: the first one becomes the default. *)
Definition register (name : string) (d : db) (r : store_registry) : store_registry :=
  StoreRegistry (<[name := d]> (stores r)) (if is_empty r then name else default_name r).
Definition get (name : string) (r : store_registry) : option db := stores r !! name.
(** [default] *)
Definition default_store (r : store_registry) : option db := stores r !! default_name r.
Definition set_default (name : string) (r : store_registry) : Result unit * store_registry :=
  match stores r !! name with
  | None => (fail StoreConnectionFailed ("store '" +:+ name +:+ "' not found in registry"), r)
  | Some _ => (Ok tt, StoreRegistry (stores r) name)
  end.

Inductive store_op : Type := Register (name : string) (d : db) | SetDefault (name : string).
Definition run_op (r : store_registry) (o : store_op) : store_registry :=
  match o with Register n d => register n d r | SetDefault n => snd (set_default n r) end.

(** After any sequence of registrations and changes of default, the
    registry is empty or its default resolves, the last registration under a
    name is the one found, and a change to an unknown default is refused
    without effect. *)
Theorem default_resolves (ops : list store_op) :
  let r := fold_left run_op ops new in
  (is_empty r = true \/ is_Some (default_store r)) /\
  (forall n d, get n (register n d r) = Some d) /\
  (forall n, get n r = None ->
     set_default n r = (fail StoreConnectionFailed ("store '" +:+ n +:+ "' not found in registry"), r)).
Proof.
  intros r. split; [|split].
  - assert (is_empty new = true \/ is_Some (default_store new)) as H by by left.
    unfold r. revert H. generalize new. induction ops as [|o ops IH]; intros r0 H; [done|].
    simpl. apply IH. destruct o as [n d|n]; simpl.
    + right. unfold default_store, register; simpl. unfold is_empty in H |- *.
      destruct (bool_decide _) eqn:E; [rewrite lookup_insert_eq; eauto|].
      destruct H as [?|[x Hx]]; [done|]. unfold default_store in Hx.
      destruct (decide (n = default_name r0)) as [<-|]; [rewrite lookup_insert_eq; eauto|].
      rewrite lookup_insert_ne by done. eauto.
    + unfold set_default. destruct (stores r0 !! n) eqn:E; simpl; [|done].
      right. unfold default_store; simpl. eauto.
  - intros n d. unfold get, register; simpl. apply lookup_insert_eq.
  - intros n Hn. unfold set_default, get in *. by rewrite Hn.
Qed.
End stores.
End Stores.

