(* ===== verification/AuditTrail.v ===== *)
(** The audit trail: events and filters ([rinfra-core/src/audit/mod.rs]) and
    the append-only JSON-lines logger ([rinfra-plugins/src/audit/file_logger.rs]). *)

From S2P Require Import Prelude Errors.

Inductive audit_outcome : Type := Success | Failure | Denied.
#[export] Instance audit_outcome_eq_dec : EqDecision audit_outcome.
Proof. solve_decision. Defined.

(** [struct AuditEvent] *)
Record audit_event : Type := AuditEvent {
  event_id : string;
  timestamp_ms : Z;
  event_actor : string;
  event_action : string;
  event_resource : string;
  event_resource_id : option string;
  event_outcome : audit_outcome;
  event_ip : option string;
  event_details : json;
}.

(** [AuditEvent::new] and its builders; [uuid] and [now] are the id and the
    wall clock it reads. *)
Definition new_event (uuid : string) (now : Z) (actor action resource : string)
    (outcome : audit_outcome) : audit_event :=
  AuditEvent uuid (as_u64 (as_millis now)) actor action resource None outcome None JNull.
Definition with_resource_id (id : string) (e : audit_event) : audit_event :=
  AuditEvent (event_id e) (timestamp_ms e) (event_actor e) (event_action e) (event_resource e)
    (Some id) (event_outcome e) (event_ip e) (event_details e).
Definition with_ip (ip : string) (e : audit_event) : audit_event :=
  AuditEvent (event_id e) (timestamp_ms e) (event_actor e) (event_action e) (event_resource e)
    (event_resource_id e) (event_outcome e) (Some ip) (event_details e).
Definition with_details (d : json) (e : audit_event) : audit_event :=
  AuditEvent (event_id e) (timestamp_ms e) (event_actor e) (event_action e) (event_resource e)
    (event_resource_id e) (event_outcome e) (event_ip e) d.

(** [struct AuditFilter] *)
Record audit_filter : Type := AuditFilter {
  by_actor : option string;
  by_action : option string;
  by_resource : option string;
  from_timestamp_ms : option Z;
  to_timestamp_ms : option Z;
  limit : nat;
}.
Definition new_filter : audit_filter := AuditFilter None None None None None 100.

(** [matches], in the order of its checks. *)
Definition matches (f : audit_filter) (e : audit_event) : bool :=
  let differs (wanted : option string) (got : string) :=
    match wanted with Some a => negb (bool_decide (got = a)) | None => false end in
  if differs (by_actor f) (event_actor e) then false
  else if differs (by_action f) (event_action e) then false
  else if differs (by_resource f) (event_resource e) then false
  else if match from_timestamp_ms f with Some from => timestamp_ms e <? from | None => false end
  then false
  else if match to_timestamp_ms f with Some to => to <? timestamp_ms e | None => false end
  then false
  else true.

(** Lines of a text: split after each newline, a final empty piece dropped and
    one trailing carriage return of a line removed ([str::lines]). *)
Definition strip_cr (s : string) : string :=
  match last_char s with
  | Some c => if Ascii.eqb c carriage_return then String.substring 0 (String.length s - 1) s else s
  | None => s
  end.
Fixpoint lines_from (acc : string) (s : string) : list string :=
  match s with
  | EmptyString => match acc with EmptyString => [] | _ => [strip_cr acc] end
  | String c s =>
      if Ascii.eqb c newline then strip_cr acc :: lines_from "" s
      else lines_from (acc +:+ String c EmptyString) s
  end.
Definition lines (s : string) : list string := lines_from "" s.
(** [line.trim().is_empty()] *)
Definition is_blank (s : string) : bool := all_chars is_whitespace s.

Module FileLogger.
Section file_logger.

(** serde_json for [AuditEvent]: what it prints, and what it parses. *)
Variable to_string : audit_event -> result string string.
Variable from_str : string -> option audit_event.

(** [struct FileAuditLogger]: whether the writer is open, and the file. *)
Record file_logger : Type := FileLogger { writer_open : bool; content : string }.
Definition new (content : string) : file_logger := FileLogger false content.

(** The file system's answers during one call: to [create_dir_all], to
    [open], and to [write_all], which fails after writing a prefix. *)
Record fs : Type := Fs {
  fs_mkdir : result string unit;
  fs_open : result string unit;
  fs_write : result (string * nat) unit;
}.

Definition ensure_writer (io : fs) (l : file_logger) : Result unit * file_logger :=
  if writer_open l then (Ok tt, l)
  else match fs_mkdir io with
       | Err e => (fail AuditLogFailed ("failed to create audit log directory: " +:+ e), l)
       | Ok _ =>
           match fs_open io with
           | Err e => (fail AuditLogFailed ("failed to open audit log file: " +:+ e), l)
           | Ok _ => (Ok tt, FileLogger true (content l))
           end
       end.

Definition log (io : fs) (e : audit_event) (l : file_logger) : Result unit * file_logger :=
  match ensure_writer io l with
  | (Err err, l) => (Err err, l)
  | (Ok _, l) =>
      match to_string e with
      | Err err => (fail AuditLogFailed ("failed to serialize audit event: " +:+ err), l)
      | Ok line =>
          let line := line +:+ String newline EmptyString in
          match fs_write io with
          | Ok _ => (Ok tt, FileLogger true (content l +:+ line))
          | Err (err, n) =>
              (fail AuditLogFailed ("failed to write audit event: " +:+ err),
               FileLogger true (content l +:+ String.substring 0 n line))
          end
      end
  end.

(** [query], line by line; [results] is in reverse. *)
Fixpoint query_lines (f : audit_filter) (ls : list string) (results : list audit_event) :
    list audit_event :=
  match ls with
  | [] => reverse results
  | line :: ls =>
      if is_blank line then query_lines f ls results
      else match from_str line with
           | Some event =>
               if matches f event then
                 let results := event :: results in
                 if (limit f <=? length results)%nat then reverse results
                 else query_lines f ls results
               else query_lines f ls results
           | None => query_lines f ls results
           end
  end.
Definition query (f : audit_filter) (l : file_logger) : Result (list audit_event) :=
  Ok (query_lines f (lines (content l)) []).

(** ** Logging then querying *)

(** The line of an event as the logger relies on it: one line of printable
    JSON that parses back to the event. *)
Definition faithful (e : audit_event) : Prop :=
  exists line, to_string e = Ok line /\ from_str line = Some e /\
    has_char newline line = false /\ is_blank line = false /\ strip_cr line = line.

Definition no_faults : fs := Fs (Ok tt) (Ok tt) (Ok tt).
Definition log_all (es : list audit_event) (l : file_logger) : file_logger :=
  fold_left (fun l e => snd (log no_faults e l)) es l.

Lemma lines_from_line acc line rest :
  has_char newline line = false ->
  lines_from acc (line +:+ String newline rest) = strip_cr (acc +:+ line) :: lines rest.
Proof.
  revert acc. induction line as [|c line IH]; intros acc H; simpl in *.
  - by rewrite str_app_nil.
  - apply orb_false_iff in H as [Hc H].
    change (String c line +:+ ?r) with (String c (line +:+ r)). simpl. rewrite Hc, IH by done.
    by rewrite str_app_assoc.
Qed.

Lemma lines_line line rest :
  has_char newline line = false ->
  lines (line +:+ String newline rest) = strip_cr line :: lines rest.
Proof. intros H. unfold lines. by rewrite lines_from_line. Qed.

Definition line_of (e : audit_event) : string :=
  match to_string e with Ok line => line | Err _ => "" end.
Definition text_of (es : list audit_event) : string :=
  foldr (fun e text => line_of e +:+ String newline text) "" es.

Lemma log_faithful e l : faithful e ->
  log no_faults e l = (Ok tt, FileLogger true (content l +:+ line_of e +:+ String newline "")).
Proof.
  intros (line & Hl & _). unfold log, ensure_writer, line_of; simpl. rewrite Hl.
  by destruct (writer_open l).
Qed.

Lemma log_all_content es l : Forall faithful es ->
  content (log_all es l) = content l +:+ text_of es.
Proof.
  intros H. revert l. induction H as [|e es He _ IH]; intros l; simpl; [by rewrite str_app_nil|].
  rewrite log_faithful by done. unfold log_all in IH. rewrite IH. simpl.
  by rewrite !str_app_assoc.
Qed.

Lemma query_text f es results : Forall faithful es ->
  (length results < Nat.max (limit f) 1)%nat ->
  query_lines f (lines (text_of es)) results =
    reverse results ++
    take (Nat.max (limit f) 1 - length results) (filter (fun e => matches f e = true) es).
Proof.
  intros H. revert results. induction H as [|e es He _ IH]; intros results Hr; simpl.
  { by rewrite filter_nil, take_nil, app_nil_r. }
  destruct He as (line & Hl & Hparse & Hnl & Hblank & Hcr). unfold line_of. rewrite Hl.
  rewrite lines_line, Hcr by done. simpl. rewrite Hblank, Hparse, filter_cons.
  destruct (matches f e); simpl; [|by apply IH].
  destruct (limit f <=? _)%nat eqn:E; [apply Nat.leb_le in E|apply Nat.leb_gt in E].
  - replace (Nat.max (limit f) 1 - length results)%nat with 1%nat by lia.
    simpl. by rewrite reverse_cons.
  - rewrite IH by (simpl; lia). rewrite reverse_cons, <- app_assoc. simpl.
    by replace (Nat.max (limit f) 1 - length results)%nat
      with (S (Nat.max (limit f) 1 - S (length results))) by lia.
Qed.
End file_logger.

(** What was logged is what a query finds: with serialization that prints
    one parseable line per event and a healthy file system, a query after any
    sequence of events returns the earliest matching events in the order they
    were logged, at most the filter's limit of them (but never none on a limit
    of zero: the limit is checked after an event has been taken). *)
Theorem audit_query_complete (to_string : audit_event -> result string string)
    (from_str : string -> option audit_event) (es : list audit_event) (f : audit_filter) :
  Forall (faithful to_string from_str) es ->
  Forall (fun e => exists l', forall l,
    log to_string no_faults e l = (Ok tt, FileLogger true (content l +:+ l'))) es /\
  query from_str f (log_all to_string es (new "")) =
    Ok (take (Nat.max (limit f) 1) (filter (fun e => matches f e = true) es)).
Proof.
  intros H. split.
  - eapply Forall_impl; [exact H|]. intros e He. eexists. intros l. by eapply log_faithful.
  - unfold query. erewrite log_all_content by exact H. simpl.
    change ("" +:+ ?t) with t. erewrite query_text by (exact H || simpl; lia).
    simpl. by rewrite Nat.sub_0_r.
Qed.

(** A torn write costs the following event too: after a [write_all] that
    stops inside an event's line, the next event is appended to the same line
    and, unless that line happens to parse, no query ever returns it although
    its own [log] reported success. *)
Theorem torn_write_loses_next (to_string : audit_event -> result string string)
    (from_str : string -> option audit_event) (e1 e2 : audit_event) (n : nat) (err : string)
    (f : audit_filter) :
  faithful to_string from_str e1 -> faithful to_string from_str e2 ->
  let torn := String.substring 0 n (line_of to_string e1) in
  (n <= String.length (line_of to_string e1))%nat ->
  from_str (strip_cr (torn +:+ line_of to_string e2)) = None ->
  let (r1, l1) := log to_string (Fs (Ok tt) (Ok tt) (Err (err, n))) e1 (new "") in
  let (r2, l2) := log to_string no_faults e2 l1 in
  is_ok r1 = false /\ r2 = Ok tt /\ query from_str f l2 = Ok [].
Proof.
  intros H1 H2 torn Hn Hparse.
  assert (log to_string (Fs (Ok tt) (Ok tt) (Err (err, n))) e1 (new "") =
    (fail AuditLogFailed ("failed to write audit event: " +:+ err), FileLogger true torn)) as ->.
  { unfold torn, log, line_of in *. destruct H1 as (line & Hl & _). rewrite Hl in *. simpl.
    change ("" +:+ ?t) with t. by rewrite substring_app. }
  erewrite log_faithful by exact H2. split; [done|]. split; [done|]. unfold query; simpl.
  destruct H2 as (line & Hl & _ & Hnl & Hblank & _). unfold line_of in *. rewrite Hl in *.
  assert (has_char newline torn = false) as Ht.
  { destruct H1 as (line1 & Hl1 & _ & Hnl1 & _). unfold torn. rewrite Hl1.
    by apply has_char_substring. }
  rewrite <- str_app_assoc, lines_line by (by rewrite has_char_app, Ht, Hnl). simpl.
  rewrite Hparse. by destruct (is_blank (strip_cr _)).
Qed.

(** A serializer that knows two events. *)
Definition login : audit_event := with_ip "10.0.0.7" (new_event "e1" 0 "alice" "user.login" "user" Success).
Definition denied : audit_event := new_event "e2" 0 "bob" "config.update" "config" Denied.
Definition print (e : audit_event) : result string string := Ok ("{" +:+ event_id e +:+ "}").
Definition parse (line : string) : option audit_event :=
  if String.eqb line "{e1}" then Some login else if String.eqb line "{e2}" then Some denied else None.

Lemma audit_query_complete_witness :
  query parse new_filter (log_all print [login; denied; login] (new "")) = Ok [login; denied; login] /\
  query parse (AuditFilter (Some "bob") None None None None 0)
    (log_all print [login; denied; login] (new "")) =
    Ok (take (Nat.max 0 1) (filter
      (fun e => matches (AuditFilter (Some "bob") None None None None 0) e = true)
      [login; denied; login])).
Proof.
  split; [vm_compute; reflexivity|].
  refine (proj2 (audit_query_complete print parse [login; denied; login]
    (AuditFilter (Some "bob") None None None None 0) _)).
  apply Forall_cons_2; [|apply Forall_cons_2; [|apply Forall_cons_2; [|apply Forall_nil_2]]];
    eexists; repeat split; vm_compute; reflexivity.
Defined.

Lemma torn_write_loses_next_witness :
  let (r1, l1) := log print (Fs (Ok tt) (Ok tt) (Err ("disk full", 2%nat))) login (new "") in
  let (r2, l2) := log print no_faults denied l1 in
  is_ok r1 = false /\ r2 = Ok tt /\ query parse new_filter l2 = Ok [].
Proof.
  refine (torn_write_loses_next print parse login denied 2 "disk full" new_filter _ _ _ _).
  - eexists; repeat split; vm_compute; reflexivity.
  - eexists; repeat split; vm_compute; reflexivity.
  - vm_compute. lia.
  - vm_compute. reflexivity.
Defined.
End FileLogger.
