(* ===== verification/Tcp.v ===== *)
(** The TCP server: byte-transform pipelines, middleware chains and the life of
    a connection ([rinfra-core/src/net/{tcp,transform}.rs],
    [rinfra-plugins/src/net/{tcp,tcp_middleware}.rs]). *)

From S2P Require Import Prelude Errors AuditTrail Registries.

Abbreviation bytes := (list Byte.byte).

(** [struct TcpContext]; an address with its rendering and its IP part. *)
Record socket_addr : Type := SocketAddr { addr_display : string; addr_ip : string }.
Record tcp_context : Type := TcpContext { peer : socket_addr; listener_name : string }.

(** * Byte transforms *)

(** [trait ByteTransform] *)
Record byte_transform : Type := ByteTransform {
  transform_name : string;
  decode : bytes -> Result bytes;
  encode : bytes -> Result bytes;
}.
(** [trait Compressor] and [CompressorTransform] *)
Record compressor : Type := Compressor {
  compressor_name : string;
  compress : bytes -> Result bytes;
  decompress : bytes -> Result bytes;
}.
Definition compressor_transform (c : compressor) : byte_transform :=
  ByteTransform (compressor_name c) (decompress c) (compress c).

(** [decode_pipeline] and [encode_pipeline]: inbound in order, outbound in
    reverse; the error itself is only logged. *)
Fixpoint decode_pipeline (pipeline : list byte_transform) (data : bytes) : result unit bytes :=
  match pipeline with
  | [] => Ok data
  | t :: ts => match decode t data with Ok d => decode_pipeline ts d | Err _ => Err tt end
  end.
Fixpoint encode_each (pipeline : list byte_transform) (data : bytes) : result unit bytes :=
  match pipeline with
  | [] => Ok data
  | t :: ts => match encode t data with Ok d => encode_each ts d | Err _ => Err tt end
  end.
Definition encode_pipeline (pipeline : list byte_transform) : bytes -> result unit bytes :=
  encode_each (reverse pipeline).

(** A transform whose decoding undoes its encoding. *)
Class Invertible (t : byte_transform) : Prop :=
  decode_encode : forall d e, encode t d = Ok e -> decode t e = Ok d.

Lemma encode_each_app p1 p2 d :
  encode_each (p1 ++ p2) d = (d' ← encode_each p1 d; encode_each p2 d').
Proof.
  revert d. induction p1 as [|t p1 IH]; intros d; simpl; [done|].
  destruct (encode t d); [apply IH|done].
Qed.

Lemma pipeline_inverse p d e :
  Forall Invertible p -> encode_pipeline p d = Ok e -> decode_pipeline p e = Ok d.
Proof.
  intros H. revert e. unfold encode_pipeline. induction H as [|t p Ht _ IH]; intros e.
  - simpl. by intros [= ->].
  - rewrite reverse_cons, encode_each_app. simpl.
    destruct (encode_each (reverse p) d) as [m|] eqn:E; simpl; [|done].
    destruct (encode t m) as [e'|] eqn:Ee; [|done]. intros [= <-].
    rewrite (Ht _ _ Ee). by apply IH.
Qed.

(** * Handlers, middleware and connections *)
Section connection.

(** The state the handlers and middlewares act on is arbitrary. *)
Context {W : Type}.

(** [trait TcpHandler] and [trait TcpMiddleware] *)
Record tcp_handler : Type := TcpHandler {
  h_on_connect : tcp_context -> M W (Result unit);
  h_on_message : tcp_context -> bytes -> M W (Result (option bytes));
  h_on_disconnect : tcp_context -> M W (Result unit);
}.
Record tcp_middleware : Type := TcpMiddleware {
  mw_name : string;
  mw_order : Z;
  on_connect : tcp_context -> M W (Result unit);
  on_inbound : tcp_context -> bytes -> M W (Result (option bytes));
  on_outbound : tcp_context -> bytes -> M W (Result (option bytes));
  on_disconnect : tcp_context -> M W unit;
}.

(** The default methods of the two traits. *)
Definition default_middleware (name : string) (order : Z) : tcp_middleware :=
  TcpMiddleware name order (fun _ => mret (Ok tt)) (fun _ d => mret (Ok (Some d)))
    (fun _ d => mret (Ok (Some d))) (fun _ => mret tt).
Definition default_handler (f : tcp_context -> bytes -> M W (Result (option bytes))) : tcp_handler :=
  TcpHandler (fun _ => mret (Ok tt)) f (fun _ => mret (Ok tt)).

(** [struct TcpServer] and its builders *)
Record tcp_server : Type := TcpServer {
  bind_addr : string;
  server_name : string;
  handler : tcp_handler;
  max_frame_size : Z;
  pipeline : list byte_transform;
  middlewares : list tcp_middleware;
}.
Definition new (bind_addr listener_name : string) (h : tcp_handler) : tcp_server :=
  TcpServer bind_addr listener_name h 65536 [] [].
Definition with_max_frame_size (size : Z) (s : tcp_server) : tcp_server :=
  TcpServer (bind_addr s) (server_name s) (handler s) size (pipeline s) (middlewares s).
Definition with_pipeline (p : list byte_transform) (s : tcp_server) : tcp_server :=
  TcpServer (bind_addr s) (server_name s) (handler s) (max_frame_size s) p (middlewares s).
Definition with_middlewares (ms : list tcp_middleware) (s : tcp_server) : tcp_server :=
  TcpServer (bind_addr s) (server_name s) (handler s) (max_frame_size s) (pipeline s)
    (sort_by_key mw_order ms).

(** A connection's state: the handlers' world, the frames sent, and the
    process-wide count of active connections ([TCP_CONNECTIONS_ACTIVE], an
    [AtomicI64]). *)
Record conn : Type := Conn { world : W; sent : list bytes; active : Z }.

Definition lift {A} (m : M W A) : M conn A := fun c =>
  r ← m (world c); Ret (fst r, Conn (snd r) (sent c) (active c)).
Definition fetch_add (n : Z) : M conn unit := fun c =>
  Ret (tt, Conn (world c) (sent c) (as_i64 (active c + n))).
(** [framed.send]: whether the socket takes the frame is [ok]. *)
Definition send (ok : bool) (out : bytes) : M conn bool := fun c =>
  Ret (ok, if ok then Conn (world c) (sent c ++ [out]) (active c) else c).

(** The inbound and outbound chains: an error or a [None] drops the message. *)
Fixpoint run_chain (hook : tcp_middleware -> bytes -> M W (Result (option bytes)))
    (ms : list tcp_middleware) (data : bytes) : M W (option bytes) :=
  match ms with
  | [] => mret (Some data)
  | m :: ms =>
      r ← hook m data;
      match r with
      | Ok (Some next) => run_chain hook ms next
      | Ok None => mret None
      | Err _ => mret None
      end
  end.

(** The middlewares' [on_connect], up to the first refusal. *)
Fixpoint connect_all (ctx : tcp_context) (ms : list tcp_middleware) : M W bool :=
  match ms with
  | [] => mret true
  | m :: ms =>
      r ← on_connect m ctx;
      match r with Ok _ => connect_all ctx ms | Err _ => mret false end
  end.
Fixpoint disconnect_each (ctx : tcp_context) (ms : list tcp_middleware) : M W unit :=
  match ms with
  | [] => mret tt
  | m :: ms => _ ← on_disconnect m ctx; disconnect_each ctx ms
  end.

(** What the select of the connection loop sees: cancellation, a frame (and
    whether the socket would take a reply to it), a frame error, or the end
    of the stream. *)
Inductive socket_event : Type :=
| ShutdownCancelled
| Frame (raw : bytes) (send_ok : bool)
| FrameError
| Eof.

(** The body of the loop for one frame: whether the loop goes on. *)
Definition handle_frame (s : tcp_server) (ctx : tcp_context) (raw : bytes) (send_ok : bool) :
    M conn bool :=
  match decode_pipeline (pipeline s) raw with
  | Err _ => mret false
  | Ok data =>
      inbound ← lift (run_chain (fun m => on_inbound m ctx) (middlewares s) data);
      match inbound with
      | None => mret true
      | Some data =>
          result ← lift (h_on_message (handler s) ctx data);
          match result with
          | Ok (Some reply) =>
              outbound ← lift (run_chain (fun m => on_outbound m ctx) (reverse (middlewares s)) reply);
              match outbound with
              | Some final_reply =>
                  match encode_pipeline (pipeline s) final_reply with
                  | Ok out => send send_ok out
                  | Err _ => mret false
                  end
              | None => mret true
              end
          | Ok None => mret true
          | Err _ => mret false
          end
      end
  end.

(** The loop: [true] when the events ran out with the connection open. *)
Fixpoint message_loop (s : tcp_server) (ctx : tcp_context) (evs : list socket_event) : M conn bool :=
  match evs with
  | [] => mret true
  | Frame raw send_ok :: evs =>
      continue ← handle_frame s ctx raw send_ok;
      if (continue : bool) then message_loop s ctx evs else mret false
  | _ :: _ => mret false
  end.

Inductive conn_result : Type := Rejected | Open | Closed.

(** [handle_tcp_connection] *)
Definition handle_tcp_connection (s : tcp_server) (peer : socket_addr) (evs : list socket_event) :
    M conn conn_result :=
  let ctx := TcpContext peer (server_name s) in
  _ ← fetch_add 1;
  accepted ← lift (connect_all ctx (middlewares s));
  if negb accepted then _ ← fetch_add (-1); mret Rejected
  else
    r ← lift (h_on_connect (handler s) ctx);
    match r with
    | Err _ => _ ← fetch_add (-1); mret Rejected
    | Ok _ =>
        open ← message_loop s ctx evs;
        if (open : bool) then mret Open
        else
          _ ← lift (disconnect_each ctx (reverse (middlewares s)));
          _ ← lift (h_on_disconnect (handler s) ctx);
          _ ← fetch_add (-1);
          mret Closed
    end.

(** [AuditTcpMiddleware]: [log] is the audit logger, [stamp] the id and the
    clock of the events. *)
Definition audit_middleware (log : audit_event -> M W (Result unit)) (stamp : string * Z) :
    tcp_middleware :=
  let event (ctx : tcp_context) (action : string) :=
    with_details (JObject [("listener", JString (listener_name ctx))])
      (with_ip (addr_ip (peer ctx))
         (new_event (fst stamp) (snd stamp) (addr_display (peer ctx)) action "tcp" Success)) in
  TcpMiddleware "audit" 50
    (fun ctx => _ ← log (event ctx "tcp.connect"); mret (Ok tt))
    (fun _ d => mret (Ok (Some d))) (fun _ d => mret (Ok (Some d)))
    (fun ctx => _ ← log (event ctx "tcp.disconnect"); mret tt).

End connection.

(** * The life of a connection *)
Section life.
Context {W : Type}.

(** Hooks recorded around any middleware and handler. *)
Inductive life_event : Type := Connected (name : string) | Disconnected (name : string).
Definition traced {A} (evs : list life_event) (m : M W A) : M (W * list life_event) A := fun x =>
  r ← m (fst x); Ret (fst r, (snd r, snd x ++ evs)).
Definition traced_middleware (m : tcp_middleware (W := W)) :
    tcp_middleware (W := W * list life_event) :=
  TcpMiddleware (mw_name m) (mw_order m)
    (fun ctx => traced [Connected (mw_name m)] (on_connect m ctx))
    (fun ctx d => traced [] (on_inbound m ctx d)) (fun ctx d => traced [] (on_outbound m ctx d))
    (fun ctx => traced [Disconnected (mw_name m)] (on_disconnect m ctx)).
Definition traced_handler (h : tcp_handler (W := W)) : tcp_handler (W := W * list life_event) :=
  TcpHandler (fun ctx => traced [Connected "handler"] (h_on_connect h ctx))
    (fun ctx d => traced [] (h_on_message h ctx d))
    (fun ctx => traced [Disconnected "handler"] (h_on_disconnect h ctx)).
Definition traced_server (s : tcp_server (W := W)) : tcp_server (W := W * list life_event) :=
  TcpServer (bind_addr s) (server_name s) (traced_handler (handler s)) (max_frame_size s) (pipeline s)
    (map traced_middleware (middlewares s)).
End life.

Section connection_facts.
Context {W X : Type} (obs : conn (W := W) -> X).
Hypothesis obs_send : forall ok out, preserves obs (send ok out).

(** An observation untouched by sending, by the chains' hooks and by the
    handler is untouched by the message loop. *)
Lemma preserves_message_loop (s : tcp_server) (ctx : tcp_context) (evs : list socket_event) :
  (forall m d, m ∈ middlewares s -> preserves obs (lift (on_inbound m ctx d))) ->
  (forall m d, m ∈ middlewares s -> preserves obs (lift (on_outbound m ctx d))) ->
  (forall d, preserves obs (lift (h_on_message (handler s) ctx d))) ->
  preserves obs (message_loop s ctx evs).
Proof using obs_send.
  intros Hin Hout Hmsg.
  assert (Hchain : forall hook ms, (forall m d, m ∈ ms -> preserves obs (lift (hook m d))) ->
            forall d, preserves obs (lift (run_chain hook ms d))).
  { intros hook ms. induction ms as [|m ms IH]; intros Hh d c a c' H.
    - by injection H as <- <-; destruct c.
    - unfold lift in H. cbn -[mbind] in H.
      destruct (hook m d (world c)) as [[r w1]|] eqn:Er; [|by unfold mbind, outcome_bind, M_bind in H; rewrite Er in H].
      assert (obs (Conn w1 (sent c) (active c)) = obs c) as H1.
      { apply (Hh m d (list_elem_of_here _ _) c r). unfold lift. by rewrite Er. }
      unfold mbind, outcome_bind, M_bind in H. rewrite Er in H. rewrite <- H1.
      destruct r as [[next|]|e]; [|by injection H as <- <-|by injection H as <- <-].
      eapply (IH (fun m d Hm => Hh m d (list_elem_of_further _ _ _ Hm)) next (Conn w1 (sent c) (active c))).
      unfold lift. exact H. }
  induction evs as [|[|raw ok| |] evs IH]; try apply preserves_ret. simpl.
  apply preserves_bind; [|intros []; [done|apply preserves_ret]].
  unfold handle_frame. destruct (decode_pipeline _ _) as [d|]; [|apply preserves_ret].
  apply preserves_bind; [by apply Hchain|]. intros [d'|]; [|apply preserves_ret].
  apply preserves_bind; [done|]. intros [[r|]|]; [|apply preserves_ret..].
  apply preserves_bind; [apply Hchain; intros m d0 Hm; apply Hout; by rewrite elem_of_reverse in Hm|].
  intros [o|]; [|apply preserves_ret]. destruct (encode_pipeline _ _); [done|apply preserves_ret].
Qed.
End connection_facts.

Lemma lift_active {W A} (m : M W A) : preserves active (lift m).
Proof. intros c a c'. unfold lift. destruct (m (world c)) as [[]|]; by intros [= <- <-]. Qed.
Lemma send_active {W} ok out : preserves (active (W := W)) (send ok out).
Proof. intros c a c' [= <- <-]. by destruct ok. Qed.

Lemma as_i64_add_sub a n : in_i64 a -> as_i64 (as_i64 (a + n) + - n) = a.
Proof.
  unfold as_i64, in_i64, i64_min, i64_max. intros H.
  replace ((a + n + 2 ^ 63) mod 2 ^ 64 - 2 ^ 63 + - n + 2 ^ 63)
    with ((a + n + 2 ^ 63) mod 2 ^ 64 - n) by lia.
  rewrite Zminus_mod_idemp_l. rewrite Z.mod_small by lia. lia.
Qed.

(** The count of active connections is balanced on every path: whatever
    the handler, the middlewares, the pipeline and the traffic, a connection
    that ends - refused by a middleware, refused by the handler, closed by
    either side or broken - leaves the count as it found it, and an open one
    counts for one. *)
Theorem active_count_balanced {W : Type} (s : tcp_server (W := W)) (peer : socket_addr)
    (evs : list socket_event) (c c' : conn) (r : conn_result) :
  in_i64 (active c) -> handle_tcp_connection s peer evs c = Ret (r, c') ->
  active c' = match r with Open => as_i64 (active c + 1) | Rejected | Closed => active c end.
Proof.
  intros Ha H. unfold handle_tcp_connection in H.
  apply M_bind_inv in H as ([] & c1 & [= <-] & H).
  apply M_bind_inv in H as (acc & c2 & H2 & H). apply lift_active in H2.
  destruct acc; simpl in H.
  2: { apply M_bind_inv in H as ([] & c3 & [= <-] & [= <- <-]). simpl.
       rewrite H2. by apply (as_i64_add_sub _ 1). }
  apply M_bind_inv in H as (hr & c3 & H3 & H). apply lift_active in H3.
  destruct hr as [u|e]; simpl in H.
  2: { apply M_bind_inv in H as ([] & c4 & [= <-] & [= <- <-]). simpl.
       rewrite H3, H2. by apply (as_i64_add_sub _ 1). }
  apply M_bind_inv in H as (op & c4 & H4 & H).
  apply (preserves_message_loop active send_active) in H4; [|intros; apply lift_active..].
  destruct op; [injection H as <- <-; by rewrite H4, H3, H2|].
  apply M_bind_inv in H as (? & c5 & H5 & H). apply lift_active in H5.
  apply M_bind_inv in H as (? & c6 & H6 & H). apply lift_active in H6.
  apply M_bind_inv in H as ([] & c7 & [= <-] & [= <- <-]). simpl.
  rewrite H6, H5, H4, H3, H2. by apply (as_i64_add_sub _ 1).
Qed.

(** ** Connects and disconnects *)

Definition trace {W} (c : conn (W := W * list life_event)) : list life_event := snd (world c).

Lemma lift_traced {W A} (evs : list life_event) (m : M W A) c r c' :
  lift (traced evs m) c = Ret (r, c') -> trace c' = trace c ++ evs.
Proof.
  unfold lift, traced, trace. destruct (m _) as [[]|]; simpl; [|done]. by intros [= _ <-].
Qed.
Lemma lift_silent {W A} (m : M W A) : preserves trace (lift (traced [] m)).
Proof. intros c r c' H%lift_traced. by rewrite H, app_nil_r. Qed.
Lemma send_trace {W} ok out : preserves (trace (W := W)) (send ok out).
Proof. intros c a c' [= <- <-]. by destruct ok. Qed.

Lemma lift_bind {W A B} (m : M W A) (f : A -> M W B) c :
  lift (m ≫= f) c = (lift m ≫= (fun a => lift (f a))) c.
Proof.
  unfold lift, mbind, M_bind, outcome_bind. destruct (m (world c)) as [[a w]|]; [|done]. simpl.
  by destruct (f a w).
Qed.

Lemma connect_all_trace {W} (ctx : tcp_context) (ms : list (tcp_middleware (W := W))) c r c' :
  lift (connect_all ctx (map traced_middleware ms)) c = Ret (r, c') ->
  exists k, trace c' = trace c ++ map Connected (take k (map mw_name ms)) /\
    (r = true -> (length ms <= k)%nat) /\ (r = false -> (0 < k <= length ms)%nat).
Proof.
  revert c. induction ms as [|m ms IH]; intros c; simpl.
  - intros [= <- <-]. exists 0%nat. simpl. rewrite app_nil_r. by repeat split.
  - rewrite lift_bind. intros (r1 & c1 & H1%lift_traced & H2)%M_bind_inv. destruct r1 as [u|e].
    + apply IH in H2 as (k & Hk & Ht & Hf). exists (S k). simpl. rewrite Hk, H1, <- app_assoc.
      split; [done|]. split; intros Hr; [specialize (Ht Hr)|specialize (Hf Hr)]; lia.
    + injection H2 as <- <-. exists 1%nat. simpl. unfold trace in *. simpl. rewrite H1.
      split; [done|]. split; intros; [done|lia].
Qed.

Lemma disconnect_each_trace {W} (ctx : tcp_context) (ms : list (tcp_middleware (W := W))) c r c' :
  lift (disconnect_each ctx (map traced_middleware ms)) c = Ret (r, c') ->
  trace c' = trace c ++ map Disconnected (map mw_name ms).
Proof.
  revert c. induction ms as [|m ms IH]; intros c; simpl.
  - intros [= <- <-]. unfold trace; simpl. by rewrite app_nil_r.
  - rewrite lift_bind. intros (r1 & c1 & H1%lift_traced & H2)%M_bind_inv.
    rewrite (IH _ H2), H1, <- app_assoc. done.
Qed.

(** C24: connection hooks are paired.  An accepted connection calls every
    middleware's [on_connect] in ascending order and then the handler's, and
    when it closes every middleware's [on_disconnect] exactly once in reverse
    order and then the handler's; nothing is disconnected while it is open.  A
    refused one has called the [on_connect] of the middlewares up to the
    refusing one (or all of them and the handler's) and no [on_disconnect] at
    all, not even of the middlewares that had accepted it. *)
Theorem connection_hooks_paired {W : Type} (s : tcp_server (W := W)) (peer : socket_addr)
    (evs : list socket_event) (c c' : conn) (r : conn_result) :
  handle_tcp_connection (traced_server s) peer evs c = Ret (r, c') -> trace c = [] ->
  let names := map mw_name (middlewares s) in
  match r with
  | Rejected => exists k, (0 < k <= length names + 1)%nat /\
      trace c' = map Connected (take k (names ++ ["handler"]))
  | Open => trace c' = map Connected (names ++ ["handler"])
  | Closed => trace c' = map Connected (names ++ ["handler"]) ++
      map Disconnected (reverse names ++ ["handler"])
  end.
Proof.
  intros H Hc names. assert (Hlen : length names = length (middlewares s)) by apply length_map.
  unfold handle_tcp_connection in H. apply M_bind_inv in H as ([] & c1 & [= <-] & H).
  apply M_bind_inv in H as (acc & c2 & H2 & H). simpl in H2.
  apply connect_all_trace in H2 as (k & Hk & Ht & Hf). unfold trace in Hk at 2. simpl in Hk.
  change (snd (world c)) with (trace c) in Hk. rewrite Hc in Hk. simpl in Hk. fold names in Hk.
  destruct acc; simpl in H.
  2: { apply M_bind_inv in H as ([] & c3 & [= <-] & [= <- <-]). exists k.
       specialize (Hf eq_refl). split; [lia|].
       unfold trace in *; simpl. rewrite Hk, take_app_le by lia. done. }
  specialize (Ht eq_refl). rewrite take_ge in Hk by lia.
  apply M_bind_inv in H as (hr & c3 & H3%lift_traced & H). rewrite Hk in H3.
  rewrite <- (map_app Connected names ["handler"] : _ = map Connected names ++ [Connected "handler"]) in H3.
  destruct hr as [u|e]; simpl in H.
  2: { apply M_bind_inv in H as ([] & c4 & [= <-] & [= <- <-]).
       exists (length names + 1)%nat. split; [lia|].
       unfold trace in *; simpl. rewrite H3, take_ge; [done|]. rewrite length_app. simpl. lia. }
  apply M_bind_inv in H as (op & c4 & H4 & H).
  apply (preserves_message_loop trace send_trace) in H4.
  2-3: intros m d (m' & -> & _)%list_elem_of_fmap; apply lift_silent.
  2: intros; apply lift_silent.
  destruct op; [injection H as <- <-; by rewrite H4, H3|].
  apply M_bind_inv in H as (? & c5 & H5 & H). simpl in H5.
  rewrite <- map_reverse in H5.
  apply disconnect_each_trace in H5.
  apply M_bind_inv in H as (? & c6 & H6%lift_traced & H).
  apply M_bind_inv in H as ([] & c7 & [= <-] & [= <- <-]).
  unfold trace in *; simpl. rewrite H6, H5, H4, H3, <- app_assoc. f_equal.
  rewrite map_app. f_equal. f_equal. unfold names. by rewrite map_reverse.
Qed.

(** ** A request and its reply *)

(** A request and its reply cross the pipeline unchanged: with transforms
    that invert themselves, when a peer sends a request through its own encode
    pipeline, the handler's middlewares receive exactly the request, and when
    inbound chain, handler and outbound chain answer, the one frame sent is
    what the peer decodes to exactly that answer. *)
Theorem request_reply {W : Type} (s : tcp_server (W := W)) (ctx : tcp_context)
    (request d reply answer frame out : bytes) (w w1 w2 w3 : W) (sent0 : list bytes) (n : Z) :
  Forall Invertible (pipeline s) ->
  encode_pipeline (pipeline s) request = Ok frame ->
  run_chain (fun m => on_inbound m ctx) (middlewares s) request w = Ret (Some d, w1) ->
  h_on_message (handler s) ctx d w1 = Ret (Ok (Some reply), w2) ->
  run_chain (fun m => on_outbound m ctx) (reverse (middlewares s)) reply w2 = Ret (Some answer, w3) ->
  encode_pipeline (pipeline s) answer = Ok out ->
  handle_frame s ctx frame true (Conn w sent0 n) = Ret (true, Conn w3 (sent0 ++ [out]) n) /\
  decode_pipeline (pipeline s) out = Ok answer.
Proof.
  intros Hinv Hreq Hin Hmsg Hout Hans. split; [|by apply pipeline_inverse].
  unfold handle_frame. rewrite (pipeline_inverse _ _ _ Hinv Hreq).
  erewrite M_bind_ret; [|unfold lift; simpl; rewrite Hin; done]. simpl.
  erewrite M_bind_ret; [|unfold lift; simpl; rewrite Hmsg; done]. simpl.
  erewrite M_bind_ret; [|unfold lift; simpl; rewrite Hout; done]. simpl.
  by rewrite Hans.
Qed.

(** ** An echo server with a reversing pipeline and an audit trail *)
Definition rev_transform : byte_transform :=
  ByteTransform "reverse" (fun d => Ok (reverse d)) (fun d => Ok (reverse d)).
Definition echo : tcp_handler (W := list string) :=
  default_handler (fun _ d w => Ret (Ok (Some d), w)).
Definition audit_log (e : audit_event) : M (list string) (Result unit) :=
  fun w => Ret (Ok tt, w ++ [event_action e]).
Definition echo_server : tcp_server (W := list string) :=
  with_pipeline [rev_transform]
    (with_middlewares [default_middleware "late" 90; audit_middleware audit_log ("e1", 0)]
       (new "0.0.0.0:7000" "echo" echo)).
Definition caller : socket_addr := SocketAddr "10.0.0.7:5000" "10.0.0.7".
Definition traffic : list socket_event :=
  [Frame [Byte.x01; Byte.x02] true; Frame [Byte.x03] true; Eof].

Lemma active_count_balanced_witness :
  let c := Conn [] [] 5 in
  let c' := Conn ["tcp.connect"; "tcp.disconnect"] [[Byte.x01; Byte.x02]; [Byte.x03]] 5 in
  handle_tcp_connection echo_server caller traffic c = Ret (Closed, c') /\ active c' = active c.
Proof.
  intros c c'. split; [vm_compute; reflexivity|].
  refine (active_count_balanced echo_server caller traffic c c' Closed _ _).
  - unfold in_i64. vm_compute. split; discriminate.
  - vm_compute. reflexivity.
Defined.

Lemma connection_hooks_paired_witness :
  exists c', handle_tcp_connection (traced_server echo_server) caller traffic (Conn ([], []) [] 0) =
      Ret (Closed, c') /\
    trace c' = map Connected ["audit"; "late"; "handler"] ++
      map Disconnected ["late"; "audit"; "handler"].
Proof.
  eexists. split; [vm_compute; reflexivity|].
  refine (connection_hooks_paired echo_server caller traffic (Conn ([], []) [] 0) _ Closed _ _).
  - vm_compute. reflexivity.
  - reflexivity.
Defined.

Lemma request_reply_witness :
  let s := with_pipeline [rev_transform; rev_transform; rev_transform] (new "a" "echo" echo) in
  handle_frame s (TcpContext caller "echo") [Byte.x02; Byte.x01] true (Conn [] [] 1) =
    Ret (true, Conn [] [[Byte.x02; Byte.x01]] 1) /\
  decode_pipeline (pipeline s) [Byte.x02; Byte.x01] = Ok [Byte.x01; Byte.x02].
Proof.
  intros s.
  assert (Invertible rev_transform) as Hr.
  { intros d e [= <-]. simpl. by rewrite reverse_involutive. }
  refine (request_reply s (TcpContext caller "echo") [Byte.x01; Byte.x02] [Byte.x01; Byte.x02]
    [Byte.x01; Byte.x02] [Byte.x01; Byte.x02] [Byte.x02; Byte.x01] _ [] [] [] [] [] 1 _ _ _ _ _ _);
    try (vm_compute; reflexivity).
  apply Forall_cons_2; [exact Hr|apply Forall_cons_2; [exact Hr|apply Forall_cons_2; [exact Hr|]]].
  apply Forall_nil_2.
Defined.
