(* ===== verification/Ws.v ===== *)
(** WebSocket connections ([rinfra-core/src/net/ws.rs],
    [rinfra-plugins/src/net/ws.rs]): the message conversions, the life of one
    connection with its pings, the tracker of active connections and the wait
    for them to drain at shutdown. *)

From S2P Require Import Prelude Errors Tcp.

(** [enum WsMessage]; axum's [Message] differs by an optional close frame. *)
Inductive ws_message : Type :=
| Text (s : string)
| Binary (b : bytes)
| Ping (b : bytes)
| Pong (b : bytes)
| Close.
Inductive axum_message : Type :=
| MText (s : string)
| MBinary (b : bytes)
| MPing (b : bytes)
| MPong (b : bytes)
| MClose (frame : option (Z * string)).

Definition axum_to_ws_message (m : axum_message) : ws_message :=
  match m with
  | MText t => Text t
  | MBinary b => Binary b
  | MPing p => Ping p
  | MPong p => Pong p
  | MClose _ => Close
  end.
Definition ws_message_to_axum (m : ws_message) : axum_message :=
  match m with
  | Text t => MText t
  | Binary b => MBinary b
  | Ping p => MPing p
  | Pong p => MPong p
  | Close => MClose None
  end.

(** [struct WsConnectParams] and [struct WsOptions] *)
Record ws_connect_params : Type := WsConnectParams {
  query : gmap string string;
  ws_headers : gmap string string;
}.
Record ws_options : Type := WsOptions {
  enabled : bool;
  ping_interval_secs : Z;
  ping_timeout_secs : Z;
}.

(** [struct WsTracker]: the atomic count, and how often [notify_waiters] was
    called on its [Notify]. *)
Record ws_tracker : Type := WsTracker { active : Z; notified : nat }.
Definition new_tracker : ws_tracker := WsTracker 0 0.
Definition on_connect (t : ws_tracker) : ws_tracker := WsTracker (as_u64 (active t + 1)) (notified t).
Definition on_disconnect (t : ws_tracker) : ws_tracker :=
  let prev := active t in
  WsTracker (as_u64 (prev - 1)) (if prev =? 1 then S (notified t) else notified t).
Definition active_count (t : ws_tracker) : Z := active t.

(** * One connection *)
Section connection.
Context {W : Type}.

(** [trait WsHandler]; a handler may panic, which ends the connection's task. *)
Record ws_handler : Type := WsHandler {
  on_open : ws_connect_params -> M W (Result unit);
  on_message : ws_message -> M W (Result (option ws_message));
  on_close : M W (Result unit);
}.

(** The calls a connection makes to its handler. *)
Inductive callback : Type := Opened | Message (m : ws_message) | ClosedCall.

Record ws_conn : Type := WsConn {
  world : W;
  sent : list axum_message;
  calls : list callback;
  tracker : ws_tracker;
  last_pong : Z;
  waiting_pong : bool;
}.

(** Calling the handler: [None] when it panics. *)
Definition call {A} (cb : callback) (m : M W A) (c : ws_conn) : option A * ws_conn :=
  match m (world c) with
  | Ret (a, w) => (Some a, WsConn w (sent c) (calls c ++ [cb]) (tracker c) (last_pong c) (waiting_pong c))
  | Panic _ => (None, WsConn (world c) (sent c) (calls c ++ [cb]) (tracker c) (last_pong c) (waiting_pong c))
  end.
Definition push (m : axum_message) (c : ws_conn) : ws_conn :=
  WsConn (world c) (sent c ++ [m]) (calls c) (tracker c) (last_pong c) (waiting_pong c).
Definition set_pong (last : Z) (waiting : bool) (c : ws_conn) : ws_conn :=
  WsConn (world c) (sent c) (calls c) (tracker c) last waiting.
Definition with_tracker (f : ws_tracker -> ws_tracker) (c : ws_conn) : ws_conn :=
  WsConn (world c) (sent c) (calls c) (f (tracker c)) (last_pong c) (waiting_pong c).

(** What the loop's select sees: cancellation, a tick of the ping timer, or
    what the socket received; [send_ok] is whether the socket would take what
    the iteration sends. *)
Inductive ws_event : Type :=
| Shutdown (send_ok : bool)
| Tick (now : Z) (send_ok : bool)
| Received (now : Z) (msg : option (result string axum_message)) (send_ok : bool).

Inductive flow : Type := Continue | Break | Panicking.
Definition send (ok : bool) (m : axum_message) (c : ws_conn) : flow * ws_conn :=
  if ok then (Continue, push m c) else (Break, c).

(** One iteration of the loop of [handle_socket]. *)
Definition iteration (opts : ws_options) (h : ws_handler) (ev : ws_event) (c : ws_conn) : flow * ws_conn :=
  match ev with
  | Shutdown ok => (Break, snd (send ok (MClose None) c))
  | Tick now ok =>
      if waiting_pong c && (from_secs (ping_timeout_secs opts) <? duration_since now (last_pong c))
      then (Break, snd (send ok (MClose None) c))
      else
        match send ok (MPing []) c with
        | (Continue, c) => (Continue, set_pong (last_pong c) true c)
        | r => r
        end
  | Received now (Some (Ok (MPong _))) _ => (Continue, set_pong now false c)
  | Received _ (Some (Ok msg)) ok =>
      match axum_to_ws_message msg with
      | Close => (Break, c)
      | ws_msg =>
          match call (Message ws_msg) (on_message h ws_msg) c with
          | (Some (Ok (Some response)), c) => send ok (ws_message_to_axum response) c
          | (Some (Ok None), c) => (Continue, c)
          | (Some (Err _), c) => (Break, c)
          | (None, c) => (Panicking, c)
          end
      end
  | Received _ (Some (Err _)) _ => (Break, c)
  | Received _ None _ => (Break, c)
  end.
(** The loop: [Continue] when the events ran out with the connection open. *)
Fixpoint socket_loop (opts : ws_options) (h : ws_handler) (evs : list ws_event) (c : ws_conn) :
    flow * ws_conn :=
  match evs with
  | [] => (Continue, c)
  | ev :: evs =>
      match iteration opts h ev c with
      | (Continue, c) => socket_loop opts h evs c
      | r => r
      end
  end.

(** A connection's task is running, has finished or has panicked. *)
Inductive task_state : Type := Running | Finished | Panicked.

(** [handle_socket] with a tracker, started at [now]; [tokio::time::interval]
    panics on a zero period. *)
Definition handle_socket (opts : ws_options) (h : ws_handler) (params : ws_connect_params) (now : Z)
    (evs : list ws_event) (c : ws_conn) : task_state * ws_conn :=
  let c := with_tracker on_connect c in
  match call Opened (on_open h params) c with
  | (None, c) => (Panicked, c)
  | (Some (Err _), c) => (Finished, with_tracker on_disconnect c)
  | (Some (Ok _), c) =>
      if ping_interval_secs opts =? 0 then (Panicked, c)
      else
        match socket_loop opts h evs (set_pong now false c) with
        | (Continue, c) => (Running, c)
        | (Panicking, c) => (Panicked, c)
        | (Break, c) =>
            match call ClosedCall (on_close h) c with
            | (None, c) => (Panicked, c)
            | (Some _, c) => (Finished, with_tracker on_disconnect c)
            end
        end
  end.

(** ** Lemmas *)
Lemma call_spec {A} cb (m : M W A) c :
  calls (snd (call cb m c)) = calls c ++ [cb] /\ tracker (snd (call cb m c)) = tracker c /\
  last_pong (snd (call cb m c)) = last_pong c /\ waiting_pong (snd (call cb m c)) = waiting_pong c.
Proof. unfold call. by destruct (m (world c)) as [[a w]|]. Qed.

Definition is_pong (ev : ws_event) : bool :=
  match ev with Received _ (Some (Ok (MPong _))) _ => true | _ => false end.

(** The message calls of an iteration that makes none, or one. *)
Ltac no_call := exists (@nil ws_message); rewrite app_nil_r; split; [done|simpl; lia].
Ltac one_call m := exists [m]; split; [done|simpl; lia].
Lemma iteration_spec opts h ev c :
  let '(f, c') := iteration opts h ev c in
  tracker c' = tracker c /\
  (exists ms, calls c' = calls c ++ map Message ms /\ (length ms <= 1)%nat) /\
  (is_pong ev = false -> last_pong c' = last_pong c /\ (waiting_pong c = true -> waiting_pong c' = true)).
Proof.
  destruct ev as [ok|now ok|now [[msg|e]|] ok]; simpl.
  - destruct ok; (split_and!; [done|no_call|done]).
  - destruct (waiting_pong c && _); [destruct ok; (split_and!; [done|no_call|done])|].
    destruct ok; simpl; (split_and!; [done|no_call|done]).
  - assert (forall m, axum_to_ws_message msg = m -> m <> Close ->
      let '(f, c') := match call (Message m) (on_message h m) c with
          | (Some (Ok (Some response)), c) => send ok (ws_message_to_axum response) c
          | (Some (Ok None), c) => (Continue, c)
          | (Some (Err _), c) => (Break, c)
          | (None, c) => (Panicking, c)
          end in
      tracker c' = tracker c /\ (exists ms, calls c' = calls c ++ map Message ms /\ (length ms <= 1)%nat) /\
      (false = false -> last_pong c' = last_pong c /\ (waiting_pong c = true -> waiting_pong c' = true))) as Hcall.
    { intros m _ _. pose proof (call_spec (Message m) (on_message h m) c) as (H1 & H2 & H3 & H4).
      destruct (call _ _ c) as [[[[r|]|]|] c']; simpl in *;
        try (split; [done|]; split; [rewrite H1; one_call m|]; intros _; split; [done|by rewrite H4]).
      destruct ok; simpl; (split; [done|]; split; [rewrite H1; one_call m|]; intros _; split; [done|by rewrite H4]). }
    destruct msg as [t|b|p|p|f].
    + by apply (Hcall (Text t)).
    + by apply (Hcall (Binary b)).
    + by apply (Hcall (Ping p)).
    + split_and!; [done|no_call|done].
    + split_and!; [done|no_call|done].
  - split_and!; [done|no_call|done].
  - split_and!; [done|no_call|done].
Qed.

Lemma socket_loop_spec opts h evs c :
  tracker (snd (socket_loop opts h evs c)) = tracker c /\
  exists ms, calls (snd (socket_loop opts h evs c)) = calls c ++ map Message ms /\ (length ms <= length evs)%nat.
Proof.
  revert c. induction evs as [|ev evs IH]; intros c; simpl.
  { split; [done|]. no_call. }
  pose proof (iteration_spec opts h ev c) as H. destruct (iteration opts h ev c) as [f c'].
  destruct H as (Ht & (ms & Hc & Hl) & _). destruct f; simpl.
  - destruct (IH c') as (Ht' & ms' & Hc' & Hl'). split; [by rewrite Ht'|]. exists (ms ++ ms').
    rewrite Hc', Hc, map_app, length_app, app_assoc. split; [done|lia].
  - split; [done|]. exists ms. split; [done|lia].
  - split; [done|]. exists ms. split; [done|lia].
Qed.

Lemma socket_loop_app opts h a b c :
  socket_loop opts h (a ++ b) c =
  match socket_loop opts h a c with (Continue, c) => socket_loop opts h b c | r => r end.
Proof.
  revert c. induction a as [|ev a IH]; intros c; simpl; [done|].
  destruct (iteration opts h ev c) as [[] c']; [apply IH|done..].
Qed.
Lemma socket_loop_no_pong opts h evs c c' :
  forallb (fun ev => negb (is_pong ev)) evs = true -> socket_loop opts h evs c = (Continue, c') ->
  last_pong c' = last_pong c /\ (waiting_pong c = true -> waiting_pong c' = true).
Proof.
  revert c. induction evs as [|ev evs IH]; intros c; simpl; [by intros _ [= ->]|].
  intros [Hev%negb_true_iff Hevs]%andb_true_iff. pose proof (iteration_spec opts h ev c) as H.
  destruct (iteration opts h ev c) as [[] c1]; [|done..]. destruct H as (_ & _ & H).
  destruct (H Hev) as [H1 H2]. intros E. destruct (IH c1 Hevs E) as [H3 H4].
  split; [by rewrite H3|]. auto.
Qed.
End connection.

(** A connection is accounted for and its handler called in order: the
    handler sees one open, then the messages, then one close exactly when the
    open succeeded and the loop ended; the tracker counts a running
    connection and no longer counts a finished one, but a handler that panics
    - or a ping interval of zero, on which the timer panics - leaves the
    connection counted for good. *)
Theorem ws_lifecycle {W} (opts : ws_options) (h : ws_handler (W := W)) params now evs c st c' :
  handle_socket opts h params now evs c = (st, c') -> 0 <= active (tracker c) < u64_max ->
  active (tracker c') = match st with Finished => active (tracker c) | Running | Panicked => active (tracker c) + 1 end /\
  exists ms tail, calls c' = calls c ++ Opened :: map Message ms ++ tail /\
    (length ms <= length evs)%nat /\
    match st with
    | Running => tail = []
    | Finished => tail = [ClosedCall] \/ tail = [] /\ ms = []
    | Panicked => tail = [] \/ tail = [ClosedCall]
    end /\
    (ping_interval_secs opts = 0 -> ms = [] /\ st <> Running).
Proof.
  unfold handle_socket. intros H Ha.
  assert (as_u64 (active (tracker c) + 1) = active (tracker c) + 1) as Hup.
  { unfold as_u64, u64_max in *. apply Z.mod_small. lia. }
  assert (as_u64 (active (tracker c) + 1 - 1) = active (tracker c)) as Hdown.
  { unfold as_u64, u64_max in *. rewrite Z.mod_small; lia. }
  set (c0 := with_tracker on_connect c) in H.
  assert (active (tracker c0) = active (tracker c) + 1) as Hc0 by exact Hup.
  assert (calls c0 = calls c) as Hk0 by done. clearbody c0.
  pose proof (call_spec Opened (on_open h params) c0) as (Hk & Ht & _).
  destruct (call Opened _ c0) as [[[u|e]|] c1]; simpl in Hk, Ht; rewrite Hk0 in Hk; rewrite <- Ht in Hc0.
  - destruct (ping_interval_secs opts =? 0) eqn:Ep.
    { injection H as <- <-. split; [done|]. exists [], []. split_and!; [by rewrite Hk|simpl; lia|by left|done]. }
    apply Z.eqb_neq in Ep. destruct (socket_loop_spec opts h evs (set_pong now false c1)) as (Ht2 & ms & Hk2 & Hl).
    destruct (socket_loop opts h evs _) as [[] c2]; simpl in Ht2, Hk2; rewrite Hk, <- app_assoc in Hk2.
    + injection H as <- <-. split; [by rewrite Ht2|]. exists ms, []. rewrite app_nil_r. by split_and!.
    + pose proof (call_spec ClosedCall (on_close h) c2) as (Hk3 & Ht3 & _). rewrite Hk2, <- app_assoc in Hk3.
      destruct (call ClosedCall _ c2) as [[r|] c3]; simpl in Hk3, Ht3; injection H as <- <-.
      * split; [simpl; by rewrite Ht3, Ht2, Hc0|]. exists ms, [ClosedCall].
        split_and!; [exact Hk3|done|by left|done].
      * split; [by rewrite Ht3, Ht2|]. exists ms, [ClosedCall]. split_and!; [exact Hk3|done|by right|done].
    + injection H as <- <-. split; [by rewrite Ht2|]. exists ms, []. rewrite app_nil_r.
      split_and!; [done|done|by left|done].
  - injection H as <- <-. split; [simpl; by rewrite Hc0|]. exists [], [].
    split_and!; [exact Hk|simpl; lia|by right|done].
  - injection H as <- <-. split; [done|]. exists [], []. split_and!; [by rewrite Hk|simpl; lia|by left|done].
Qed.

(** A peer that stops answering pings is dropped: after a ping, if no pong
    arrives before a later tick that is more than the ping timeout after the
    last pong, the connection is not left running, whatever else the peer
    sends in between. *)
Theorem ws_silent_peer_closed {W} (opts : ws_options) (h : ws_handler (W := W)) t1 ok1 between t2 ok2 later c f c' :
  forallb (fun ev => negb (is_pong ev)) between = true ->
  from_secs (ping_timeout_secs opts) < duration_since t2 (last_pong c) ->
  socket_loop opts h (Tick t1 ok1 :: between ++ Tick t2 ok2 :: later) c = (f, c') ->
  f <> Continue.
Proof.
  intros Hb Ht2 H. cbn [socket_loop] in H.
  destruct (iteration opts h (Tick t1 ok1) c) as [[] c1] eqn:E1; [|by injection H as <- _..].
  assert (last_pong c1 = last_pong c /\ waiting_pong c1 = true) as [Hl Hw].
  { simpl in E1. destruct (waiting_pong c && _); [by destruct ok1|]. destruct ok1; simpl in E1; [|done].
    by injection E1 as <-. }
  rewrite socket_loop_app in H. destruct (socket_loop opts h between c1) as [[] c2] eqn:E2;
    [|by injection H as <- _..].
  destruct (socket_loop_no_pong opts h between c1 c2 Hb E2) as [Hl2 Hw2]. specialize (Hw2 Hw).
  simpl in H. rewrite Hw2, Hl2, Hl, (proj2 (Z.ltb_lt _ _) Ht2) in H. simpl in H. by injection H as <- _.
Qed.

(** * Draining at shutdown *)
Module Drain.

(** [wait_all_closed] at its await points: before its check, between the
    check and the creation of the [notified()] future, waiting (with the
    number of notifications there were when the future was created, which it
    is woken by exceeding), and after. *)
Inductive waiter : Type :=
| Checking
| Arming
| Waiting (seen : nat)
| Drained
| TimedOut.

Inductive step : ws_tracker * waiter -> ws_tracker * waiter -> Prop :=
| step_connect t w : step (t, w) (on_connect t, w)
| step_disconnect t w : 0 < active t -> step (t, w) (on_disconnect t, w)
| step_check_none t : active_count t = 0 -> step (t, Checking) (t, Drained)
| step_check_some t : active_count t <> 0 -> step (t, Checking) (t, Arming)
| step_arm t : step (t, Arming) (t, Waiting (notified t))
| step_woken t n : notified t <> n -> step (t, Waiting n) (t, Drained)
| step_timeout t n : step (t, Waiting n) (t, TimedOut).

(** Runs without new connections. *)
Definition closing_step (s s' : ws_tracker * waiter) : Prop :=
  step s s' /\ forall t w, s = (t, w) -> s' <> (on_connect t, w).

(** The shutdown's bound: [drain_ws_connections] waits only when some
    connection is active, for the grace period. *)
Definition drain_ws_connections (grace_period_secs : Z) (t : ws_tracker) : option Z :=
  if 0 <? active_count t then Some (from_secs grace_period_secs) else None.

(** A quiet system: nobody connected, and the waiter holds a future no
    notification since has woken. *)
Definition stuck (s : ws_tracker * waiter) : Prop :=
  active (fst s) = 0 /\ (snd s = Waiting (notified (fst s)) \/ snd s = TimedOut).

Lemma stuck_step s s' : stuck s -> closing_step s s' -> stuck s'.
Proof.
  intros [Ha Hw] [Hs Hn]. destruct Hs as [t w|t w Hp|t _|t _|t|t n Hd|t n]; simpl in *.
  - by destruct (Hn t w eq_refl).
  - lia.
  - by destruct Hw.
  - by destruct Hw.
  - by destruct Hw.
  - destruct Hw as [[= ->]|[=]]. done.
  - split; [done|by right].
Qed.

Lemma rtc_stuck s s' : stuck s -> rtc closing_step s s' -> stuck s'.
Proof. intros Hs H. induction H; [done|]. apply IHrtc. by eapply stuck_step. Qed.

(** The wait for the connections to drain can miss the last one: a
    connection that closes between the check and the creation of the
    [notified()] future leaves the waiter, with nobody connected, in a state
    from which - as long as nobody connects - every run stays waiting or times
    out.  Once the future exists no close is missed: when the last connection
    closes the waiter can be woken, and stays so whatever happens next. *)
Theorem drain_misses_early_close :
  (exists s, rtc step (WsTracker 1 0, Checking) s /\ stuck s /\
     forall s', rtc closing_step s s' -> snd s' <> Drained) /\
  (forall t n, n = notified t -> active t = 1 ->
     forall s', rtc step (on_disconnect t, Waiting n) s' ->
       match snd s' with
       | Waiting m => step s' (fst s', Drained)
       | Drained | TimedOut => True
       | Checking | Arming => False
       end).
Proof.
  split.
  - exists (WsTracker 0 1, Waiting 1).
    assert (stuck (WsTracker 0 1, Waiting 1)) as Hst by (split; [done|by left]).
    split_and!; [|done|].
    + eapply rtc_l; [by apply step_check_some|]. eapply rtc_l; [by apply step_disconnect|].
      eapply rtc_l; [apply step_arm|]. apply rtc_refl.
    + intros s' H E. destruct (rtc_stuck _ _ Hst H) as [_ [Hw|Hw]]; congruence.
  - intros t n -> Ha s' H.
    assert (match snd s' with
            | Waiting m => (m < notified (fst s'))%nat | Drained | TimedOut => True | _ => False end) as Hs'.
    { assert (forall s, match snd s with
            | Waiting m => (m < notified (fst s))%nat | Drained | TimedOut => True | _ => False end ->
        rtc step s s' -> match snd s' with
            | Waiting m => (m < notified (fst s'))%nat | Drained | TimedOut => True | _ => False end) as Hgen.
      { clear H. intros s Hs H. induction H as [|s s1 s' Hst _ IH]; [done|]. apply IH.
        destruct Hst as [t0 w|t0 w Hp|t0 _|t0 _|t0|t0 m Hd|t0 m]; simpl in *; try done.
        destruct w; try done. unfold on_disconnect; simpl. case_match; lia. }
      apply (Hgen _) in H; [done|]. simpl. unfold on_disconnect. rewrite Ha. simpl. lia. }
    destruct s' as [t' [| |m| |]]; simpl in *; try done. apply step_woken. lia.
Qed.
End Drain.

(** * Witnesses: an echo handler, one message, and a silent peer *)
Definition echo_ws : ws_handler (W := nat) :=
  WsHandler (fun _ w => Ret (Ok tt, w)) (fun m w => Ret (Ok (Some m), S w)) (fun w => Ret (Ok tt, w)).
Definition ws_opts : ws_options := WsOptions true 30 10.
Definition ws_start : ws_conn := WsConn 0%nat [] [] new_tracker 0 false.
Definition no_params : ws_connect_params := WsConnectParams ∅ ∅.
Definition chat : list ws_event :=
  [Received 5 (Some (Ok (MText "hi"))) true; Received 6 (Some (Ok (MClose None))) true].
Definition after_chat : task_state * ws_conn := handle_socket ws_opts echo_ws no_params 0 chat ws_start.

Lemma ws_lifecycle_witness :
  active (tracker (snd after_chat)) = 0 /\ fst after_chat = Finished /\
  sent (snd after_chat) = [MText "hi"] /\ calls (snd after_chat) = [Opened; Message (Text "hi"); ClosedCall].
Proof.
  split; [|split_and!; reflexivity].
  refine (proj1 (ws_lifecycle ws_opts echo_ws no_params 0 chat ws_start Finished (snd after_chat) _ _));
    [reflexivity|split; [vm_compute; discriminate|reflexivity]].
Defined.

Definition silence : flow * ws_conn (W := nat) :=
  socket_loop ws_opts echo_ws
    (Tick (from_secs 30) true :: [Received (from_secs 40) (Some (Ok (MText "still typing"))) true] ++
     Tick (from_secs 60) true :: []) ws_start.
Lemma ws_silent_peer_closed_witness : fst silence <> Continue.
Proof.
  refine (ws_silent_peer_closed ws_opts echo_ws (from_secs 30) true
    [Received (from_secs 40) (Some (Ok (MText "still typing"))) true] (from_secs 60) true [] ws_start
    (fst silence) (snd silence) _ _ _); reflexivity.
Defined.

Lemma drain_misses_early_close_witness :
  Drain.step (on_disconnect (WsTracker 1 4), Drain.Waiting 4) (on_disconnect (WsTracker 1 4), Drain.Drained).
Proof.
  exact (proj2 Drain.drain_misses_early_close (WsTracker 1 4) 4%nat eq_refl eq_refl
    (on_disconnect (WsTracker 1 4), Drain.Waiting 4) (rtc_refl _ _)).
Defined.
