(* ===== verification/Cluster.v ===== *)
(** Cluster membership: the protocol's data ([rinfra-core/src/cluster/mod.rs]),
    the main node's registry and connections
    ([rinfra-plugins/src/cluster/{registry,server}.rs]) and the worker's
    connection loop ([rinfra-plugins/src/cluster/connection.rs]). *)

From S2P Require Import Prelude Errors.

Inductive node_role : Type := Main | Worker.
Inductive node_status : Type := Online | Offline | Draining.
#[export] Instance node_role_eq_dec : EqDecision node_role.
Proof. solve_decision. Defined.
#[export] Instance node_status_eq_dec : EqDecision node_status.
Proof. solve_decision. Defined.

Record endpoint : Type := Endpoint { protocol : string; address : string }.
Abbreviation metadata_map := (gmap string string).

Record node_info : Type := NodeInfo {
  node_id : string;
  role : node_role;
  endpoints : list endpoint;
  metadata : metadata_map;
  status : node_status;
}.

(** [enum ClusterMessage] *)
Inductive cluster_message : Type :=
| Register (id : string) (r : node_role) (eps : list endpoint) (meta : metadata_map)
    (token : string) (trace_context : option metadata_map)
| RegisterAck (success : bool) (error : option string)
| Deregister (id : string) (trace_context : option metadata_map)
| ListNodes
| NodeList (nodes : list node_info)
| Ping
| Pong.

(** * The registry of connected nodes *)
Module ConnectedRegistry.
Abbreviation registry := (gmap string node_info).
Definition new : registry := ∅.
Definition register (id : string) (r : node_role) (eps : list endpoint) (meta : metadata_map)
    (m : registry) : registry := <[id := NodeInfo id r eps meta Online]> m.
Definition unregister (id : string) (m : registry) : registry := delete id m.
Definition set_status (id : string) (s : node_status) (m : registry) : registry :=
  alter (fun n => NodeInfo (node_id n) (role n) (endpoints n) (metadata n) s) id m.
Definition get_node (id : string) (m : registry) : Result (option node_info) := Ok (m !! id).
Definition list_nodes (m : registry) : Result (list node_info) := Ok ((map_to_list m).*2).
Definition status_of (m : registry) (id : string) : option node_status := status <$> m !! id.
End ConnectedRegistry.

(** * The main node *)
Module Server.
Import ConnectedRegistry.

(** A connection handled by the main node: waiting for its registration,
    serving a registered node, or over. *)
Inductive conn : Type :=
| AtRegister
| Serving (id : string) (missed_pongs : Z)
| Over.

(** What its task sees: the answer of the first read (a message, or none in
    five seconds, at the end or on an error), and then the select's branches. *)
Inductive event : Type :=
| NoMessage
| Message (m : cluster_message)
| Cancelled
| Tick (send_ok : bool).

(** [struct ClusterServer] without its registry, and [ClusterServer::new]. *)
Record cluster_server : Type := ClusterServer { expected_token : string; ping_interval : Z }.
Definition server_new (token : string) (ping_interval_secs : Z) : cluster_server :=
  ClusterServer token (from_secs ping_interval_secs).

Section server.
Variable srv : cluster_server.

(** [handle_register]: the registration accepted, and the messages sent. *)
Definition handle_register (ev : event) :
    option (string * node_role * list endpoint * metadata_map) * list cluster_message :=
  match ev with
  | Message (Register id r eps meta token _) =>
      if negb (String.eqb (expected_token srv) "") && negb (String.eqb token (expected_token srv))
      then (None, [RegisterAck false (Some "invalid token")])
      else (Some (id, r, eps, meta), [RegisterAck true None])
  | _ => (None, [])
  end.

(** [handle_connection], one event at a time.  [tokio::time::interval] panics
    on a period of zero: the task, which has registered the node by then, is
    over, and its panic is the task's alone.  [Over] after a break includes
    the status update that follows the loop; a [Deregister] returns before it. *)
Definition handle_connection (ev : event) (c : conn) (m : registry) :
    outcome (conn * registry * list cluster_message) :=
  match c with
  | AtRegister =>
      match handle_register ev with
      | (Some (id, r, eps, meta), out) =>
          Ret (if 0 <? ping_interval srv then Serving id 0 else Over, register id r eps meta m, out)
      | (None, out) => Ret (Over, m, out)
      end
  | Serving id missed =>
      let break := Ret (Over, set_status id Offline m, []) in
      match ev with
      | Cancelled => break
      | Tick send_ok =>
          if 3 <=? missed then break
          else if send_ok then n ← u32_add missed 1; Ret (Serving id n, m, [Ping])
          else break
      | NoMessage => break
      | Message Pong => Ret (Serving id 0, m, [])
      | Message (Deregister _ _) => Ret (Over, unregister id m, [])
      | Message Ping => Ret (c, m, [Pong])
      | Message ListNodes =>
          Ret (c, m, [NodeList (default [] (result_to_option (list_nodes m)))])
      | Message _ => Ret (c, m, [])
      end
  | Over => Ret (Over, m, [])
  end.

(** The main node: its registry and the connections it has accepted, any of
    which may take the next step. *)
Record main_node : Type := MainNode { nodes : registry; conns : list conn }.
Inductive step : Type := Accept | Event (k : nat) (ev : event).
Definition run_step (s : step) (w : main_node) : outcome main_node :=
  match s with
  | Accept => Ret (MainNode (nodes w) (conns w ++ [AtRegister]))
  | Event k ev =>
      match conns w !! k with
      | None => Ret w
      | Some c =>
          r ← handle_connection ev c (nodes w);
          let '(c, m, _) := r in Ret (MainNode m (<[k := c]> (conns w)))
      end
  end.
Fixpoint run_steps (ss : list step) (w : main_node) : outcome main_node :=
  match ss with
  | [] => Ret w
  | s :: ss => w ← run_step s w; run_steps ss w
  end.

(** ** Invariants of the connections *)

Lemma run_steps_app s1 s2 w :
  run_steps (s1 ++ s2) w = (w ← run_steps s1 w; run_steps s2 w).
Proof.
  revert w. induction s1 as [|s s1 IH]; intros w; simpl; [done|].
  destruct (run_step s w); simpl; [apply IH|done].
Qed.

(** The loop's counter never leaves 0..3, so it never overflows. *)
Definition conn_ok (c : conn) : Prop :=
  match c with Serving _ missed => 0 <= missed <= 3 | _ => True end.

Lemma handle_connection_ok ev c m : conn_ok c ->
  exists c' m' out, handle_connection ev c m = Ret (c', m', out) /\ conn_ok c'.
Proof.
  intros H. destruct c as [|id missed|]; simpl in *.
  - destruct (handle_register ev) as [[[[[id r] eps] meta]|] out]; do 3 eexists; (split; [done|]); [|done].
    by destruct (_ <? _).
  - destruct ev as [|[]| |ok]; try (do 3 eexists; split; [done|simpl; lia]).
    destruct (3 <=? missed) eqn:E; bools; [do 3 eexists; split; done|].
    destruct ok; [|do 3 eexists; split; done].
    rewrite u32_add_ret by arith. do 3 eexists; split; [done|]. simpl. lia.
  - by do 3 eexists.
Qed.

Lemma run_step_ok s w : Forall conn_ok (conns w) ->
  exists w', run_step s w = Ret w' /\ Forall conn_ok (conns w').
Proof.
  intros H. destruct s as [|k ev]; simpl.
  - eexists. split; [done|]. simpl. apply Forall_app. split; [done|].
    by apply Forall_cons_2; [|apply Forall_nil_2].
  - destruct (conns w !! k) as [c|] eqn:E; [|eauto].
    destruct (handle_connection_ok ev c (nodes w)) as (c' & m' & out & -> & Hc').
    { by eapply Forall_lookup_1. }
    simpl. eexists. split; [done|]. by apply Forall_insert.
Qed.

(** The main node never fails: whatever connections are accepted and
    whatever they send in whatever interleaving, every step returns (the
    counter of missed pongs stays within 0..3 and cannot overflow). *)
Theorem main_node_total (ss : list step) :
  exists w, run_steps ss (MainNode new []) = Ret w /\ Forall conn_ok (conns w).
Proof.
  assert (Forall conn_ok (conns (MainNode new []))) as H by apply Forall_nil_2.
  revert H. generalize (MainNode new []).
  induction ss as [|s ss IH]; intros w H; simpl; [eauto|].
  destruct (run_step_ok s w H) as (w1 & -> & H1). simpl. by apply IH.
Qed.
End server.

(** ** Registration needs the token *)

Definition registers (k : nat) (id token : string) (s : step) : Prop :=
  exists r eps meta tc, s = Event k (Message (Register id r eps meta token tc)).

Lemma handle_register_some ev id r eps meta out srv :
  handle_register srv ev = (Some (id, r, eps, meta), out) ->
  exists token tc, ev = Message (Register id r eps meta token tc) /\
    (expected_token srv = "" \/ token = expected_token srv) /\ out = [RegisterAck true None].
Proof.
  unfold handle_register. destruct ev as [|[]| |]; try done.
  destruct (String.eqb_spec (expected_token srv) ""); destruct (String.eqb_spec token (expected_token srv)); simpl;
    intros [= <- <- <- <- <-]; eauto 8.
Qed.

(** What one event does to a connection and the registry. *)
Lemma handle_connection_inv srv ev c m c' m' out :
  handle_connection srv ev c m = Ret (c', m', out) ->
  (c' = c \/ c = AtRegister /\ c' = Over \/ exists id x y, c = Serving id x /\ c' = Serving id y) /\ m' = m \/
  (exists id r eps meta token tc, c = AtRegister /\
     c' = (if 0 <? ping_interval srv then Serving id 0 else Over) /\
     m' = register id r eps meta m /\ ev = Message (Register id r eps meta token tc) /\
     (expected_token srv = "" \/ token = expected_token srv)) \/
  (exists id x, c = Serving id x /\ c' = Over /\
     (m' = set_status id Offline m \/ m' = unregister id m)).
Proof.
  destruct c as [|id missed|]; simpl.
  - destruct (handle_register srv ev) as [[[[[id r] eps] meta]|] o] eqn:E; intros [= <- <- <-].
    + apply handle_register_some in E as (token & tc & -> & Ht & _). right. left. eauto 12.
    + left. auto.
  - destruct ev as [|[]| |ok]; intros H; simplify_eq; eauto 12.
    destruct (3 <=? missed); [simplify_eq; eauto 12|].
    destruct ok; [|simplify_eq; eauto 12].
    destruct (u32_add missed 1); simplify_eq/=. left. eauto 12.
  - intros [= <- <- <-]. auto.
Qed.

(** C9: only the token's holders become nodes: with a token configured, every
    node in the registry, whatever connections were made and whatever they
    sent, was registered by a [Register] message carrying exactly that
    token. *)
Theorem registry_needs_token (srv : cluster_server) (ss : list step) (w : main_node) (id : string) :
  expected_token srv <> "" -> run_steps srv ss (MainNode new []) = Ret w ->
  is_Some (nodes w !! id) -> exists k, Exists (registers k id (expected_token srv)) ss.
Proof.
  intros Hne.
  enough (forall w0 pre, (forall id, is_Some (nodes w0 !! id) -> exists k, Exists (registers k id (expected_token srv)) pre) ->
    run_steps srv ss w0 = Ret w ->
    forall id, is_Some (nodes w !! id) -> exists k, Exists (registers k id (expected_token srv)) (pre ++ ss)) as Hall.
  { intros Hr. apply (Hall (MainNode new []) []); [|done].
    simpl. unfold new. intros ? [? Hx]. by rewrite lookup_empty in Hx. }
  clear id. induction ss as [|s ss IH]; intros w0 pre Hpre Hr; simpl in Hr.
  { simplify_eq. intros id Hid. rewrite app_nil_r. by apply Hpre. }
  destruct (run_step srv s w0) as [w1|] eqn:Es; simpl in Hr; [|done].
  rewrite (cons_middle s pre ss), app_assoc. apply (IH w1); [|done]. clear IH Hr.
  intros id Hid. destruct s as [|k ev]; simpl in Es; simplify_eq/=.
  { destruct (Hpre id Hid) as [k Hk]. exists k. apply Exists_app. by left. }
  destruct (conns w0 !! k) as [c|]; [|simplify_eq; destruct (Hpre id Hid) as [k' Hk];
                                      exists k'; apply Exists_app; by left].
  destruct (handle_connection srv ev c (nodes w0)) as [[[c' m'] out]|] eqn:E; simplify_eq/=.
  assert (is_Some (nodes w0 !! id) \/ registers k id (expected_token srv) (Event k ev)) as [Hold|Hnew].
  { apply handle_connection_inv in E as [[_ ->]|[(id' & r & eps & meta & token & tc & _ & _ & -> & -> & Ht)
      |(id' & x & _ & _ & [-> | ->])]]; [by left|..].
    - unfold register in Hid. destruct (decide (id' = id)) as [<-|];
        [right|left; by rewrite lookup_insert_ne in Hid].
      destruct Ht as [?| ->]; [done|]. unfold registers; eauto.
    - left. unfold set_status in Hid. destruct (decide (id' = id)) as [<-|];
        [rewrite lookup_alter_eq, fmap_is_Some in Hid|rewrite lookup_alter_ne in Hid]; done.
    - left. unfold unregister in Hid. destruct (decide (id' = id)) as [<-|];
        [rewrite lookup_delete_eq in Hid; by destruct Hid|by rewrite lookup_delete_ne in Hid]. }
  - destruct (Hpre id Hold) as [k' Hk]. exists k'. apply Exists_app. by left.
  - exists k. apply Exists_app. right. by constructor.
Qed.

(** ** Liveness detection *)

(** The events of one connection, in order. *)
Fixpoint run_conn (srv : cluster_server) (evs : list event) (c : conn) (m : registry) :
    outcome (conn * registry) :=
  match evs with
  | [] => Ret (c, m)
  | ev :: evs =>
      r ← handle_connection srv ev c m;
      let '(c, m, _) := r in run_conn srv evs c m
  end.
Definition is_tick (ev : event) : bool := match ev with Tick _ => true | _ => false end.
Definition is_pong (ev : event) : bool := match ev with Message Pong => true | _ => false end.

Lemma run_conn_over srv evs m : run_conn srv evs Over m = Ret (Over, m).
Proof. induction evs as [|ev evs IH]; [done|]. simpl. apply IH. Qed.

Lemma run_conn_silent srv evs id missed m :
  0 <= missed <= 3 -> Forall (fun ev => is_pong ev = false) evs ->
  exists c m', run_conn srv evs (Serving id missed) m = Ret (c, m') /\
    (c = Over /\ (m' = set_status id Offline m \/ m' = unregister id m) \/
     c = Serving id (missed + Z.of_nat (count is_tick evs)) /\ m' = m /\ missed + Z.of_nat (count is_tick evs) <= 3).
Proof.
  intros Hm H. revert missed Hm. induction H as [|ev evs Hev _ IH]; intros missed Hm; simpl.
  { do 2 eexists. split; [done|]. right. rewrite count_nil. split; [f_equal; lia|]. split; [done|lia]. }
  rewrite count_cons.
  assert (forall m1 n, m1 = set_status id Offline m \/ m1 = unregister id m ->
    exists c m', run_conn srv evs Over m1 = Ret (c, m') /\
    (c = Over /\ (m' = set_status id Offline m \/ m' = unregister id m) \/
     c = Serving id (missed + Z.of_nat n) /\ m' = m /\ missed + Z.of_nat n <= 3)) as Hover.
  { intros m1 n Hm1. rewrite run_conn_over. eauto 8. }
  destruct ev as [|[]| |ok]; simpl in *; try done; try (apply Hover; auto).
  all: try (destruct (IH missed Hm) as (c & m' & -> & Hc); exists c, m'; split; [done|exact Hc]).
  destruct (3 <=? missed) eqn:E; bools; [apply Hover; auto|]. destruct ok; [|apply Hover; auto].
  rewrite u32_add_ret by arith. simpl.
  destruct (IH (missed + 1) ltac:(lia)) as (c & m' & -> & Hc). exists c, m'. split; [done|].
  destruct Hc as [?|(-> & -> & ?)]; [by left|right]. split; [f_equal; lia|]. split; [done|lia].
Qed.

(** A peer that stops answering is dropped on the fourth ping tick: after
    a node's last [Pong], events without a [Pong] keep the connection and the
    registry untouched for three ticks at most; by the fourth the connection is
    over and the node is offline (or has deregistered). *)
Theorem silent_peer_dropped (srv : cluster_server) (id : string) (evs : list event) (missed : Z) (m : registry) :
  0 <= missed <= 3 -> Forall (fun ev => is_pong ev = false) evs ->
  let after := run_conn srv (Message Pong :: evs) (Serving id missed) m in
  (4 <= count is_tick evs)%nat ->
  exists m', after = Ret (Over, m') /\ (status_of m' id = Some Offline \/ status_of m' id = None).
Proof.
  intros Hm Hevs after Ht. unfold after; simpl.
  destruct (run_conn_silent srv evs id 0 m ltac:(lia) Hevs) as (c & m' & -> & Hc).
  destruct Hc as [[-> Hm']|(_ & _ & ?)]; [|lia]. eexists. split; [done|].
  destruct Hm' as [-> | ->]; unfold status_of, set_status, unregister.
  - rewrite lookup_alter_eq. destruct (m !! id); simpl; auto.
  - rewrite lookup_delete_eq. by right.
Qed.

(** ** The registry and the live connections *)

Definition serves (w : main_node) (k : nat) (id : string) : Prop :=
  exists missed, conns w !! k = Some (Serving id missed).

(** The node [id] takes its connections in turns: whenever a registration
    under [id] is accepted, no connection is still served for it. *)
Definition serving (id : string) (c : conn) : bool :=
  match c with Serving i _ => String.eqb i id | _ => false end.
Definition free_for (srv : cluster_server) (id : string) (s : step) (w : main_node) : bool :=
  match s with
  | Accept => true
  | Event k ev =>
      match conns w !! k, fst (handle_register srv ev) with
      | Some AtRegister, Some (i, _, _, _) => negb (String.eqb i id) || negb (existsb (serving id) (conns w))
      | _, _ => true
      end
  end.
Fixpoint takes_turns (srv : cluster_server) (id : string) (ss : list step) (w : main_node) : bool :=
  match ss with
  | [] => true
  | s :: ss =>
      free_for srv id s w &&
      match run_step srv s w with Ret w => takes_turns srv id ss w | Panic _ => true end
  end.

Lemma status_of_register id id' r eps meta m :
  status_of (register id r eps meta m) id' = if decide (id = id') then Some Online else status_of m id'.
Proof. unfold status_of, register. rewrite lookup_insert. by case_decide. Qed.
Lemma status_of_set id id' s m :
  status_of (set_status id s m) id' =
    if decide (id = id') then (fun _ => s) <$> m !! id' else status_of m id'.
Proof.
  unfold status_of, set_status. case_decide; [subst id'|by rewrite lookup_alter_ne].
  rewrite lookup_alter_eq. by destruct (m !! id).
Qed.
Lemma status_of_unregister id id' m :
  status_of (unregister id m) id' = if decide (id = id') then None else status_of m id'.
Proof. unfold status_of, unregister. rewrite lookup_delete. by case_decide. Qed.

Lemma serves_insert w m k c c' k' id :
  conns w !! k = Some c ->
  serves (MainNode m (<[k := c']> (conns w))) k' id <->
    (if decide (k = k') then exists x, c' = Serving id x else serves w k' id).
Proof.
  intros Hc. unfold serves; simpl. case_decide as Hk.
  - subst. rewrite list_lookup_insert_eq by eauto using lookup_lt_Some.
    split; [intros [x [= ->]]; eauto|intros [x ->]; eauto].
  - by rewrite list_lookup_insert_ne.
Qed.

(** An online node is served, none is draining; and a node that takes turns
    is online, over one connection, when it is served. *)
Definition tracked (w : main_node) : Prop :=
  forall id, status_of (nodes w) id <> Some Draining /\
    (status_of (nodes w) id = Some Online -> exists k, serves w k id).
Definition in_turn (id : string) (w : main_node) : Prop :=
  forall k k', serves w k id -> status_of (nodes w) id = Some Online /\ (serves w k' id -> k' = k).

Lemma serves_accept w k id :
  serves (MainNode (nodes w) (conns w ++ [AtRegister])) k id <-> serves w k id.
Proof.
  unfold serves; simpl. split; intros [x Hx]; exists x; [|by apply lookup_app_l_Some].
  apply lookup_app_Some in Hx as [?|(_ & Hx)]; [done|].
  by apply list_lookup_singleton_Some in Hx as [_ ?].
Qed.
Lemma nothing_served k id : ~ serves (MainNode new []) k id.
Proof. by intros [x Hx]. Qed.
(** The three kinds of steps, by what they do to the registry and to who
    serves whom. *)
Lemma run_step_served srv s w w' : 0 < ping_interval srv -> run_step srv s w = Ret w' ->
  (nodes w' = nodes w /\ forall k id, serves w' k id <-> serves w k id) \/
  (exists k ev i r eps meta out, s = Event k ev /\ conns w !! k = Some AtRegister /\
     handle_register srv ev = (Some (i, r, eps, meta), out) /\ nodes w' = register i r eps meta (nodes w) /\
     forall k' id, serves w' k' id <-> if decide (k = k') then id = i else serves w k' id) \/
  (exists k i, serves w k i /\ (nodes w' = set_status i Offline (nodes w) \/ nodes w' = unregister i (nodes w)) /\
     forall k' id, serves w' k' id <-> k <> k' /\ serves w k' id).
Proof.
  intros Hp Hs. destruct s as [|k ev]; simpl in Hs.
  { simplify_eq. left. split; [done|]. intros k id. apply serves_accept. }
  destruct (conns w !! k) as [c|] eqn:Ec; [|simplify_eq; by left].
  destruct (handle_connection srv ev c (nodes w)) as [[[c' m'] out]|] eqn:E; simplify_eq/=.
  apply handle_connection_inv in E as [[Hc' ->]|[(i & r & eps & meta & token & tc & -> & Hc' & -> & -> & Ht)
    |(i & x & -> & -> & Hm')]].
  - left. split; [done|]. intros k' id. rewrite serves_insert by done. case_decide; [subst k'|done].
    unfold serves. rewrite Ec. destruct Hc' as [->|[[-> ->]|(id' & x & y & -> & ->)]]; naive_solver.
  - right. left. rewrite (proj2 (Z.ltb_lt _ _) Hp) in Hc'. subst c'.
    exists k, (Message (Register i r eps meta token tc)), i, r, eps, meta, [RegisterAck true None].
    split; [done|]. split; [done|]. split; [|split; [done|]].
    + simpl. destruct (String.eqb_spec (expected_token srv) ""), (String.eqb_spec token (expected_token srv)); simpl; try done.
      by destruct Ht.
    + intros k' id. rewrite serves_insert by done. case_decide; [|done]. naive_solver.
  - right. right. exists k, i. split; [by exists x|]. split; [done|].
    intros k' id. rewrite serves_insert by done. case_decide as Hk; [|by split; [|intros [_ ?]]]. naive_solver.
Qed.

Lemma tracked_step srv s w w' : 0 < ping_interval srv ->
  tracked w -> run_step srv s w = Ret w' -> tracked w'.
Proof.
  intros Hp Hw Hs id. destruct (Hw id) as [Hd Ho].
  destruct (run_step_served _ _ _ _ Hp Hs) as [[Hn Hk]|[(k & ev & i & r & eps & meta & out & _ & Hc & _ & Hn & Hk)
    |(k & i & Hsv & Hn & Hk)]].
  - rewrite Hn. split; [done|]. intros [k Hx]%Ho. exists k. by apply Hk.
  - rewrite Hn, status_of_register. case_decide as Hi; [subst id; split; [done|]|split; [done|]].
    + intros _. exists k. apply Hk. by rewrite decide_True.
    + intros [k' Hk']%Ho. exists k'. apply Hk. case_decide; [|done]. subst k'.
      destruct Hk' as [x Hk']. congruence.
  - assert (status_of (nodes w') id = if decide (i = id) then status_of (nodes w') id else status_of (nodes w) id) as Hst.
    { case_decide; [done|]. by destruct Hn as [-> | ->]; rewrite ?status_of_set, ?status_of_unregister, decide_False. }
    rewrite Hst. case_decide as Hi; [subst id|].
    + destruct Hn as [-> | ->]; rewrite ?status_of_set, ?status_of_unregister, decide_True by done; [|by split].
      by destruct (nodes w !! i).
    + split; [done|]. intros [k' Hk']%Ho. exists k'. apply Hk. split; [|done]. intros <-.
      destruct Hsv as [x Hx], Hk' as [y Hy]. congruence.
Qed.

Lemma not_served id w k : existsb (serving id) (conns w) = false -> ~ serves w k id.
Proof.
  intros Hf [x Hx]. assert (existsb (serving id) (conns w) = true) as Ht; [|congruence].
  apply existsb_exists. exists (Serving id x). split; [|simpl; apply String.eqb_refl].
  apply list_elem_of_In. by eapply list_elem_of_lookup_2.
Qed.
Lemma in_turn_step srv id s w w' : 0 < ping_interval srv ->
  in_turn id w -> free_for srv id s w = true -> run_step srv s w = Ret w' -> in_turn id w'.
Proof.
  intros Hp Hw Hf Hs.
  destruct (run_step_served _ _ _ _ Hp Hs) as [[Hn Hk]|[(k & ev & i & r & eps & meta & out & -> & Hc & Hr & Hn & Hk)
    |(k & i & Hsv & Hn & Hk)]].
  - intros k k' H%Hk. rewrite Hn. destruct (Hw k k' H) as [H1 H2]. split; [done|]. intros H3%Hk. by apply H2.
  - simpl in Hf. rewrite Hc, Hr in Hf. simpl in Hf. intros k1 k2. rewrite !Hk, Hn, status_of_register.
    case_decide as Hk1.
    + intros ->. rewrite decide_True by done. split; [done|]. case_decide; [by subst|]. intros H2. exfalso.
      rewrite String.eqb_refl in Hf. simpl in Hf. apply negb_true_iff in Hf. by eapply not_served.
    + intros H1. destruct (Hw k1 k2 H1) as [H2 H3]. case_decide as Hi; [subst i|].
      * exfalso. rewrite String.eqb_refl in Hf. simpl in Hf. apply negb_true_iff in Hf. by eapply not_served.
      * split; [done|]. case_decide; [by intros ->|done].
  - intros k1 k2 [Hne H1]%Hk. destruct (Hw k1 k2 H1) as [H2 H3]. assert (i <> id) as Hi.
    { intros ->. destruct (Hw k1 k H1) as [_ H4]. by apply Hne, H4. }
    split; [|intros [_ H4]%Hk; by apply H3].
    by destruct Hn as [-> | ->]; rewrite ?status_of_set, ?status_of_unregister, decide_False.
Qed.
Lemma tracked_steps srv ss w w' : 0 < ping_interval srv -> tracked w -> run_steps srv ss w = Ret w' -> tracked w'.
Proof.
  intros Hp. revert w. induction ss as [|s ss IH]; intros w Hw; simpl; [by intros [= <-]|].
  destruct (run_step srv s w) as [w1|] eqn:Es; simpl; [|done]. apply IH. by eapply tracked_step.
Qed.
Lemma in_turn_steps srv id ss w w' : 0 < ping_interval srv -> in_turn id w ->
  takes_turns srv id ss w = true -> run_steps srv ss w = Ret w' -> in_turn id w'.
Proof.
  intros Hp. revert w. induction ss as [|s ss IH]; intros w Hw; simpl; [by intros _ [= <-]|].
  intros [Hf Ht]%andb_true_iff. destruct (run_step srv s w) as [w1|] eqn:Es; simpl; [|done].
  apply IH; [by eapply in_turn_step|done].
Qed.

(** C7: the registry follows the live connections: with a positive ping
    interval, after any interleaving of connections, registrations, pings,
    losses and deregistrations, a node that is online is served by a
    connection, and none is draining.  And a node that takes its connections
    in turns - one that stops and starts, or registers once to try and then
    again to stay, but whose old connection the main node has seen end before
    it accepts the new registration - is online exactly while a connection
    serves it, and by one connection only. *)
Theorem registry_tracks_connections (srv : cluster_server) (ss : list step) (w : main_node) (id : string) :
  0 < ping_interval srv -> run_steps srv ss (MainNode new []) = Ret w ->
  status_of (nodes w) id <> Some Draining /\
  (status_of (nodes w) id = Some Online -> exists k, serves w k id) /\
  (takes_turns srv id ss (MainNode new []) = true ->
     forall k k', serves w k id -> status_of (nodes w) id = Some Online /\ (serves w k' id -> k' = k)).
Proof.
  intros Hp Hr. assert (tracked (MainNode new [])) as H0 by (intros i; unfold status_of, new; simpl; by rewrite lookup_empty).
  destruct (tracked_steps _ _ _ _ Hp H0 Hr id) as [H1 H2]. split; [done|]. split; [done|].
  intros Ht. eapply in_turn_steps; [done| |done|done]. by intros k k' [x Hx].
Qed.

(** A ping interval of zero, which a configuration may have, leaves every node
    online for ever: [tokio::time::interval] panics in the task of each
    connection right after its node was registered, so no connection is ever
    served, and nothing takes the node offline. *)
Theorem zero_interval_leaves_online (srv : cluster_server) (ss more : list step) (w w' : main_node) (id : string) :
  ping_interval srv <= 0 -> run_steps srv ss (MainNode new []) = Ret w -> run_steps srv more w = Ret w' ->
  (forall k, ~ serves w' k id) /\
  (status_of (nodes w) id = Some Online -> status_of (nodes w') id = Some Online).
Proof.
  intros Hp.
  assert (forall s w1 w2, (forall k i, ~ serves w1 k i) -> run_step srv s w1 = Ret w2 ->
    (forall k i, ~ serves w2 k i) /\ (status_of (nodes w1) id = Some Online -> status_of (nodes w2) id = Some Online)) as Hstep.
  { intros s w1 w2 Hw Hs. destruct s as [|k ev]; simpl in Hs.
    { simplify_eq. split; [|done]. intros k i. by rewrite serves_accept. }
    destruct (conns w1 !! k) as [c|] eqn:Ec; [|by simplify_eq].
    destruct (handle_connection srv ev c (nodes w1)) as [[[c' m'] out]|] eqn:E; simplify_eq/=.
    apply handle_connection_inv in E as [[Hc' ->]|[(i & r & eps & meta & token & tc & -> & Hc' & -> & _)
      |(i & x & -> & _)]]; [| |by destruct (Hw k i); exists x].
    - split; [|done]. intros k' i. rewrite serves_insert by done. case_decide; [|done]. intros [x ->].
      destruct Hc' as [<-|[[_ [=]]|(i' & y & z & -> & _)]]; [by destruct (Hw k i); exists x|by destruct (Hw k i'); exists y].
    - rewrite (proj2 (Z.ltb_ge _ _) Hp) in Hc'. subst c'. split; [|rewrite status_of_register; by case_decide].
      intros k' i'. rewrite serves_insert by done. case_decide; [by intros [x [=]]|done]. }
  assert (forall l w1 w2, (forall k i, ~ serves w1 k i) -> run_steps srv l w1 = Ret w2 ->
    (forall k i, ~ serves w2 k i) /\ (status_of (nodes w1) id = Some Online -> status_of (nodes w2) id = Some Online)) as Hsteps.
  { intros l. induction l as [|s l IH]; intros w1 w2 Hw; simpl; [by intros [= <-]|].
    destruct (run_step srv s w1) as [w3|] eqn:Es; simpl; [|done]. intros Hr.
    destruct (Hstep _ _ _ Hw Es) as [Hw3 Ho]. destruct (IH w3 w2 Hw3 Hr) as [H1 H2]. split; [done|]. by intros ?%Ho%H2. }
  intros H1 H2. destruct (Hsteps _ _ _ nothing_served H1) as [Hw _].
  destruct (Hsteps _ _ _ Hw H2) as [H3 H4]. split; [by intros k|done].
Qed.

(** A late disconnect hides a reconnected node.  When a node registers on
    a new connection before the main node has noticed the end of its old one,
    the old connection's end marks the node offline although the new
    connection serves it, and no traffic on the new connection brings it back
    online. *)
Theorem stale_disconnect_hides_node (srv : cluster_server) (id : string) (w w' : main_node) (k1 k2 : nat)
    (missed : Z) (r : node_role) (eps : list endpoint) (meta : metadata_map)
    (tc : option metadata_map) (traffic : list event) :
  0 < ping_interval srv ->
  conns w !! k1 = Some (Serving id missed) -> conns w !! k2 = Some AtRegister ->
  Forall (fun ev => ev = Message Ping \/ ev = Message Pong \/ ev = Message ListNodes) traffic ->
  run_steps srv
    ([Event k2 (Message (Register id r eps meta (expected_token srv) tc)); Event k1 NoMessage] ++
     map (Event k2) traffic) w = Ret w' ->
  conns w' !! k2 = Some (Serving id 0) /\ status_of (nodes w') id = Some Offline.
Proof.
  intros Hp H1 H2 Ht. assert (k1 <> k2) as Hne by congruence. simpl. rewrite H2. simpl.
  rewrite String.eqb_refl, andb_false_r. simpl. rewrite (proj2 (Z.ltb_lt _ _) Hp). rewrite list_lookup_insert_ne, H1 by done. simpl.
  set (m1 := set_status _ _ _). set (cs := <[k1:=Over]> _).
  assert (status_of m1 id = Some Offline) as Hm.
  { unfold m1. rewrite status_of_set, decide_True by done. unfold register.
    by rewrite lookup_insert_eq. }
  assert (cs !! k2 = Some (Serving id 0)) as Hcs.
  { unfold cs. rewrite list_lookup_insert_ne by done.
    apply list_lookup_insert_eq. by eapply lookup_lt_Some. }
  clearbody m1 cs. revert cs Hcs. induction Ht as [|ev evs Hev _ IH]; intros cs Hcs; simpl.
  - by intros [= <-].
  - rewrite Hcs. destruct Hev as [->|[->| ->]]; simpl; apply IH;
      apply list_lookup_insert_eq; by eapply lookup_lt_Some.
Qed.

(** ** A main node and its workers *)
Definition reg (id token : string) : cluster_message := Register id Worker [] ∅ token None.
Definition main_server : cluster_server := server_new "secret" 10.
Definition session : list step :=
  [Accept; Accept; Event 0 (Message (reg "w1" "secret")); Event 1 (Message (reg "w2" "guess"));
   Event 0 (Tick true); Event 0 (Message Pong)].
Definition after_session : main_node :=
  match run_steps main_server session (MainNode new []) with Ret w => w | Panic _ => MainNode new [] end.

Lemma registry_needs_token_witness :
  list_nodes (nodes after_session) = Ok [NodeInfo "w1" Worker [] ∅ Online] /\
  exists k, Exists (registers k "w1" "secret") session.
Proof.
  split; [vm_compute; reflexivity|].
  refine (registry_needs_token main_server session after_session "w1" _ _ _).
  - discriminate.
  - vm_compute; reflexivity.
  - eexists. vm_compute; reflexivity.
Defined.

Lemma silent_peer_dropped_witness :
  let m := register "w1" Worker [] ∅ ∅ in
  let evs := [Tick true; Tick true; Message ListNodes; Tick true; Tick true] in
  exists m', run_conn main_server (Message Pong :: evs) (Serving "w1" 2) m = Ret (Over, m') /\
    (status_of m' "w1" = Some Offline \/ status_of m' "w1" = None).
Proof.
  intros m evs. refine (silent_peer_dropped main_server "w1" evs 2 m _ _ _).
  - lia.
  - repeat constructor.
  - vm_compute. lia.
Defined.

(** A worker starts: it registers once ([connect_once]), drops that connection
    and registers again from its background task; another node is connected and
    an impostor tries its name. *)
Definition worker_starts : list step :=
  [Accept; Event 0 (Message (reg "w1" "secret")); Accept; Event 1 (Message (reg "w2" "secret"));
   Event 0 NoMessage; Accept; Accept; Event 2 (Message (reg "w1" "secret")); Event 3 (Message (reg "w1" "guess"));
   Event 2 (Tick true); Event 2 (Message Pong)].
Definition after_start : main_node :=
  match run_steps main_server worker_starts (MainNode new []) with Ret w => w | Panic _ => MainNode new [] end.

Lemma registry_tracks_connections_witness :
  takes_turns main_server "w1" worker_starts (MainNode new []) = true /\ serves after_start 2 "w1" /\
  status_of (nodes after_start) "w1" = Some Online /\ (forall k, serves after_start k "w1" -> k = 2%nat).
Proof.
  assert (Hs : serves after_start 2 "w1") by (exists 0; vm_compute; reflexivity).
  assert (Ht : takes_turns main_server "w1" worker_starts (MainNode new []) = true) by (vm_compute; reflexivity).
  split; [exact Ht|]. split; [exact Hs|].
  destruct (registry_tracks_connections main_server worker_starts after_start "w1") as (_ & _ & H).
  - reflexivity.
  - vm_compute; reflexivity.
  - split; [apply (H Ht 2%nat 2%nat Hs)|]. intros k Hk. exact (proj2 (H Ht 2%nat k Hs) Hk).
Defined.

Lemma zero_interval_leaves_online_witness :
  let srv := server_new "secret" 0 in
  exists w, run_steps srv worker_starts (MainNode new []) = Ret w /\ conns w = replicate 4 Over /\
    (forall k, ~ serves w k "w1") /\ status_of (nodes w) "w1" = Some Online.
Proof.
  intros srv. eexists. split; [vm_compute; reflexivity|]. split; [vm_compute; reflexivity|].
  assert (H : exists w0, run_steps srv (take 2 worker_starts) (MainNode new []) = Ret w0 /\ status_of (nodes w0) "w1" = Some Online)
    by (eexists; split; vm_compute; reflexivity).
  destruct H as (w0 & H0 & Hon).
  assert (H1 : run_steps srv (drop 2 worker_starts) w0 = run_steps srv worker_starts (MainNode new [])).
  { rewrite <- (take_drop 2 worker_starts) at 2. by rewrite run_steps_app, H0. }
  split.
  - refine (proj1 (zero_interval_leaves_online srv (take 2 worker_starts) (drop 2 worker_starts) w0 _ "w1" _ H0 _)).
    + vm_compute. discriminate.
    + rewrite H1. vm_compute. reflexivity.
  - refine (proj2 (zero_interval_leaves_online srv (take 2 worker_starts) (drop 2 worker_starts) w0 _ "w1" _ H0 _) Hon).
    + vm_compute. discriminate.
    + rewrite H1. vm_compute. reflexivity.
Defined.

Lemma stale_disconnect_hides_node_witness :
  let w := MainNode (register "w1" Worker [] ∅ ∅) [Serving "w1" 1; AtRegister] in
  let ss := [Event 1 (Message (reg "w1" "secret")); Event 0 NoMessage;
             Event 1 (Message Ping); Event 1 (Message Pong)] in
  exists w', run_steps main_server ss w = Ret w' /\
    conns w' !! 1%nat = Some (Serving "w1" 0) /\ status_of (nodes w') "w1" = Some Offline.
Proof.
  intros w ss. eexists. split; [vm_compute; reflexivity|].
  refine (stale_disconnect_hides_node main_server "w1" w _ 0 1 1 Worker [] ∅ None
    [Message Ping; Message Pong] _ _ _ _ _).
  - reflexivity.
  - reflexivity.
  - reflexivity.
  - apply Forall_cons_2; [auto|apply Forall_cons_2; [auto|apply Forall_nil_2]].
  - vm_compute; reflexivity.
Defined.
End Server.

(** * The worker *)
Module WorkerConn.

(** [enum ConnectionState], kept in an atomic [u8]. *)
Inductive connection_state : Type := Connected | Disconnected | Reconnecting.
Definition as_u8 (s : connection_state) : Z :=
  match s with Connected => 0 | Disconnected => 1 | Reconnecting => 2 end.
Definition from_u8 (v : Z) : connection_state :=
  if v =? 0 then Connected else if v =? 1 then Disconnected else Reconnecting.

(** [struct ClusterConnection]; [ClusterConnection::new] draws an id ([uuid])
    when none is configured. *)
Record config : Type := Config {
  cfg_node_id : string;
  main_address : string;
  cluster_token : string;
  ping_interval_secs : Z;
}.
Record connection : Type := Connection {
  worker_id : string;
  main_addr : string;
  token : string;
  worker_endpoints : list endpoint;
  worker_metadata : metadata_map;
  ping_interval : Z;
}.
Definition new (uuid : string) (cfg : config) (eps : list endpoint) (meta : metadata_map) : connection :=
  Connection (if String.eqb (cfg_node_id cfg) "" then uuid else cfg_node_id cfg)
    (main_address cfg) (cluster_token cfg) eps meta (from_secs (ping_interval_secs cfg)).

(** [tcp_connect] *)
Definition tcp_connect (c : connection) (answer : result string unit) : Result unit :=
  match answer with
  | Ok _ => Ok tt
  | Err e => fail ClusterMainUnreachable ("tcp connect to " +:+ main_addr c +:+ " failed: " +:+ e)
  end.

(** [do_register]: the message it sends, and its result from the outcome of
    sending and of reading the acknowledgement. *)
Inductive ack_read : Type :=
| AckTimeout
| AckClosed
| AckError (e : string)
| Ack (m : cluster_message).
Definition register_message (c : connection) (trace_ctx : option metadata_map) : cluster_message :=
  Register (worker_id c) Worker (worker_endpoints c) (worker_metadata c) (token c) trace_ctx.
Definition do_register (sent : result string unit) (ack : ack_read) : Result unit :=
  match sent with
  | Err e => fail ClusterRegisterFailed ("send register: " +:+ e)
  | Ok _ =>
      match ack with
      | AckTimeout => fail ClusterRegisterFailed "register ack timeout"
      | AckClosed => fail ClusterRegisterFailed "connection closed before ack"
      | AckError e => fail ClusterRegisterFailed ("read ack: " +:+ e)
      | Ack (RegisterAck true _) => Ok tt
      | Ack (RegisterAck false error) => fail ClusterAuthFailed (default "register rejected" error)
      | Ack _ => fail ClusterRegisterFailed "unexpected response"
      end
  end.
(** [connect_once] *)
Definition connect_once (c : connection) (answer sent : result string unit) (ack : ack_read) :
    Result unit :=
  _ ← tcp_connect c answer; do_register sent ack.

(** [run_loop] and [message_loop] between their await points. *)
Inductive worker_pc : Type :=
| AtConnect
| AtRegister
| Backoff (delay : Z)
| InMessages
| Returned.
Record worker : Type := WorkerState {
  state : Z;
  backoff : Z;
  pc : worker_pc;
  node_list : list node_info;
}.
Definition max_backoff : Z := from_secs 30.
Definition spawn_background : worker := WorkerState (as_u8 Connected) (from_secs 3) AtConnect [].

Inductive worker_event : Type :=
| ConnectAnswer (a : result string unit)
| RegisterAnswer (sent : result string unit) (ack : ack_read)
| SleepDone
| Shutdown
| PingTick (send_ok : bool)
| SyncTick (send_ok : bool)
| FrameIn (m : cluster_message) (send_ok : bool)
| ReadError
| StreamEnd.

Definition goto (p : worker_pc) (w : worker) : worker :=
  WorkerState (state w) (backoff w) p (node_list w).
(** A failed attempt: reconnecting, sleeping for the backoff and doubling it. *)
Definition retry_later (w : worker) : worker :=
  WorkerState (as_u8 Reconnecting) (Z.min (backoff w * 2) max_backoff) (Backoff (backoff w)) (node_list w).
Definition disconnected (w : worker) : worker :=
  WorkerState (as_u8 Reconnecting) (backoff w) AtConnect (node_list w).

(** [message_loop] starts with [tokio::time::interval], which panics on a
    period of zero: the background task is over, its state still [Connected]. *)
Definition worker_step (c : connection) (ev : worker_event) (w : worker) :
    worker * list cluster_message :=
  match pc w, ev with
  | AtConnect, ConnectAnswer a =>
      match tcp_connect c a with
      | Ok _ => (goto AtRegister w, [])
      | Err _ => (retry_later w, [])
      end
  | AtRegister, RegisterAnswer sent ack =>
      match do_register sent ack with
      | Ok _ => (WorkerState (as_u8 Connected) (from_secs 3)
                   (if 0 <? ping_interval c then InMessages else Returned) (node_list w),
                 [register_message c None])
      | Err _ => (retry_later w, [register_message c None])
      end
  | Backoff _, SleepDone => (goto AtConnect w, [])
  | Backoff _, Shutdown => (goto Returned w, [])
  | InMessages, Shutdown => (goto Returned w, [Deregister (worker_id c) None])
  | InMessages, PingTick ok => if ok then (w, [Ping]) else (disconnected w, [])
  | InMessages, SyncTick ok => if ok then (w, [ListNodes]) else (disconnected w, [])
  | InMessages, FrameIn Ping ok => if ok then (w, [Pong]) else (disconnected w, [])
  | InMessages, FrameIn (NodeList nodes) _ =>
      (WorkerState (state w) (backoff w) (pc w) nodes, [])
  | InMessages, FrameIn _ _ => (w, [])
  | InMessages, ReadError | InMessages, StreamEnd => (disconnected w, [])
  | _, _ => (w, [])
  end.

Fixpoint run_worker (c : connection) (evs : list worker_event) (w : worker) : worker :=
  match evs with [] => w | ev :: evs => run_worker c evs (fst (worker_step c ev w)) end.

(** The registration handshake composes: when a worker's registration
    message reaches a main node and the answer comes back, the worker's
    [do_register] succeeds exactly when the main node has no token or the
    worker's token is the main node's, and the main node then registers the
    worker under its own id; otherwise it fails with [ClusterAuthFailed] and
    nothing is registered. *)
Theorem registration_handshake (c : connection) (srv : Server.cluster_server) (tc : option metadata_map) :
  let (info, out) := Server.handle_register srv (Server.Message (register_message c tc)) in
  exists ack, out = [ack] /\
    (if decide (Server.expected_token srv = "" \/ token c = Server.expected_token srv)
     then do_register (Ok tt) (Ack ack) = Ok tt /\
       info = Some (worker_id c, Worker, worker_endpoints c, worker_metadata c)
     else do_register (Ok tt) (Ack ack) = fail ClusterAuthFailed "invalid token" /\ info = None).
Proof.
  unfold register_message. simpl.
  destruct (String.eqb_spec (Server.expected_token srv) ""), (String.eqb_spec (token c) (Server.expected_token srv)); simpl;
    eexists; (split; [done|]); case_decide; naive_solver.
Qed.

(** ** Reconnecting *)

(** One failed attempt to reach the main node, up to the end of its sleep. *)
Inductive failure : Type :=
| Unreachable (e : string)
| NotRegistered (sent : result string unit) (ack : ack_read).
Definition failed_attempt (f : failure) : list worker_event :=
  match f with
  | Unreachable e => [ConnectAnswer (Err e)]
  | NotRegistered sent ack => [ConnectAnswer (Ok tt); RegisterAnswer sent ack]
  end.
Definition fails (f : failure) : Prop :=
  match f with Unreachable _ => True | NotRegistered sent ack => is_ok (do_register sent ack) = false end.

Definition delay_after (n : nat) : Z := Z.min (from_secs (3 * 2 ^ Z.of_nat n)) max_backoff.

Lemma delay_after_S n : Z.min (delay_after n * 2) max_backoff = delay_after (S n).
Proof.
  unfold delay_after, max_backoff, from_secs, nanos_per_sec.
  rewrite Nat2Z.inj_succ, Z.pow_succ_r by lia. lia.
Qed.

Lemma run_worker_app c evs1 evs2 w :
  run_worker c (evs1 ++ evs2) w = run_worker c evs2 (run_worker c evs1 w).
Proof. revert w. induction evs1 as [|ev evs1 IH]; intros w; [done|]. apply IH. Qed.

Lemma failed_attempt_run c f w :
  fails f -> pc w = AtConnect -> run_worker c (failed_attempt f) w = retry_later w.
Proof.
  intros Hf Hpc. destruct f as [e|sent ack]; simpl; unfold worker_step; rewrite Hpc; simpl; [done|].
  simpl in Hf. by destruct (do_register sent ack).
Qed.

Lemma failed_attempts_run c fs w n :
  Forall fails fs -> pc w = AtConnect -> backoff w = delay_after n ->
  let w' := run_worker c (concat (map (fun f => failed_attempt f ++ [SleepDone]) fs)) w in
  pc w' = AtConnect /\ backoff w' = delay_after (n + length fs).
Proof.
  intros H. revert w n. induction H as [|f fs Hf _ IH]; intros w n Hpc Hb; simpl.
  - by rewrite Nat.add_0_r.
  - rewrite !run_worker_app, failed_attempt_run by done. simpl.
    rewrite Nat.add_succ_r, <- Nat.add_succ_l. apply IH; [done|]. simpl.
    by rewrite Hb, delay_after_S.
Qed.

(** Reconnection backs off exponentially to a cap and starts over after a
    success: whatever mixture of connection and registration failures, the
    [n]-th failed attempt in a row (from 0) makes the worker sleep exactly
    [min(3 * 2^n, 30)] seconds in state [Reconnecting], and a registration
    resets the next delay to 3 seconds. *)
Theorem reconnect_backoff (c : connection) (fs : list failure) (f : failure) :
  0 < ping_interval c -> Forall fails fs -> fails f ->
  let w := run_worker c (concat (map (fun f => failed_attempt f ++ [SleepDone]) fs)) spawn_background in
  let w' := run_worker c (failed_attempt f) w in
  pc w' = Backoff (delay_after (length fs)) /\ from_u8 (state w') = Reconnecting /\
  let w'' := run_worker c [SleepDone; ConnectAnswer (Ok tt);
    RegisterAnswer (Ok tt) (Ack (RegisterAck true None))] w' in
  pc w'' = InMessages /\ from_u8 (state w'') = Connected /\ backoff w'' = delay_after 0.
Proof.
  intros Hp Hfs Hf w. destruct (failed_attempts_run c fs spawn_background 0 Hfs eq_refl eq_refl) as [Hpc Hb].
  fold w in Hpc, Hb. rewrite failed_attempt_run by done. simpl in *. by rewrite Hb, (proj2 (Z.ltb_lt _ _) Hp).
Qed.

Definition example_worker : connection :=
  new "u1" (Config "w1" "10.0.0.1:9000" "guess" 10) [] ∅.

Lemma reconnect_backoff_witness :
  let fs := [Unreachable "refused"; NotRegistered (Ok tt) AckTimeout;
             NotRegistered (Ok tt) (Ack (RegisterAck false (Some "invalid token")));
             Unreachable "refused"] in
  delay_after (length fs) = from_secs 30 /\
  pc (run_worker example_worker (failed_attempt (Unreachable "refused"))
        (run_worker example_worker (concat (map (fun f => failed_attempt f ++ [SleepDone]) fs))
           spawn_background)) = Backoff (delay_after (length fs)).
Proof.
  intros fs. split; [vm_compute; reflexivity|].
  refine (proj1 (reconnect_backoff example_worker fs (Unreachable "refused") _ _ _)).
  - reflexivity.
  - repeat constructor.
  - exact I.
Defined.
End WorkerConn.
