(* ===== verification/Trpc.v ===== *)
(** The tRPC protocol: length-prefixed frames, the two servers that answer
    them and the multiplexing client
    ([rinfra-plugins/src/rpc/trpc/{protocol,handler,server,client}.rs]). *)

From S2P Require Import Prelude Errors Resilience Tcp.

Inductive frame_kind : Type := Tell | Request | Response | ErrorFrame.
#[export] Instance frame_kind_eq_dec : EqDecision frame_kind.
Proof. solve_decision. Defined.
(** [struct Frame] *)
Record frame : Type := Frame {
  kind : frame_kind;
  request_id : Z;
  service : string;
  payload : bytes;
}.

Definition bytes_of_string (s : string) : bytes := String.list_byte_of_string s.

(** * Framing *)
Module Protocol.

Definition MAX_FRAME_SIZE : Z := 16 * 1024 * 1024.

(** [u32::to_be_bytes] and [u32::from_be_bytes] *)
Definition byte_of (z : Z) : Byte.byte := default Byte.x00 (Byte.of_N (Z.to_N (z mod 256))).
Definition of_byte (b : Byte.byte) : Z := Z.of_N (Byte.to_N b).
Definition to_be_bytes (n : Z) : bytes :=
  [byte_of (Z.shiftr n 24); byte_of (Z.shiftr n 16); byte_of (Z.shiftr n 8); byte_of n].
Definition from_be_bytes (bs : bytes) : Z :=
  fold_left (fun n b => Z.lor (Z.shiftl n 8) (of_byte b)) bs 0.

Section protocol.
(** serde_json on frames *)
Variable to_vec : frame -> result string bytes.
Variable from_slice : bytes -> result string frame.

(** [write_frame]: what is appended to the stream; [io] is a failure of one of
    its writes. *)
Definition write_frame (io : option string) (f : frame) : Result bytes :=
  match to_vec f with
  | Err e => fail RpcServiceError ("serialize frame: " +:+ e)
  | Ok data =>
      let len := as_u32 (Z.of_nat (length data)) in
      match io with
      | Some e => fail RpcServiceError e
      | None => Ok (to_be_bytes len ++ data)
      end
  end.

(** The rest of a stream and how it ends; [read_exact] *)
Inductive stream_end : Type := EndOfFile | IoFailure (e : string).
Definition read_exact (n : nat) (s : bytes) (after : stream_end) : result (option string) (bytes * bytes) :=
  if (n <=? length s)%nat then Ok (take n s, drop n s)
  else match after with EndOfFile => Err None | IoFailure e => Err (Some e) end.

(** [read_frame]: the frame or [None], and the rest of the stream. *)
Definition read_frame (s : bytes) (after : stream_end) : Result (option (frame * bytes)) :=
  match read_exact 4 s after with
  | Err None => Ok None
  | Err (Some e) => fail RpcServerFailed e
  | Ok (len_buf, s) =>
      let len := from_be_bytes len_buf in
      if MAX_FRAME_SIZE <? len
      then fail RpcServerFailed ("frame too large: " +:+ pretty len +:+ " bytes")
      else
        match read_exact (Z.to_nat len) s after with
        | Err e => fail RpcServerFailed (default "early eof" e)
        | Ok (buf, s) =>
            match from_slice buf with
            | Ok f => Ok (Some (f, s))
            | Err e => fail RpcServerFailed ("deserialize frame: " +:+ e)
            end
        end
  end.

(** Frames written to a stream, and frames read until it ends. *)
Fixpoint write_frames (fs : list frame) : Result bytes :=
  match fs with
  | [] => Ok []
  | f :: fs => b ← write_frame None f; bs ← write_frames fs; Ok (b ++ bs)
  end.
Fixpoint read_frames (fuel : nat) (s : bytes) (after : stream_end) : Result (list frame) :=
  match fuel with
  | O => Ok []
  | S fuel =>
      r ← read_frame s after;
      match r with
      | None => Ok []
      | Some (f, s) => fs ← read_frames fuel s after; Ok (f :: fs)
      end
  end.
End protocol.

Lemma of_byte_range b : 0 <= of_byte b < 256.
Proof. unfold of_byte. pose proof (Byte.to_N_bounded b). lia. Qed.
Lemma of_byte_of z : of_byte (byte_of z) = z mod 256.
Proof.
  unfold of_byte, byte_of. pose proof (Z.mod_pos_bound z 256 ltac:(lia)) as H.
  destruct (Byte.of_N (Z.to_N (z mod 256))) as [b|] eqn:E; simpl.
  - apply Byte.to_of_N in E. rewrite E. lia.
  - apply Byte.of_N_None_iff in E. lia.
Qed.

Lemma shiftl8_lor n b : 0 <= b < 256 -> Z.lor (Z.shiftl n 8) b = n * 256 + b.
Proof.
  intros Hb. rewrite Z.shiftl_mul_pow2 by lia. change (2 ^ 8) with 256.
  rewrite Z.lor_comm. symmetry. rewrite Z.add_comm.
  rewrite <- Z.lxor_lor; [apply Z.add_nocarry_lxor|]; apply Z.bits_inj'; intros i Hi.
  all: rewrite Z.land_spec, Z.bits_0; destruct (Z.ltb_spec i 8).
  all: try (replace (n * 256) with (Z.shiftl n 8) by (rewrite Z.shiftl_mul_pow2; lia);
            rewrite Z.shiftl_spec_low by lia; by rewrite andb_false_r).
  all: rewrite <- (Z.mod_small b (2 ^ 8)) by lia; rewrite Z.mod_pow2_bits_high by lia; done.
Qed.

Lemma be_roundtrip n : in_u32 n -> from_be_bytes (to_be_bytes n) = n.
Proof.
  intros H. unfold from_be_bytes, to_be_bytes. simpl.
  rewrite !shiftl8_lor by apply of_byte_range.
  rewrite !of_byte_of, !Z.shiftr_div_pow2 by lia. cbn. unfold in_u32, u32_max in H.
  Z.to_euclidean_division_equations. lia.
Qed.

Lemma length_to_be_bytes n : length (to_be_bytes n) = 4%nat.
Proof. done. Qed.

Lemma read_exact_app a b after n : n = length a -> read_exact n (a ++ b) after = Ok (a, b).
Proof.
  intros ->. unfold read_exact. rewrite length_app.
  destruct (Nat.leb_spec (length a) (length a + length b)); [|lia].
  by rewrite take_app_length, drop_app_length.
Qed.

(** A frame serde prints within [max] bytes and parses back. *)
Definition serializes (to_vec : frame -> result string bytes) (from_slice : bytes -> result string frame)
    (max : Z) (f : frame) : Prop :=
  exists data, to_vec f = Ok data /\ from_slice data = Ok f /\ Z.of_nat (length data) <= max.

Lemma write_frame_ok to_vec f data : to_vec f = Ok data ->
  write_frame to_vec None f = Ok (to_be_bytes (as_u32 (Z.of_nat (length data))) ++ data).
Proof. intros H. unfold write_frame. by rewrite H. Qed.

(** Reading what was written for [data]. *)
Lemma read_prefixed from_slice data rest after :
  Z.of_nat (length data) <= u32_max ->
  read_frame from_slice ((to_be_bytes (as_u32 (Z.of_nat (length data))) ++ data) ++ rest) after =
    if MAX_FRAME_SIZE <? Z.of_nat (length data)
    then fail RpcServerFailed
           ("frame too large: " +:+ pretty (Z.of_nat (length data)) +:+ " bytes")
    else match from_slice data with
         | Ok f => Ok (Some (f, rest))
         | Err e => fail RpcServerFailed ("deserialize frame: " +:+ e)
         end.
Proof.
  intros Hlen. unfold u32_max in Hlen. unfold as_u32. rewrite Z.mod_small by lia.
  unfold read_frame. rewrite <- app_assoc, read_exact_app by done.
  rewrite be_roundtrip by (unfold in_u32, u32_max; lia).
  destruct (_ <? _); [done|]. by rewrite Nat2Z.id, read_exact_app by done.
Qed.

Lemma read_written to_vec from_slice f b rest after :
  serializes to_vec from_slice MAX_FRAME_SIZE f -> write_frame to_vec None f = Ok b ->
  read_frame from_slice (b ++ rest) after = Ok (Some (f, rest)).
Proof.
  intros (data & Hto & Hfrom & Hlen). rewrite (write_frame_ok _ _ _ Hto).
  intros Hb. assert (b = to_be_bytes (as_u32 (Z.of_nat (length data))) ++ data) as -> by congruence.
  rewrite read_prefixed by (unfold MAX_FRAME_SIZE, u32_max in *; lia).
  destruct (_ <? _) eqn:E; bools; [lia|]. by rewrite Hfrom.
Qed.

(** C14: framing is lossless: any sequence of frames of at most 16 MB each,
    written one after the other, is read back as exactly that sequence,
    whatever the payloads contain, and the end of the stream is a clean end. *)
Theorem frames_roundtrip (to_vec : frame -> result string bytes)
    (from_slice : bytes -> result string frame) (fs : list frame) :
  Forall (serializes to_vec from_slice MAX_FRAME_SIZE) fs ->
  exists stream, write_frames to_vec fs = Ok stream /\
    read_frames from_slice (S (length fs)) stream EndOfFile = Ok fs.
Proof.
  induction 1 as [|f fs Hf _ (stream & Hw & Hr)]; [by exists []|].
  assert (exists b, write_frame to_vec None f = Ok b) as [b Hb].
  { destruct Hf as (data & Hto & _). unfold write_frame. rewrite Hto. eauto. }
  exists (b ++ stream). split; [simpl; by rewrite Hb; simpl; rewrite Hw|].
  change (read_frames from_slice (S (length (f :: fs))) (b ++ stream) EndOfFile) with
    (r ← read_frame from_slice (b ++ stream) EndOfFile;
     match r with
     | None => Ok []
     | Some (f, s) => fs' ← read_frames from_slice (S (length fs)) s EndOfFile; Ok (f :: fs')
     end).
  erewrite (read_written to_vec _ f b) by done. unfold mbind at 1, result_bind at 1.
  rewrite Hr. done.
Qed.

(** An oversized frame is refused by the reader only: for a frame of more
    than 16 MB (and less than 4 GiB) [write_frame] succeeds, and the peer's
    [read_frame] fails with [RpcServerFailed], which ends its connection. *)
Theorem oversized_frame_accepted_by_writer (to_vec : frame -> result string bytes)
    (from_slice : bytes -> result string frame) (f : frame) (data : bytes) :
  to_vec f = Ok data -> MAX_FRAME_SIZE < Z.of_nat (length data) <= u32_max ->
  exists b, write_frame to_vec None f = Ok b /\ forall rest after, exists msg,
    read_frame from_slice (b ++ rest) after = fail RpcServerFailed msg.
Proof.
  intros Hto Hlen. rewrite (write_frame_ok _ _ _ Hto). eexists. split; [reflexivity|].
  intros rest after. rewrite read_prefixed by lia.
  destruct (_ <? _) eqn:E; bools; [eauto|lia].
Qed.

(** Serialization of frames without payload, by their id. *)
Definition print (f : frame) : result string bytes := Ok [byte_of (request_id f)].
Definition parse (bs : bytes) : result string frame :=
  match bs with
  | [b] => Ok (Frame Request (of_byte b) "echo" [])
  | _ => Err "eof"
  end.

Lemma frames_roundtrip_witness :
  let fs := [Frame Request 1 "echo" []; Frame Request 2 "echo" []] in
  exists stream, write_frames print fs = Ok stream /\
    read_frames parse 3 stream EndOfFile = Ok fs.
Proof.
  intros fs. refine (frames_roundtrip print parse fs _).
  apply Forall_cons_2; [|apply Forall_cons_2; [|apply Forall_nil_2]];
    (eexists; split; [reflexivity|]; split; [vm_compute; reflexivity|vm_compute; discriminate]).
Defined.

Definition big_print (_ : frame) : result string bytes :=
  Ok (replicate (Z.to_nat (MAX_FRAME_SIZE + 1)) Byte.x00).
Lemma oversized_frame_accepted_by_writer_witness :
  exists b, write_frame big_print None (Frame Tell 0 "echo" []) = Ok b /\
    forall rest after, exists msg, read_frame parse (b ++ rest) after = fail RpcServerFailed msg.
Proof.
  refine (oversized_frame_accepted_by_writer big_print parse (Frame Tell 0 "echo" [])
    (replicate (Z.to_nat (MAX_FRAME_SIZE + 1)) Byte.x00) eq_refl _).
  rewrite length_replicate, Z2Nat.id by (unfold MAX_FRAME_SIZE; lia).
  unfold MAX_FRAME_SIZE, u32_max. lia.
Defined.
End Protocol.

(** * Servers *)
Section servers.
Context {W : Type}.
Variable to_vec : frame -> result string bytes.
Variable from_slice : bytes -> result string frame.

(** [ServiceHandlerFn]; the table of services *)
Definition service_fn : Type := bytes -> M W (Result bytes).
Definition services : Type := gmap string service_fn.
(** [register], [register_raw] *)
Definition register (name : string) (h : service_fn) (s : services) : services :=
  <[name := h]> (s : gmap string service_fn).
Definition get_handler (name : string) (s : services) : option service_fn :=
  (s : gmap string service_fn) !! name.

(** The answer to a request, common to both servers. *)
Definition answer (s : services) (f : frame) : M W frame :=
  match get_handler (service f) s with
  | Some h =>
      r ← h (payload f);
      mret match r with
           | Ok result => Frame Response (request_id f) (service f) result
           | Err e => Frame ErrorFrame (request_id f) (service f) (bytes_of_string (error_to_string e))
           end
  | None => mret (Frame ErrorFrame (request_id f) (service f)
                    (bytes_of_string ("service '" +:+ service f +:+ "' not found")))
  end.
(** A [Tell] spawns its handler, whose result is dropped; it is run here at the
    point it is spawned. *)
Definition run_tell (s : services) (f : frame) : M W unit :=
  match get_handler (service f) s with
  | Some h => _ ← h (payload f); mret tt
  | None => mret tt
  end.

(** [TrpcHandler::on_message] *)
Definition on_message (s : services) (ctx : tcp_context) (data : bytes) : M W (Result (option bytes)) :=
  match from_slice data with
  | Err _ => mret (Ok None)
  | Ok f =>
      match kind f with
      | Tell => _ ← run_tell s f; mret (Ok None)
      | Request =>
          response ← answer s f;
          mret match to_vec response with
               | Ok reply => Ok (Some reply)
               | Err e => fail Internal ("serialize frame: " +:+ e)
               end
      | _ => mret (Ok None)
      end
  end.
Definition trpc_handler (s : services) : tcp_handler (W := W) := default_handler (on_message s).

(** One iteration of [TrpcServer]'s [handle_connection] for a frame it has
    read: what it writes, and whether the loop goes on. *)
Definition serve_frame (s : services) (f : frame) : M W (option bytes * bool) :=
  match kind f with
  | Tell => _ ← run_tell s f; mret (None, true)
  | Request =>
      response ← answer s f;
      mret match Protocol.write_frame to_vec None response with
           | Ok b => (Some b, true)
           | Err _ => (None, false)
           end
  | _ => mret (None, true)
  end.

(** The kind of the response says how the service fared. *)
Definition outcome_of (s : services) (f : frame) (w : W) (response : frame) (w' : W) : Prop :=
  match get_handler (service f) s with
  | None => kind response = ErrorFrame /\ w' = w
  | Some h => exists r, h (payload f) w = Ret (r, w') /\
      kind response = if is_ok r then Response else ErrorFrame
  end.

(** The two servers agree: for every frame, service table and state of the
    services, the stand-alone server and the TCP handler leave the services in
    the same state, and the one writes the length-prefixed form of exactly the
    bytes the other replies with; nothing is written for anything but a
    request.  The response carries the request's id, and is an [Error] frame
    exactly when the service is unknown or failed. *)
Theorem servers_agree (s : services) (ctx : tcp_context) (data : bytes) (f : frame)
    (w w' : W) (written : option bytes) (continues : bool) :
  from_slice data = Ok f ->
  serve_frame s f w = Ret ((written, continues), w') ->
  exists reply, on_message s ctx data w = Ret (reply, w') /\
    written = match reply with
              | Ok (Some b) => Some (Protocol.to_be_bytes (as_u32 (Z.of_nat (length b))) ++ b)
              | _ => None
              end /\
    continues = is_ok reply /\
    (is_Some written -> kind f = Request /\ exists response, answer s f w = Ret (response, w') /\
       request_id response = request_id f /\ outcome_of s f w response w').
Proof.
  intros Hf Hs. unfold on_message, serve_frame in *. rewrite Hf. destruct (kind f) eqn:Ek.
  - apply M_bind_inv in Hs as ([] & w1 & Ht & [= <- <- <-]). rewrite (M_bind_ret _ _ _ _ _ Ht).
    eexists. split; [done|]. split; [done|]. split; [done|]. intros [x Hx]. discriminate Hx.
  - apply M_bind_inv in Hs as (response & w1 & Ha & Hr). rewrite (M_bind_ret _ _ _ _ _ Ha).
    unfold Protocol.write_frame in Hr.
    assert (request_id response = request_id f /\ outcome_of s f w response w1) as Hresp.
    { unfold answer, outcome_of in *. destruct (get_handler _ _) as [h|]; [|by injection Ha as <- <-].
      apply M_bind_inv in Ha as (r & w2 & Hh & [= <- <-]). split; [by destruct r|].
      exists r. split; [done|]. by destruct r. }
    destruct (to_vec response) as [data'|e]; injection Hr as <- <- <-.
    + eexists. split; [done|]. split; [done|]. split; [done|]. eauto.
    + eexists. split; [done|]. split; [done|]. split; [done|]. intros [x Hx]. discriminate Hx.
  - injection Hs as <- <- <-. eexists. do 3 (split; [done|]). intros [x Hx]. discriminate Hx.
  - injection Hs as <- <- <-. eexists. do 3 (split; [done|]). intros [x Hx]. discriminate Hx.
Qed.
End servers.

(** A server with an echo service that counts its calls. *)
Definition echo_services : services (W := nat) :=
  register "echo" (fun p n => Ret (Ok p, S n)) ∅.
Definition show (f : frame) : result string bytes := Ok (payload f).

Lemma servers_agree_witness :
  let f := Frame Request 7 "echo" [Byte.x01] in
  exists reply, on_message show (fun _ => Ok f) echo_services (TcpContext caller "trpc") [] 0%nat =
      Ret (reply, 1%nat) /\
    Some [Byte.x00; Byte.x00; Byte.x00; Byte.x01; Byte.x01] = match reply with
      | Ok (Some b) => Some (Protocol.to_be_bytes (as_u32 (Z.of_nat (length b))) ++ b)
      | _ => None
      end.
Proof.
  intros f.
  destruct (servers_agree show (fun _ => Ok f) echo_services (TcpContext caller "trpc") [] f 0%nat 1%nat
    (Some [Byte.x00; Byte.x00; Byte.x00; Byte.x01; Byte.x01]) true) as (reply & H1 & H2 & _).
  - reflexivity.
  - vm_compute. reflexivity.
  - exists reply. exact (conj H1 H2).
Defined.

(** * The client *)
Module Client.

(** The future of an [ask]: with its identifier, waiting for the lock of the
    pending map; sending its frame (an answer that comes before the channel
    takes the frame waits in the oneshot); waiting for the answer; refused by
    the channel, waiting for the lock to take its sender back; over with a
    result; or dropped by a timeout. *)
Inductive ask_state : Type :=
| Taken (f : frame)
| Sending (f : frame) (early : option (Result bytes))
| Waiting
| Refused
| Answered (r : Result bytes)
| TimedOut.

(** [struct TrpcClient] with its two loops: the ids in the pending map (whose
    senders are those of the [ask]s with the same id), the counter, the frames
    in the write channel, whether the write loop and the read loop run, and
    the [ask] futures by id. *)
Record client : Type := TrpcClient {
  pending : gset Z;
  next_id : Z;
  write_queue : list frame;
  writing : bool;
  reading : bool;
  asks : gmap Z ask_state;
}.
Definition connected : client := TrpcClient ∅ 1 [] true true ∅.
Definition connect_policy : Retry.policy := Retry.exponential 3 500 5000.

Definition closed_error : Result bytes := fail RpcServiceError "trpc: connection closed".
Definition with_asks (m : gmap Z ask_state) (c : client) : client :=
  TrpcClient (pending c) (next_id c) (write_queue c) (writing c) (reading c) m.

(** [ask] up to the lock of the pending map: [next_id.fetch_add]. *)
Definition ask (service : string) (payload : bytes) (c : client) : client :=
  let id := next_id c in
  TrpcClient (pending c) (as_u64 (id + 1)) (write_queue c) (writing c) (reading c)
    (<[id := Taken (Frame Request id service payload)]> (asks c)).
(** Its [pending.lock().await.insert], once it has the lock: whatever happened
    to the map in between, the end of the read loop included. *)
Definition insert_ask (id : Z) (c : client) : client :=
  match asks c !! id with
  | Some (Taken f) =>
      TrpcClient ({[id]} ∪ pending c) (next_id c) (write_queue c) (writing c) (reading c)
        (<[id := Sending f None]> (asks c))
  | _ => c
  end.
(** Its [write_tx.send]: refused when the write loop has ended, blocked while
    the channel holds 256 frames. *)
Definition channel_capacity : nat := 256.
Definition send_ask (id : Z) (c : client) : client :=
  match asks c !! id with
  | Some (Sending f early) =>
      if writing c then
        if (length (write_queue c) <? channel_capacity)%nat
        then TrpcClient (pending c) (next_id c) (write_queue c ++ [f]) (writing c) (reading c)
               (<[id := match early with Some r => Answered r | None => Waiting end]> (asks c))
        else c
      else with_asks (<[id := Refused]> (asks c)) c
  | _ => c
  end.
(** Its [pending.lock().await.remove] after a refusal, and its error. *)
Definition remove_ask (id : Z) (c : client) : client :=
  match asks c !! id with
  | Some Refused =>
      TrpcClient (pending c ∖ {[id]}) (next_id c) (write_queue c) (writing c) (reading c)
        (<[id := Answered closed_error]> (asks c))
  | _ => c
  end.
(** [ask_timeout] when its timeout strikes first: the future is dropped. *)
Definition time_out (id : Z) (c : client) : client :=
  match asks c !! id with
  | Some (Taken _ | Sending _ _ | Waiting | Refused) => with_asks (<[id := TimedOut]> (asks c)) c
  | _ => c
  end.
(** [tell], once the channel has room for its frame *)
Definition tell (service : string) (payload : bytes) (c : client) : Result unit * client :=
  if writing c then
    (Ok tt, TrpcClient (pending c) (next_id c) (write_queue c ++ [Frame Tell 0 service payload])
              (writing c) (reading c) (asks c))
  else (fail RpcServiceError "trpc: connection closed", c).

(** [write_loop]: one frame, written or not. *)
Definition write_step (ok : bool) (c : client) : client :=
  match write_queue c with
  | [] => c
  | _ :: q =>
      if writing c then
        TrpcClient (pending c) (next_id c) (if ok then q else []) ok (reading c) (asks c)
      else c
  end.

(** [tx.send(r)], seen by the future of the [ask] if it is still there. *)
Definition receive (r : Result bytes) (a : ask_state) : ask_state :=
  match a with
  | Sending f None => Sending f (Some r)
  | Waiting => Answered r
  | a => a
  end.
Definition deliver (id : Z) (r : Result bytes) (m : gmap Z ask_state) : gmap Z ask_state :=
  alter (receive r) id m.
(** [String::from_utf8_lossy], here of the bytes as they are. *)
Definition string_of_bytes (b : bytes) : string := String.string_of_list_byte b.
(** [read_loop]: a frame, or the end (clean or an error), which drains the
    pending map. *)
Definition read_step (r : option frame) (c : client) : client :=
  if negb (reading c) then c
  else match r with
  | Some f =>
      let answer := match kind f with
                    | Response => Some (Ok (payload f))
                    | ErrorFrame => Some (fail RpcServiceError (string_of_bytes (payload f)))
                    | _ => None
                    end in
      match answer with
      | Some a =>
          if decide (request_id f ∈ pending c)
          then TrpcClient (pending c ∖ {[request_id f]}) (next_id c) (write_queue c) (writing c)
                 (reading c) (deliver (request_id f) a (asks c))
          else c
      | None => c
      end
  | None =>
      TrpcClient ∅ (next_id c) (write_queue c) (writing c) false
        (map_imap (fun id a => Some (if decide (id ∈ pending c) then receive closed_error a else a))
           (asks c))
  end.

(** ** Executions of the client *)

Inductive step : Type :=
| Ask (service : string) (payload : bytes)
| Tells (service : string) (payload : bytes)
| Insert (id : Z)
| Send (id : Z)
| Remove (id : Z)
| Timeout_ (id : Z)
| Written (ok : bool)
| Read (f : frame)
| ReadEnd.
Definition run_step (s : step) (c : client) : client :=
  match s with
  | Ask service p => ask service p c
  | Tells service p => snd (tell service p c)
  | Insert id => insert_ask id c
  | Send id => send_ask id c
  | Remove id => remove_ask id c
  | Timeout_ id => time_out id c
  | Written ok => write_step ok c
  | Read f => read_step (Some f) c
  | ReadEnd => read_step None c
  end.
Definition run_steps (ss : list step) (c : client) : client :=
  fold_left (fun c s => run_step s c) ss c.

(** An [ask] whose sender has been put in the pending map, without an answer. *)
Definition unanswered (a : ask_state) : Prop := a = Waiting \/ exists f, a = Sending f None.

(** An [ask] that has its result, or will have it once its frame is taken. *)
Definition result_in (a : ask_state) (r : Result bytes) : Prop :=
  a = Answered r \/ exists f, a = Sending f (Some r).

(** While the read loop runs, an unanswered [ask] has its sender in the
    pending map. *)
Definition reachable_by_reader (c : client) : Prop :=
  reading c = true -> forall id a, asks c !! id = Some a -> unanswered a -> id ∈ pending c.

Ltac step_cases :=
  repeat match goal with
    | |- context [match ?x with _ => _ end] => destruct x eqn:?; simpl
    end.

Lemma run_step_reachable s c : reachable_by_reader c -> reachable_by_reader (run_step s c).
Proof.
  unfold reachable_by_reader. intros H. destruct s as [sv p|sv p|id|id|id|id|ok|f|]; simpl.
  - intros Hr id' a. rewrite lookup_insert_Some. intros [[-> <-]|[Hne Ha]] Hu; [by destruct Hu as [?|[? ?]]|eauto].
  - unfold tell. by destruct (writing c).
  - unfold insert_ask. destruct (asks c !! id) as [[f|f early| | | |]|] eqn:E; try done; simpl.
    intros Hr id' a. rewrite lookup_insert_Some, elem_of_union, elem_of_singleton.
    intros [[-> _]|[Hne Ha]] Hu; [by left|right; eauto].
  - unfold send_ask. destruct (asks c !! id) as [[f|f early| | | |]|] eqn:E; try done.
    destruct (writing c); [destruct (_ <? _)%nat; [|done]|]; simpl; intros Hr id' a;
      rewrite lookup_insert_Some; intros [[<- <-]|[Hne Ha]] Hu.
    + eapply H; [done..|]. right. destruct early; [by destruct Hu as [?|[? ?]]|eauto].
    + eauto.
    + by destruct Hu as [?|[? ?]].
    + eauto.
  - unfold remove_ask. destruct (asks c !! id) as [[f|f early| | | |]|] eqn:E; try done; simpl.
    intros Hr id' a. rewrite lookup_insert_Some. intros [[<- <-]|[Hne Ha]] Hu; [by destruct Hu as [?|[? ?]]|].
    apply elem_of_difference. rewrite elem_of_singleton. split; [eauto|congruence].
  - unfold time_out. destruct (asks c !! id) as [[f|f early| | | |]|] eqn:E; try done; simpl;
      intros Hr id' a; rewrite lookup_insert_Some; intros [[<- <-]|[Hne Ha]] Hu; eauto;
      by destruct Hu as [?|[? ?]].
  - unfold write_step. destruct (write_queue c); [done|]. by destruct (writing c).
  - unfold read_step. destruct (reading c) eqn:Er; simpl; [|by rewrite Er].
    destruct (kind f); simpl; try (by rewrite Er); (case_decide; simpl; [|by rewrite Er]);
      intros _ id' a; unfold deliver; rewrite lookup_alter_Some;
      (intros [(<- & a0 & Ha0 & ->)|[Hne Ha]] Hu;
       [exfalso; destruct a0 as [f0|f0 [e|]| | | |]; simpl in Hu; by destruct Hu as [?|[? ?]]
       |apply elem_of_difference; rewrite elem_of_singleton; split; [eauto|congruence]]).
  - unfold read_step. destruct (reading c) eqn:Er; simpl; [done|by rewrite Er].
Qed.

Lemma run_steps_reachable ss : reachable_by_reader (run_steps ss connected).
Proof.
  assert (reachable_by_reader connected) as H by by intros _ id a.
  revert H. generalize connected. induction ss as [|s ss IH]; intros c H; [done|].
  simpl. by apply IH, run_step_reachable.
Qed.

(** A step that changes the state of the [ask] with the identifier [id] when
    the read loop is over, other than its own next steps. *)
Lemma still_waiting id s c :
  asks c !! id = Some Waiting -> reading c = false -> next_id c <> id -> s <> Timeout_ id ->
  asks (run_step s c) !! id = Some Waiting /\ reading (run_step s c) = false.
Proof.
  intros Ha Hr Hn Hs. destruct s as [sv q|sv q|id'|id'|id'|id'|ok|f|]; simpl.
  - by rewrite lookup_insert_ne.
  - unfold tell. by destruct (writing c).
  - unfold insert_ask. destruct (asks c !! id') as [[f|f early| | | |]|] eqn:E; try done.
    simpl. by rewrite lookup_insert_ne by congruence.
  - unfold send_ask. destruct (asks c !! id') as [[f|f early| | | |]|] eqn:E; try done.
    assert (id' <> id) by congruence.
    destruct (writing c); [destruct (_ <? _)%nat|]; simpl; by rewrite ?lookup_insert_ne.
  - unfold remove_ask. destruct (asks c !! id') as [[f|f early| | | |]|] eqn:E; try done.
    simpl. by rewrite lookup_insert_ne by congruence.
  - unfold time_out. assert (id' <> id) by congruence.
    destruct (asks c !! id') as [[f|f early| | | |]|] eqn:E; try done; simpl;
      by rewrite lookup_insert_ne.
  - unfold write_step. destruct (write_queue c); [done|]. by destruct (writing c).
  - unfold read_step. by rewrite Hr.
  - unfold read_step. by rewrite Hr.
Qed.
(** [id] is not given out again: it would take 2^64 requests. *)
Definition not_reused (id : Z) (ss : list step) (c : client) : Prop :=
  forall n, next_id (run_steps (take n ss) c) <> id.
Lemma waits_for_ever id ss c :
  asks c !! id = Some Waiting -> reading c = false -> not_reused id ss c ->
  Forall (fun s => s <> Timeout_ id) ss -> asks (run_steps ss c) !! id = Some Waiting.
Proof.
  intros Ha Hr Hid Hss. revert c Ha Hr Hid.
  induction Hss as [|s ss Hs _ IH]; intros c Ha Hr Hid; [done|]. simpl.
  destruct (still_waiting id s c Ha Hr (Hid 0%nat) Hs) as [H1 H2].
  apply IH; [done..|]. intros n. apply (Hid (S n)).
Qed.
(** An [ask] that reaches the pending map after the read loop has ended. *)
Lemma late_insert_waits id f c :
  asks c !! id = Some (Taken f) -> reading c = false -> writing c = true ->
  (length (write_queue c) < channel_capacity)%nat ->
  asks (run_steps [Insert id; Send id] c) !! id = Some Waiting /\
  reading (run_steps [Insert id; Send id] c) = false.
Proof.
  intros Ha Hr Hw Hq. unfold run_steps; simpl. unfold insert_ask. rewrite Ha.
  unfold send_ask; simpl. rewrite lookup_insert_eq, Hw.
  rewrite (proj2 (Nat.ltb_lt _ _) Hq). simpl. by rewrite lookup_insert_eq.
Qed.

(** C6: the end of the connection answers every [ask] that is in the pending
    map: in every execution of any number of concurrent [ask]s, tells, timeouts
    and both loops, the step in which the read loop ends - cleanly or on an
    error - gives each [ask] whose sender is in the map and that has no answer
    yet the error that the connection is closed, and changes no other [ask].
    One that has its identifier but is still waiting for the lock of the map
    is not among them: if it goes on while the write loop still takes frames,
    it waits for ever, through whatever happens, unless it has a timeout of
    its own. *)
Theorem read_end_answers_all (ss : list step) (id : Z) (a : ask_state) :
  let c := run_steps ss connected in
  let c' := run_step ReadEnd c in
  reading c = true -> asks c !! id = Some a ->
  (unanswered a -> exists a', asks c' !! id = Some a' /\ result_in a' closed_error) /\
  (~ unanswered a -> asks c' !! id = Some a) /\
  forall f more,
    a = Taken f -> writing c = true -> (length (write_queue c) < channel_capacity)%nat ->
    let c'' := run_steps [Insert id; Send id] c' in
    not_reused id more c'' -> Forall (fun s => s <> Timeout_ id) more ->
    asks (run_steps more c'') !! id = Some Waiting.
Proof.
  intros c c' Hr Ha. pose proof (run_steps_reachable ss Hr) as Hreach.
  assert (asks c' !! id = Some (if decide (id ∈ pending c) then receive closed_error a else a)) as Ha'.
  { unfold c'. simpl. unfold read_step. rewrite Hr. simpl. by rewrite map_lookup_imap, Ha. }
  split; [|split].
  - intros Hu. rewrite decide_True in Ha' by by apply (Hreach id a). eexists. split; [exact Ha'|].
    destruct Hu as [-> |[f ->]]; [by left|right; by exists f].
  - intros Hu. rewrite Ha'. case_decide; [|done]. destruct a as [f|f [e|]| | | |]; try done; destruct Hu; unfold unanswered; eauto.
  - intros f more -> Hw Hq c'' Hid Hss. assert (asks c' !! id = Some (Taken f)) as Ht by by (rewrite Ha'; case_decide).
    assert (reading c' = false /\ writing c' = writing c /\ write_queue c' = write_queue c) as (Hr' & Hw' & Hq')
      by (unfold c'; simpl; unfold read_step; by rewrite Hr).
    destruct (late_insert_waits id f c') as [H1 H2]; [done..|by rewrite Hw'|by rewrite Hq'|].
    by apply waits_for_ever.
Qed.

(** ** Answers *)

(** The trace contains the frame that answers [id] with [r]. *)
Definition answered_by (id : Z) (r : Result bytes) (s : step) : Prop :=
  match r with
  | Ok p => exists service, s = Read (Frame Response id service p)
  | Err _ => True
  end.

Lemma run_step_answers s c id p a :
  asks (run_step s c) !! id = Some a -> result_in a (Ok p) ->
  (exists a0, asks c !! id = Some a0 /\ result_in a0 (Ok p)) \/ answered_by id (Ok p) s.
Proof.
  intros Ha Hr. destruct s as [sv q|sv q|id'|id'|id'|id'|ok|f|]; simpl in Ha.
  - apply lookup_insert_Some in Ha as [[-> <-]|[Hne Ha]]; [|eauto].
    by destruct Hr as [?|[f [= _]]].
  - unfold tell in Ha. destruct (writing c); eauto.
  - unfold insert_ask in Ha. destruct (asks c !! id') as [[f|f early| | | |]|] eqn:E; eauto; simpl in Ha;
      (apply lookup_insert_Some in Ha as [[-> <-]|[Hne Ha]]; [|by eauto]; by destruct Hr as [?|[? ?]]).
  - unfold send_ask in Ha. destruct (asks c !! id') as [[f|f early| | | |]|] eqn:E; eauto.
    destruct (writing c); [destruct (_ <? _)%nat; [|eauto]|]; simpl in Ha;
      apply lookup_insert_Some in Ha as [[-> <-]|[Hne Ha]]; eauto.
    + left. exists (Sending f early). split; [done|]. destruct early as [r|].
      * destruct Hr as [[= ->]|[? [=]]]. right. eauto.
      * by destruct Hr as [?|[? ?]].
    + by destruct Hr as [?|[? ?]].
  - unfold remove_ask in Ha. destruct (asks c !! id') as [[f|f early| | | |]|] eqn:E; eauto; simpl in Ha;
      (apply lookup_insert_Some in Ha as [[-> <-]|[Hne Ha]]; [|by eauto]; by destruct Hr as [?|[? ?]]).
  - unfold time_out in Ha. destruct (asks c !! id') as [[f|f early| | | |]|] eqn:E; eauto; simpl in Ha;
      (apply lookup_insert_Some in Ha as [[-> <-]|[Hne Ha]]; [|by eauto]; by destruct Hr as [?|[? ?]]).
  - unfold write_step in Ha. destruct (write_queue c); [eauto|]. destruct (writing c); eauto.
  - unfold read_step in Ha. destruct (reading c); simpl in Ha; [|eauto].
    destruct f as [k rid sv q]; simpl in *.
    destruct k; simpl in Ha; eauto; (case_decide; simpl in Ha; [|by eauto]); unfold deliver in Ha;
      (apply lookup_alter_Some in Ha as [(<- & a0 & Ha0 & ->)|[Hne Ha]]; [|by eauto]);
      destruct a0 as [f0|f0 [e|]| | | |]; simpl in Hr; eauto;
      destruct Hr as [Hr|[? Hr]]; simplify_eq; eauto 6.
  - unfold read_step in Ha. destruct (reading c); simpl in Ha; [|eauto].
    rewrite map_lookup_imap in Ha. apply bind_Some in Ha as (a0 & Ha0 & Ha). simplify_eq.
    left. exists a0. split; [done|]. case_decide; [|done].
    destruct a0 as [f0|f0 [e|]| | | |]; simpl in Hr; try done; by destruct Hr as [?|[? ?]].
Qed.

(** Replies are never mixed up: in every execution, whatever the order of
    requests, replies, timeouts and connection loss, an [ask] that succeeds
    returns the payload of a [Response] frame that carried its own request
    id. *)
Theorem answers_match_requests (ss : list step) (id : Z) (p : bytes) :
  asks (run_steps ss connected) !! id = Some (Answered (Ok p)) ->
  exists service, Read (Frame Response id service p) ∈ ss.
Proof.
  intros Ha.
  assert (exists a, asks (run_steps ss connected) !! id = Some a /\ result_in a (Ok p)) as H.
  { eexists. split; [done|by left]. }
  clear Ha. induction ss as [|s ss IH] using rev_ind.
  - destruct H as (a & Ha & _). simpl in Ha. by rewrite lookup_empty in Ha.
  - unfold run_steps in *. rewrite fold_left_app in H. destruct H as (a & Ha & Hr).
    destruct (run_step_answers _ _ _ _ _ Ha Hr) as [Hold|[service ->]].
    + destruct (IH Hold) as [service Hs]. exists service. apply elem_of_app. by left.
    + exists service. apply elem_of_app. right. by apply list_elem_of_singleton.
Qed.

(** ** What the client leaves behind *)

Lemma run_steps_preserve (P : client -> Prop) (ok : step -> Prop) ss c :
  (forall s c, ok s -> P c -> P (run_step s c)) -> Forall ok ss -> P c -> P (run_steps ss c).
Proof.
  intros Hstep H. revert c. induction H as [|s ss Hs _ IH]; intros c Hc; [done|].
  simpl. apply IH. by apply Hstep.
Qed.

(** A step that answers or drains [id], or starts another request with it. *)
Definition touches (id : Z) (s : step) : Prop :=
  match s with
  | Read f => request_id f = id /\ (kind f = Response \/ kind f = ErrorFrame)
  | ReadEnd => True
  | _ => False
  end.

(** A timed-out [ask] leaves its entry in the pending map: after
    [ask_timeout] has given up on a request that was sent, the entry stays for
    as long as neither a reply with its id nor the end of the connection
    arrives, through any other activity of the client. *)
Theorem timed_out_ask_leaks (c : client) (id : Z) (ss : list step) :
  asks c !! id = Some Waiting -> id ∈ pending c ->
  Forall (fun s => ~ touches id s) ss ->
  (forall n, next_id (run_steps (take n ss) (run_step (Timeout_ id) c)) <> id) ->
  let c' := run_steps ss (run_step (Timeout_ id) c) in
  asks c' !! id = Some TimedOut /\ id ∈ pending c'.
Proof.
  intros Ha Hp Hss Hid. simpl. assert (asks (time_out id c) !! id = Some TimedOut) as Ha'.
  { unfold time_out. rewrite Ha. apply lookup_insert_eq. }
  assert (id ∈ pending (time_out id c)) as Hp' by (unfold time_out; by rewrite Ha).
  simpl in Hid. revert Ha' Hp' Hid. generalize (time_out id c). clear c Ha Hp.
  induction Hss as [|s ss Hs _ IH]; intros c Ha Hp Hid; [done|]. simpl.
  pose proof (Hid 0%nat) as H0. simpl in H0.
  apply IH; [| |intros n; apply (Hid (S n))].
  - destruct s as [sv q|sv q|id'|id'|id'|id'|ok|f|]; simpl.
    + by rewrite lookup_insert_ne.
    + unfold tell. by destruct (writing c).
    + unfold insert_ask. destruct (asks c !! id') as [[f|f early| | | |]|] eqn:E; try done; simpl;
        by rewrite lookup_insert_ne by congruence.
    + unfold send_ask. destruct (asks c !! id') as [[f|f early| | | |]|] eqn:E; try done.
      assert (id' <> id) by congruence.
      destruct (writing c); [destruct (_ <? _)%nat|]; simpl; by rewrite ?lookup_insert_ne.
    + unfold remove_ask. destruct (asks c !! id') as [[f|f early| | | |]|] eqn:E; try done; simpl;
        by rewrite lookup_insert_ne by congruence.
    + unfold time_out. destruct (asks c !! id') as [[f|f early| | | |]|] eqn:E; try done; simpl;
        by rewrite lookup_insert_ne by congruence.
    + unfold write_step. destruct (write_queue c); [done|]. by destruct (writing c).
    + unfold read_step. destruct (reading c); simpl; [|done].
      destruct (kind f); simpl; try done; (case_decide; simpl; [|done]); unfold deliver;
        (destruct (decide (request_id f = id)) as [<-|];
         [by rewrite lookup_alter_eq, Ha|by rewrite lookup_alter_ne]).
    + by destruct Hs.
  - destruct s as [sv q|sv q|id'|id'|id'|id'|ok|f|]; simpl.
    + done.
    + unfold tell. by destruct (writing c).
    + unfold insert_ask. destruct (asks c !! id') as [[f|f early| | | |]|] eqn:E; try done; simpl. by apply elem_of_union_r.
    + unfold send_ask. destruct (asks c !! id') as [[f|f early| | | |]|] eqn:E; try done.
      destruct (writing c); [by destruct (_ <? _)%nat|done].
    + unfold remove_ask. destruct (asks c !! id') as [[f|f early| | | |]|] eqn:E; try done; simpl.
      assert (id' <> id) by congruence. set_solver.
    + unfold time_out. by destruct (asks c !! id') as [[f|f early| | | |]|].
    + unfold write_step. destruct (write_queue c); [done|]. by destruct (writing c).
    + unfold read_step. destruct (reading c); simpl; [|done].
      destruct (kind f) eqn:Ek; simpl; try done; (case_decide; simpl; [|done]);
        apply elem_of_difference; (split; [done|]); rewrite elem_of_singleton; intros Heq;
        apply Hs; simpl; rewrite Ek; auto.
    + by destruct Hs.
Qed.

(** An [ask] begun after the read loop has ended can wait for ever: while
    the write loop still takes frames, its request is accepted, and then no
    activity of the client - not even the end of the write loop - answers it;
    only a timeout of its own ends it. *)
Theorem ask_after_read_end_hangs (c : client) (service : string) (payload : bytes)
    (ss : list step) :
  reading c = false -> writing c = true -> (length (write_queue c) < channel_capacity)%nat ->
  let id := next_id c in
  let c1 := run_steps [Ask service payload; Insert id; Send id] c in
  Forall (fun s => s <> Timeout_ id) ss -> not_reused id ss c1 ->
  asks (run_steps ss c1) !! id = Some Waiting.
Proof.
  intros Hr Hw Hq id c1 Hss Hid.
  destruct (late_insert_waits id (Frame Request id service payload) (ask service payload c)) as [H1 H2]; [|done..|].
  - apply lookup_insert_eq.
  - by apply waits_for_ever.
Qed.

(** ** Two concurrent requests answered out of order, and a lost connection *)
Definition session : list step :=
  [Ask "echo" [Byte.x01]; Ask "echo" [Byte.x02]; Insert 2; Insert 1; Send 2; Send 1; Written true; Written true;
   Read (Frame Response 2 "echo" [Byte.x02]); Ask "slow" []; Insert 3; Send 3; Ask "late" []].

Lemma read_end_answers_all_witness :
  let c := run_steps session connected in
  (asks c !! 1 = Some Waiting /\
   exists a', asks (run_step ReadEnd c) !! 1 = Some a' /\ result_in a' closed_error) /\
  (asks c !! 4 = Some (Taken (Frame Request 4 "late" [])) /\
   asks (run_steps [Written true; Written false; Remove 4; Tells "log" []; ReadEnd]
     (run_steps [Insert 4; Send 4] (run_step ReadEnd c))) !! 4 = Some Waiting).
Proof.
  intros c. split; split.
  - vm_compute. reflexivity.
  - refine (proj1 (read_end_answers_all session 1 Waiting _ _) _); [vm_compute; reflexivity..|by left].
  - vm_compute. reflexivity.
  - refine (proj2 (proj2 (read_end_answers_all session 4 (Taken (Frame Request 4 "late" [])) _ _)) _ _ _ _ _ _ _).
    + vm_compute. reflexivity.
    + vm_compute. reflexivity.
    + reflexivity.
    + vm_compute. reflexivity.
    + vm_compute. lia.
    + intros [|[|[|[|[|[|n]]]]]]; vm_compute; discriminate.
    + repeat constructor; discriminate.
Defined.

Lemma answers_match_requests_witness :
  exists service, Read (Frame Response 2 service [Byte.x02]) ∈ session.
Proof. refine (answers_match_requests session 2 [Byte.x02] _). vm_compute. reflexivity. Defined.

Lemma timed_out_ask_leaks_witness :
  let c := run_steps session connected in
  let c' := run_steps [Tells "log" []; Written true; Read (Frame Response 3 "slow" [])]
              (run_step (Timeout_ 1) c) in
  asks c' !! 1 = Some TimedOut /\ 1 ∈ pending c'.
Proof.
  intros c. refine (timed_out_ask_leaks c 1 _ _ _ _ _).
  - vm_compute. reflexivity.
  - apply (bool_decide_unpack _). vm_compute. exact I.
  - apply Forall_cons_2; [intros []|apply Forall_cons_2; [intros []|apply Forall_cons_2; [|]]].
    + intros [[=] _].
    + apply Forall_nil_2.
  - intros [|[|[|[|n]]]]; vm_compute; discriminate.
Defined.

Lemma ask_after_read_end_hangs_witness :
  let c := run_steps (session ++ [ReadEnd]) connected in
  asks (run_steps [Written true; Written false; Send 5; ReadEnd]
          (run_steps [Ask "echo" []; Insert 5; Send 5] c)) !! 5 = Some Waiting.
Proof.
  intros c. refine (ask_after_read_end_hangs c "echo" [] [Written true; Written false; Send 5; ReadEnd]
    _ _ _ _ _).
  - vm_compute. reflexivity.
  - vm_compute. reflexivity.
  - vm_compute. lia.
  - repeat constructor; discriminate.
  - intros [|[|[|[|[|n]]]]]; vm_compute; discriminate.
Defined.
End Client.
