(* ===== verification/Accept.v ===== *)
(** The accept loops of the TCP server ([rinfra-plugins/src/net/tcp.rs],
    [start]) and of the stand-alone tRPC server
    ([rinfra-plugins/src/rpc/trpc/server.rs], [serve] and the loop of
    [handle_connection]). *)

From S2P Require Import Prelude Errors Tcp Trpc.

(** * Accepting *)

(** What a round of the [select!] sees. *)
Inductive accept_event (S : Type) : Type :=
| Cancelled
| Accepted (stream : S)
| AcceptFailed (why : string).
Arguments Cancelled {S}.
Arguments Accepted {S} stream.
Arguments AcceptFailed {S} why.

(** The loop: the streams it spawned a task for, and whether it has ended. *)
Fixpoint accept_loop {S} (es : list (accept_event S)) : list S * bool :=
  match es with
  | [] => ([], false)
  | Cancelled :: _ => ([], true)
  | Accepted s :: es => let '(spawned, ended) := accept_loop es in (s :: spawned, ended)
  | AcceptFailed _ :: es => accept_loop es
  end.

Definition double_quote : string := String (Ascii.ascii_of_N 34) "".
Definition in_quotes (s : string) : string := double_quote +:+ s +:+ double_quote.
(** [TcpServer::start] returns when its loop ends; [TrpcServer::serve] spawns
    its loop and returns at once. *)
Definition tcp_start {S W} (server : tcp_server (W := W)) (bind : result string unit) (es : list (accept_event S)) :
    Result (list S * bool) :=
  match bind with
  | Err e => fail Internal ("listener " +:+ in_quotes (server_name server) +:+ " bind to " +:+ bind_addr server +:+
                            " failed: " +:+ e)
  | Ok _ => Ok (accept_loop es)
  end.
Definition trpc_serve {S} (addr : string) (bind : result string unit) (es : list (accept_event S)) :
    Result (list S * bool) :=
  match bind with
  | Err e => fail RpcServerFailed ("trpc bind " +:+ addr +:+ ": " +:+ e)
  | Ok _ => Ok (accept_loop es)
  end.

Definition is_cancelled {S} (e : accept_event S) : bool := match e with Cancelled => true | _ => false end.
Definition stream_of {S} (e : accept_event S) : option S := match e with Accepted s => Some s | _ => None end.

(** A listener serves every connection it accepts up to the shutdown, in order,
    and none after it; a failed accept stops neither loop. *)
Lemma accepted_until_shutdown {S} (before after : list (accept_event S)) :
  Forall (fun e => is_cancelled e = false) before ->
  accept_loop before = (omap stream_of before, false) /\
  accept_loop (before ++ Cancelled :: after) = (omap stream_of before, true).
Proof.
  induction before as [|e es IH]; intros H; [done|]. apply Forall_cons in H as [He Hes].
  destruct (IH Hes) as [H1 H2]. destruct e as [|s|why]; simpl; [done| |]; rewrite H1, H2; done.
Qed.

(** * A connection of the stand-alone server *)
Section connection.
Context {W : Type} (to_vec : frame -> result string bytes).

(** What [read_frame] answers, and whether the socket would take a response:
    it reads until the stream ends or fails. *)
Inductive read_event : Type :=
| ReadFrame (f : frame) (write_ok : bool)
| Closed
| ReadFailed (why : string).
(** [handle_connection], over the services as they are when each frame is
    looked up: what was written, and whether the connection is still open. *)
Fixpoint handle_connection (es : list (read_event * services (W := W))) : M W (list bytes * bool) :=
  match es with
  | [] => mret ([], true)
  | (Closed, _) :: _ | (ReadFailed _, _) :: _ => mret ([], false)
  | (ReadFrame f write_ok, s) :: es =>
      r ← serve_frame to_vec s f;
      match r with
      | (out, true) =>
          if bool_decide (out = None) || write_ok then
            rest ← handle_connection es; mret (option_list out ++ rest.1, rest.2)
          else mret ([], false)
      | (_, false) => mret ([], false)
      end
  end.

(** What the server owes a frame: a request gets the answer of the services at
    that moment, under the request's identifier and service, as one frame. *)
Definition answers (f : frame) (b : bytes) : Prop :=
  exists r, Protocol.write_frame to_vec None r = Ok b /\ request_id r = request_id f /\ service r = service f /\
    (kind r = Response \/ kind r = ErrorFrame).
Definition requests (es : list (read_event * services (W := W))) : list frame :=
  omap (fun e => match e.1 with
                 | ReadFrame f _ => if bool_decide (kind f = Request) then Some f else None
                 | _ => None
                 end) es.

Lemma answer_names s f w r w' : answer (W := W) s f w = Ret (r, w') ->
  request_id r = request_id f /\ service r = service f /\ (kind r = Response \/ kind r = ErrorFrame).
Proof.
  unfold answer. destruct (get_handler (service f) s) as [h|].
  - intros (x & w1 & _ & [= <- _])%M_bind_inv. destruct x; simpl; auto.
  - intros [= <- _]. simpl. auto.
Qed.
Lemma serve_frame_inv s f w out go w' : serve_frame (W := W) to_vec s f w = Ret ((out, go), w') ->
  if bool_decide (kind f = Request) then go = true -> exists b, out = Some b /\ answers f b
  else out = None /\ go = true.
Proof.
  unfold serve_frame. destruct (kind f) eqn:Ek; simpl.
  - intros (u & w1 & _ & H)%M_bind_inv. by injection H as <- <- <-.
  - intros (r & w1 & Hr & H)%M_bind_inv. apply answer_names in Hr.
    destruct (Protocol.write_frame to_vec None r) as [b|e] eqn:Hb; injection H as <- <- <-; [|done].
    intros _. exists b. split; [done|]. exists r. naive_solver.
  - intros H. by injection H as <- <- <-.
  - intros H. by injection H as <- <- <-.
Qed.

(** Requests on a connection are answered in the order they were sent, one
    answer each, under the request's identifier, by whatever is registered at
    that moment: as long as the connection is open every request read so far
    has its answer on the wire, and what is written before it breaks off are
    the answers to the first requests. *)
Theorem requests_answered_in_order (es : list (read_event * services (W := W))) (w w' : W) (out : list bytes) (is_open : bool) :
  handle_connection es w = Ret ((out, is_open), w') ->
  exists answered rest, requests es = answered ++ rest /\ Forall2 answers answered out /\
    (is_open = true -> rest = []).
Proof.
  revert w out is_open w'. induction es as [|[[f ok| |why] s] es IH]; intros w out is_open w'.
  - intros [= <- <- _]. exists [], []. by repeat constructor.
  - cbn [handle_connection]. intros ([o go] & w1 & Hs & H)%M_bind_inv. apply serve_frame_inv in Hs.
    assert (requests ((ReadFrame f ok, s) :: es) =
      (if bool_decide (kind f = Request) then [f] else []) ++ requests es) as -> by
      (unfold requests; simpl; by destruct (bool_decide _)).
    destruct go; [|injection H as <- <- _; eexists [], _; by repeat constructor].
    destruct (bool_decide (o = None) || ok); [|injection H as <- <- _; eexists [], _; by repeat constructor].
    apply M_bind_inv in H as ([out' open'] & w2 & Hr & [= <- <- _]). cbn [fst snd].
    destruct (IH _ _ _ _ Hr) as (a & rest & -> & Ha & Ho).
    destruct (bool_decide (kind f = Request)).
    + destruct (Hs eq_refl) as (b & -> & Hb). exists (f :: a), rest. split; [done|]. split; [by constructor|done].
    + destruct Hs as [-> _]. by exists a, rest.
  - intros [= <- <- _]. eexists [], _. by repeat constructor.
  - intros [= <- <- _]. eexists [], _. by repeat constructor.
Qed.
End connection.

(** * Examples *)
Module AcceptExamples.
Definition encoded (f : frame) : result string bytes := Ok (payload f).
Definition upper : services (W := nat) := {["echo" := (fun b n => Ret (Ok b, S n))]}.
Definition ask (id : Z) : frame := Frame Request id "echo" [].
(** The service is registered between two requests. *)
Definition session : list (read_event * services (W := nat)) :=
  [(ReadFrame (ask 1) true, ∅); (ReadFrame (Frame Tell 0 "echo" []) true, upper); (ReadFrame (ask 2) true, upper)].
Definition replies : list bytes :=
  match handle_connection encoded session 0%nat with Ret ((out, _), _) => out | Panic _ => [] end.
Lemma requests_answered_in_order_witness :
  exists answered rest, requests session = answered ++ rest /\ Forall2 (answers encoded) answered replies /\
    (true = true -> rest = []).
Proof. apply (requests_answered_in_order encoded session 0%nat 2%nat replies true). vm_compute. reflexivity. Defined.
End AcceptExamples.
