(* ===== verification/Crypto.v ===== *)
(** Keys and encryption: the key interfaces ([rinfra-core/src/crypto/mod.rs]),
    versioned keys with rotation, the environment and file providers and the
    AES-256-GCM wrapper ([rinfra-plugins/src/crypto/*.rs]). *)

From S2P Require Import Prelude Errors Tcp.

(** * Versioned keys *)
Module Rotating.

(** [struct VersionedKey], [struct KeyStore] and [struct KeyVersion] *)
Record versioned_key : Type := VersionedKey { version : Z; key : bytes; created_at : Z }.
Record key_store : Type := KeyStore { versions : list versioned_key; active_version : Z }.
Record key_version : Type := KeyVersion { kv_version : Z; kv_created_at : Z; kv_is_active : bool }.
(** [struct RotatingKeyProvider]: the stores by name, and [max_key_versions]. *)
Abbreviation stores := (gmap string key_store).
Record provider : Type := Provider { keys : stores; max_key_versions : Z }.
Definition new (max_key_versions : Z) : provider := Provider ∅ max_key_versions.

Definition with_keys (m : stores) (p : provider) : provider := Provider m (max_key_versions p).
Definition not_found {A} (name : string) : Result A :=
  fail CryptoKeyNotFound ("key '" +:+ name +:+ "' not found").

(** [seed_key]: the new key's version is the number of keys kept plus one. *)
Definition seed_key (now : Z) (name : string) (k : bytes) (p : provider) : outcome provider :=
  let store := default (KeyStore [] 0) (keys p !! name) in
  v ← u32_add (as_u32 (Z.of_nat (length (versions store)))) 1;
  Ret (with_keys (<[name := KeyStore (versions store ++ [VersionedKey v k now]) v]> (keys p)) p).

(** [get_key_versioned] *)
Definition get_key_versioned (name : string) (v : option Z) (p : provider) : Result bytes :=
  match keys p !! name with
  | None => not_found name
  | Some store =>
      let ver := default (active_version store) v in
      match list_find (fun x => version x = ver) (versions store) with
      | Some (_, vk) => Ok (key vk)
      | None => fail CryptoKeyNotFound
                  ("key '" +:+ name +:+ "' version " +:+ pretty ver +:+ " not found")
      end
  end.
Definition get_active_version (name : string) (p : provider) : Result Z :=
  match keys p !! name with None => not_found name | Some s => Ok (active_version s) end.
Definition list_versions (name : string) (p : provider) : Result (list key_version) :=
  match keys p !! name with
  | None => not_found name
  | Some s => Ok (map (fun x => KeyVersion (version x) (created_at x)
                                  (version x =? active_version s)) (versions s))
  end.

(** [rotate_key]: [fresh] is the random key it draws. *)
Definition max_version (s : key_store) : Z := foldr Z.max 0 (map version (versions s)).
Definition rotate_key (now : Z) (fresh : bytes) (name : string) (p : provider) :
    outcome (Result Z * provider) :=
  match keys p !! name with
  | None => Ret (not_found name, p)
  | Some store =>
      v ← u32_add (max_version store) 1;
      let all := versions store ++ [VersionedKey v fresh now] in
      let max := Z.to_nat (max_key_versions p) in
      let kept := if (max <? length all)%nat then drop (length all - max) all else all in
      Ret (Ok v, with_keys (<[name := KeyStore kept v]> (keys p)) p)
  end.

(** ** A seeded key and its rotations *)

Fixpoint rotate_all (name : string) (fresh : list (Z * bytes)) (p : provider) : outcome provider :=
  match fresh with
  | [] => Ret p
  | (now, k) :: fresh => r ← rotate_key now k name p; rotate_all name fresh (snd r)
  end.

(** The keys [k] of a history, numbered from [v]. *)
Fixpoint numbered (v : Z) (history : list (Z * bytes)) : list versioned_key :=
  match history with
  | [] => []
  | (now, k) :: hs => VersionedKey v k now :: numbered (v + 1) hs
  end.

Lemma length_numbered v h : length (numbered v h) = length h.
Proof. revert v. induction h as [|[now k] h IH]; intros v; [done|]. simpl. by rewrite IH. Qed.
Lemma numbered_app v h1 h2 :
  numbered v (h1 ++ h2) = numbered v h1 ++ numbered (v + Z.of_nat (length h1)) h2.
Proof.
  revert v. induction h1 as [|[now k] h1 IH]; intros v; simpl; [f_equal; lia|].
  rewrite IH. do 2 f_equal. f_equal. lia.
Qed.
Lemma numbered_drop v h n : drop n (numbered v h) = numbered (v + Z.of_nat n) (drop n h).
Proof.
  revert v h. induction n as [|n IH]; intros v h; [by rewrite !drop_0, Z.add_0_r|].
  destruct h as [|[now k] h]; [done|]. simpl. rewrite IH. f_equal. lia.
Qed.
Lemma numbered_find v h w :
  list_find (fun x => version x = w) (numbered v h) =
    (x ← (if decide (v <= w) then h !! Z.to_nat (w - v) else None);
     Some (Z.to_nat (w - v), VersionedKey w (snd x) (fst x))).
Proof.
  revert v. induction h as [|[now k] h IH]; intros v; simpl.
  { case_decide; [by rewrite lookup_nil|done]. }
  case_decide as Hv; simpl in Hv.
  - subst w. rewrite decide_True, Z.sub_diag by lia. done.
  - rewrite IH. destruct (decide (v <= w)) as [Hle|Hle].
    + rewrite decide_True by lia. replace (Z.to_nat (w - v)) with (S (Z.to_nat (w - (v + 1)))) by lia.
      simpl. destruct (h !! _) as [[now' k']|]; done.
    + rewrite decide_False by lia. done.
Qed.
Lemma numbered_max v h : 1 <= v -> h <> [] ->
  foldr Z.max 0 (map version (numbered v h)) = v + Z.of_nat (length h) - 1.
Proof.
  revert v. induction h as [|[now k] h IH]; intros v Hv Hne; [done|]. simpl.
  destruct h as [|x h]; [simpl; lia|]. rewrite IH by (done || lia). simpl length. lia.
Qed.

(** The store of a history of [n] keys of which the last [m] are kept. *)
Definition store_of (history : list (Z * bytes)) (kept : nat) : key_store :=
  let n := length history in
  KeyStore (drop (n - kept) (numbered 1 history)) (Z.of_nat n).

Lemma rotate_key_store now k name p history kept :
  keys p !! name = Some (store_of history kept) ->
  (1 <= kept <= length history)%nat -> (Z.of_nat kept <= max_key_versions p) ->
  (kept = length history \/ Z.of_nat kept = max_key_versions p) ->
  Z.of_nat (length history) < u32_max ->
  rotate_key now k name p =
    Ret (Ok (Z.of_nat (S (length history))),
         with_keys (<[name := store_of (history ++ [(now, k)])
           (Nat.min (S kept) (Z.to_nat (max_key_versions p)))]> (keys p)) p).
Proof.
  intros Hp Hk Hmax Hor Hn. unfold rotate_key. rewrite Hp. unfold max_version, store_of at 1. simpl.
  rewrite numbered_drop, numbered_max by (lia || (intros H%(f_equal length); rewrite length_drop in H; simpl in H; lia)).
  rewrite length_drop, u32_add_ret by arith. unfold mbind, outcome_bind.
  replace (1 + Z.of_nat (length history - kept) + Z.of_nat (length history - (length history - kept)) - 1 + 1)
    with (Z.of_nat (S (length history))) by lia.
  f_equal. f_equal. f_equal. unfold store_of. simpl. f_equal.
  assert (numbered (1 + Z.of_nat (length history - kept)) (drop (length history - kept) history) ++
      [VersionedKey (Z.of_nat (S (length history))) k now] =
    drop (length history - kept) (numbered 1 (history ++ [(now, k)]))) as ->.
  { rewrite <- numbered_drop, numbered_app, drop_app_le by (rewrite length_numbered; lia). simpl.
    do 4 f_equal. lia. }
  rewrite length_app. simpl. f_equal; [|by rewrite ?length_app; simpl; f_equal; lia].
  rewrite length_drop, length_numbered, length_app. simpl.
  destruct (_ <? _)%nat eqn:E; [apply Nat.ltb_lt in E|apply Nat.ltb_ge in E].
  - rewrite drop_drop. f_equal. destruct (Z.to_nat (max_key_versions p)) eqn:Em; lia.
  - f_equal. destruct (Z.to_nat (max_key_versions p)) eqn:Em; lia.
Qed.

Lemma rotate_all_store name fresh p history kept :
  keys p !! name = Some (store_of history kept) ->
  (1 <= kept <= length history)%nat -> Z.of_nat kept <= max_key_versions p ->
  (kept = length history \/ Z.of_nat kept = max_key_versions p) ->
  Z.of_nat (length history + length fresh) <= u32_max ->
  exists p', rotate_all name fresh p = Ret p' /\
    keys p' !! name = Some (store_of (history ++ fresh)
      (Nat.min (kept + length fresh) (Z.to_nat (max_key_versions p)))).
Proof.
  revert p history kept. induction fresh as [|[now k] fresh IH]; intros p history kept Hp Hk Hm Hor Hn; simpl.
  - exists p. split; [done|]. rewrite Hp, app_nil_r. do 3 f_equal. lia.
  - simpl in Hn. rewrite (rotate_key_store now k name p history kept) by (done || lia).
    unfold mbind, outcome_bind. cbn [snd].
    set (kept' := Nat.min (S kept) (Z.to_nat (max_key_versions p))).
    assert (kept' = Nat.min (S kept) (Z.to_nat (max_key_versions p))) as Hk' by done. clearbody kept'.
    destruct (IH (with_keys (<[name:=store_of (history ++ [(now, k)]) kept']> (keys p)) p)
      (history ++ [(now, k)]) kept') as (p' & Hr & Hp').
    1: apply lookup_insert_eq.
    1-4: rewrite ?length_app; simpl; lia.
    exists p'. split; [done|]. rewrite Hp', <- app_assoc. do 2 f_equal. simpl. lia.
Qed.

Lemma seed_new now name k max :
  seed_key now name k (new max) =
    Ret (with_keys (<[name := KeyStore [VersionedKey 1 k now] 1]> ∅) (new max)).
Proof. unfold seed_key, new. cbn [keys]. rewrite lookup_empty. reflexivity. Qed.

(** Rotation keeps exactly the newest keys, under stable numbers.  After
    a key has been seeded and rotated any number of times with at least one
    version kept, versions are numbered from 1 in the order they were made,
    the active one is the last made, each of the newest [max_key_versions] is
    returned by its own number, and every older or unknown number is
    [CryptoKeyNotFound]. *)
Theorem rotation_keeps_newest (max now0 : Z) (k0 : bytes) (fresh : list (Z * bytes)) (name : string)
    (v : Z) :
  1 <= max -> Z.of_nat (S (length fresh)) <= u32_max ->
  let history := (now0, k0) :: fresh in
  let n := Z.of_nat (length history) in
  exists p0 p, seed_key now0 name k0 (new max) = Ret p0 /\ rotate_all name fresh p0 = Ret p /\
    get_active_version name p = Ok n /\
    get_key_versioned name None p = get_key_versioned name (Some n) p /\
    (n - max < v <= n -> 1 <= v ->
       Ok <$> (snd <$> history !! Z.to_nat (v - 1)) = Some (get_key_versioned name (Some v) p)) /\
    (v <= n - max \/ v < 1 \/ n < v ->
       exists msg, get_key_versioned name (Some v) p = fail CryptoKeyNotFound msg).
Proof.
  intros Hmax Hn history n. rewrite seed_new.
  destruct (rotate_all_store name fresh
    (with_keys (<[name := KeyStore [VersionedKey 1 k0 now0] 1]> ∅) (new max)) [(now0, k0)] 1)
    as (p & Hr & Hp); [apply lookup_insert_eq|simpl; lia..|].
  eexists _, p. split; [reflexivity|]. split; [exact Hr|].
  change ([(now0, k0)] ++ fresh) with history in Hp. cbn [with_keys new max_key_versions] in Hp.
  unfold get_active_version, get_key_versioned. rewrite Hp. unfold store_of.
  cbn [versions active_version default]. unfold id. split; [done|]. split; [done|].
  rewrite numbered_drop, numbered_find. fold n.
  set (kept := Nat.min (1 + length fresh) (Z.to_nat max)).
  assert (Z.of_nat kept = Z.min n max) as Hkept by (unfold kept, n; simpl length; lia).
  replace (1 + Z.of_nat (length history - kept)) with (1 + n - Z.min n max)
    by (unfold n in *; lia).
  split.
  - intros Hv H1. rewrite decide_True by lia. rewrite lookup_drop.
    replace (length history - kept + Z.to_nat (v - (1 + n - Z.min n max)))%nat
      with (Z.to_nat (v - 1)) by (unfold n in *; lia).
    destruct (history !! Z.to_nat (v - 1)) as [[now k]|] eqn:E; [done|].
    apply lookup_ge_None in E. unfold n in *. lia.
  - intros Hv. destruct (decide _) as [Hle|]; simpl; [|eauto].
    rewrite lookup_drop, lookup_ge_None_2; [simpl; eauto|]. unfold n in *. simpl length in *. lia.
Qed.

(** Seeding a name that has been trimmed reuses a version number: once
    rotation has dropped some but no more keys than it keeps, [seed_key] gives
    the new key the number of an older one, so the active key that is returned
    is that older key and the seeded one can never be fetched by any
    number. *)
Theorem seed_after_trim_shadowed (now : Z) (k : bytes) (name : string) (p : provider)
    (history : list (Z * bytes)) (kept : nat) (old : Z * bytes) :
  keys p !! name = Some (store_of history kept) ->
  (1 <= length history - kept <= kept)%nat ->
  Z.of_nat (length history) <= u32_max ->
  history !! kept = Some old ->
  exists p', seed_key now name k p = Ret p' /\
    get_active_version name p' = Ok (Z.of_nat kept + 1) /\
    get_key_versioned name None p' = Ok (snd old) /\
    get_key_versioned name (Some (Z.of_nat kept + 1)) p' = Ok (snd old).
Proof.
  intros Hp Hk Hn Hold. unfold seed_key. rewrite Hp. simpl.
  rewrite length_drop, length_numbered. replace (length history - (length history - kept))%nat with kept by lia.
  unfold as_u32. rewrite Z.mod_small by (unfold u32_max in Hn; lia).
  rewrite u32_add_ret by arith. simpl. eexists. split; [done|].
  unfold get_active_version, get_key_versioned; simpl. rewrite lookup_insert_eq. simpl.
  split; [done|]. rewrite numbered_drop.
  assert (list_find (fun x => version x = Z.of_nat kept + 1)
    (numbered (1 + Z.of_nat (length history - kept)) (drop (length history - kept) history) ++
     [VersionedKey (Z.of_nat kept + 1) k now]) =
    Some (Z.to_nat (Z.of_nat kept + 1 - (1 + Z.of_nat (length history - kept))),
          VersionedKey (Z.of_nat kept + 1) (snd old) (fst old))) as ->; [|done].
  apply list_find_app_Some. left. rewrite numbered_find, decide_True by lia. rewrite lookup_drop.
  replace (length history - kept + Z.to_nat (Z.of_nat kept + 1 - (1 + Z.of_nat (length history - kept))))%nat
    with kept by lia.
  by rewrite Hold.
Qed.

Definition rotated : provider :=
  match (p ← seed_key 1 "db" [Byte.x01] (new 3); rotate_all "db" [(2, [Byte.x02]); (3, [Byte.x03]); (4, [Byte.x04])] p)
  with Ret p => p | Panic _ => new 3 end.

Lemma rotation_keeps_newest_witness :
  get_key_versioned "db" (Some 2) rotated = Ok [Byte.x02] /\
  exists msg, get_key_versioned "db" (Some 1) rotated = fail CryptoKeyNotFound msg.
Proof.
  split; [vm_compute; reflexivity|].
  destruct (rotation_keeps_newest 3 1 [Byte.x01] [(2, [Byte.x02]); (3, [Byte.x03]); (4, [Byte.x04])] "db" 1)
    as (p0 & p & Hs & Hr & _ & _ & _ & Hold).
  - lia.
  - vm_compute. discriminate.
  - assert (p = rotated) as <-.
    { unfold rotated. unfold mbind, outcome_bind. rewrite Hs, Hr. reflexivity. }
    apply Hold. left. vm_compute. discriminate.
Defined.

Lemma seed_after_trim_shadowed_witness :
  exists p', seed_key 9 "db" [Byte.xff] rotated = Ret p' /\
    get_active_version "db" p' = Ok (Z.of_nat 3 + 1) /\
    get_key_versioned "db" None p' = Ok [Byte.x04] /\
    get_key_versioned "db" (Some (Z.of_nat 3 + 1)) p' = Ok [Byte.x04].
Proof.
  refine (seed_after_trim_shadowed 9 [Byte.xff] "db" rotated
    [(1, [Byte.x01]); (2, [Byte.x02]); (3, [Byte.x03]); (4, [Byte.x04])] 3 (4, [Byte.x04]) _ _ _ _).
  - vm_compute. reflexivity.
  - simpl. lia.
  - vm_compute. discriminate.
  - reflexivity.
Defined.
End Rotating.

(** * Key providers without versions *)
Module Providers.
(** [EnvKeyProvider::get_key], over the environment's variables. *)
Definition env_get_key (env : string -> option string) (key_id : string) : Result bytes :=
  match env key_id with
  | Some v => Ok (String.list_byte_of_string v)
  | None => fail CryptoKeyNotFound ("env var '" +:+ key_id +:+ "' not set")
  end.
(** [FileKeyProvider::get_key], a stub in the source. *)
Definition file_get_key (enabled : bool) (path key_id : string) : Result bytes :=
  if negb enabled then fail CryptoKeyNotFound "file key provider not enabled"
  else if String.eqb path "" then fail CryptoKeyNotFound "key file path not configured"
  else fail CryptoKeyNotFound ("file key provider stub: key '" +:+ key_id +:+ "' not implemented").
End Providers.

(** * AES-256-GCM *)
Module AesGcm.
Section aes.
(** The cipher: [seal key nonce plaintext] and [open key nonce ciphertext]. *)
Variable seal open : bytes -> bytes -> bytes -> result string bytes.

(** [AesGcmCrypto::new] *)
Definition new (key : bytes) : Result bytes :=
  if negb (length key =? 32)%nat
  then fail CryptoEncryptFailed
         ("AES-256 requires 32-byte key, got " +:+ pretty (Z.of_nat (length key)))
  else Ok key.
(** [encrypt]; [nonce] is the random nonce it draws. *)
Definition encrypt (key nonce plaintext : bytes) : Result bytes :=
  match seal key nonce plaintext with
  | Err e => fail CryptoEncryptFailed e
  | Ok ciphertext => Ok (nonce ++ ciphertext)
  end.
(** [decrypt] *)
Definition decrypt (key ciphertext : bytes) : Result bytes :=
  if (length ciphertext <? 12)%nat
  then fail CryptoDecryptFailed "ciphertext too short (missing nonce)"
  else match open key (take 12 ciphertext) (drop 12 ciphertext) with
       | Err e => fail CryptoDecryptFailed e
       | Ok p => Ok p
       end.

(** Encrypted data decrypts to the plaintext, where the cipher inverts itself. *)
Lemma decrypt_encrypt key nonce p c :
  (forall c, seal key nonce p = Ok c -> open key nonce c = Ok p) -> length nonce = 12%nat ->
  encrypt key nonce p = Ok c -> decrypt key c = Ok p.
Proof.
  unfold encrypt, decrypt. intros Hc Hn. destruct (seal key nonce p) as [ct|]; [|done].
  intros [= <-]. rewrite length_app, (proj2 (Nat.ltb_ge _ _)) by lia.
  rewrite <- Hn, take_app_length, drop_app_length. by rewrite (Hc ct).
Qed.
End aes.
End AesGcm.
