(* ===== verification/Mq.v ===== *)
(** The in-memory message bus ([rinfra-core/src/mq/mod.rs],
    [rinfra-plugins/src/mq/memory.rs]): bounded channels, round-robin delivery
    and the publisher that waits for room while it holds the bus's locks. *)

From S2P Require Import Prelude Errors Tcp.

(** [struct Message], [Message::new] and [with_headers] *)
Record message : Type := Message {
  msg_id : string;
  topic : string;
  msg_payload : bytes;
  headers : gmap string string;
  msg_created_at : Z;
}.
Definition new_message (uuid : string) (now : Z) (topic : string) (payload : bytes) : message :=
  Message uuid topic payload ∅ (as_u64 (as_millis now)).
Definition with_headers (uuid : string) (now : Z) (topic : string) (payload : bytes)
    (hs : gmap string string) : message :=
  let m := new_message uuid now topic payload in
  Message (msg_id m) (Mq.topic m) (msg_payload m) hs (msg_created_at m).

Module InMemoryBus.

(** A bounded channel: its queue, and whether its receiver is still there. *)
Record channel : Type := Channel { queue : list message; receiver_open : bool }.

(** [struct InMemoryBus].  A sender is the position of its channel in
    [channels].  [sending] is the publisher that waits for room in a channel:
    it holds both mutexes until it is through. *)
Record bus : Type := Bus {
  senders : gmap string (list nat);
  capacity : nat;
  round_robin : gmap string nat;
  channels : list channel;
  sending : option (message * nat);
}.
Definition new (capacity : nat) : bus := Bus ∅ capacity ∅ [] None.

Definition is_closed (b : bus) (s : nat) : bool :=
  match channels b !! s with Some c => negb (receiver_open c) | None => true end.

(** [topic_senders[idx].send(msg)]: taken at once, refused by a closed
    channel, or waiting for room. *)
Inductive send_outcome : Type := Sent (cs : list channel) | SendFailed | NoRoom.
Definition try_send (msg : message) (s : nat) (b : bus) : send_outcome :=
  match channels b !! s with
  | None => SendFailed
  | Some c =>
      if negb (receiver_open c) then SendFailed
      else if (length (queue c) <? capacity b)%nat
      then Sent (<[s := Channel (queue c ++ [msg]) true]> (channels b))
      else NoRoom
  end.

(** What a call has come to: its result, or waiting (for room, or for the
    bus's mutex). *)
Inductive progress : Type := Returned (r : Result unit) | WaitsForRoom | WaitsForLock.

(** The end of [do_publish] once the message is sent to the chosen sender. *)
Definition finish_publish (t : string) (idx n : nat) (cs : list channel) (b : bus) : bus :=
  Bus (senders b) (capacity b) (<[t := ((idx + 1) mod n)%nat]> (round_robin b)) cs None.

(** [do_publish] *)
Definition do_publish (msg : message) (b : bus) : progress * bus :=
  match sending b with
  | Some _ => (WaitsForLock, b)
  | None =>
      let t := topic msg in
      match senders b !! t with
      | None => (Returned (Ok tt), b)
      | Some ss =>
          let live := filter (fun s => is_closed b s = false) ss in
          let b := Bus (<[t := live]> (senders b)) (capacity b) (round_robin b) (channels b) None in
          match live with
          | [] => (Returned (Ok tt), b)
          | _ =>
              let idx := (default 0 (round_robin b !! t) mod length live)%nat in
              let b := Bus (senders b) (capacity b) (<[t := idx]> (round_robin b)) (channels b) None in
              match live !! idx with
              | None => (Returned (Ok tt), b)
              | Some s =>
                  match try_send msg s b with
                  | Sent cs => (Returned (Ok tt), finish_publish t idx (length live) cs b)
                  | SendFailed => (Returned (fail MqPublishFailed "failed to send message: channel closed"), b)
                  | NoRoom => (WaitsForRoom,
                      Bus (senders b) (capacity b) (round_robin b) (channels b) (Some (msg, s)))
                  end
              end
          end
      end
  end.

(** The publisher that waits for room looks again. *)
Definition resume (b : bus) : progress * bus :=
  match sending b with
  | None => (Returned (Ok tt), b)
  | Some (msg, s) =>
      let t := topic msg in
      match try_send msg s b with
      | Sent cs => (Returned (Ok tt),
          finish_publish t (default 0%nat (round_robin b !! t)) (length (default [] (senders b !! t))) cs b)
      | SendFailed => (Returned (fail MqPublishFailed "failed to send message: channel closed"),
          Bus (senders b) (capacity b) (round_robin b) (channels b) None)
      | NoRoom => (WaitsForRoom, b)
      end
  end.

(** [subscribe]: a channel of capacity zero panics. *)
Definition subscribe (t : string) (b : bus) : outcome (progress * bus) :=
  if (capacity b =? 0)%nat then Panic "mpsc bounded channel requires buffer > 0"
  else match sending b with
       | Some _ => Ret (WaitsForLock, b)
       | None => Ret (Returned (Ok tt),
           Bus (<[t := default [] (senders b !! t) ++ [length (channels b)]]> (senders b)) (capacity b)
             (round_robin b) (channels b ++ [Channel [] true]) None)
       end.

(** [recv] and dropping the receiver *)
Definition recv (s : nat) (b : bus) : option message * bus :=
  match channels b !! s with
  | Some (Channel (m :: q) o) =>
      (Some m, Bus (senders b) (capacity b) (round_robin b) (<[s := Channel q o]> (channels b)) (sending b))
  | _ => (None, b)
  end.
Definition close (s : nat) (b : bus) : bus :=
  Bus (senders b) (capacity b) (round_robin b)
    (alter (fun c => Channel [] false) s (channels b)) (sending b).

(** ** Round robin *)

Fixpoint publish_all (ms : list message) (b : bus) : list progress * bus :=
  match ms with
  | [] => ([], b)
  | m :: ms => let (p, b) := do_publish m b in
               let (ps, b) := publish_all ms b in (p :: ps, b)
  end.

(** The messages of [ms] whose turn, counted from [start] modulo [n], is [j]. *)
Fixpoint turns (start n j : nat) (ms : list message) : list message :=
  match ms with
  | [] => []
  | m :: ms => (if decide ((start mod n)%nat = j) then [m] else []) ++ turns (S start) n j ms
  end.

Lemma turns_mod start start' n j ms : (start mod n = start' mod n)%nat ->
  turns start n j ms = turns start' n j ms.
Proof.
  revert start start'. induction ms as [|m ms IH]; intros start start' H; [done|]. simpl.
  rewrite H. f_equal. apply IH. destruct n as [|n]; [simpl in *; congruence|].
  rewrite <- (Nat.add_1_r start), <- (Nat.add_1_r start'). rewrite Nat.Div0.add_mod, H.
  by rewrite <- Nat.Div0.add_mod.
Qed.

Lemma length_turns start n j ms : (length (turns start n j ms) <= length ms)%nat.
Proof.
  revert start. induction ms as [|m ms IH]; intros start; [done|]. simpl. rewrite length_app.
  specialize (IH (S start)). case_decide; simpl; lia.
Qed.

(** The subscribers [ss] of a topic, all there, with room for [room] more. *)
Definition ready (t : string) (ss : list nat) (room : nat) (b : bus) : Prop :=
  sending b = None /\ senders b !! t = Some ss /\ NoDup ss /\ ss <> [] /\
  forall s, s ∈ ss -> exists q, channels b !! s = Some (Channel q true) /\
    (length q + room <= capacity b)%nat.
Definition queue_of (b : bus) (s : nat) : list message := default [] (queue <$> channels b !! s).

Lemma publish_ready t ss room b m : topic m = t -> ready t ss (S room) b ->
  let start := default 0%nat (round_robin b !! t) in
  exists s b', ss !! (start mod length ss)%nat = Some s /\
    do_publish m b = (Returned (Ok tt), b') /\ ready t ss room b' /\
    default 0%nat (round_robin b' !! t) = ((start mod length ss + 1) mod length ss)%nat /\
    forall s', queue_of b' s' = if decide (s' = s) then queue_of b s ++ [m] else queue_of b s'.
Proof.
  intros <- (Hno & Hss & Hnd & Hne & Hroom) start. unfold do_publish. rewrite Hno, Hss.
  assert (filter (fun s => is_closed b s = false) ss = ss) as ->.
  { clear -Hroom. induction ss as [|s ss IH]; [done|].
    rewrite filter_cons, decide_True.
    - f_equal. apply IH. intros s' Hs'. apply Hroom. by apply list_elem_of_further.
    - destruct (Hroom s (list_elem_of_here _ _)) as (q & Hq & _). unfold is_closed. by rewrite Hq. }
  destruct ss as [|s0 ss0]; [done|]. set (ss := s0 :: ss0) in *.
  assert (length ss <> 0)%nat as Hlen by (simpl; lia). cbn [round_robin]. fold start.
  pose proof (Nat.mod_upper_bound start (length ss) Hlen) as Hidx.
  destruct (lookup_lt_is_Some_2 ss _ Hidx) as [s Hs]. rewrite Hs.
  destruct (Hroom s) as (q & Hq & Hcap); [by eapply list_elem_of_lookup_2|].
  unfold try_send. cbn [channels capacity]. rewrite Hq. cbn [negb receiver_open queue].
  rewrite (proj2 (Nat.ltb_lt _ _)) by lia.
  eexists s, _. split; [done|]. split; [reflexivity|]. unfold ready, queue_of. cbn.
  split; [split; [done|]; split; [by rewrite lookup_insert_eq|]; split; [done|]; split; [done|]|split].
  - intros s' Hs'. destruct (decide (s = s')) as [<-|Hneq].
    + rewrite list_lookup_insert_eq by eauto using lookup_lt_Some.
      eexists. split; [done|]. rewrite length_app. simpl. lia.
    + rewrite list_lookup_insert_ne by done. destruct (Hroom s' Hs') as (q' & Hq' & ?).
      exists q'. split; [done|]. lia.
  - by rewrite lookup_insert_eq.
  - intros s'. case_decide as He; [subst s'|by rewrite list_lookup_insert_ne].
    rewrite list_lookup_insert_eq by eauto using lookup_lt_Some. by rewrite Hq.
Qed.

(** Each message goes to exactly one subscriber, in turn.  With [n]
    subscribers that are all there and have room, publishing any sequence of
    messages on their topic succeeds, and subscriber [j] (from 0) receives, in
    the order of publication and after what it already had, exactly the
    messages whose position counted from the topic's cursor is [j] modulo
    [n]. *)
Theorem round_robin_delivery (t : string) (ss : list nat) (ms : list message) (b : bus) :
  Forall (fun m => topic m = t) ms -> ready t ss (length ms) b ->
  let start := default 0%nat (round_robin b !! t) in
  exists b', publish_all ms b = (replicate (length ms) (Returned (Ok tt)), b') /\
    forall j s, ss !! j = Some s -> queue_of b' s = queue_of b s ++ turns start (length ss) j ms.
Proof.
  intros Ht. revert b. induction Ht as [|m ms Hm _ IH]; intros b Hr start; simpl.
  { exists b. split; [done|]. intros. by rewrite app_nil_r. }
  destruct (publish_ready t ss (length ms) b m Hm Hr) as (s0 & b1 & Hs0 & -> & Hr1 & Hcur & Hq).
  destruct (IH b1 Hr1) as (b' & -> & Hq'). exists b'. split; [done|]. intros j s Hj.
  rewrite (Hq' j s Hj), Hq, Hcur. fold start in Hs0 |- *.
  assert (length ss <> 0)%nat as Hlen by (destruct Hr as (_ & _ & _ & ? & _); by destruct ss).
  rewrite (turns_mod _ (S start)) by
    (rewrite Nat.Div0.mod_mod, Nat.Div0.add_mod_idemp_l; f_equal; lia).
  destruct Hr as (_ & _ & Hnd & _ & _).
  destruct (decide (s = s0)) as [->|Hne].
  - destruct (decide (s0 = s0)) as [_|]; [|done]. rewrite decide_True by exact (NoDup_lookup _ _ _ _ Hnd Hs0 Hj).
    by rewrite <- app_assoc.
  - destruct (decide (s = s0)) as [|_]; [done|]. rewrite decide_False by congruence. done.
Qed.

(** ** A publisher waiting for room *)

Inductive op : Type :=
| Publish (m : message)
| Subscribe (t : string)
| Resume
| Recv (s : nat)
| Close (s : nat).
Definition run_op (o : op) (b : bus) : outcome (progress * bus) :=
  match o with
  | Publish m => Ret (do_publish m b)
  | Subscribe t => subscribe t b
  | Resume => Ret (resume b)
  | Recv s => Ret (Returned (Ok tt), snd (recv s b))
  | Close s => Ret (Returned (Ok tt), close s b)
  end.

(** One slow subscriber stops the whole bus.  When a publisher finds its
    subscriber's channel full it waits with both of the bus's mutexes held:
    until that very subscriber receives or goes away, every publish on any
    topic and every subscription waits as well, whatever the other subscribers
    do. *)
Theorem full_channel_blocks_bus (b : bus) (msg : message) (s : nat) (q : list message) (os : list op) :
  sending b = Some (msg, s) -> channels b !! s = Some (Channel q true) -> (capacity b <= length q)%nat ->
  capacity b <> 0%nat ->
  Forall (fun o => o <> Recv s /\ o <> Close s) os ->
  exists b', foldr (fun o r => x ← r; run_op o (snd x)) (Ret (WaitsForRoom, b)) os = Ret b' /\
    (forall m, do_publish m (snd b') = (WaitsForLock, snd b')) /\
    (forall t, subscribe t (snd b') = Ret (WaitsForLock, snd b')) /\
    resume (snd b') = (WaitsForRoom, snd b').
Proof.
  intros Hsend Hc Hfull Hcap Hos.
  enough (exists b', foldr (fun o r => x ← r; run_op o (snd x)) (Ret (WaitsForRoom, b)) os = Ret b' /\
    sending (snd b') = Some (msg, s) /\ channels (snd b') !! s = Some (Channel q true) /\
    capacity (snd b') = capacity b) as (b' & Hb' & Hs' & Hc' & Hcap').
  { exists b'. split; [done|]. unfold do_publish, subscribe, resume, try_send. rewrite Hs', Hc', Hcap'.
    rewrite (proj2 (Nat.eqb_neq _ _)), (proj2 (Nat.ltb_ge _ _)) by done. done. }
  induction Hos as [|o os [Hr Hcl] _ (b1 & Hb1 & Hs1 & Hc1 & Hcap1)]; simpl; [by eexists|].
  rewrite Hb1. simpl. destruct b1 as [p b1]. simpl in *.
  destruct o as [m|t| |s'|s']; simpl.
  - eexists. split; [reflexivity|]. unfold do_publish. by rewrite Hs1.
  - unfold subscribe. rewrite Hs1, (proj2 (Nat.eqb_neq _ _)) by congruence. by eexists.
  - eexists. split; [reflexivity|]. unfold resume, try_send. rewrite Hs1, Hc1, Hcap1. simpl.
    by rewrite (proj2 (Nat.ltb_ge _ _)).
  - eexists. split; [reflexivity|]. unfold recv.
    destruct (channels b1 !! s') as [[[|m q'] o]|] eqn:E; simpl; try done.
    rewrite list_lookup_insert_ne by congruence. done.
  - eexists. split; [reflexivity|]. simpl. rewrite list_lookup_alter_ne by congruence. done.
Qed.

Definition msg (id t : string) : message := new_message id 0 t [].
(** Two subscribers of "jobs" with capacity 2. *)
Definition jobs_bus : bus := Bus {["jobs" := [0; 1]%nat]} 2 ∅ [Channel [] true; Channel [] true] None.

Lemma round_robin_delivery_witness :
  let ms := [msg "a" "jobs"; msg "b" "jobs"] in
  exists b', publish_all ms jobs_bus = (replicate 2 (Returned (Ok tt)), b') /\
    forall j s, [0; 1]%nat !! j = Some s -> queue_of b' s = queue_of jobs_bus s ++ turns 0 2 j ms.
Proof.
  intros ms. refine (round_robin_delivery "jobs" [0; 1]%nat ms jobs_bus _ _).
  - repeat constructor.
  - split; [reflexivity|]. split; [vm_compute; reflexivity|].
    split; [apply (bool_decide_unpack _); vm_compute; exact I|]. split; [discriminate|].
    intros s Hs. exists []. apply list_elem_of_lookup in Hs as [[|[|i]] Hi]; simplify_eq/=;
      (split; [reflexivity|simpl; lia]).
Defined.

Lemma full_channel_blocks_bus_witness :
  let b := Bus {["jobs" := [0%nat]]} 1 {["jobs" := 0%nat]} [Channel [msg "a" "jobs"] true] None in
  let b1 := snd (do_publish (msg "b" "jobs") b) in
  fst (do_publish (msg "b" "jobs") b) = WaitsForRoom /\
  exists b', foldr (fun o r => x ← r; run_op o (snd x)) (Ret (WaitsForRoom, b1))
      [Publish (msg "c" "mail"); Subscribe "mail"; Resume] = Ret b' /\
    (forall m, do_publish m (snd b') = (WaitsForLock, snd b')) /\
    (forall t, subscribe t (snd b') = Ret (WaitsForLock, snd b')) /\
    resume (snd b') = (WaitsForRoom, snd b').
Proof.
  intros b b1. split; [vm_compute; reflexivity|].
  refine (full_channel_blocks_bus b1 (msg "b" "jobs") 0 [msg "a" "jobs"]
    [Publish (msg "c" "mail"); Subscribe "mail"; Resume] _ _ _ _ _).
  - vm_compute. reflexivity.
  - vm_compute. reflexivity.
  - vm_compute. lia.
  - vm_compute. discriminate.
  - repeat constructor; discriminate.
Defined.
End InMemoryBus.
