(* ===== verification/Store.v ===== *)
(** The data access layer: values and rows
    ([rinfra-core/src/store/{mod,value}.rs]), query specifications
    ([rinfra-core/src/store/spec.rs]) and the generic repository that writes
    SQL from them ([rinfra-plugins/src/store/generic_repo.rs]). *)

From Stdlib Require Import SpecFloat.
From S2P Require Import Prelude Errors Tcp.

(** * Values *)

(** [enum DbValue] *)
Inductive db_value : Type :=
| Null
| Bool (b : bool)
| Int (n : Z)
| Float (f : spec_float)
| Text (s : string)
| Bytes (b : bytes).
Definition is_null (v : db_value) : bool := match v with Null => true | _ => false end.

(** [n as f64], rounded to nearest. *)
Definition as_f64 (n : Z) : spec_float := binary_normalize 53 1024 n 0 false.

(** The Rust integers of the conversions. *)
Record i32 : Type := I32 { i32_value : Z }.
Record i64 : Type := I64 { i64_value : Z }.
Definition in_i32 (n : Z) : Prop := - 2 ^ 31 <= n < 2 ^ 31.

(** The [Debug] rendering of a value in error messages is not modelled: only
    the error's code and the expected type are. *)
Definition type_error {A} (expected : string) : Result A :=
  fail StoreQueryFailed ("expected " +:+ expected).

Class FromDbValue (T : Type) : Type := from_db_value : db_value -> Result T.
Class IntoDbValue (T : Type) : Type := into_db_value : T -> db_value.

#[export] Instance bool_from : FromDbValue bool := fun v =>
  match v with Bool b => Ok b | Int n => Ok (negb (n =? 0)) | _ => type_error "bool" end.
#[export] Instance i32_from : FromDbValue i32 := fun v =>
  match v with Int n => Ok (I32 (as_i32 n)) | _ => type_error "i32" end.
#[export] Instance i64_from : FromDbValue i64 := fun v =>
  match v with Int n => Ok (I64 n) | _ => type_error "i64" end.
#[export] Instance f64_from : FromDbValue spec_float := fun v =>
  match v with Float f => Ok f | Int n => Ok (as_f64 n) | _ => type_error "f64" end.
#[export] Instance string_from : FromDbValue string := fun v =>
  match v with Text s => Ok s | _ => type_error "String" end.
#[export] Instance bytes_from : FromDbValue bytes := fun v =>
  match v with Bytes b => Ok b | _ => type_error "Vec<u8>" end.
#[export] Instance option_from {T} `{FromDbValue T} : FromDbValue (option T) := fun v =>
  if is_null v then Ok None else x ← from_db_value v; Ok (Some x).

#[export] Instance bool_into : IntoDbValue bool := Bool.
#[export] Instance i32_into : IntoDbValue i32 := fun n => Int (i32_value n).
#[export] Instance i64_into : IntoDbValue i64 := fun n => Int (i64_value n).
#[export] Instance f64_into : IntoDbValue spec_float := Float.
#[export] Instance string_into : IntoDbValue string := Text.
#[export] Instance bytes_into : IntoDbValue bytes := Bytes.
#[export] Instance option_into {T} `{IntoDbValue T} : IntoDbValue (option T) := fun o =>
  match o with Some x => into_db_value x | None => Null end.

(** A type whose values survive the database: they come back as they were,
    and none of them is stored as a null. *)
Class Lossless (T : Type) `{FromDbValue T, IntoDbValue T} (valid : T -> Prop) : Prop := {
  from_into x : valid x -> from_db_value (into_db_value x) = Ok x;
  into_not_null x : into_db_value x <> Null;
}.
#[export] Instance bool_lossless : Lossless bool (fun _ => True).
Proof. by split. Qed.
#[export] Instance i32_lossless : Lossless i32 (fun n => in_i32 (i32_value n)).
Proof.
  split; [|done]. intros [n] H. unfold from_db_value, into_db_value, i32_from, i32_into, as_i32; simpl in *.
  unfold in_i32 in H. do 2 f_equal. rewrite Z.mod_small by lia. lia.
Qed.
#[export] Instance i64_lossless : Lossless i64 (fun _ => True).
Proof. split; [|done]. by intros [n]. Qed.
#[export] Instance f64_lossless : Lossless spec_float (fun _ => True).
Proof. by split. Qed.
#[export] Instance string_lossless : Lossless string (fun _ => True).
Proof. by split. Qed.
#[export] Instance bytes_lossless : Lossless bytes (fun _ => True).
Proof. by split. Qed.

(** Values survive the database: every type with a lossless conversion
    (booleans, 32- and 64-bit integers in range, floats, strings and bytes -
    the instances above) also round-trips as a nullable column, with [None]
    and only [None] stored as [Null]. *)
Theorem nullable_roundtrip (T : Type) (valid : T -> Prop) `{Lossless T valid} (o : option T) :
  (forall x, o = Some x -> valid x) ->
  from_db_value (into_db_value o) = Ok o /\ (into_db_value o = Null <-> o = None).
Proof.
  intros Hv. destruct o as [x|]; [|done].
  change (into_db_value (Some x)) with (into_db_value x).
  pose proof (into_not_null x) as Hn. pose proof (from_into x (Hv x eq_refl)) as Hx.
  split; [|split; done]. unfold from_db_value, option_from.
  assert (is_null (into_db_value x) = false) as -> by by destruct (into_db_value x).
  by rewrite Hx.
Qed.

(** * Rows *)

(** [struct DbRow] *)
Record db_row : Type := DbRow { columns : list string; row_values : list db_value }.

(** [DbRow::get]: the first column of that name; a row with fewer values than
    columns panics. *)
Definition get {T} `{FromDbValue T} (column : string) (r : db_row) : outcome (Result T) :=
  match list_find (fun c => c = column) (columns r) with
  | None => Ret (fail StoreQueryFailed ("column '" +:+ column +:+ "' not found in row"))
  | Some (idx, _) =>
      match row_values r !! idx with
      | Some v => Ret (from_db_value v)
      | None => Panic "index out of bounds"
      end
  end.

(** * Specifications *)

(** [trait Specification]: the clause and the parameters from an offset. *)
Record specification : Type := Spec { to_where_clause : nat -> string * list db_value }.
Definition dollar (n : nat) : string := "$" +:+ pretty n.

Definition and_spec (l r : specification) : specification := Spec (fun offset =>
  let (l_clause, l_params) := to_where_clause l offset in
  let (r_clause, r_params) := to_where_clause r (offset + length l_params)%nat in
  ("(" +:+ l_clause +:+ ") AND (" +:+ r_clause +:+ ")", l_params ++ r_params)).
Definition or_spec (l r : specification) : specification := Spec (fun offset =>
  let (l_clause, l_params) := to_where_clause l offset in
  let (r_clause, r_params) := to_where_clause r (offset + length l_params)%nat in
  ("(" +:+ l_clause +:+ ") OR (" +:+ r_clause +:+ ")", l_params ++ r_params)).
Definition eq_spec (field : string) (v : db_value) : specification := Spec (fun offset =>
  (field +:+ " = " +:+ dollar offset, [v])).
Definition like_spec (field pattern : string) : specification := Spec (fun offset =>
  (field +:+ " LIKE " +:+ dollar offset, [Text pattern])).
Definition in_spec (field : string) (vs : list db_value) : specification := Spec (fun offset =>
  let placeholders := map (fun i => dollar (offset + i)) (seq 0 (length vs)) in
  (field +:+ " IN (" +:+ join ", " placeholders +:+ ")", vs)).
Definition between_spec (field : string) (low high : db_value) : specification := Spec (fun offset =>
  (field +:+ " BETWEEN " +:+ dollar offset +:+ " AND " +:+ dollar (offset + 1), [low; high])).

(** ** Placeholders and parameters

    A text of literals and placeholders. *)
Inductive token : Type := Lit (s : string) | Placeholder (n : nat).
Definition render_token (t : token) : string :=
  match t with Lit s => s | Placeholder n => dollar n end.
Definition render (ts : list token) : string := foldr (fun t s => render_token t +:+ s) "" ts.
Definition numbers (ts : list token) : list nat :=
  omap (fun t => match t with Lit _ => None | Placeholder n => Some n end) ts.

Definition dollar_sign : Ascii.ascii := Ascii.ascii_of_N 36.
Definition is_digit (c : Ascii.ascii) : bool :=
  let n := Ascii.N_of_ascii c in ((48 <=? n) && (n <=? 57))%N.
Definition starts_with_digit (s : string) : bool :=
  match s with EmptyString => false | String c _ => is_digit c end.
(** The literals hold no dollar sign of their own, and no placeholder is
    followed by another digit: the text reads back in one way only. *)
Fixpoint readable (ts : list token) : Prop :=
  match ts with
  | [] => True
  | Lit s :: ts => has_char dollar_sign s = false /\ readable ts
  | Placeholder n :: ts => starts_with_digit (render ts) = false /\ readable ts
  end.

(** The text's placeholders are [first], [first + 1], ... one for each of the
    [n] parameters, in order. *)
Definition aligned (first n : nat) (text : string) : Prop :=
  exists ts, render ts = text /\ numbers ts = seq first n /\ readable ts.
Definition aligned_spec (s : specification) : Prop :=
  forall offset, aligned offset (length (snd (to_where_clause s offset))) (fst (to_where_clause s offset)).

Lemma render_app ts1 ts2 : render (ts1 ++ ts2) = render ts1 +:+ render ts2.
Proof. induction ts1 as [|t ts1 IH]; [done|]. simpl. by rewrite IH, str_app_assoc. Qed.
Lemma numbers_app ts1 ts2 : numbers (ts1 ++ ts2) = numbers ts1 ++ numbers ts2.
Proof. apply omap_app. Qed.
Lemma starts_with_digit_app a b :
  starts_with_digit (a +:+ b) = if String.eqb a "" then starts_with_digit b else starts_with_digit a.
Proof. by destruct a. Qed.
Lemma readable_app ts1 ts2 :
  readable ts1 -> readable ts2 -> starts_with_digit (render ts2) = false -> readable (ts1 ++ ts2).
Proof.
  intros H1 H2 Hd. induction ts1 as [|[s|n] ts1 IH]; [done|..]; simpl in *.
  - destruct H1. split; [done|auto].
  - destruct H1 as [Hs H1]. split; [|auto]. rewrite render_app, starts_with_digit_app.
    by destruct (String.eqb_spec (render ts1) "").
Qed.

(** Two aligned texts with literals before, between and after them. *)
Lemma aligned_app first n1 n2 pre a mid b post :
  aligned first n1 a -> aligned (first + n1) n2 b ->
  has_char dollar_sign pre = false -> has_char dollar_sign mid = false ->
  has_char dollar_sign post = false ->
  mid <> "" -> starts_with_digit mid = false -> starts_with_digit post = false ->
  aligned first (n1 + n2) (pre +:+ a +:+ mid +:+ b +:+ post).
Proof.
  intros (ts1 & <- & H1 & R1) (ts2 & <- & H2 & R2) Hpre Hmid Hpost Hne Hdm Hdp.
  exists (Lit pre :: ts1 ++ Lit mid :: ts2 ++ [Lit post]). split; [|split].
  - simpl. rewrite !render_app. simpl. by rewrite render_app; simpl; rewrite str_app_nil.
  - simpl. rewrite numbers_app. simpl. rewrite numbers_app, H1, H2. simpl.
    by rewrite app_nil_r, seq_app.
  - simpl. split; [done|]. apply readable_app; [done| |].
    + simpl. split; [done|]. apply readable_app; simpl; rewrite ?str_app_nil; done.
    + simpl. by destruct mid.
Qed.

Lemma aligned_one first pre :
  has_char dollar_sign pre = false -> aligned first 1 (pre +:+ dollar first).
Proof.
  intros H. exists [Lit pre; Placeholder first]. split; [|split]; simpl; [|done|done].
  by rewrite str_app_nil.
Qed.
Lemma aligned_lit first pre : has_char dollar_sign pre = false -> aligned first 0 pre.
Proof. intros H. exists [Lit pre]. simpl. by rewrite str_app_nil. Qed.
Lemma aligned_wrap first n pre a post :
  aligned first n a -> has_char dollar_sign pre = false -> has_char dollar_sign post = false ->
  starts_with_digit post = false -> aligned first n (pre +:+ a +:+ post).
Proof.
  intros (ts & <- & H & R) Hpre Hpost Hd. exists (Lit pre :: ts ++ [Lit post]). split; [|split].
  - simpl. rewrite render_app. simpl. by rewrite str_app_nil.
  - simpl. by rewrite numbers_app, H, app_nil_r.
  - simpl. split; [done|]. apply readable_app; simpl; rewrite ?str_app_nil; done.
Qed.

(** A comma-separated list with one placeholder after each prefix. *)
Fixpoint numbered_list (first : nat) (prefixes : list string) : list string :=
  match prefixes with
  | [] => []
  | p :: ps => (p +:+ dollar first) :: numbered_list (S first) ps
  end.
Lemma aligned_list first ps :
  Forall (fun p => has_char dollar_sign p = false) ps ->
  aligned first (length ps) (join ", " (numbered_list first ps)).
Proof.
  intros H. revert first. induction H as [|p ps Hp Hps IH]; intros first; [by exists []|].
  destruct ps as [|p' ps]; [simpl; by apply aligned_one|].
  destruct (IH (S first)) as (ts & Hr & Hn & R).
  exists (Lit p :: Placeholder first :: Lit ", " :: ts). split; [|split; [|done]].
  - cbn [render foldr render_token]. fold (render ts). rewrite Hr. cbn [numbered_list join].
    by rewrite !str_app_assoc.
  - cbn [numbers omap list_omap]. fold (numbers ts). by rewrite Hn.
Qed.

Lemma numbered_list_seq first n :
  numbered_list first (replicate n "") = map dollar (seq first n).
Proof. revert first. induction n as [|n IH]; intros first; [done|]. simpl. by rewrite IH. Qed.
Lemma map_dollar_offset offset n :
  map (fun i => dollar (offset + i)) (seq 0 n) = map dollar (seq offset n).
Proof.
  revert offset. induction n as [|n IH]; intros offset; [done|]. simpl. rewrite Nat.add_0_r. f_equal.
  rewrite <- IH, <- seq_shift, map_map. apply map_ext. intros i. f_equal. lia.
Qed.

(** The specifications built from the combinators over fields without a
    dollar sign (and any other aligned implementation of the trait). *)
Inductive built : specification -> Prop :=
| built_other s : aligned_spec s -> built s
| built_eq field v : has_char dollar_sign field = false -> built (eq_spec field v)
| built_like field p : has_char dollar_sign field = false -> built (like_spec field p)
| built_in field vs : has_char dollar_sign field = false -> built (in_spec field vs)
| built_between field lo hi : has_char dollar_sign field = false -> built (between_spec field lo hi)
| built_and l r : built l -> built r -> built (and_spec l r)
| built_or l r : built l -> built r -> built (or_spec l r).

Lemma aligned_pair first n1 n2 l r op :
  aligned first n1 l -> aligned (first + n1) n2 r -> has_char dollar_sign op = false ->
  aligned first (n1 + n2) ("(" +:+ l +:+ (")" +:+ op) +:+ r +:+ ")").
Proof. intros Hl Hr Ho. by apply aligned_app. Qed.

(** The clause of every specification, however nested, matches its
    parameters: read from left to right its placeholders are exactly
    [$offset], [$offset+1], ... one for each parameter and in the parameters'
    order, and a placeholder's number never runs into a digit that follows
    it. *)
Theorem where_clause_aligned (s : specification) : built s -> aligned_spec s.
Proof.
  induction 1 as [s Hs|field v Hf|field p Hf|field vs Hf|field lo hi Hf|l r _ IHl _ IHr|l r _ IHl _ IHr];
    intros offset; simpl.
  - apply Hs.
  - rewrite <- str_app_assoc. apply aligned_one. by rewrite has_char_app, Hf.
  - rewrite <- str_app_assoc. apply aligned_one. by rewrite has_char_app, Hf.
  - rewrite map_dollar_offset, <- numbered_list_seq, <- str_app_assoc.
    apply aligned_wrap; [|by rewrite has_char_app, Hf|done..].
    rewrite <- (length_replicate (length vs) "") at 1. apply aligned_list. by apply Forall_replicate.
  - rewrite <- (str_app_nil (dollar (offset + 1))), <- (str_app_assoc field).
    apply (aligned_app offset 1 1 _ _ " AND "); try done.
    + exists [Placeholder offset]. simpl. by rewrite str_app_nil.
    + exists [Placeholder (offset + 1)]. simpl. by rewrite str_app_nil.
    + by rewrite has_char_app, Hf.
  - specialize (IHl offset). destruct (to_where_clause l offset) as [lc lp]. simpl in IHl.
    specialize (IHr (offset + length lp)%nat). destruct (to_where_clause r _) as [rc rp]. simpl in *.
    rewrite length_app. by apply (aligned_pair _ _ _ _ _ " AND (").
  - specialize (IHl offset). destruct (to_where_clause l offset) as [lc lp]. simpl in IHl.
    specialize (IHr (offset + length lp)%nat). destruct (to_where_clause r _) as [rc rp]. simpl in *.
    rewrite length_app. by apply (aligned_pair _ _ _ _ _ " OR (").
Qed.

(** * The generic repository *)

Inductive sort_direction : Type := Asc | Desc.
Record order_by : Type := OrderBy { field : string; direction : sort_direction }.
(** [struct QueryOptions] and its default *)
Record query_options : Type := QueryOptions { limit : Z; offset : Z; order : list order_by }.
Definition default_options : query_options := QueryOptions 100 0 [].

Module GenericRepository.
Section repository.
Context {W T : Type}.

(** The entity's mapping ([Entity], [ToRow], [FromRow]) *)
Variable table_name id_column : string.
Variable entity_id : T -> Z.
Variable to_params : T -> list (string * db_value).
Variable from_row : db_row -> outcome (Result T).

(** The connection: obtaining an executor, and the executor's calls. *)
Variable executor : M W (Result unit).
Variable exec_execute : string -> list db_value -> M W (Result Z).
Variable exec_query : string -> list db_value -> M W (Result (list db_row)).
Variable exec_query_one : string -> list db_value -> M W (Result (option db_row)).

(** The [?] operator in a stateful computation. *)
Definition try_then {A B} (m : M W (Result A)) (f : A -> M W (Result B)) : M W (Result B) :=
  r ← m; match r with Ok a => f a | Err e => mret (Err e) end.
Definition lift_row {A} (o : outcome (Result A)) : M W (Result A) := fun w =>
  match o with Ret r => Ret (r, w) | Panic p => Panic p end.
Fixpoint rows_to_entities (rows : list db_row) : M W (Result (list T)) :=
  match rows with
  | [] => mret (Ok [])
  | r :: rows => try_then (lift_row (from_row r)) (fun x =>
                   try_then (rows_to_entities rows) (fun xs => mret (Ok (x :: xs))))
  end.

(** The statements *)
Definition order_clause (o : order_by) : string :=
  field o +:+ " " +:+ match direction o with Asc => "ASC" | Desc => "DESC" end.
Definition with_options (sql : string) (opts : query_options) : string :=
  sql +:+ match order opts with
          | [] => ""
          | os => " ORDER BY " +:+ join ", " (map order_clause os)
          end
      +:+ " LIMIT " +:+ pretty (limit opts) +:+ " OFFSET " +:+ pretty (offset opts).
Definition insert_sql (params : list (string * db_value)) : string :=
  "INSERT INTO " +:+ table_name +:+ " (" +:+ join ", " params.*1 +:+ ") VALUES (" +:+
  join ", " (map dollar (seq 1 (length params))) +:+ ") RETURNING *".
Definition update_sql (params : list (string * db_value)) : string :=
  "UPDATE " +:+ table_name +:+ " SET " +:+
  join ", " (numbered_list 1 (map (fun c => c +:+ " = ") params.*1)) +:+
  " WHERE " +:+ id_column +:+ " = " +:+ dollar (length params + 1) +:+ " RETURNING *".
Definition by_id_sql (verb tail : string) : string :=
  verb +:+ " FROM " +:+ table_name +:+ " WHERE " +:+ id_column +:+ " = $1" +:+ tail.

(** The operations *)
Definition find_by_id (id : Z) : M W (Result (option T)) :=
  try_then executor (fun _ =>
  try_then (exec_query_one (by_id_sql "SELECT *" "") [Int id]) (fun row =>
    match row with
    | Some r => try_then (lift_row (from_row r)) (fun x => mret (Ok (Some x)))
    | None => mret (Ok None)
    end)).
Definition find_all (opts : query_options) : M W (Result (list T)) :=
  try_then executor (fun _ =>
  try_then (exec_query (with_options ("SELECT * FROM " +:+ table_name) opts) []) rows_to_entities).
(** The [cnt] column as an [i64] cast to [u64]. *)
Definition counted (row : option db_row) : M W (Result Z) :=
  match row with
  | Some r => try_then (lift_row (get (T := i64) "cnt" r)) (fun n => mret (Ok (as_u64 (i64_value n))))
  | None => mret (Ok 0)
  end.
Definition count_all : M W (Result Z) :=
  try_then executor (fun _ =>
  try_then (exec_query_one ("SELECT count(*) AS cnt FROM " +:+ table_name) []) counted).
Definition returned (what : string) (row : option db_row) : M W (Result T) :=
  match row with
  | Some r => lift_row (from_row r)
  | None => mret (fail StoreQueryFailed (what +:+ " RETURNING returned no rows"))
  end.
Definition create (entity : T) : M W (Result T) :=
  let params := to_params entity in
  try_then executor (fun _ =>
  try_then (exec_query_one (insert_sql params) params.*2) (returned "INSERT")).
Definition update (entity : T) : M W (Result T) :=
  let params := to_params entity in
  try_then executor (fun _ =>
  try_then (exec_query_one (update_sql params) (params.*2 ++ [Int (entity_id entity)]))
    (returned "UPDATE")).
Definition delete_one (id : Z) : M W (Result bool) :=
  try_then executor (fun _ =>
  try_then (exec_execute (by_id_sql "DELETE" "") [Int id]) (fun n => mret (Ok (0 <? n)))).
Definition exists_one (id : Z) : M W (Result bool) :=
  try_then executor (fun _ =>
  try_then (exec_query_one (by_id_sql "SELECT 1" " LIMIT 1") [Int id]) (fun row =>
    mret (Ok match row with Some _ => true | None => false end))).
Definition find_by (s : specification) (opts : query_options) : M W (Result (list T)) :=
  let (where_clause, params) := to_where_clause s 1 in
  try_then executor (fun _ =>
  try_then (exec_query (with_options
    ("SELECT * FROM " +:+ table_name +:+ " WHERE " +:+ where_clause) opts) params) rows_to_entities).
Definition count_by (s : specification) : M W (Result Z) :=
  let (where_clause, params) := to_where_clause s 1 in
  try_then executor (fun _ =>
  try_then (exec_query_one ("SELECT count(*) AS cnt FROM " +:+ table_name +:+ " WHERE " +:+ where_clause)
    params) counted).
Definition delete_by (s : specification) : M W (Result Z) :=
  let (where_clause, params) := to_where_clause s 1 in
  try_then executor (fun _ =>
    exec_execute ("DELETE FROM " +:+ table_name +:+ " WHERE " +:+ where_clause) params).
End repository.

(** ** The statements sent to the database *)

(** An executor whose calls are recorded, in order. *)
Definition statement : Type := string * list db_value.
Definition recorded {W A} (f : string -> list db_value -> M W (Result A)) (sql : string)
    (ps : list db_value) : M (W * list statement) (Result A) := fun x =>
  r ← f sql ps (fst x); Ret (fst r, (snd r, snd x ++ [(sql, ps)])).
Definition unrecorded {W A} (m : M W A) : M (W * list statement) A := fun x =>
  r ← m (fst x); Ret (fst r, (snd r, snd x)).

(** The operations of the repository, by name. *)
Inductive repo_op (T : Type) : Type :=
| FindById (id : Z) | FindAll (opts : query_options) | CountAll | Create (x : T) | Update (x : T)
| DeleteOne (id : Z) | ExistsOne (id : Z) | FindBy (s : specification) (opts : query_options)
| CountBy (s : specification) | DeleteBy (s : specification).

Definition plain (s : string) : Prop := has_char dollar_sign s = false.
Definition plain_options (o : query_options) : Prop := Forall (fun x => plain (field x)) (order o).
Definition op_ok {T} (to_params : T -> list (string * db_value)) (o : repo_op T) : Prop :=
  match o with
  | FindAll _ opts => plain_options opts
  | Create _ x | Update _ x => Forall plain (to_params x).*1
  | FindBy _ s opts => built s /\ plain_options opts
  | CountBy _ s | DeleteBy _ s => built s
  | _ => True
  end.

Lemma pretty_N_go_plain x s : plain s -> plain (pretty_N_go x s).
Proof.
  unfold plain. revert s. induction (N.lt_wf_0 x) as [x _ IH]; intros s Hs.
  assert (x = 0 \/ 0 < x)%N as [->|Hx] by lia; [by rewrite pretty_N_go_0|].
  rewrite pretty_N_go_step by done. apply IH; [by apply N.div_lt|]. simpl. rewrite Hs, orb_false_r.
  unfold pretty_N_char. by repeat case_match.
Qed.
Lemma pretty_N_plain (n : N) : plain (pretty n).
Proof. unfold pretty, pretty_N. case_decide; [done|]. by apply pretty_N_go_plain. Qed.
Lemma pretty_Z_plain (z : Z) : plain (pretty z).
Proof. destruct z; [done|apply pretty_N_plain|]. apply (pretty_N_plain (N.pos _)). Qed.
Lemma plain_app a b : plain a -> plain b -> plain (a +:+ b).
Proof. unfold plain. intros Ha Hb. by rewrite has_char_app, Ha, Hb. Qed.
Lemma plain_join ps : Forall plain ps -> plain (join ", " ps).
Proof.
  induction 1 as [|p ps Hp Hps IH]; [done|]. destruct ps; [done|].
  cbn [join]. by apply plain_app; [|apply plain_app].
Qed.

Section statements.
Context {W T : Type}.
Variable table_name id_column : string.
Variable entity_id : T -> Z.
Variable to_params : T -> list (string * db_value).
Variable from_row : db_row -> outcome (Result T).
Variable executor : M W (Result unit).
Variable exec_execute : string -> list db_value -> M W (Result Z).
Variable exec_query : string -> list db_value -> M W (Result (list db_row)).
Variable exec_query_one : string -> list db_value -> M W (Result (option db_row)).

Let WL : Type := (W * list statement)%type.
Definition ignore {A} (m : M WL (Result A)) : M WL unit := _ ← m; mret tt.
Definition run_op (o : repo_op T) : M WL unit :=
  let ex := unrecorded executor in
  let q := recorded exec_query in let q1 := recorded exec_query_one in
  let x := recorded exec_execute in
  match o with
  | FindById _ id => ignore (find_by_id table_name id_column from_row ex q1 id)
  | FindAll _ opts => ignore (find_all table_name from_row ex q opts)
  | CountAll _ => ignore (count_all table_name ex q1)
  | Create _ e => ignore (create table_name to_params from_row ex q1 e)
  | Update _ e => ignore (update table_name id_column entity_id to_params from_row ex q1 e)
  | DeleteOne _ id => ignore (delete_one table_name id_column ex x id)
  | ExistsOne _ id => ignore (exists_one table_name id_column ex q1 id)
  | FindBy _ s opts => ignore (find_by table_name from_row ex q s opts)
  | CountBy _ s => ignore (count_by table_name ex q1 s)
  | DeleteBy _ s => ignore (delete_by table_name ex x s)
  end.

Definition good (st : statement) : Prop := aligned 1 (length (snd st)) (fst st).
(** Every statement a computation adds to the record is good. *)
Definition sends_good {A} (m : M WL A) : Prop :=
  forall x a x', m x = Ret (a, x') -> exists log, snd x' = snd x ++ log /\ Forall good log.

Lemma sends_ret {A} (a : A) : sends_good (mret a).
Proof. intros x b x' [= _ <-]. exists []. by rewrite app_nil_r. Qed.
Lemma sends_bind {A B} (m : M WL A) (f : A -> M WL B) :
  sends_good m -> (forall a, sends_good (f a)) -> sends_good (m ≫= f).
Proof.
  intros Hm Hf x b x' (a & x1 & H1 & H2)%M_bind_inv.
  destruct (Hm _ _ _ H1) as (l1 & E1 & ?), (Hf _ _ _ _ H2) as (l2 & E2 & ?).
  exists (l1 ++ l2). by rewrite E2, E1, app_assoc, Forall_app.
Qed.
Lemma sends_try {A B} (m : M WL (Result A)) (f : A -> M WL (Result B)) :
  sends_good m -> (forall a, sends_good (f a)) -> sends_good (try_then m f).
Proof. intros Hm Hf. apply sends_bind; [done|]. intros [a|e]; [apply Hf|apply sends_ret]. Qed.
Lemma sends_unrecorded {A} (m : M W A) : sends_good (unrecorded m).
Proof.
  intros x a x'. unfold unrecorded. destruct (m (fst x)) as [[]|]; simpl; [|done].
  intros [= _ <-]. exists []. by rewrite app_nil_r.
Qed.
Lemma sends_recorded {A} (f : string -> list db_value -> M W (Result A)) sql ps :
  aligned 1 (length ps) sql -> sends_good (recorded f sql ps).
Proof.
  intros H x a x'. unfold recorded. destruct (f sql ps (fst x)) as [[]|]; simpl; [|done].
  intros [= _ <-]. exists [(sql, ps)]. split; [done|]. by apply Forall_singleton.
Qed.
Lemma sends_lift_row {A} (o : outcome (Result A)) : sends_good (lift_row (W := WL) o).
Proof.
  intros x a x'. unfold lift_row. destruct o; [|done]. intros [= _ <-]. exists [].
  by rewrite app_nil_r.
Qed.
Lemma sends_rows rows : sends_good (rows_to_entities (W := WL) from_row rows).
Proof.
  induction rows as [|r rows IH]; [apply sends_ret|]. simpl.
  apply sends_try; [apply sends_lift_row|]. intros x. apply sends_try; [done|].
  intros xs. apply sends_ret.
Qed.

Hypothesis table_plain : plain table_name.
Hypothesis id_plain : plain id_column.

Lemma aligned_options n sql opts :
  aligned 1 n sql -> plain_options opts -> aligned 1 n (with_options sql opts).
Proof.
  intros Ha Ho. unfold with_options. apply (aligned_wrap 1 n "" sql); [done..| |].
  - apply plain_app; [|repeat (apply plain_app; [done || apply pretty_Z_plain|]); apply pretty_Z_plain].
    destruct (order opts) eqn:E; [done|]. apply plain_app; [done|]. apply plain_join.
    apply Forall_map. unfold plain_options in Ho. rewrite E in Ho. eapply Forall_impl; [exact Ho|].
    intros ob Hf. apply plain_app; [done|]. by destruct (direction ob).
  - by destruct (order opts).
Qed.

Lemma aligned_by_id verb tail :
  plain verb -> plain tail -> starts_with_digit tail = false -> aligned 1 1 (by_id_sql table_name id_column verb tail).
Proof using id_plain table_plain.
  intros Hv Ht Hd. unfold by_id_sql.
  assert (verb +:+ " FROM " +:+ table_name +:+ " WHERE " +:+ id_column +:+ " = $1" +:+ tail =
    (verb +:+ " FROM " +:+ table_name +:+ " WHERE " +:+ id_column +:+ " = ") +:+ dollar 1 +:+ tail) as ->.
  { rewrite !str_app_assoc. done. }
  apply aligned_wrap; [|repeat (apply plain_app; [done|]); done|done..].
  exists [Placeholder 1]. simpl. by rewrite str_app_nil.
Qed.

Lemma aligned_insert params : Forall plain params.*1 ->
  aligned 1 (length params.*2) (insert_sql table_name params).
Proof using table_plain.
  intros H. unfold insert_sql. rewrite length_fmap.
  assert (forall a b c d e f g : string, a +:+ b +:+ c +:+ d +:+ e +:+ f +:+ g =
    (a +:+ b +:+ c +:+ d +:+ e) +:+ f +:+ g) as -> by (intros; by rewrite !str_app_assoc).
  apply aligned_wrap; [|repeat (apply plain_app; [done|]); apply plain_app; [by apply plain_join|done]|done..].
  rewrite <- numbered_list_seq. rewrite <- (length_replicate (length params) "") at 1.
  apply aligned_list. by apply Forall_replicate.
Qed.

Lemma aligned_update params id : Forall plain params.*1 ->
  aligned 1 (length (params.*2 ++ [Int id])) (update_sql table_name id_column params).
Proof using id_plain table_plain.
  intros H. unfold update_sql. rewrite length_app, length_fmap.
  assert (forall a b c d e f g h i : string, a +:+ b +:+ c +:+ d +:+ e +:+ f +:+ g +:+ h +:+ i =
    (a +:+ b +:+ c) +:+ d +:+ (e +:+ f +:+ g) +:+ h +:+ i) as -> by (intros; by rewrite !str_app_assoc).
  assert (plain ("UPDATE " +:+ table_name +:+ " SET ")) as Hpre by (by repeat apply plain_app).
  assert (plain (" WHERE " +:+ id_column +:+ " = ")) as Hmid by (by repeat apply plain_app).
  apply aligned_app; try done.
  - assert (length params = length (map (fun c => c +:+ " = ") params.*1)) as -> by (by rewrite length_map, length_fmap).
    apply aligned_list. apply Forall_map. eapply Forall_impl; [exact H|]. intros c Hc. by apply plain_app.
  - exists [Placeholder (length params + 1)]. simpl. rewrite str_app_nil.
    split; [done|]. split; [f_equal; lia|done].
Qed.

Lemma sends_counted row : sends_good (counted (W := WL) row).
Proof.
  destruct row as [r|]; [|apply sends_ret]. apply sends_try; [apply sends_lift_row|].
  intros n. apply sends_ret.
Qed.
Lemma sends_returned what row : sends_good (returned (W := WL) from_row what row).
Proof. destruct row as [r|]; [apply sends_lift_row|apply sends_ret]. Qed.

Lemma run_op_sends o : op_ok to_params o -> sends_good (run_op o).
Proof using id_plain table_plain.
  assert (forall A (m : M WL (Result A)), sends_good m -> sends_good (ignore m)) as Hig.
  { intros A m Hm. apply sends_bind; [done|]. intros r. apply sends_ret. }
  assert (forall pre a, plain pre -> plain a -> aligned 1 0 (pre +:+ a)) as Hlit.
  { intros pre a Hp Ha. apply aligned_lit. by apply plain_app. }
  assert (forall pre s, plain pre -> built s ->
    aligned 1 (length (snd (to_where_clause s 1))) (pre +:+ fst (to_where_clause s 1))) as Hspec.
  { intros pre s Hp Hs. rewrite <- (str_app_nil (fst _)). apply aligned_wrap; [|done..].
    by apply where_clause_aligned. }
  destruct o; simpl; intros Hok; apply Hig.
  - apply sends_try; [apply sends_unrecorded|intros _].
    apply sends_try; [apply sends_recorded, (aligned_by_id "SELECT *" ""); done|].
    intros [r|]; [|apply sends_ret]. apply sends_try; [apply sends_lift_row|intros x; apply sends_ret].
  - apply sends_try; [apply sends_unrecorded|intros _].
    apply sends_try; [apply sends_recorded, aligned_options; [by apply Hlit|done]|apply sends_rows].
  - apply sends_try; [apply sends_unrecorded|intros _].
    apply sends_try; [apply sends_recorded; by apply Hlit|apply sends_counted].
  - apply sends_try; [apply sends_unrecorded|intros _].
    apply sends_try; [by apply sends_recorded, aligned_insert|apply sends_returned].
  - apply sends_try; [apply sends_unrecorded|intros _].
    apply sends_try; [by apply sends_recorded, aligned_update|apply sends_returned].
  - apply sends_try; [apply sends_unrecorded|intros _].
    apply sends_try; [apply sends_recorded, (aligned_by_id "DELETE" ""); done|].
    intros n. apply sends_ret.
  - apply sends_try; [apply sends_unrecorded|intros _].
    apply sends_try; [apply sends_recorded, (aligned_by_id "SELECT 1" " LIMIT 1"); done|].
    intros r. apply sends_ret.
  - destruct Hok as [Hs Ho]. unfold find_by.
    pose proof (Hspec ("SELECT * FROM " +:+ table_name +:+ " WHERE ") s
      ltac:(by repeat apply plain_app) Hs) as Ha.
    destruct (to_where_clause s 1) as [c ps]. rewrite !str_app_assoc in Ha.
    apply sends_try; [apply sends_unrecorded|intros _].
    apply sends_try; [by apply sends_recorded, aligned_options|apply sends_rows].
  - unfold count_by. pose proof (Hspec ("SELECT count(*) AS cnt FROM " +:+ table_name +:+ " WHERE ") s
      ltac:(by repeat apply plain_app) Hok) as Ha.
    destruct (to_where_clause s 1) as [c ps]. rewrite !str_app_assoc in Ha.
    apply sends_try; [apply sends_unrecorded|intros _].
    apply sends_try; [by apply sends_recorded|apply sends_counted].
  - unfold delete_by. pose proof (Hspec ("DELETE FROM " +:+ table_name +:+ " WHERE ") s
      ltac:(by repeat apply plain_app) Hok) as Ha.
    destruct (to_where_clause s 1) as [c ps]. rewrite !str_app_assoc in Ha.
    apply sends_try; [apply sends_unrecorded|intros _]. by apply sends_recorded.
Qed.
End statements.

(** C12: every statement the repository sends binds its parameters: for any
    entity mapping, database and operation - whatever the database answers -
    each SQL text passed to the executor has exactly the placeholders [$1],
    [$2], ... in order, one for each value bound, for tables, columns and
    fields without a dollar sign. *)
Theorem statements_aligned {W T : Type} (table_name id_column : string) (entity_id : T -> Z)
    (to_params : T -> list (string * db_value)) (from_row : db_row -> outcome (Result T))
    (executor : M W (Result unit)) (exec_execute : string -> list db_value -> M W (Result Z))
    (exec_query : string -> list db_value -> M W (Result (list db_row)))
    (exec_query_one : string -> list db_value -> M W (Result (option db_row)))
    (o : repo_op T) (w w' : W) (u : unit) (log : list statement) :
  plain table_name -> plain id_column -> op_ok to_params o ->
  run_op table_name id_column entity_id to_params from_row executor exec_execute exec_query
    exec_query_one o (w, []) = Ret (u, (w', log)) ->
  Forall (fun st => aligned 1 (length (snd st)) (fst st)) log.
Proof.
  intros Ht Hid Hok Hrun.
  destruct (run_op_sends table_name id_column entity_id to_params from_row executor exec_execute
    exec_query exec_query_one Ht Hid o Hok _ _ _ Hrun) as (l & Hl & H).
  simpl in Hl. by subst.
Qed.

(** A table of users (id, name) in a database that knows one row. *)
Definition user : Type := Z * string.
Definition user_row : db_row := DbRow ["id"; "name"] [Int 7; Text "ada"].
Definition user_from (r : db_row) : outcome (Result user) :=
  id ← get (T := i64) "id" r; name ← get (T := string) "name" r;
  Ret (match id, name with
       | Ok i, Ok n => Ok (i64_value i, n)
       | Err e, _ => Err e
       | _, Err e => Err e
       end).
Definition run_users (o : repo_op user) : outcome (unit * (unit * list statement)) :=
  run_op "users" "id" fst (fun u => [("name", Text (snd u))]) user_from
    (fun w => Ret (Ok tt, w)) (fun _ _ w => Ret (Ok 1, w)) (fun _ _ w => Ret (Ok [user_row], w))
    (fun _ _ w => Ret (Ok (Some user_row), w)) o (tt, []).

Lemma statements_aligned_witness :
  let st := ("UPDATE users SET name = $1 WHERE id = $2 RETURNING *", [Text "ada"; Int 7]) in
  run_users (Update _ (7, "ada")) = Ret (tt, (tt, [st])) /\
  Forall (fun st => aligned 1 (length (snd st)) (fst st)) [st].
Proof.
  intros st. split; [vm_compute; reflexivity|].
  refine (statements_aligned "users" "id" fst (fun u : user => [("name", Text (snd u))]) user_from
    (fun w : unit => Ret (Ok tt, w)) (fun _ _ w => Ret (Ok 1, w)) (fun _ _ w => Ret (Ok [user_row], w))
    (fun _ _ w => Ret (Ok (Some user_row), w)) (Update _ (7, "ada")) tt tt tt _ _ _ _ _).
  - reflexivity.
  - reflexivity.
  - repeat constructor.
  - vm_compute. reflexivity.
Defined.
End GenericRepository.

Lemma nullable_roundtrip_witness :
  from_db_value (into_db_value (Some (I32 (-5)))) = Ok (Some (I32 (-5))) /\
  (into_db_value (Some (I32 (-5))) = Null <-> Some (I32 (-5)) = None).
Proof.
  refine (nullable_roundtrip i32 (fun n => in_i32 (i32_value n)) (Some (I32 (-5))) _).
  intros x Hx. injection Hx as <-. unfold in_i32. simpl. lia.
Defined.

Lemma where_clause_aligned_witness :
  let s := and_spec (or_spec (eq_spec "a" Null) (between_spec "b" (Int 1) (Int 2)))
             (in_spec "c" [Int 3; Int 4]) in
  fst (to_where_clause s 9) = "((a = $9) OR (b BETWEEN $10 AND $11)) AND (c IN ($12, $13))" /\
  aligned_spec s.
Proof.
  intros s. split; [vm_compute; reflexivity|]. apply where_clause_aligned.
  apply built_and; [apply built_or; [apply built_eq|apply built_between]|apply built_in]; reflexivity.
Defined.
