(* ===== verification/Derive.v ===== *)
(** The derive macros ([rinfra-derive/src/lib.rs]): a structure's declaration
    as the macros read it, the implementations of [Entity], [FromRow] and
    [ToRow] that they generate, and what the generated mapping guarantees to
    the generic repository of [Store]. *)

From Stdlib Require Import SpecFloat.
From S2P Require Import Prelude Errors Tcp Store.

(** * The input of a macro *)

(** [syn::Meta]: the attribute's path by segments, and its tokens as they are
    printed. *)
Inductive meta : Type :=
| MetaPath (path : list string)
| MetaList (path : list string) (tokens : string)
| MetaNameValue (path : list string) (value : string).
Definition meta_path (a : meta) : list string :=
  match a with MetaPath p => p | MetaList p _ => p | MetaNameValue p _ => p end.
Definition is_ident (p : list string) (s : string) : bool := bool_decide (p = [s]).

(** The types with both conversions: the implementors of [FromDbValue] and
    [IntoDbValue]. *)
Inductive column_type : Type :=
| TBool | TI32 | TI64 | TF64 | TString | TBytes
| TOption (t : column_type).
Fixpoint interp (t : column_type) : Type :=
  match t with
  | TBool => bool
  | TI32 => i32
  | TI64 => i64
  | TF64 => spec_float
  | TString => string
  | TBytes => bytes
  | TOption t => option (interp t)
  end.
Fixpoint from_ty (t : column_type) : FromDbValue (interp t) :=
  match t with
  | TBool => bool_from
  | TI32 => i32_from
  | TI64 => i64_from
  | TF64 => f64_from
  | TString => string_from
  | TBytes => bytes_from
  | TOption t => @option_from (interp t) (from_ty t)
  end.
Fixpoint into_ty (t : column_type) : IntoDbValue (interp t) :=
  match t with
  | TBool => bool_into
  | TI32 => i32_into
  | TI64 => i64_into
  | TF64 => f64_into
  | TString => string_into
  | TBytes => bytes_into
  | TOption t => @option_into (interp t) (into_ty t)
  end.

#[export] Instance meta_eq_dec : EqDecision meta.
Proof. solve_decision. Defined.
#[export] Instance column_type_eq_dec : EqDecision column_type.
Proof. solve_decision. Defined.

(** [syn::Field], [syn::Data] and [syn::DeriveInput]; an identifier as it is
    printed, a raw one with its prefix. *)
Record syn_field : Type := Field { ident : string; attrs : list meta; field_ty : column_type }.
#[export] Instance syn_field_eq_dec : EqDecision syn_field.
Proof. solve_decision. Defined.
Inductive syn_fields : Type := Named (fs : list syn_field) | Unnamed (n : nat) | UnitFields.
Inductive syn_data : Type := Struct (fs : syn_fields) | Enum | Union.
Record derive_input : Type := DeriveInput {
  input_ident : string;
  input_attrs : list meta;
  input_data : syn_data;
}.

(** A value of the structure: one value for each field, in order. *)
Fixpoint struct_value (fs : list syn_field) : Type :=
  match fs with [] => unit | f :: fs => (interp (field_ty f) * struct_value fs)%type end.

(** * The macros *)

(** The match on the input's data that each macro starts with. *)
Definition named_fields (trait_name : string) (d : syn_data) : outcome (list syn_field) :=
  match d with
  | Struct (Named fs) => Ret fs
  | Struct _ => Panic (trait_name +:+ " derive only supports named fields")
  | _ => Panic (trait_name +:+ " derive only supports structs")
  end.

(** [get_column_name]: the first list-style [column] attribute, or the
    identifier. *)
Fixpoint column_attr (l : list meta) : option string :=
  match l with
  | [] => None
  | MetaList p tokens :: l => if is_ident p "column" then Some (trim_quotes tokens) else column_attr l
  | _ :: l => column_attr l
  end.
Definition get_column_name (f : syn_field) : string := default (ident f) (column_attr (attrs f)).
Definition is_id (f : syn_field) : bool := existsb (fun a => is_ident (meta_path a) "id") (attrs f).

(** [trait Entity] for the structure: the id's type and its accessor. *)
Record entity_impl (fs : list syn_field) : Type := EntityImpl {
  Id : column_type;
  id : struct_value fs -> interp Id;
}.
Arguments EntityImpl {fs} _ _.
Arguments Id {fs} _.
Arguments id {fs} _ _.

(** The first field with an [id] attribute. *)
Fixpoint find_id (fs : list syn_field) : option (entity_impl fs) :=
  match fs as fs return option (entity_impl fs) with
  | [] => None
  | f :: fs =>
      if is_id f then Some (@EntityImpl (f :: fs) (field_ty f) (fun e => fst e))
      else e ← find_id fs; Some (@EntityImpl (f :: fs) (Id e) (fun x => id e (snd x)))
  end.
Definition derive_entity (i : derive_input) : outcome { fs : list syn_field & entity_impl fs } :=
  fs ← named_fields "Entity" (input_data i);
  match find_id fs with
  | Some e => Ret (existT fs e)
  | None => Panic "Entity requires exactly one field annotated with #[id]"
  end.

(** [FromRow::from_row] as generated: the fields' columns are read in the
    order of the declaration and the first error is returned. *)
Fixpoint from_row (fs : list syn_field) (row : db_row) : outcome (Result (struct_value fs)) :=
  match fs with
  | [] => Ret (Ok tt)
  | f :: fs =>
      x ← @get _ (from_ty (field_ty f)) (get_column_name f) row;
      match x with
      | Err e => Ret (Err e)
      | Ok x =>
          rest ← from_row fs row;
          Ret (match rest with Ok e => Ok (x, e) | Err e => Err e end)
      end
  end.
Definition derive_from_row (i : derive_input) :
    outcome { fs : list syn_field & db_row -> outcome (Result (struct_value fs)) } :=
  fs ← named_fields "FromRow" (input_data i); Ret (existT fs (from_row fs)).

(** The first [table] attribute in list style. *)
Fixpoint table_attr (l : list meta) : option string :=
  match l with
  | [] => None
  | MetaList p tokens :: l => if is_ident p "table" then Some (trim_quotes tokens) else table_attr l
  | _ :: l => table_attr l
  end.
Definition non_id_fields (fs : list syn_field) : list syn_field := filter (fun f => is_id f = false) fs.
Definition column_names (fs : list syn_field) : list string := map get_column_name (non_id_fields fs).
Definition id_column (fs : list syn_field) : string :=
  match List.find is_id fs with Some f => get_column_name f | None => "id" end.
(** [ToRow::to_params] as generated. *)
Fixpoint to_params (fs : list syn_field) : struct_value fs -> list (string * db_value) :=
  match fs with
  | [] => fun _ => []
  | f :: fs => fun e =>
      (if is_id f then [] else [(get_column_name f, into_ty (field_ty f) (fst e))]) ++ to_params fs (snd e)
  end.

(** [trait ToRow] for the structure. *)
Record to_row_impl (fs : list syn_field) : Type := ToRowImpl {
  row_table_name : string;
  row_columns : list string;
  row_id_column : string;
  row_to_params : struct_value fs -> list (string * db_value);
}.
Arguments ToRowImpl {fs} _ _ _ _.
Arguments row_table_name {fs} _.
Arguments row_columns {fs} _.
Arguments row_id_column {fs} _.
Arguments row_to_params {fs} _ _.
Definition derive_to_row (i : derive_input) : outcome { fs : list syn_field & to_row_impl fs } :=
  match table_attr (input_attrs i) with
  | None => Panic ("ToRow requires #[table(" +:+ quoted "table_name" +:+ ")] attribute on the struct")
  | Some table_name =>
      fs ← named_fields "ToRow" (input_data i);
      Ret (existT fs (ToRowImpl table_name (column_names fs) (id_column fs) (to_params fs)))
  end.

(** * What the generated implementations promise *)

(** The columns of a declaration, those of the [id] fields included, and the
    values a structure keeps in them. *)
Definition all_columns (fs : list syn_field) : list string := map get_column_name fs.
Fixpoint all_params (fs : list syn_field) : struct_value fs -> list (string * db_value) :=
  match fs with
  | [] => fun _ => []
  | f :: fs => fun e => (get_column_name f, into_ty (field_ty f) (fst e)) :: all_params fs (snd e)
  end.

Fixpoint id_params (fs : list syn_field) : struct_value fs -> list (string * db_value) :=
  match fs with
  | [] => fun _ => []
  | f :: fs => fun e =>
      (if is_id f then [(get_column_name f, into_ty (field_ty f) (fst e))] else []) ++ id_params fs (snd e)
  end.

(** The values that a column of the type can hold: 32-bit integers are in
    range, and a present value is not itself stored as a null. *)
Fixpoint storable_ty (t : column_type) : interp t -> Prop :=
  match t with
  | TI32 => fun n => in_i32 (i32_value n)
  | TOption t => fun o => match o with Some x => into_ty t x <> Null /\ storable_ty t x | None => True end
  | _ => fun _ => True
  end.
Fixpoint storable (fs : list syn_field) : struct_value fs -> Prop :=
  match fs with
  | [] => fun _ => True
  | f :: fs => fun e => storable_ty (field_ty f) (fst e) /\ storable fs (snd e)
  end.

(** A database row from its columns and values. *)
Definition row_of (ps : list (string * db_value)) : db_row := DbRow ps.*1 ps.*2.

Lemma from_into_ty t x : storable_ty t x -> from_ty t (into_ty t x) = Ok x.
Proof.
  induction t as [| | | | | |t IH]; intros H; try done; [apply (from_into (T := i32)); exact H|by destruct x|].
  destruct x as [x|]; [|done]. destruct H as [Hn Hx]. simpl. unfold option_from, option_into, into_db_value, from_db_value.
  assert (is_null (into_ty t x) = false) as -> by by destruct (into_ty t x).
  by rewrite IH.
Qed.

Lemma find_column (ps : list (string * db_value)) c v : NoDup ps.*1 -> (c, v) ∈ ps ->
  exists i, list_find (fun x => x = c) ps.*1 = Some (i, c) /\ ps.*2 !! i = Some v.
Proof.
  intros Hnd [i Hi]%list_elem_of_lookup_1. exists i. split; [|by rewrite list_lookup_fmap, Hi].
  apply list_find_Some. rewrite list_lookup_fmap, Hi. split; [done|]. split; [done|].
  intros j y Hj Hlt ->. assert (j = i); [|lia].
  eapply (NoDup_lookup ps.*1); [done|exact Hj|]. by rewrite list_lookup_fmap, Hi.
Qed.
Lemma get_column {T} `{FromDbValue T} (ps : list (string * db_value)) c v : NoDup ps.*1 -> (c, v) ∈ ps ->
  get c (row_of ps) = Ret (from_db_value v).
Proof. intros Hnd (i & Hf & Hv)%find_column; [|done]. unfold get, row_of. simpl. by rewrite Hf, Hv. Qed.

Lemma from_row_ok fs e ps : NoDup ps.*1 -> all_params fs e ⊆ ps -> storable fs e ->
  from_row fs (row_of ps) = Ret (Ok e).
Proof.
  intros Hnd. induction fs as [|f fs IH]; intros Hsub Hst; [by destruct e|].
  destruct e as [x e]. simpl in *. destruct Hst as [Hx He].
  rewrite (get_column ps _ (into_ty (field_ty f) x)); [|done|apply Hsub; left].
  simpl. unfold from_db_value. rewrite from_into_ty by done. rewrite (IH e); [done| |done].
  intros p Hp. apply Hsub. by right.
Qed.

Lemma all_params_split fs e p : p ∈ all_params fs e <-> p ∈ id_params fs e ++ to_params fs e.
Proof.
  induction fs as [|f fs IH]; [done|]. destruct e as [x e]. simpl. rewrite elem_of_cons, IH, !elem_of_app.
  destruct (is_id f); rewrite ?list_elem_of_singleton; set_solver.
Qed.
Lemma from_row_split fs e ps : NoDup ps.*1 -> id_params fs e ++ to_params fs e ⊆ ps ->
  storable fs e -> from_row fs (row_of ps) = Ret (Ok e).
Proof.
  intros Hnd Hsub Hst. apply from_row_ok; [done| |done].
  intros p Hp. by apply Hsub, all_params_split.
Qed.
Lemma to_params_columns fs e : (to_params fs e).*1 = column_names fs.
Proof.
  induction fs as [|f fs IH]; [done|]. unfold column_names, non_id_fields. simpl.
  rewrite fmap_app, IH. destruct (is_id f) eqn:Hf; simpl.
  - by rewrite filter_cons_False by congruence.
  - by rewrite filter_cons_True by done.
Qed.

(** C18: the mapping generated by the macros loses nothing: a structure is read
    back by [from_row], exactly as it was, from every row that holds its
    [to_params] and the columns of its [id] fields - renamed columns and
    nullable ones included, in whatever order and with whatever other columns
    the table has. *)
Theorem derived_roundtrip (fs : list syn_field) (e : struct_value fs) (ps : list (string * db_value)) :
  NoDup ps.*1 -> id_params fs e ++ to_params fs e ⊆ ps -> storable fs e ->
  from_row fs (row_of ps) = Ret (Ok e).
Proof. apply from_row_split. Qed.

(** ** What the statements are built from *)

Lemma find_id_none fs : find_id fs = None <-> Forall (fun f => is_id f = false) fs.
Proof.
  induction fs as [|f fs IH]; [done|]. simpl. destruct (is_id f) eqn:Hf.
  - split; [done|]. intros H. apply Forall_cons in H as [H _]. congruence.
  - rewrite Forall_cons, <- IH. destruct (find_id fs); naive_solver.
Qed.
Lemma column_names_elem fs c :
  c ∈ column_names fs <-> exists f, f ∈ fs /\ is_id f = false /\ get_column_name f = c.
Proof.
  unfold column_names, non_id_fields. rewrite list_elem_of_In, List.in_map_iff.
  setoid_rewrite <- list_elem_of_In. setoid_rewrite list_elem_of_filter. naive_solver.
Qed.
Lemma columns_distinct fs f g : NoDup (all_columns fs) -> f ∈ fs -> g ∈ fs ->
  get_column_name f = get_column_name g -> f = g.
Proof.
  intros Hnd [i Hi]%list_elem_of_lookup_1 [j Hj]%list_elem_of_lookup_1 E.
  assert (i = j) as ->; [|congruence].
  eapply (NoDup_lookup (all_columns fs)); [done|..]; unfold all_columns; rewrite list_lookup_fmap;
    [by rewrite Hi|by rewrite Hj, E].
Qed.

Lemma find_id_some fs : is_Some (find_id fs) <-> Exists (fun f => is_id f = true) fs.
Proof.
  induction fs as [|f fs IH]; simpl.
  - split; [by intros [? ?]|by intros ?%Exists_nil].
  - rewrite Exists_cons, <- IH. destruct (is_id f); [naive_solver|]. destruct (find_id fs); naive_solver.
Qed.

Lemma macros_accept_entity i :
  (exists r, derive_entity i = Ret r) <->
    exists fs, input_data i = Struct (Named fs) /\ Exists (fun f => is_id f = true) fs.
Proof.
  unfold derive_entity. destruct (input_data i) as [[fs| |]| |]; simpl; try naive_solver.
  transitivity (is_Some (find_id fs)); [destruct (find_id fs); naive_solver|].
  rewrite find_id_some. naive_solver.
Qed.

(** Which declarations the macros accept: [ToRow] wants a structure with
    named fields and a list-style [table] attribute, [Entity] one with named
    fields of which one - or more - is marked with [id], and [FromRow] only
    the named fields; everything else stops the compilation with a message. *)
Theorem macros_accept (i : derive_input) :
  ((exists r, derive_to_row i = Ret r) <->
     (exists fs, input_data i = Struct (Named fs)) /\ is_Some (table_attr (input_attrs i))) /\
  ((exists r, derive_entity i = Ret r) <->
     exists fs, input_data i = Struct (Named fs) /\ Exists (fun f => is_id f = true) fs) /\
  ((exists r, derive_from_row i = Ret r) <-> exists fs, input_data i = Struct (Named fs)).
Proof.
  split; [|split; [apply macros_accept_entity|]].
  - unfold derive_to_row.
    destruct (table_attr (input_attrs i)), (input_data i) as [[]| |]; simpl; naive_solver.
  - unfold derive_from_row. destruct (input_data i) as [[]| |]; simpl; naive_solver.
Qed.

(** The two halves of [ToRow] agree: for every value of the structure the
    columns of [to_params] are those of [columns()], in the same order, and
    none of them is the id's column when the declaration's columns are
    distinct, so that neither an insert nor an update writes the primary
    key. *)
Theorem params_match_columns (fs : list syn_field) (e : struct_value fs) :
  (to_params fs e).*1 = column_names fs /\
  (NoDup (all_columns fs) -> Exists (fun f => is_id f = true) fs -> id_column fs ∉ column_names fs).
Proof.
  split; [apply to_params_columns|]. intros Hnd Hx (f & Hf & Hi & E)%column_names_elem.
  unfold id_column in E. apply Exists_exists in Hx as (g & Hg & Hgi).
  destruct (List.find is_id fs) as [h|] eqn:Hfind.
  - apply List.find_some in Hfind as [Hh Hhi]. apply list_elem_of_In in Hh.
    assert (f = h) as -> by by eapply columns_distinct. congruence.
  - apply list_elem_of_In in Hg. pose proof (List.find_none _ _ Hfind _ Hg). congruence.
Qed.

(** Of several fields marked with [id], which the macros accept although
    they ask for exactly one, only the first is the id: every other one is
    left out of [columns()] and of [to_params] all the same, so that its value
    never reaches the database. *)
Theorem second_id_never_written (name : string) (l : list meta) (fs : list syn_field) (f : syn_field) :
  NoDup (all_columns fs) -> f ∈ fs -> is_id f = true -> List.find is_id fs <> Some f ->
  (exists r, derive_entity (DeriveInput name l (Struct (Named fs))) = Ret r) /\
  get_column_name f <> id_column fs /\
  (get_column_name f ∉ column_names fs) /\
  forall e, get_column_name f ∉ (to_params fs e).*1.
Proof.
  intros Hnd Hf Hi Hne.
  assert (get_column_name f ∉ column_names fs) as Hc.
  { intros (g & Hg & Hgi & E)%column_names_elem.
    assert (f = g) as -> by by eapply columns_distinct. congruence. }
  split; [|split; [|split; [done|intros e; by rewrite to_params_columns]]].
  - apply macros_accept_entity. exists fs. split; [done|]. apply Exists_exists. eauto.
  - unfold id_column. destruct (List.find is_id fs) as [h|] eqn:Hfind.
    + apply List.find_some in Hfind as [Hh _]. apply list_elem_of_In in Hh. intros E.
      apply Hne. f_equal. symmetry. by eapply columns_distinct.
    + apply list_elem_of_In in Hf. pose proof (List.find_none _ _ Hfind _ Hf). congruence.
Qed.

(** * The mapping under the generic repository *)
Module Mapped.
Section mapped.
Context {W : Type} (fs : list syn_field) (table : string).
Variable executor : M W (Result unit).
Variable exec_query_one : string -> list db_value -> M W (Result (option db_row)).

(** What the database promises of a table with an id and the columns of
    [columns()]: an [INSERT ... RETURNING *] of them stores and returns a row
    that holds the values and an id of the database's choice, and a
    [SELECT *] by that id returns the row, with or without further columns. *)
Record table_law (rows : W -> Z -> option (list (string * db_value))) : Prop := {
  connect_law w : executor w = Ret (Ok tt, w);
  insert_law w vals : length vals = length (column_names fs) -> exists n r w',
    exec_query_one (GenericRepository.insert_sql table (zip (column_names fs) vals)) vals w =
      Ret (Ok (Some (row_of r)), w') /\
    rows w' n = Some r /\ NoDup r.*1 /\ (id_column fs, Int n) :: zip (column_names fs) vals ⊆ r;
  select_law w n r : rows w n = Some r ->
    exec_query_one (GenericRepository.by_id_sql table (id_column fs) "SELECT *" "") [Int n] w =
      Ret (Ok (Some (row_of r)), w);
}.

(** The structure with another id. *)
Fixpoint with_id (n : Z) (l : list syn_field) : struct_value l -> struct_value l :=
  match l with
  | [] => fun e => e
  | f :: l => fun e =>
      ((if is_id f
        then match field_ty f as t return interp t -> interp t with TI64 => fun _ => I64 n | _ => fun x => x end
        else fun x => x) (fst e), with_id n l (snd e))
  end.

(** Exactly one [id], of the type the generic repository asks for. *)
Definition single_id : Prop :=
  exists pre f post, fs = pre ++ f :: post /\ is_id f = true /\ field_ty f = TI64 /\
    Forall (fun g => is_id g = false) (pre ++ post).
End mapped.
Arguments table_law {W} fs table executor exec_query_one rows.

Lemma single_id_fields fs f : single_id fs -> f ∈ fs -> is_id f = true ->
  field_ty f = TI64 /\ get_column_name f = id_column fs.
Proof.
  intros (pre & g & post & -> & Hg & Ht & Hall) Hf Hi.
  assert (f = g) as ->.
  { rewrite elem_of_app, elem_of_cons in Hf. rewrite Forall_forall in Hall.
    destruct (decide (f = g)) as [|Hne]; [done|]. exfalso.
    assert (is_id f = false); [|congruence]. apply Hall, elem_of_app. tauto. }
  split; [done|]. unfold id_column. clear Hf. apply Forall_app in Hall as [Hall _].
  induction Hall as [|h pre Hh _ IH]; simpl; [by rewrite Hg|by rewrite Hh].
Qed.
Lemma with_id_params n fs e : to_params fs (with_id n fs e) = to_params fs e.
Proof. induction fs as [|f fs IH]; [done|]. destruct e as [x e]. simpl. rewrite IH.
by destruct (is_id f). Qed.
Lemma with_id_ids n fs e p c :
  (forall f, f ∈ fs -> is_id f = true -> field_ty f = TI64 /\ get_column_name f = c) ->
  p ∈ id_params fs (with_id n fs e) -> p = (c, Int n).
Proof.
  induction fs as [|f fs IH]; intros Hall; simpl; [by intros ?%elem_of_nil|].
  rewrite elem_of_app. intros [Hp|Hp].
  - destruct (is_id f) eqn:Hi; [|by apply elem_of_nil in Hp]. apply list_elem_of_singleton in Hp as ->.
    destruct (Hall f (list_elem_of_here _ _) Hi) as [Ht <-]. destruct f as [i a t]. simpl in *. by subst t.
  - apply (IH (snd e)); [|done]. intros g Hg. apply Hall. by right.
Qed.
Lemma with_id_storable n fs e : storable fs e -> storable fs (with_id n fs e).
Proof.
  induction fs as [|f fs IH]; [done|]. simpl. intros [Hx He]. split; [|by apply IH].
  destruct f as [i a t]; simpl in *. destruct (is_id _); [|done]. by destruct t.
Qed.
Lemma with_id_entity n fs e : single_id fs -> exists E, find_id fs = Some E /\
  existT (Id E) (id E (with_id n fs e)) = existT TI64 (I64 n).
Proof.
  intros (pre & f & post & -> & Hf & Ht & Hall). apply Forall_app in Hall as [Hpre _].
  induction Hpre as [|g pre Hg _ IH]; simpl.
  - rewrite Hf. eexists. split; [done|]. simpl. destruct f as [i a t]. simpl in *. by subst t.
  - rewrite Hg. destruct (IH (snd e)) as (E & -> & HE). simpl. eexists. split; [done|]. exact HE.
Qed.

Lemma zip_params fs e : zip (column_names fs) (to_params fs e).*2 = to_params fs e.
Proof. rewrite <- (to_params_columns fs e). apply zip_fst_snd. Qed.

(** C15: a structure with derived [Entity], [FromRow] and [ToRow], one [id] of
    type [i64] and storable values survives its trip through the generic
    repository: against a table that keeps what is inserted under an id of
    its own choice, [create] returns the very structure with that id, and
    [find_by_id] of the id then finds it - whatever the columns are called
    and in whatever order the table returns them. *)
Theorem create_then_find {W : Type} (fs : list syn_field) (table : string)
    (executor : M W (Result unit))
    (exec_query_one : string -> list db_value -> M W (Result (option db_row)))
    (rows : W -> Z -> option (list (string * db_value))) (e : struct_value fs) (w : W) :
  table_law fs table executor exec_query_one rows -> single_id fs -> storable fs e ->
  exists n w',
    GenericRepository.create table (to_params fs) (from_row fs) executor exec_query_one e w =
      Ret (Ok (with_id n fs e), w') /\
    GenericRepository.find_by_id table (id_column fs) (from_row fs) executor exec_query_one n w' =
      Ret (Ok (Some (with_id n fs e)), w') /\
    exists E, find_id fs = Some E /\
      existT (Id E) (id E (with_id n fs e)) = existT TI64 (I64 n).
Proof.
  intros [Hconn Hins Hsel] Hid Hst.
  destruct (Hins w (to_params fs e).*2) as (n & r & w' & Hq & Hr & Hnd & Hsub).
  { by rewrite <- (to_params_columns fs e), !length_fmap. }
  rewrite zip_params in Hq, Hsub. exists n, w'.
  assert (from_row fs (row_of r) = Ret (Ok (with_id n fs e))) as Hrow.
  { apply from_row_split; [done| |by apply with_id_storable].
    intros p [Hp|Hp]%elem_of_app; apply Hsub.
    - rewrite (with_id_ids n fs e p (id_column fs)); [left| |done].
      intros f. by apply single_id_fields.
    - rewrite with_id_params in Hp. by right. }
  split; [|split; [|by apply with_id_entity]].
  - unfold GenericRepository.create, GenericRepository.try_then. simpl.
    unfold mbind, M_bind. rewrite Hconn. simpl. rewrite Hq. simpl.
    unfold GenericRepository.lift_row. by rewrite Hrow.
  - unfold GenericRepository.find_by_id, GenericRepository.try_then. simpl.
    unfold mbind, M_bind. rewrite Hconn. simpl. rewrite (Hsel _ _ _ Hr). simpl.
    unfold GenericRepository.lift_row. by rewrite Hrow.
Qed.
End Mapped.

(** * The declarations of the documentation *)
Module Users.
Definition literal (s : string) : string := quoted s.
(** [struct User { #[id] id: i64, name: String, #[column("created_at")] created: i64 }],
    with a nullable column added. *)
Definition user_fields : list syn_field := [
  Field "id" [MetaPath ["id"]] TI64;
  Field "name" [] TString;
  Field "created" [MetaList ["column"] (literal "created_at")] TI64;
  Field "email" [] (TOption TString)].
Definition user_input : derive_input :=
  DeriveInput "User" [MetaList ["table"] (literal "users")] (Struct (Named user_fields)).
Definition ada : struct_value user_fields := (I64 0, ("ada", (I64 1700000000, (None, tt)))).

Example user_derives :
  (exists E, derive_entity user_input = Ret (existT user_fields E) /\ Id E = TI64) /\
  derive_to_row user_input = Ret (existT user_fields
    (ToRowImpl "users" ["name"; "created_at"; "email"] "id" (to_params user_fields))) /\
  to_params user_fields ada = [("name", Text "ada"); ("created_at", Int 1700000000); ("email", Null)].
Proof. split; [by eexists|]. split; vm_compute; reflexivity. Qed.

(** A [column] attribute in another style than the list's is passed over, and
    a raw identifier keeps its prefix in the column's name. *)
Example other_styles :
  get_column_name (Field "created" [MetaNameValue ["column"] (literal "created_at")] TI64) = "created" /\
  get_column_name (Field "r#type" [] TString) = "r#type".
Proof. by split. Qed.

(** A table that numbers its rows from zero and returns the id first. *)
Definition rows (w : list (list db_value)) (n : Z) : option (list (string * db_value)) :=
  if n <? 0 then None
  else (fun vals => ("id", Int n) :: zip (column_names user_fields) vals) <$> w !! Z.to_nat n.
Definition insert_text : string :=
  GenericRepository.insert_sql "users" (map (fun c => (c, Null)) (column_names user_fields)).
Definition select_text : string := GenericRepository.by_id_sql "users" "id" "SELECT *" "".
Definition table (sql : string) (vals : list db_value) : M (list (list db_value)) (Result (option db_row)) :=
  fun w =>
    if String.eqb sql insert_text
    then Ret (Ok (row_of <$> rows (w ++ [vals]) (Z.of_nat (length w))), w ++ [vals])
    else if String.eqb sql select_text
    then match vals with [Int n] => Ret (Ok (row_of <$> rows w n), w) | _ => Ret (Ok None, w) end
    else Ret (fail StoreQueryFailed "unknown statement", w).
Definition connected : M (list (list db_value)) (Result unit) := fun w => Ret (Ok tt, w).

Lemma insert_text_eq vals : length vals = length (column_names user_fields) ->
  GenericRepository.insert_sql "users" (zip (column_names user_fields) vals) = insert_text.
Proof. by destruct vals as [|? [|? [|? [|]]]]. Qed.
Lemma table_lawful : Mapped.table_law user_fields "users" connected table rows.
Proof.
  split; [done| |].
  - intros w vals Hlen. rewrite insert_text_eq by done.
    exists (Z.of_nat (length w)), (("id", Int (Z.of_nat (length w))) :: zip (column_names user_fields) vals), (w ++ [vals]).
    assert (rows (w ++ [vals]) (Z.of_nat (length w)) =
      Some (("id", Int (Z.of_nat (length w))) :: zip (column_names user_fields) vals)) as Hr.
    { unfold rows. destruct (Z.ltb_spec (Z.of_nat (length w)) 0); [lia|].
      by rewrite Nat2Z.id, lookup_app_r, Nat.sub_diag by lia. }
    split; [|split; [done|split; [|done]]].
    + unfold table. by rewrite String.eqb_refl, Hr.
    + destruct vals as [|v1 [|v2 [|v3 [|]]]]; try done. vm_compute. repeat constructor; set_solver.
  - intros w n r Hr. change (table select_text [Int n] w = Ret (Ok (Some (row_of r)), w)).
    unfold table. change (String.eqb select_text insert_text) with false.
    change (String.eqb select_text select_text) with true. cbn iota. by rewrite Hr.
Qed.
Lemma user_single_id : Mapped.single_id user_fields.
Proof. eexists [], _, _. split; [reflexivity|]. split; [done|]. split; [done|]. repeat constructor. Qed.
Lemma ada_storable : storable user_fields ada.
Proof. done. Qed.
End Users.

Lemma derived_roundtrip_witness :
  let row := [("email", Null); ("id", Int 0); ("created_at", Int 1700000000); ("name", Text "ada")] in
  from_row Users.user_fields (row_of row) = Ret (Ok Users.ada).
Proof.
  intros row. refine (derived_roundtrip Users.user_fields Users.ada row _ _ Users.ada_storable).
  - vm_compute. repeat constructor; set_solver.
  - vm_compute. set_solver.
Defined.

Lemma params_match_columns_witness :
  id_column Users.user_fields ∉ column_names Users.user_fields.
Proof.
  apply (params_match_columns Users.user_fields Users.ada); [vm_compute; repeat constructor; set_solver|].
  by left.
Defined.

Lemma second_id_never_written_witness :
  let f := Field "tenant" [MetaPath ["id"]] TI64 in
  get_column_name f ∉ column_names (Users.user_fields ++ [f]).
Proof.
  intros f. refine (proj1 (proj2 (proj2 (second_id_never_written "User" [] (Users.user_fields ++ [f]) f _ _ _ _)))).
  - vm_compute. repeat constructor; set_solver.
  - apply elem_of_app. right. left.
  - reflexivity.
  - discriminate.
Defined.

Lemma create_then_find_witness :
  exists n w', GenericRepository.find_by_id "users" (id_column Users.user_fields)
    (from_row Users.user_fields) Users.connected Users.table n w' =
    Ret (Ok (Some (Mapped.with_id n Users.user_fields Users.ada)), w').
Proof.
  destruct (Mapped.create_then_find Users.user_fields "users" Users.connected Users.table Users.rows
    Users.ada [[Text "bob"; Int 1; Null]] Users.table_lawful Users.user_single_id Users.ada_storable)
    as (n & w' & _ & H & _).
  exists n, w'. exact H.
Defined.
