(* ===== verification/CodecImpls.v ===== *)
(** The built-in codecs and compressors
    ([rinfra-plugins/src/codec/{json,msgpack,protobuf}.rs],
    [rinfra-plugins/src/compress/{gzip,lz4}.rs]) and the registry of
    compressors ([rinfra-core/src/compress/mod.rs]). The libraries that read
    and write the formats are parameters; the conversion between JSON and
    protobuf values is the program's own. *)

From Stdlib Require Import SpecFloat Sorted.
From S2P Require Import Prelude Errors Registries Tcp Store.

(** * JSON values with their numbers

    [serde_json::Value]: a number is a [u64], a negative [i64] or a finite
    [f64]; an object is a [BTreeMap], its entries in the order of the keys. *)
Inductive number : Type := PosInt (n : Z) | NegInt (n : Z) | JFloat (f : spec_float).
Inductive value : Type :=
| VNull
| VBool (b : bool)
| VNumber (n : number)
| VString (s : string)
| VArray (vs : list value)
| VObject (es : list (string * value)).

Definition finite (f : spec_float) : bool :=
  match f with S754_zero _ | S754_finite _ _ _ => true | _ => false end.
(** [Number::as_f64], [Value::as_i64] and [Value::from(f64)] *)
Definition number_f64 (n : number) : spec_float :=
  match n with PosInt n | NegInt n => as_f64 n | JFloat f => f end.
Definition value_as_i64 (v : value) : option Z :=
  match v with
  | VNumber (PosInt n) => if n <=? i64_max then Some n else None
  | VNumber (NegInt n) => Some n
  | _ => None
  end.
Definition from_f64 (f : spec_float) : value := if finite f then VNumber (JFloat f) else VNull.

(** A [BTreeMap] as its entries, and [collect] into one. *)
Fixpoint btree_insert {A} (k : string) (v : A) (es : list (string * A)) : list (string * A) :=
  match es with
  | [] => [(k, v)]
  | (k', v') :: es' =>
      match String.compare k k' with
      | Eq => (k, v) :: es'
      | Lt => (k, v) :: es
      | Gt => (k', v') :: btree_insert k v es'
      end
  end.
Definition btree_collect {A} (es : list (string * A)) : list (string * A) :=
  fold_left (fun m kv => btree_insert (fst kv) (snd kv) m) es [].
Definition key_lt {A} (a b : string * A) : Prop := String.compare (fst a) (fst b) = Lt.
Definition btree {A} (es : list (string * A)) : Prop := StronglySorted key_lt es.

(** * Codecs *)

(** [trait Codec] *)
Record codec : Type := Codec {
  name : string;
  content_type : string;
  encode_value : value -> Result bytes;
  decode_value : bytes -> Result value;
}.
Definition wrap {A} (code : error_code) (what : string) (r : result string A) : Result A :=
  map_err (fun e => new_error code (what +:+ e)) r.
Definition text_codec (n ct : string) (write : value -> result string bytes)
    (read : bytes -> result string value) : codec :=
  Codec n ct
    (fun v => wrap CodecEncodeFailed (n +:+ " encode failed: ") (write v))
    (fun d => wrap CodecDecodeFailed (n +:+ " decode failed: ") (read d)).
(** [JsonCodec] and [MsgpackCodec] over their libraries *)
Definition JsonCodec (to_vec : value -> result string bytes) (from_slice : bytes -> result string value) : codec :=
  text_codec "json" "application/json" to_vec from_slice.
Definition MsgpackCodec (to_vec : value -> result string bytes) (from_slice : bytes -> result string value) : codec :=
  text_codec "msgpack" "application/msgpack" to_vec from_slice.

(** ** Protobuf: [prost_types::Value] *)
Inductive proto : Type :=
| ProtoValue (kind : option proto_kind)
with proto_kind : Type :=
| NullValue (n : Z)
| NumberValue (f : spec_float)
| StringValue (s : string)
| BoolValue (b : bool)
| StructValue (fields : list (string * proto))
| ListValue (values : list proto).

Fixpoint json_to_proto (v : value) : proto :=
  ProtoValue (Some
    match v with
    | VNull => NullValue 0
    | VBool b => BoolValue b
    | VNumber n => NumberValue (number_f64 n)
    | VString s => StringValue s
    | VArray vs => ListValue (map json_to_proto vs)
    | VObject es => StructValue (btree_collect (map (fun kv => (fst kv, json_to_proto (snd kv))) es))
    end).
Fixpoint proto_to_json (p : proto) : value :=
  match p with
  | ProtoValue k =>
      match k with
      | Some (NullValue _) => VNull
      | Some (BoolValue b) => VBool b
      | Some (NumberValue f) => from_f64 f
      | Some (StringValue s) => VString s
      | Some (ListValue vs) => VArray (map proto_to_json vs)
      | Some (StructValue es) => VObject (btree_collect (map (fun kv => (fst kv, proto_to_json (snd kv))) es))
      | None => VNull
      end
  end.
(** [ProtobufCodec] over prost's encoding of a message *)
Definition ProtobufCodec (encode_to_vec : proto -> bytes) (decode : bytes -> result string proto) : codec :=
  Codec "protobuf" "application/x-protobuf"
    (fun v => Ok (encode_to_vec (json_to_proto v)))
    (fun d => p ← wrap CodecDecodeFailed "protobuf decode failed: " (decode d); Ok (proto_to_json p)).

(** ** What a value becomes *)

(** The values that exist: integers in their ranges, finite floats, objects
    ordered by their keys. *)
Definition number_ok (n : number) : bool :=
  match n with
  | PosInt n => (0 <=? n) && (n <=? u64_max)
  | NegInt n => (i64_min <=? n) && (n <? 0)
  | JFloat f => finite f
  end.
Inductive value_ok : value -> Prop :=
| null_ok : value_ok VNull
| bool_ok b : value_ok (VBool b)
| num_ok n : number_ok n = true -> value_ok (VNumber n)
| string_ok s : value_ok (VString s)
| array_ok vs : Forall value_ok vs -> value_ok (VArray vs)
| object_ok es : btree es -> Forall (fun kv => value_ok (snd kv)) es -> value_ok (VObject es).

(** Every number as the [f64] nearest to it. *)
Fixpoint as_floats (v : value) : value :=
  match v with
  | VNumber n => VNumber (JFloat (number_f64 n))
  | VArray vs => VArray (map as_floats vs)
  | VObject es => VObject (map (fun kv => (fst kv, as_floats (snd kv))) es)
  | _ => v
  end.

(** Induction with the elements of arrays and the entries of objects. *)
Section value_induction.
Variable P : value -> Prop.
Hypothesis Hnull : P VNull.
Hypothesis Hbool : forall b, P (VBool b).
Hypothesis Hnum : forall n, number_ok n = true -> P (VNumber n).
Hypothesis Hstr : forall s, P (VString s).
Hypothesis Harr : forall vs, Forall P vs -> P (VArray vs).
Hypothesis Hobj : forall es, btree es -> Forall (fun kv => P (snd kv)) es -> P (VObject es).
Fixpoint value_ok_rect (v : value) (H : value_ok v) {struct H} : P v.
Proof using All.
  destruct H as [|b|n Hn|s|vs Hvs|es Hb Hes]; [apply Hnull|apply Hbool|by apply Hnum|apply Hstr|apply Harr|apply Hobj; [done|]].
  - induction Hvs as [|v vs Hv _ IH]; constructor; [by apply value_ok_rect|exact IH].
  - clear Hb. induction Hes as [|kv es Hv _ IH]; constructor; [by apply value_ok_rect|exact IH].
Qed.
End value_induction.

(** ** Ordered entries are kept as they are *)
Lemma btree_insert_last {A} k (v : A) es :
  Forall (fun kv => String.compare (fst kv) k = Lt) es -> btree_insert k v es = es ++ [(k, v)].
Proof.
  induction 1 as [|[k' v'] es Hk _ IH]; [done|]. simpl in *.
  rewrite String.compare_antisym, Hk. simpl. by rewrite IH.
Qed.
Lemma btree_collect_ordered {A} (es : list (string * A)) : btree es -> btree_collect es = es.
Proof.
  intros Hs. unfold btree_collect. change es with ([] ++ es) at 2.
  assert (Forall (fun kv => Forall (fun kv' => key_lt kv kv') es) ([] : list (string * A))) as Hall by constructor.
  revert Hall. generalize ([] : list (string * A)) as acc.
  induction Hs as [|[k v] es Hs IH Hlt]; intros acc Hacc; simpl; [by rewrite app_nil_r|].
  rewrite btree_insert_last.
  - rewrite IH; [by rewrite <- app_assoc|]. apply Forall_app. split; [|by repeat constructor].
    eapply Forall_impl; [exact Hacc|]. intros kv H. by apply Forall_cons in H as [_ H].
  - eapply Forall_impl; [exact Hacc|]. intros kv H. by apply Forall_cons in H as [H _].
Qed.
Lemma btree_map {A B} (f : A -> B) (es : list (string * A)) :
  btree es -> btree (map (fun kv => (fst kv, f (snd kv))) es).
Proof.
  induction 1 as [|kv es _ IH Hlt]; simpl; constructor; [exact IH|].
  apply Forall_map. eapply Forall_impl; [exact Hlt|]. done.
Qed.
Lemma btree_collect_map {A B} (f : A -> B) (es : list (string * A)) : btree es ->
  btree_collect (map (fun kv => (fst kv, f (snd kv))) es) = map (fun kv => (fst kv, f (snd kv))) es.
Proof. intros H. by apply btree_collect_ordered, btree_map. Qed.

(** ** Every 64-bit integer has a finite nearest float *)

Lemma shr_1_shrinks mrs : 0 <= shr_m mrs -> 0 <= shr_m (shr_1 mrs) <= shr_m mrs.
Proof.
  destruct mrs as [[|p|p] r s]; simpl; [lia| |lia].
  intros _. destruct p; simpl; lia.
Qed.
Lemma iter_shr_shrinks p mrs : 0 <= shr_m mrs -> 0 <= shr_m (SpecFloat.iter_pos shr_1 p mrs) <= shr_m mrs.
Proof.
  revert mrs. induction p as [p IH|p IH|]; intros mrs H; simpl; [| |by apply shr_1_shrinks].
  - pose proof (shr_1_shrinks _ H). destruct (IH (shr_1 mrs)); [lia|].
    destruct (IH (SpecFloat.iter_pos shr_1 p (shr_1 mrs))); lia.
  - destruct (IH mrs); [lia|]. destruct (IH (SpecFloat.iter_pos shr_1 p mrs)); lia.
Qed.
Lemma shr_record_m m l : shr_m (shr_record_of_loc m l) = m.
Proof. by destruct l as [|[]]. Qed.

Lemma digits2_pos_bound p : Z.pos (digits2_pos p) = Z.log2 (Z.pos p) + 1.
Proof.
  induction p as [p IH|p IH|]; [| |done]; simpl digits2_pos; rewrite Pos2Z.inj_succ, IH.
  - rewrite (Pos2Z.inj_xI p), Z.log2_succ_double by lia. lia.
  - rewrite (Pos2Z.inj_xO p), Z.log2_double by lia. lia.
Qed.
Lemma zdigits_bound m b : 0 <= b -> 0 <= m < 2 ^ b -> 0 <= Zdigits2 m <= b.
Proof.
  intros Hb Hm. destruct m as [|p|p]; simpl; [lia| |lia]. rewrite digits2_pos_bound.
  assert (Z.log2 (Z.pos p) < b) by (apply Z.log2_lt_pow2; lia). pose proof (Z.log2_nonneg (Z.pos p)). lia.
Qed.

(** Shifting right does not grow the mantissa, and the exponent becomes at
    most what the digits beyond the precision ask for. *)
Lemma shr_fexp_bound m e l : 0 <= m ->
  0 <= shr_m (fst (shr_fexp 53 1024 m e l)) <= m /\
  snd (shr_fexp 53 1024 m e l) <= Z.max e (fexp 53 1024 (Zdigits2 m + e)).
Proof.
  intros Hm. unfold shr_fexp. set (n := fexp _ _ _ - e).
  assert (0 <= shr_m (shr_record_of_loc m l)) as H0 by (by rewrite shr_record_m).
  destruct n as [|p|p] eqn:En; simpl; rewrite ?shr_record_m; [lia| |lia].
  pose proof (iter_shr_shrinks p _ H0). rewrite shr_record_m in *. lia.
Qed.
Lemma round_up_bound m l : 0 <= m -> 0 <= round_nearest_even m l <= m + 1.
Proof. intros H. destruct l as [|[]]; simpl; [lia| |lia|lia]. destruct (Z.even m); lia. Qed.

Lemma round_aux_finite s m e l : 0 <= m < 2 ^ 118 -> e <= 0 ->
  finite (binary_round_aux 53 1024 s m e l) = true.
Proof.
  intros Hm He. unfold binary_round_aux.
  pose proof (shr_fexp_bound m e l ltac:(lia)) as [H1 H2]. destruct (shr_fexp 53 1024 m e l) as [r1 e1]. simpl in *.
  set (m2 := round_nearest_even _ _).
  assert (0 <= m2 <= 2 ^ 118) as Hm2.
  { pose proof (round_up_bound (shr_m r1) (loc_of_shr_record r1) ltac:(lia)). unfold m2. lia. }
  pose proof (shr_fexp_bound m2 e1 loc_Exact ltac:(lia)) as [H3 H4].
  destruct (shr_fexp 53 1024 m2 e1 loc_Exact) as [r2 e2]. simpl in *.
  pose proof (zdigits_bound m 118 ltac:(lia) Hm). pose proof (zdigits_bound m2 119 ltac:(lia) ltac:(lia)).
  unfold fexp, emin in *. destruct (shr_m r2) as [|p|p] eqn:E; [done| |lia].
  replace (Z.leb e2 (1024 - 53)) with true; [done|]. symmetry. apply Z.leb_le. lia.
Qed.
Lemma round_finite s p : Z.pos p <= 2 ^ 64 -> finite (binary_round 53 1024 s p 0) = true.
Proof.
  intros Hp. unfold binary_round, shl_align. rewrite digits2_pos_bound, Z.add_0_r, Z.sub_0_r.
  assert (0 <= Z.log2 (Z.pos p) <= 64) as Hl.
  { split; [apply Z.log2_nonneg|]. by rewrite <- (Z.log2_pow2 64) by lia; apply Z.log2_le_mono. }
  destruct (fexp 53 1024 (Z.log2 (Z.pos p) + 1)) as [|d|d] eqn:Ed; [by apply round_aux_finite; lia..|].
  apply round_aux_finite; [|lia]. split; [lia|].
  assert (Z.pos d <= 53) as Hd by (unfold fexp, emin in Ed; lia).
  change (Pos.iter xO p d) with (shift_pos d p). rewrite Zpower.shift_pos_correct, <- Z.pow_pos_fold.
  assert (2 ^ Z.pos d <= 2 ^ 53) by (apply Z.pow_le_mono_r; lia). nia.
Qed.
Lemma as_f64_finite n : i64_min <= n <= u64_max -> finite (as_f64 n) = true.
Proof.
  unfold i64_min, u64_max, as_f64, binary_normalize. intros H.
  destruct n as [|p|p]; [done|apply round_finite; lia..].
Qed.

(** ** The protobuf codec *)

Lemma number_f64_finite n : number_ok n = true -> finite (number_f64 n) = true.
Proof.
  destruct n as [n|n|f]; simpl; [| |done].
  - intros [?%Z.leb_le ?%Z.leb_le]%andb_true_iff. apply as_f64_finite. unfold i64_min. lia.
  - intros [?%Z.leb_le ?%Z.ltb_lt]%andb_true_iff. apply as_f64_finite. unfold u64_max. lia.
Qed.
Lemma through_proto v : value_ok v -> proto_to_json (json_to_proto v) = as_floats v.
Proof.
  intros H. induction H as [|b|n Hn|s|vs Hvs|es Hb Hes] using value_ok_rect; simpl; try done.
  - unfold from_f64. by rewrite number_f64_finite.
  - f_equal. rewrite map_map. induction Hvs as [|v vs Hv _ IH]; simpl; [done|by rewrite Hv, IH].
  - rewrite (btree_collect_map json_to_proto es) by done.
    assert (map (fun kv => (kv.1, proto_to_json kv.2)) (map (fun kv => (kv.1, json_to_proto kv.2)) es) =
      map (fun kv => (kv.1, as_floats kv.2)) es) as E.
    { rewrite map_map. clear Hb. induction Hes as [|[k v] es Hv _ IH]; simpl in *; [done|by rewrite Hv, IH]. }
    rewrite E. by rewrite btree_collect_map.
Qed.
Lemma as_floats_ok v : value_ok v -> value_ok (as_floats v).
Proof.
  intros H. induction H as [|b|n Hn|s|vs Hvs|es Hb Hes] using value_ok_rect; simpl; constructor; try done.
  - by apply number_f64_finite.
  - by apply Forall_map.
  - by apply btree_map.
  - apply Forall_map. eapply Forall_impl; [exact Hes|]. done.
Qed.
Lemma as_floats_idemp v : value_ok v -> as_floats (as_floats v) = as_floats v.
Proof.
  intros H. induction H as [|b|n Hn|s|vs Hvs|es Hb Hes] using value_ok_rect; simpl; try done.
  - f_equal. rewrite map_map. induction Hvs as [|v vs Hv _ IH]; simpl; [done|by rewrite Hv, IH].
  - f_equal. rewrite map_map. clear Hb.
    induction Hes as [|[k v] es Hv _ IH]; simpl in *; [done|by rewrite Hv, IH].
Qed.

(** C22: the protobuf codec is faithful up to numbers: if prost reads back the
    message it wrote, decoding an encoded value gives the value with every
    number replaced by the [f64] nearest to it - every other part of it, the
    order of its keys and the nesting included, is as it was; and a value
    that went through once goes through again unchanged. *)
Theorem protobuf_roundtrip (write : proto -> bytes) (read : bytes -> result string proto) (v : value) :
  value_ok v -> read (write (json_to_proto v)) = Ok (json_to_proto v) ->
  (d ← encode_value (ProtobufCodec write read) v; decode_value (ProtobufCodec write read) d) =
    Ok (as_floats v) /\
  value_ok (as_floats v) /\ proto_to_json (json_to_proto (as_floats v)) = as_floats v.
Proof.
  intros Hv Hw. split; [|split; [by apply as_floats_ok|]].
  - simpl. rewrite Hw. simpl. by rewrite through_proto.
  - rewrite through_proto by by apply as_floats_ok. by apply as_floats_idemp.
Qed.

(** Integers do not survive the protobuf codec: whatever the message
    library does, a decoded number is never an integer again - reading it
    with [as_i64] finds nothing, although the value that was encoded had
    one - and integers that round to the same [f64] are encoded to the same
    bytes. *)
Theorem protobuf_loses_integers (write : proto -> bytes) (read : bytes -> result string proto) :
  (forall d v, decode_value (ProtobufCodec write read) d = Ok v -> value_as_i64 v = None) /\
  (forall m n, as_f64 m = as_f64 n ->
     encode_value (ProtobufCodec write read) (VNumber (PosInt m)) =
     encode_value (ProtobufCodec write read) (VNumber (PosInt n))) /\
  as_f64 9007199254740993 = as_f64 9007199254740992.
Proof.
  split; [|split; [|vm_compute; reflexivity]].
  - intros d v. simpl. destruct (read d) as [[k]|e]; simpl; [|done]. intros [= <-].
    destruct k as [[]|]; simpl; try done. unfold from_f64. by destruct (finite f).
  - intros m n E. simpl. by rewrite E.
Qed.

(** ** The codec registry with the built-in codecs *)
Section builtin.
Variable json_to_vec msgpack_to_vec : value -> result string bytes.
Variable json_from_slice msgpack_from_slice : bytes -> result string value.
Variable proto_write : proto -> bytes.
Variable proto_read : bytes -> result string proto.

(** The codecs of the three codec plugins, in the order of the plugins. *)
Definition builtin_codecs : list codec := [
  JsonCodec json_to_vec json_from_slice;
  MsgpackCodec msgpack_to_vec msgpack_from_slice;
  ProtobufCodec proto_write proto_read].
Definition registry : Codecs.codec_registry :=
  Codecs.register_codecs name content_type builtin_codecs.

(** The libraries read back what they write of a value. *)
Definition reads_back (v : value) : Prop :=
  (forall d, json_to_vec v = Ok d -> json_from_slice d = Ok v) /\
  (forall d, msgpack_to_vec v = Ok d -> msgpack_from_slice d = Ok v) /\
  proto_read (proto_write (json_to_proto v)) = Ok (json_to_proto v).

Lemma registry_lookup n c : Codecs.get_by_name n registry = Ret (Some c) ->
  c ∈ builtin_codecs /\ n = name c /\ Codecs.get_by_content_type (content_type c) registry = Ret (Some c).
Proof.
  intros Hn. pose proof (Codecs.register_codecs_indexed name content_type builtin_codecs) as (_ & Hi & Hct).
  fold registry in Hi, Hct. unfold Codecs.get_by_name in Hn.
  destruct (Codecs.name_index registry !! n) as [i|] eqn:Ei; [|done]. apply Hi in Ei.
  rewrite Hct. change (Codecs.codecs registry) with builtin_codecs in *.
  change (Codecs.list_names name registry) with ["json"; "msgpack"; "protobuf"] in Ei.
  unfold Codecs.index in Hn. change (Codecs.codecs registry) with builtin_codecs in Hn.
  destruct i as [|[|[|i]]]; simpl in *; [| | |done];
    injection Ei as <-; injection Hn as <-; (split; [set_solver|split; reflexivity]).
Qed.
Lemma map_err_ok {E F A} (f : E -> F) (r : result E A) a : map_err f r = Ok a <-> r = Ok a.
Proof. destruct r; simpl; split; congruence. Qed.

(** A value encoded by the codec of a name is decoded by the codec of its
    content type, for every built-in codec: the two lookups find the same
    codec, and what it decodes is the value itself, or for protobuf the value
    with its numbers as floats. *)
Theorem negotiated_roundtrip (n : string) (c : codec) (v : value) (d : bytes) :
  reads_back v -> value_ok v ->
  Codecs.get_by_name n registry = Ret (Some c) -> encode_value c v = Ok d ->
  exists c' v', Codecs.get_by_content_type (content_type c) registry = Ret (Some c') /\
    decode_value c' d = Ok v' /\ as_floats v' = as_floats v /\ (n <> "protobuf" -> v' = v).
Proof.
  intros (json_law & msgpack_law & proto_law) Hv (Hc & -> & Hct)%registry_lookup He. exists c.
  unfold builtin_codecs in Hc. rewrite !elem_of_cons in Hc. destruct Hc as [Hc|[Hc|[Hc|[]%elem_of_nil]]]; subst c; simpl in *.
  - apply map_err_ok in He. exists v. rewrite (json_law _ He). done.
  - apply map_err_ok in He. exists v. rewrite (msgpack_law _ He). done.
  - injection He as <-. exists (as_floats v). rewrite proto_law. simpl.
    rewrite through_proto by done. split; [done|]. split; [done|]. by rewrite as_floats_idemp.
Qed.
End builtin.

(** * Compressors *)

(** [GzipCompressor]: the encoder is written to and finished, the decoder
    read to its end. *)
Definition GzipCompressor {W : Type} (write_all : bytes -> result string W)
    (finish : W -> result string bytes) (read_to_end : bytes -> result string bytes) : compressor :=
  Compressor "gzip"
    (fun data =>
       w ← wrap Internal "gzip compress failed: " (write_all data);
       wrap Internal "gzip compress finish failed: " (finish w))
    (fun data => wrap Internal "gzip decompress failed: " (read_to_end data)).
(** [Lz4Compressor] *)
Definition Lz4Compressor (compress_prepend_size : bytes -> bytes)
    (decompress_size_prepended : bytes -> result string bytes) : compressor :=
  Compressor "lz4"
    (fun data => Ok (compress_prepend_size data))
    (fun data => wrap Internal "lz4 decompress failed: " (decompress_size_prepended data)).

(** [CompressorRegistry]: [register], [get] and [names] *)
Definition compressor_registry : Type := gmap string compressor.
Definition new : compressor_registry := ∅.
Definition register : compressor -> compressor_registry -> Result unit * compressor_registry :=
  register_named compressor_name (fun n => "compressor '" +:+ n +:+ "' already registered").
Definition get (n : string) (r : compressor_registry) : option compressor := r !! n.
Definition names (r : compressor_registry) : list string := (map_to_list r).*1.
Definition register_compressors (cs : list compressor) : compressor_registry :=
  fold_left (fun r c => snd (register c r)) cs new.

(** The laws of the libraries: what is written and finished is read back. *)
Lemma gzip_invertible {W} write_all finish read_to_end :
  (forall data (w : W) d, write_all data = Ok w -> finish w = Ok d -> read_to_end d = Ok data) ->
  Invertible (compressor_transform (GzipCompressor write_all finish read_to_end)).
Proof.
  intros Hlaw data d. simpl. destruct (write_all data) as [w|] eqn:Ew; simpl; [|done].
  intros Hf%map_err_ok. by rewrite (Hlaw _ _ _ Ew Hf).
Qed.
Lemma lz4_invertible compress_prepend_size decompress_size_prepended :
  (forall data, decompress_size_prepended (compress_prepend_size data) = Ok data) ->
  Invertible (compressor_transform (Lz4Compressor compress_prepend_size decompress_size_prepended)).
Proof. intros Hlaw data d. simpl. intros [= <-]. by rewrite Hlaw. Qed.

Lemma get_registered cs n :
  get n (register_compressors cs) = snd <$> list_find (fun x => compressor_name x = n) cs.
Proof. exact (register_all_lookup compressor_name _ cs ∅ n). Qed.
Lemma register_named_taken {A} (nm : A -> string) dup (x : A) (m : gmap string A) y :
  m !! nm x = Some y -> register_named nm dup x m = (fail PluginAlreadyRegistered (dup (nm x)), m).
Proof. unfold register_named. by intros ->. Qed.
Lemma register_named_free {A} (nm : A -> string) dup (x : A) (m : gmap string A) :
  m !! nm x = None ->
  fst (register_named nm dup x m) = Ok tt /\ snd (register_named nm dup x m) !! nm x = Some x.
Proof. unfold register_named. intros ->. simpl. by rewrite lookup_insert_eq. Qed.

(** The registry of compressors keeps the first compressor of each name,
    and refuses another one with [PluginAlreadyRegistered] and no change. *)
Theorem compressors_first_wins (cs : list compressor) (c : compressor) (n : string) :
  let r := register_compressors cs in
  get n r = snd <$> list_find (fun x => compressor_name x = n) cs /\
  (is_Some (get (compressor_name c) r) ->
     register c r = (fail PluginAlreadyRegistered
       ("compressor '" +:+ compressor_name c +:+ "' already registered"), r)) /\
  (get (compressor_name c) r = None ->
     fst (register c r) = Ok tt /\ get (compressor_name c) (snd (register c r)) = Some c).
Proof.
  intros r. split; [|split].
  - apply get_registered.
  - intros [x E]. exact (register_named_taken _ _ c r x E).
  - intros E. exact (register_named_free _ _ c r E).
Qed.

(** Whatever pipeline is put together from the built-in compressors - any
    number of them, in any order, the same one twice - a frame that was sent
    through it is received as it was, given that the two libraries read back
    what they write. *)
Theorem compressed_pipeline {W : Type} write_all finish read_to_end compress_prepend_size
    decompress_size_prepended (pipeline : list string) (ts : list compressor) (data sent : bytes) :
  (forall x (w : W) d, write_all x = Ok w -> finish w = Ok d -> read_to_end d = Ok x) ->
  (forall x, decompress_size_prepended (compress_prepend_size x) = Ok x) ->
  let r := register_compressors [Lz4Compressor compress_prepend_size decompress_size_prepended;
                                 GzipCompressor write_all finish read_to_end] in
  mapM (fun n => get n r) pipeline = Some ts ->
  encode_pipeline (map compressor_transform ts) data = Ok sent ->
  decode_pipeline (map compressor_transform ts) sent = Ok data.
Proof.
  intros Hgz Hlz r Hts. apply pipeline_inverse. apply mapM_Some in Hts. apply Forall_map.
  induction Hts as [|n t ns ts Ht _ IH]; constructor; [|done].
  unfold r in Ht. rewrite get_registered in Ht. simpl in Ht.
  destruct (decide ("lz4" = n)); simpl in Ht; [injection Ht as <-; by apply lz4_invertible|].
  destruct (decide ("gzip" = n)); simpl in Ht; [injection Ht as <-; by apply gzip_invertible|done].
Qed.

(** * The theorems on an example *)
Definition sample : value :=
  VObject [("id", VNumber (PosInt 9007199254740993)); ("tags", VArray [VString "a"; VNull])].
Lemma sample_ok : value_ok sample.
Proof.
  constructor.
  - repeat constructor.
  - repeat constructor.
Qed.
(** Libraries that know one message. *)
Definition write_sample (v : value) : result string bytes := Ok [].
Definition read_sample (d : bytes) : result string value := Ok sample.
Definition write_message (p : proto) : bytes := [].
Definition read_message (d : bytes) : result string proto := Ok (json_to_proto sample).

Lemma protobuf_roundtrip_witness :
  (d ← encode_value (ProtobufCodec write_message read_message) sample;
   decode_value (ProtobufCodec write_message read_message) d) =
  Ok (VObject [("id", VNumber (JFloat (as_f64 9007199254740992))); ("tags", VArray [VString "a"; VNull])]).
Proof.
  refine (eq_trans (proj1 (protobuf_roundtrip write_message read_message sample sample_ok eq_refl)) _).
  vm_compute. reflexivity.
Defined.

Lemma protobuf_loses_integers_witness :
  value_as_i64 sample = None /\ value_as_i64 (VNumber (PosInt 5)) = Some 5 /\
  forall v, decode_value (ProtobufCodec write_message read_message) [] = Ok v -> value_as_i64 v = None.
Proof.
  split; [reflexivity|]. split; [reflexivity|].
  exact (proj1 (protobuf_loses_integers write_message read_message) []).
Defined.

Lemma negotiated_roundtrip_witness :
  exists c' v', Codecs.get_by_content_type "application/json"
      (registry write_sample write_sample read_sample read_sample write_message read_message) = Ret (Some c') /\
    decode_value c' [] = Ok v' /\ as_floats v' = as_floats sample /\ ("json" <> "protobuf" -> v' = sample).
Proof.
  refine (negotiated_roundtrip write_sample write_sample read_sample read_sample write_message read_message
    "json" (JsonCodec write_sample read_sample) sample [] _ sample_ok _ _).
  - by split.
  - reflexivity.
  - reflexivity.
Defined.

Lemma compressors_first_wins_witness :
  let c := Compressor "gzip" Ok Ok in
  register c (register_compressors [c]) =
    (fail PluginAlreadyRegistered "compressor 'gzip' already registered", register_compressors [c]).
Proof.
  intros c. apply (compressors_first_wins [c] c "gzip"). by exists c.
Defined.

Lemma compressed_pipeline_witness :
  let gz := GzipCompressor (fun x => Ok x) (fun w => Ok (Byte.x1f :: w)) (fun d => Ok (tail d)) in
  let lz := Lz4Compressor (fun x => Byte.x00 :: x) (fun d => Ok (tail d)) in
  decode_pipeline (map compressor_transform [gz; lz; gz]) [Byte.x1f; Byte.x00; Byte.x1f; Byte.x41] = Ok [Byte.x41].
Proof.
  intros gz lz.
  apply (compressed_pipeline (fun x => Ok x) (fun w => Ok (Byte.x1f :: w)) (fun d => Ok (tail d))
    (fun x => Byte.x00 :: x) (fun d => Ok (tail d)) ["gzip"; "lz4"; "gzip"] [gz; lz; gz] [Byte.x41]).
  - intros x w d [= ->] [= <-]. reflexivity.
  - reflexivity.
  - reflexivity.
  - reflexivity.
Defined.
