(* ===== verification/I18n.v ===== *)
(** Translations: the [I18n] interface ([rinfra-core/src/i18n/mod.rs]) as a
    type class and the file-based catalogues
    ([rinfra-plugins/src/i18n/file_i18n.rs]). *)

From stdpp Require Import sorting.
From S2P Require Import Prelude Errors.

(** [trait I18n] with what its documentation promises of [t], over the
    messages an implementation has: the message of the locale, else that of
    the default locale, else the key itself. *)
Class I18n (I : Type) : Type := {
  t : I -> string -> string -> string;
  available_locales : I -> list string;
  default_locale : I -> string;
  message : I -> string -> string -> option string;
  t_spec : forall i key locale,
    t i key locale =
    match message i locale key with
    | Some v => v
    | None => default key (message i (default_locale i) key)
    end;
}.

(** [str::replace]: every occurrence of a non-empty pattern, left to right;
    the text shrinks at every step, so its length is fuel enough. *)
Fixpoint replace_fuel (fuel : nat) (pat to s : string) : string :=
  match fuel with
  | O => s
  | S fuel =>
      match strip_prefix pat s with
      | Some rest => to +:+ replace_fuel fuel pat to rest
      | None =>
          match s with
          | EmptyString => ""
          | String c s => String c (replace_fuel fuel pat to s)
          end
      end
  end.
Definition replace (pat to s : string) : string := replace_fuel (S (String.length s)) pat to s.

(** [t_args]: the arguments in the order the hash map enumerates them. *)
Definition t_args {I} `{!I18n I} (i : I) (key locale : string) (args : list (string * string)) : string :=
  fold_left (fun msg '(k, v) => replace ("{" +:+ k +:+ "}") v msg) args (t i key locale).

(** * File catalogues *)
Module FileI18n.

(** [serde_yaml::Value]; sequences, tagged values and null are one case, and
    numbers are as [to_string] writes them. *)
Inductive yaml : Type :=
| YMapping (entries : list (yaml * yaml))
| YString (s : string)
| YNumber (n : string)
| YBool (b : bool)
| YOther.

(** [type Catalog], [struct FileI18n] *)
Abbreviation messages := (gmap string string).
Abbreviation catalog_map := (gmap string messages).
Record file_i18n : Type := MkFileI18n { catalog : catalog_map; default_loc : string }.

Section file_i18n.
(** [serde_yaml]: the [Debug] rendering of a key that is not a string, and the parser. *)
Variable debug_key : yaml -> string.
Variable from_str : string -> result string yaml.

Definition key_str (k : yaml) : string := match k with YString s => s | k => debug_key k end.
Definition full_key (prefix key : string) : string :=
  if String.eqb prefix "" then key else prefix +:+ "." +:+ key.

(** [flatten_yaml] *)
Fixpoint flatten_yaml (value : yaml) (prefix : string) (out : messages) : messages :=
  match value with
  | YMapping entries =>
      fold_left (fun out e => match e with
                              | (k, v) => flatten_yaml v (full_key prefix (key_str k)) out
                              end) entries out
  | YString s => <[prefix := s]> out
  | YNumber n => <[prefix := n]> out
  | YBool b => <[prefix := if b then "true" else "false"]> out
  | YOther => out
  end.

(** A directory entry: its file name and what reading it gives. *)
Record dir_entry : Type := DirEntry { file_name : string; content : result string string }.

Definition dot : Ascii.ascii := Ascii.ascii_of_N 46.
(** [Path::extension] and [Path::file_stem]: split at the last dot, unless it
    is the name's first character. *)
Fixpoint last_dot (s : string) : option (string * string) :=
  match s with
  | EmptyString => None
  | String c s' =>
      match last_dot s' with
      | Some (a, b) => Some (String c a, b)
      | None => if Ascii.eqb c dot then Some ("", s') else None
      end
  end.
Definition split_name (n : string) : string * string :=
  match last_dot n with
  | Some (String c a, b) => (String c a, b)
  | _ => (n, "")
  end.

(** The loop of [load] over the readable directory entries. *)
Fixpoint load_entries (dir : string) (entries : list dir_entry) (m : catalog_map) : Result catalog_map :=
  match entries with
  | [] => Ok m
  | e :: entries =>
      let '(locale, ext) := split_name (file_name e) in
      if negb (String.eqb ext "yaml") && negb (String.eqb ext "yml") then load_entries dir entries m
      else if String.eqb locale "" then load_entries dir entries m
      else
        text ← map_err (fun err => new_error I18nLoadFailed
          ("failed to read " +:+ dir +:+ "/" +:+ file_name e +:+ ": " +:+ err)) (content e);
        value ← map_err (fun err => new_error I18nLoadFailed
          ("failed to parse " +:+ dir +:+ "/" +:+ file_name e +:+ ": " +:+ err)) (from_str text);
        load_entries dir entries (<[locale := flatten_yaml value "" ∅]> m)
  end.

(** [FileI18n::load]: [listing] is [None] when the directory does not exist. *)
Definition load (dir : string) (listing : option (result string (list dir_entry))) (default : string) :
  Result file_i18n :=
  match listing with
  | None => Ok (MkFileI18n ∅ default)
  | Some listing =>
      entries ← map_err (fun err => new_error I18nLoadFailed ("failed to read i18n directory: " +:+ err)) listing;
      m ← load_entries dir entries ∅;
      Ok (MkFileI18n m default)
  end.

(** [t] *)
Definition translate (i : file_i18n) (key locale : string) : string :=
  match catalog i !! locale ≫= lookup key with
  | Some v => v
  | None =>
      match (if negb (String.eqb locale (default_loc i))
             then catalog i !! default_loc i ≫= lookup key else None) with
      | Some v => v
      | None => key
      end
  end.

(** [available_locales] *)
Definition string_le (a b : string) : Prop := String.leb a b = true.
#[local] Instance string_le_dec a b : Decision (string_le a b) := decide (String.leb a b = true).
Definition locales (i : file_i18n) : list string :=
  merge_sort string_le (map_to_list (catalog i)).*1.

(** ** Keys as paths

    A key of the flattened catalogue is the dotted path to a scalar, as long
    as the file's keys are not empty and contain no dot themselves. *)
Definition good_key (k : string) : bool := negb (String.eqb k "") && negb (has_char dot k).

(** The scalar a path leads to. *)
Definition entry_at (k : string) (entries : list (yaml * yaml)) : option yaml :=
  snd ∘ snd <$> list_find (fun e => key_str (fst e) = k) entries.
Fixpoint yaml_at (path : list string) (v : yaml) : option string :=
  match path, v with
  | [], YString s => Some s
  | [], YNumber n => Some n
  | [], YBool b => Some (if b then "true" else "false")
  | k :: path, YMapping entries => entry_at k entries ≫= yaml_at path
  | _, _ => None
  end.

Fixpoint yaml_ok (v : yaml) : bool :=
  match v with
  | YMapping entries =>
      forallb (fun e => match e with (k, v) => good_key (key_str k) && yaml_ok v end) entries &&
      bool_decide (NoDup (key_str ∘ fst <$> entries))
  | _ => true
  end.

Fixpoint strip_path (pre q : list string) : option (list string) :=
  match pre, q with
  | [], q => Some q
  | p :: pre, k :: q => if decide (p = k) then strip_path pre q else None
  | _ :: _, [] => None
  end.

Lemma dotted_inj a b x y :
  has_char dot a = false -> has_char dot b = false -> a +:+ "." +:+ x = b +:+ "." +:+ y -> a = b /\ x = y.
Proof.
  revert b. induction a as [|c a IH]; intros [|d b]; unfold String.app in *; simpl.
  - intros _ _ [= ->]. done.
  - intros _ [Hd _]%orb_false_iff [= <- _]. done.
  - intros [Hd _]%orb_false_iff _ [= -> _]. done.
  - intros [_ Ha]%orb_false_iff [_ Hb]%orb_false_iff [= <- H]. by destruct (IH b Ha Hb H) as [-> ->].
Qed.

Lemma dotted_not_free a b x : has_char dot b = false -> a +:+ "." +:+ x <> b.
Proof.
  intros H <-. rewrite !has_char_app in H. apply orb_false_iff in H as [_ H].
  apply orb_false_iff in H as [H _]. done.
Qed.

Lemma good_key_spec k : good_key k = true <-> k <> "" /\ has_char dot k = false.
Proof. unfold good_key. rewrite andb_true_iff, !negb_true_iff, String.eqb_neq. done. Qed.

Lemma join_nonempty k ks : k <> "" -> join "." (k :: ks) <> "".
Proof. destruct k as [|c k]; [done|]. destruct ks; by intros _ [=]. Qed.

Lemma join_inj ks ks' :
  Forall (fun k => good_key k = true) ks -> Forall (fun k => good_key k = true) ks' ->
  join "." ks = join "." ks' -> ks = ks'.
Proof.
  intros H. revert ks'. induction H as [|k ks Hk Hks IH]; intros [|k' ks'] H'; [done| | |].
  - inversion H' as [|?? [? _]%good_key_spec]; subst. intros E. symmetry in E. by apply join_nonempty in E.
  - apply good_key_spec in Hk as [? _]. intros E. by apply join_nonempty in E.
  - inversion H' as [|?? Hk' Hks']; subst. apply good_key_spec in Hk as [_ Hk], Hk' as [_ Hk'].
    destruct ks as [|k2 ks], ks' as [|k2' ks'].
    + by intros [= ->].
    + intros E. symmetry in E. by apply dotted_not_free in E.
    + intros E. by apply dotted_not_free in E.
    + intros [-> E]%dotted_inj; [|done..]. by rewrite (IH (k2' :: ks') Hks' E).
Qed.

Lemma join_snoc pre k : Forall (fun k => good_key k = true) pre ->
  full_key (join "." pre) k = join "." (pre ++ [k]).
Proof.
  intros H. induction H as [|p pre Hp Hpre IH]; [done|]. unfold full_key.
  apply good_key_spec in Hp as [Hp _].
  rewrite (proj2 (String.eqb_neq _ _)) by by apply join_nonempty.
  destruct pre as [|q pre]; [done|]. change (join "." ((p :: q :: pre) ++ [k]))
    with (p +:+ "." +:+ join "." ((q :: pre) ++ [k])).
  rewrite <- IH. unfold full_key. inversion Hpre as [|?? [Hq _]%good_key_spec]; subst.
  rewrite (proj2 (String.eqb_neq _ _)) by by apply join_nonempty.
  change (join "." (p :: q :: pre)) with (p +:+ "." +:+ join "." (q :: pre)). by rewrite !str_app_assoc.
Qed.

Lemma strip_path_snoc pre k q :
  strip_path (pre ++ [k]) q =
  match strip_path pre q with
  | Some (k' :: rest) => if decide (k = k') then Some rest else None
  | _ => None
  end.
Proof.
  revert q. induction pre as [|p pre IH]; intros [|k' q]; simpl; try done. by destruct (decide (p = k')).
Qed.
Lemma strip_path_nil pre q : strip_path pre q = Some [] <-> q = pre.
Proof.
  revert q. induction pre as [|p pre IH]; intros [|k q]; simpl; [done..| |].
  - done.
  - destruct (decide (p = k)) as [->|Hne]; [|split; [done|by intros [= ->]]].
    rewrite IH. split; [by intros ->|by intros [= ->]].
Qed.

(** The whole effect of [flatten_yaml] on a catalogue. *)
Definition overlay (v : yaml) (pre q : list string) (old : option string) : option string :=
  match strip_path pre q ≫= (fun rest => yaml_at rest v) with Some s => Some s | None => old end.

Lemma yaml_value_ind (P : yaml -> Prop) :
  (forall entries, Forall (fun e => P (snd e)) entries -> P (YMapping entries)) ->
  (forall s, P (YString s)) -> (forall n, P (YNumber n)) -> (forall b, P (YBool b)) -> P YOther ->
  forall v, P v.
Proof.
  intros Hm Hs Hn Hb Ho. fix IH 1. intros [entries|s|n|b|]; [|apply Hs|apply Hn|apply Hb|apply Ho].
  apply Hm. induction entries as [|[k v] entries IHe]; constructor; [apply IH|apply IHe].
Qed.

Abbreviation goods := (Forall (fun k => good_key k = true)).

Lemma overlay_entries pre q entries out :
  Forall (fun e => forall pre out, goods pre ->
    flatten_yaml (snd e) (join "." pre) out !! join "." q = overlay (snd e) pre q (out !! join "." q)) entries ->
  goods pre -> forallb (fun e => match e with (k, v) => good_key (key_str k) && yaml_ok v end) entries = true ->
  NoDup (key_str ∘ fst <$> entries) ->
  flatten_yaml (YMapping entries) (join "." pre) out !! join "." q =
  overlay (YMapping entries) pre q (out !! join "." q).
Proof.
  intros HIH Hpre. revert out. induction HIH as [|[k v] entries Hv _ IH]; intros out; simpl.
  { intros _ _. unfold overlay. by destruct (strip_path pre q) as [[|]|]. }
  intros [[Hk Hok]%andb_true_iff Hrest]%andb_true_iff [Hnew Hnd]%NoDup_cons.
  simpl in Hv. simpl in IH. rewrite (IH _ Hrest Hnd), join_snoc by done.
  rewrite Hv by (apply Forall_app; by repeat constructor).
  unfold overlay. rewrite strip_path_snoc. destruct (strip_path pre q) as [[|k' rest]|]; simpl; [done| |done].
  unfold entry_at. simpl. destruct (decide (key_str k = k')) as [<-|Hne]; simpl.
  - destruct (list_find (fun e => key_str e.1 = key_str k) entries) as [[i e]|] eqn:E; simpl; [|done].
    apply list_find_Some in E as (Hi & He & _). destruct Hnew. apply list_elem_of_fmap.
    exists e. split; [by symmetry|]. by eapply list_elem_of_lookup_2.
  - by destruct (list_find _ entries) as [[i e]|].
Qed.

Lemma flatten_yaml_overlay v q : goods q -> yaml_ok v = true ->
  forall pre out, goods pre ->
  flatten_yaml v (join "." pre) out !! join "." q = overlay v pre q (out !! join "." q).
Proof.
  intros Hq.
  assert (forall (s : string) pre (out : messages), goods pre ->
    <[join "." pre := s]> out !! join "." q =
    match strip_path pre q with Some [] => Some s | _ => out !! join "." q end) as Hscalar.
  { intros s pre out Hpre. destruct (decide (q = pre)) as [->|Hne].
    - by rewrite lookup_insert_eq, (proj2 (strip_path_nil pre pre) eq_refl).
    - rewrite lookup_insert_ne by (intros E; apply Hne; symmetry; by apply join_inj).
      destruct (strip_path pre q) as [[|]|] eqn:E; [|done..]. by apply strip_path_nil in E. }
  induction v as [entries IH|s|n|b|] using yaml_value_ind; intros Hok pre out Hpre.
  - simpl in Hok. apply andb_true_iff in Hok as [Hok Hnd%bool_decide_eq_true].
    apply overlay_entries; [|done..]. apply forallb_Forall in Hok. clear Hscalar.
    clear Hnd Hpre pre out. rewrite !Forall_forall in *. intros [k v] Hin pre out Hpre.
    apply (IH _ Hin); [|done]. by destruct (proj1 (andb_true_iff _ _) (Hok _ Hin)).
  - simpl. rewrite Hscalar by done. unfold overlay. by destruct (strip_path pre q) as [[|]|].
  - simpl. rewrite Hscalar by done. unfold overlay. by destruct (strip_path pre q) as [[|]|].
  - simpl. rewrite Hscalar by done. unfold overlay. by destruct (strip_path pre q) as [[|]|].
  - simpl. unfold overlay. by destruct (strip_path pre q) as [[|]|].
Qed.
End file_i18n.

#[refine] #[export] Instance file_i18n_instance : I18n file_i18n := {
  t := translate;
  available_locales := locales;
  default_locale := default_loc;
  message := fun i locale key => catalog i !! locale ≫= lookup key;
}.
Proof.
  intros i key locale. unfold translate. destruct (catalog i !! locale ≫= lookup key) eqn:E; [done|].
  destruct (String.eqb_spec locale (default_loc i)) as [->|]; simpl; [by rewrite E|].
  by destruct (catalog i !! default_loc i ≫= lookup key).
Defined.
Section loading.
Variable debug_key : yaml -> string.
Variable from_str : string -> result string yaml.

Lemma load_entries_app dir a b m :
  load_entries debug_key from_str dir (a ++ b) m =
  (load_entries debug_key from_str dir a m ≫= load_entries debug_key from_str dir b).
Proof.
  revert m. induction a as [|e a IH]; intros m; simpl; [done|].
  destruct (split_name (file_name e)) as [locale ext]. case_match; [apply IH|]. case_match; [apply IH|].
  destruct (content e) as [text|]; simpl; [|done]. destruct (from_str text); simpl; [apply IH|done].
Qed.

Lemma load_entries_other dir entries m m' locale :
  load_entries debug_key from_str dir entries m = Ok m' ->
  Forall (fun e => fst (split_name (file_name e)) <> locale) entries -> m' !! locale = m !! locale.
Proof.
  intros H Hne. revert m H. induction Hne as [|e entries He _ IH]; intros m; simpl; [by intros [= ->]|].
  destruct (split_name (file_name e)) as [l ext]. simpl in He. case_match; [apply IH|].
  case_match; [apply IH|]. destruct (content e) as [text|]; simpl; [|done].
  destruct (from_str text) as [v|]; simpl; [|done]. intros E%IH. by rewrite E, lookup_insert_ne.
Qed.
End loading.

(** The message of a dotted key is the scalar at that path of the
    locale's file: after loading a directory whose last readable file for a
    locale parses to a tree whose keys are non-empty, free of dots and
    distinct within each mapping, translating [a.b.c] in that locale gives
    what the tree has at a, b, c, and the key itself when neither that tree
    nor the default locale's has a scalar there. *)
Theorem translation_is_path_lookup (debug_key : yaml -> string) (from_str : string -> result string yaml)
  (dir : string) (before : list dir_entry) (e : dir_entry) (after : list dir_entry)
  (default_ locale text : string) (value : yaml) (path : list string) (i : file_i18n) :
  load debug_key from_str dir (Some (Ok (before ++ e :: after))) default_ = Ok i ->
  split_name (file_name e) = (locale, "yaml") -> locale <> "" ->
  Forall (fun e' => fst (split_name (file_name e')) <> locale) after ->
  content e = Ok text -> from_str text = Ok value -> yaml_ok debug_key value = true ->
  Forall (fun k => good_key k = true) path ->
  t i (join "." path) locale =
  match yaml_at debug_key path value with
  | Some s => s
  | None => default (join "." path) (catalog i !! default_ ≫= lookup (join "." path))
  end.
Proof.
  intros Hl Hname Hne Hafter Hc Hp Hok Hpath. unfold load in Hl. simpl in Hl. rewrite load_entries_app in Hl.
  destruct (load_entries debug_key from_str dir before ∅) as [m1|] eqn:E1; simpl in Hl; [|done].
  rewrite Hname, Hc in Hl. simpl in Hl. rewrite (proj2 (String.eqb_neq _ _) Hne), Hp in Hl. simpl in Hl.
  destruct (load_entries _ _ _ after _) as [m2|] eqn:E2; simpl in Hl; [|done]. injection Hl as <-.
  apply (load_entries_other _ _ _ _ _ _ locale) in E2; [|done]. rewrite lookup_insert_eq in E2.
  rewrite t_spec. simpl. rewrite E2. simpl.
  pose proof (flatten_yaml_overlay debug_key value path Hpath Hok [] ∅ (Forall_nil_2 _)) as Hf.
  simpl in Hf. rewrite Hf. unfold overlay. simpl. rewrite lookup_empty.
  by destruct (yaml_at debug_key path value).
Qed.

(** A catalogue of one file, and what [t_args] makes of it. *)
Definition en_yaml : yaml :=
  YMapping [(YString "error",
             YMapping [(YString "file_not_found", YString "{who}: no such file");
                       (YNumber "404", YString "missing")]);
            (YString "retries", YNumber "3")].
Definition parse_example (text : string) : result string yaml :=
  if String.eqb text "<en>" then Ok en_yaml else Err "bad yaml".
Definition debug_example (_ : yaml) : string := "Number(404)".
Definition loaded : file_i18n :=
  match load debug_example parse_example "i18n"
          (Some (Ok [DirEntry "README.md" (Err "not read"); DirEntry "en.yaml" (Ok "<en>")])) "en" with
  | Ok i => i
  | Err _ => MkFileI18n ∅ ""
  end.

Lemma translation_is_path_lookup_witness :
  t loaded "error.file_not_found" "en" = "{who}: no such file" /\
  t loaded "error.timeout" "en" = "error.timeout".
Proof.
  split.
  - refine (translation_is_path_lookup debug_example parse_example "i18n"
      [DirEntry "README.md" (Err "not read")] (DirEntry "en.yaml" (Ok "<en>")) [] "en" "en" "<en>"
      en_yaml ["error"; "file_not_found"] loaded _ _ _ _ _ _ _ _);
      [reflexivity|reflexivity|discriminate|apply Forall_nil_2|reflexivity..|
       repeat (apply Forall_cons_2; [reflexivity|]); apply Forall_nil_2].
  - refine (translation_is_path_lookup debug_example parse_example "i18n"
      [DirEntry "README.md" (Err "not read")] (DirEntry "en.yaml" (Ok "<en>")) [] "en" "en" "<en>"
      en_yaml ["error"; "timeout"] loaded _ _ _ _ _ _ _ _);
      [reflexivity|reflexivity|discriminate|apply Forall_nil_2|reflexivity..|
       repeat (apply Forall_cons_2; [reflexivity|]); apply Forall_nil_2].
Defined.

(** Two enumeration orders of the same arguments give different messages when
    a substituted value contains another argument's placeholder. *)
Lemma t_args_order_matters :
  t_args loaded "error.file_not_found" "en" [("who", "{dir}"); ("dir", "/tmp")] = "/tmp: no such file" /\
  t_args loaded "error.file_not_found" "en" [("dir", "/tmp"); ("who", "{dir}")] = "{dir}: no such file".
Proof. split; vm_compute; reflexivity. Qed.
End FileI18n.
