(* ===== verification/Router.v ===== *)
(** axum's [Router] as the code uses it: an interface of the operations with
    what the library documents of them - through the endpoints a router
    answers, the handler it dispatches a request to, and the operations that
    panic - and a router that is its list of endpoints, which satisfies it. *)

From S2P Require Import Prelude.

(** * Endpoints *)
Record endpoint (H L : Type) : Type := Endpoint {
  ep_method : string;
  ep_path : string;
  ep_handler : H;
  ep_layers : list L;
}.
Arguments Endpoint {H L} _ _ _ _.
Arguments ep_method {H L} _.
Arguments ep_path {H L} _.
Arguments ep_handler {H L} _.
Arguments ep_layers {H L} _.
Definition ep_key {H L} (e : endpoint H L) : string * string := (ep_method e, ep_path e).
Definition keys {H L} (es : list (endpoint H L)) : list (string * string) := map ep_key es.

(** The path of a route of a router nested at [p], as the documentation of
    [Router::nest] has it: the root of a router nested at [/foo] is [/foo],
    not [/foo/]; a prefix that ends in a slash keeps that one only. *)
Definition slash : Ascii.ascii := Ascii.ascii_of_nat 47.
Fixpoint trim_start_slashes (s : string) : string :=
  match s with String c s' => if Ascii.eqb c slash then trim_start_slashes s' else s | EmptyString => "" end.
Fixpoint ends_with_slash (s : string) : bool :=
  match s with
  | EmptyString => false
  | String c EmptyString => Ascii.eqb c slash
  | String _ s => ends_with_slash s
  end.
Definition nested_path (p path : string) : string :=
  if ends_with_slash p then p +:+ trim_start_slashes path
  else if String.eqb path "/" then p else p +:+ path.
Example nested_path_ex :
  map (nested_path "/api") ["/"; "/info"; "/a/"] = ["/api"; "/api/info"; "/api/a/"] /\
  map (nested_path "/api/") ["/"; "/info"] = ["/api/"; "/api/info"].
Proof. split; vm_compute; reflexivity. Qed.
Definition prefixed {H L} (p : string) (e : endpoint H L) : endpoint H L :=
  Endpoint (ep_method e) (nested_path p (ep_path e)) (ep_handler e) (ep_layers e).
Definition layered {H L} (l : L) (e : endpoint H L) : endpoint H L :=
  Endpoint (ep_method e) (ep_path e) (ep_handler e) (l :: ep_layers e).
(** The paths a service nested at [p] answers, for every method. *)
Definition service_paths (p : string) : list string :=
  if ends_with_slash p then [p +:+ "{*rest}"; p] else [p +:+ "/{*rest}"; p; p +:+ "/"].

Lemma keys_layered {H L} (l : L) (es : list (endpoint H L)) : keys (map (layered l) es) = keys es.
Proof. unfold keys. by rewrite map_map. Qed.
Lemma keys_app {H L} (es es' : list (endpoint H L)) : keys (es ++ es') = keys es ++ keys es'.
Proof. apply map_app. Qed.

(** * The operations

    [new_router] is [Router::new()].  An operation that would give two
    handlers to one method and path panics, as does a path that does not start
    with a slash. *)
Class RouterLib (H L R : Type) : Type := {
  new_router : R;
  route : string -> list (string * H) -> R -> outcome R;
  merge : R -> R -> outcome R;
  nest : string -> R -> R -> outcome R;
  nest_service : string -> H -> R -> outcome R;
  layer : L -> R -> R;
  routes : R -> list (endpoint H L);
}.
Class RouterLaws (H L R : Type) `{RouterLib H L R} : Prop := {
  routes_new : routes new_router = [];
  routes_route p ms r r' : route p ms r = Ret r' ->
    starts_with "/" p = true /\
    routes r' = routes r ++ map (fun m => Endpoint (fst m) p (snd m) []) ms /\ NoDup (keys (routes r'));
  routes_merge a b r : merge a b = Ret r ->
    routes r = routes a ++ routes b /\ NoDup (keys (routes r));
  routes_nest p sub r r' : nest p sub r = Ret r' -> routes r' = routes r ++ map (prefixed p) (routes sub);
  routes_nest_service p h r r' : nest_service p h r = Ret r' ->
    routes r' = routes r ++ map (fun q => Endpoint "*" q h []) (service_paths p);
  routes_layer l r : routes (layer l r) = map (layered l) (routes r);
}.

(** A router at work: the handler it gives a method and a path to, its
    fallback included.  A layer is put around each of them: layers run after
    routing, whatever they do to the request. *)
Class RouterService (H R : Type) : Type := dispatch : R -> string -> string -> H.
Class LayersRunInside (H R : Type) `{RouterLib H (H -> H) R, !RouterService H R} : Prop :=
  dispatch_layer : forall l r m p, dispatch (layer l r) m p = l (dispatch r m p).

Lemma outcome_bind_inv {A B} (m : outcome A) (f : A -> outcome B) (b : B) :
  (m ≫= f) = Ret b -> exists a, m = Ret a /\ f a = Ret b.
Proof. destruct m as [a|]; simpl; [|done]. by exists a. Qed.
Lemma outcome_bind_panic {A B} (m : outcome A) (f : A -> outcome B) why :
  m = Panic why -> (m ≫= f) = Panic why.
Proof. by intros ->. Qed.

(** ** Routes that overlap *)
Section overlap.
Context {H L R : Type} `{RouterLaws H L R}.

Definition overlapping (a b : R) : Prop := exists k, k ∈ keys (routes a) /\ k ∈ keys (routes b).

Lemma merge_overlapping a b : overlapping a b -> exists why, merge a b = Panic why.
Proof.
  intros (k & Ha & Hb). destruct (merge a b) as [r|why] eqn:E; [|by exists why]. exfalso.
  apply routes_merge in E as [Hr Hnd]. rewrite Hr, keys_app in Hnd.
  apply NoDup_app in Hnd as (_ & Hd & _). by eapply Hd.
Qed.
Lemma route_without_slash p ms r : starts_with "/" p = false -> exists why, route p ms r = Panic why.
Proof.
  intros Hp. destruct (route p ms r) as [r'|why] eqn:E; [|by exists why].
  apply routes_route in E as [Hs _]. congruence.
Qed.

(** [for r in rs { merged = Some(match merged { Some(existing) =>
    existing.merge(r), None => r }) }] *)
Definition merge_into (merged : option R) (r : R) : outcome (option R) :=
  match merged with Some existing => m ← merge existing r; Ret (Some m) | None => Ret (Some r) end.
Fixpoint merge_each (rs : list R) (merged : option R) : outcome (option R) :=
  match rs with
  | [] => Ret merged
  | r :: rs => m ← merge_into merged r; merge_each rs m
  end.

Lemma merge_each_app rs rs' m : merge_each (rs ++ rs') m = (m' ← merge_each rs m; merge_each rs' m').
Proof.
  revert m. induction rs as [|r rs IH]; intros m; [done|]. cbn [app merge_each].
  destruct (merge_into m r); [apply IH|done].
Qed.
(** What has been merged is in the result. *)
Definition merged_routes (m : option R) : list (endpoint H L) := match m with Some r => routes r | None => [] end.
Lemma merge_each_routes rs m m' : merge_each rs m = Ret m' ->
  merged_routes m' = merged_routes m ++ mjoin (map routes rs).
Proof.
  revert m. induction rs as [|r rs IH]; intros m; cbn [merge_each map mjoin list_join].
  - intros [= ->]. by rewrite app_nil_r.
  - intros (m1 & Hm1 & Hm2)%outcome_bind_inv. rewrite (IH _ Hm2), app_assoc. f_equal.
    destruct m as [x|]; cbn in Hm1.
    + apply outcome_bind_inv in Hm1 as (y & Hy & [= <-]). by apply routes_merge in Hy as [Hy _].
    + by injection Hm1 as <-.
Qed.
(** Two of the routers have a route in common. *)
Definition clash (rs : list R) : Prop :=
  exists i j a b, (i < j)%nat /\ rs !! i = Some a /\ rs !! j = Some b /\ overlapping a b.
Lemma clash_app pre rs post : clash rs -> clash (pre ++ rs ++ post).
Proof.
  intros (i & j & a & b & Hij & Ha & Hb & Ho). exists (length pre + i)%nat, (length pre + j)%nat, a, b.
  assert (forall n x, rs !! n = Some x -> (pre ++ rs ++ post) !! (length pre + n)%nat = Some x) as Hat.
  { intros n x Hn. rewrite lookup_app_r by lia. replace (length pre + n - length pre)%nat with n by lia.
    by apply lookup_app_l_Some. }
  split; [lia|]. split; [by apply Hat|]. split; [by apply Hat|done].
Qed.
Lemma merge_each_clash rs m : clash rs -> exists why, merge_each rs m = Panic why.
Proof.
  intros (i & j & a & b & Hij & Ha & Hb & (k & Hka & Hkb)).
  destruct (merge_each rs m) as [m'|why] eqn:E; [|by exists why]. exfalso.
  rewrite <- (take_drop_middle _ _ _ Hb), merge_each_app in E.
  apply outcome_bind_inv in E as (m1 & Hm1 & E). cbn [merge_each] in E.
  apply outcome_bind_inv in E as (m2 & Hm2 & _). apply merge_each_routes in Hm1.
  assert (k ∈ keys (merged_routes m1)) as Hk.
  { rewrite Hm1, keys_app. apply elem_of_app. right. unfold keys in *.
    apply list_elem_of_fmap in Hka as (e & -> & He). apply list_elem_of_fmap. exists e. split; [done|].
    apply list_elem_of_join. exists (routes a). split; [done|]. apply list_elem_of_fmap. exists a. split; [done|].
    apply (list_elem_of_lookup_2 _ i). by rewrite lookup_take_lt. }
  destruct m1 as [r1|]; [|by apply elem_of_nil in Hk]. cbn in Hm2.
  destruct (merge_overlapping r1 b) as [why Hw]; [by exists k|]. by rewrite Hw in Hm2.
Qed.
End overlap.

(** * A router that is its list of endpoints and the layers of its fallback *)
Module ListRouter.
Section list_router.
Context {H L : Type}.
Definition checked_routes (es : list (endpoint H L)) : outcome (list (endpoint H L)) :=
  if decide (NoDup (keys es)) then Ret es else Panic "Overlapping method route".
Record router : Type := Router { endpoints : list (endpoint H L); fallback_layers : list L }.
Definition with_endpoints (es : list (endpoint H L)) (r : router) : outcome router :=
  es ← checked_routes es; Ret (Router es (fallback_layers r)).
#[export] Instance list_router : RouterLib H L router := {
  new_router := Router [] [];
  route p ms r :=
    if starts_with "/" p
    then with_endpoints (endpoints r ++ map (fun m => Endpoint (fst m) p (snd m) []) ms) r
    else Panic "Paths must start with a `/`";
  merge a b := with_endpoints (endpoints a ++ endpoints b) a;
  nest p sub r := with_endpoints (endpoints r ++ map (prefixed p) (endpoints sub)) r;
  nest_service p h r := with_endpoints (endpoints r ++ map (fun q => Endpoint "*" q h []) (service_paths p)) r;
  layer l r := Router (map (layered l) (endpoints r)) (l :: fallback_layers r);
  routes := endpoints;
}.
Lemma with_endpoints_ret es r r' : with_endpoints es r = Ret r' -> endpoints r' = es /\ NoDup (keys es).
Proof. unfold with_endpoints, checked_routes. case_decide; [|done]. by intros [= <-]. Qed.
#[export] Instance list_router_laws : RouterLaws H L router.
Proof.
  split; simpl; try done.
  - intros p ms r r'. destruct (starts_with "/" p); [|done]. by intros [-> Hnd]%with_endpoints_ret.
  - by intros a b r [-> Hnd]%with_endpoints_ret.
  - by intros p sub r r' [-> _]%with_endpoints_ret.
  - by intros p h r r' [-> _]%with_endpoints_ret.
Qed.
End list_router.
Arguments router : clear implicits.

Section service.
Context {H : Type} (not_found : H).
Definition find_route (m p : string) (es : list (endpoint H (H -> H))) : option (endpoint H (H -> H)) :=
  snd <$> list_find (fun e => ep_method e = m /\ ep_path e = p) es.
Definition wrap (ls : list (H -> H)) (h : H) : H := fold_right (fun l h => l h) h ls.
Definition list_dispatch (r : router H (H -> H)) (m p : string) : H :=
  match find_route m p (endpoints r) with
  | Some e => wrap (ep_layers e) (ep_handler e)
  | None => wrap (fallback_layers r) not_found
  end.
Lemma find_route_layered l m p es : find_route m p (map (layered l) es) = layered l <$> find_route m p es.
Proof.
  unfold find_route. induction es as [|e es IH]; [done|]. cbn [map list_find]. cbn [ep_method ep_path layered].
  case_decide; [done|]. destruct (list_find _ es) as [[i x]|], (list_find _ (map (layered l) es)) as [[j y]|];
    simpl in *; by simplify_eq.
Qed.
Lemma list_dispatch_layer l r m p : list_dispatch (layer l r) m p = l (list_dispatch r m p).
Proof.
  unfold list_dispatch. cbn [layer list_router endpoints fallback_layers]. rewrite find_route_layered.
  by destruct (find_route m p (endpoints r)).
Qed.
End service.
End ListRouter.
