(* ===== verification/HttpStack.v ===== *)
(** The HTTP side of a listener: the middlewares of
    [rinfra-plugins/src/net/middleware/*.rs], the stack the configuration
    assembles from them, and the server that serves it
    ([rinfra-plugins/src/net/http.rs]). *)

From Stdlib Require Import SpecFloat.
From S2P Require Import Prelude Errors AuditTrail Registries I18n Router.

(** * Requests and responses *)

(** [HeaderMap]: names in lower case, values as their bytes. *)
Abbreviation headers := (list (string * string)).
Definition header_get (n : string) (hs : headers) : option string :=
  snd ∘ snd <$> list_find (fun h => fst h = to_lowercase n) hs.
(** [insert] replaces every value the name had. *)
Definition header_insert (n v : string) (hs : headers) : headers :=
  filter (fun h => fst h <> n) hs ++ [(n, v)].
(** [HeaderValue::to_str] *)
Definition is_visible (c : Ascii.ascii) : bool :=
  let n := Ascii.N_of_ascii c in (((32 <=? n) && (n <? 127)) || (n =? 9))%N.
Definition to_str (v : string) : option string := if all_chars is_visible v then Some v else None.

(** [s.split(c).next()] and [str::trim] *)
Fixpoint before_char (c : Ascii.ascii) (s : string) : string :=
  match s with
  | EmptyString => ""
  | String a s => if Ascii.eqb a c then "" else String a (before_char c s)
  end.
Fixpoint trim_start (s : string) : string :=
  match s with String a s' => if is_whitespace a then trim_start s' else s | EmptyString => "" end.
Fixpoint trim_end (s : string) : string :=
  match s with
  | EmptyString => ""
  | String a s' => if all_chars is_whitespace s then "" else String a (trim_end s')
  end.
Definition trim (s : string) : string := trim_end (trim_start s).
Definition comma : Ascii.ascii := Ascii.ascii_of_N 44.
Definition semicolon : Ascii.ascii := Ascii.ascii_of_N 59.

Record request (claims : Type) : Type := Request {
  method : string;
  path : string;
  req_headers : headers;
  connect_info : option string;
  req_claims : option claims;
}.
Arguments Request {claims} _ _ _ _ _.
Arguments method {claims} _.
Arguments path {claims} _.
Arguments req_headers {claims} _.
Arguments connect_info {claims} _.
Arguments req_claims {claims} _.

(** A response's body can fail while it is collected. *)
Record response : Type := Response {
  status : Z;
  resp_headers : headers;
  body : option string;
}.
Definition is_success (r : response) : bool := (200 <=? status r) && (status r <? 300).

(** The JSON of an [ApiResponse<()>]. *)
Definition envelope_json (r : api_response unit) : json :=
  JObject [("code", JString (resp_code r));
           ("data", JNull);
           ("message", JString (resp_message r))].

(** [struct JwtClaims] is left to the token decoder; [struct AuthState],
    [struct RateLimitState] and [struct RateLimitResult] *)
Inductive jwt_error_kind : Type := ExpiredSignature | OtherJwtError.
#[export] Instance jwt_error_kind_eq_dec : EqDecision jwt_error_kind.
Proof. solve_decision. Defined.
Record auth_state : Type := AuthState { secret : string; exclude_paths : list string }.
Record rate_limit_result : Type := RateLimitResult {
  allowed : bool;
  remaining : Z;
  retry_after_ms : option Z;
}.

(** [(retry_after as f64 / 1000.0).ceil() as u64] *)
Definition as_f64 (n : Z) : spec_float := binary_normalize 53 1024 n 0 false.
Definition ceil_as_u64 (f : spec_float) : Z :=
  match f with
  | S754_finite false m e => Z.min u64_max (if 0 <=? e then Z.pos m * 2 ^ e else - (- Z.pos m / 2 ^ (- e)))
  | S754_infinity false => u64_max
  | _ => 0
  end.
Definition retry_after_secs (ms : Z) : Z := ceil_as_u64 (SFdiv 53 1024 (as_f64 ms) (as_f64 1000)).
Example retry_after_secs_ex :
  map retry_after_secs [0; 1; 1000; 1001; 2500; 86400000] = [0; 1; 1; 2; 3; 86400].
Proof. vm_compute. reflexivity. Qed.

(** * The middlewares *)
Section middlewares.
(** [W] is everything outside the stack.  Clocks, fresh identifiers, the
    token decoder of [jsonwebtoken] (which reads the clock) and [serde_json]
    are parameters. *)
Context {W claims : Type}.
Variable now_instant wall_clock : W -> Z.
Variable new_v4 : W -> string.
Variable decode : string -> string -> W -> result (jwt_error_kind * string) claims.
Variable from_slice : string -> option json.
Variable to_vec : json -> option string.
Abbreviation request := (request claims).
Definition handler : Type := request -> M W response.

(** Reading the world. *)
Definition gets {A} (f : W -> A) : M W A := fun w => Ret (f w, w).

(** [(status, Json(body)).into_response()] of an error envelope; a body
    [serde_json] cannot write would be a 500. *)
Definition json_response (status : Z) (r : api_response unit) : response :=
  match to_vec (envelope_json r) with
  | Some text => Response status [("content-type", "application/json")] (Some text)
  | None => Response 500 [("content-type", "text/plain; charset=utf-8")] (Some "serialization failed")
  end.
(** [impl IntoResponse for AppError] ([rinfra-core/src/net/mod.rs]) *)
Definition into_response (e : app_error) : response :=
  json_response (http_status (err_code e)) (response_error e).

(** ** [auth_middleware] *)
Definition make_error_response (code : error_code) (message : string) : response :=
  json_response (http_status code) (ApiResponse (as_str code) None message).
Definition with_claims (c : claims) (req : request) : request :=
  Request (method req) (path req) (req_headers req) (connect_info req) (Some c).
Definition bearer_token (req : request) : option string :=
  (header_get "authorization" (req_headers req) ≫= to_str) ≫= strip_prefix "Bearer ".
Definition auth_middleware (state : auth_state) (next : handler) : handler := fun req =>
  if existsb (fun p => starts_with p (path req)) (exclude_paths state) then next req
  else
    match bearer_token req with
    | None => mret (make_error_response AuthTokenMissing "missing or invalid Authorization header")
    | Some token =>
        decoded ← gets (decode (secret state) token);
        match decoded with
        | Ok c => next (with_claims c req)
        | Err (kind, text) =>
            let code := if decide (kind = ExpiredSignature) then AuthTokenExpired else AuthTokenInvalid in
            mret (make_error_response code ("token validation failed: " +:+ text))
        end
    end.

(** ** [rate_limit_middleware] *)
Definition extract_key (strategy : string) (req : request) : string :=
  if String.eqb strategy "global" then "global"
  else
    match strip_prefix "header:" strategy with
    | Some header_name => default "unknown" (header_get header_name (req_headers req) ≫= to_str)
    | None => default "unknown" (connect_info req)
    end.
Definition too_many_requests (r : rate_limit_result) : response :=
  let resp := json_response 429 (ApiResponse (as_str RateLimitExceeded) None "rate limit exceeded") in
  let retry_after := default 1000 (retry_after_ms r) in
  Response (status resp)
    (header_insert "x-ratelimit-remaining" (pretty (remaining r))
       (header_insert "retry-after" (pretty (retry_after_secs retry_after)) (resp_headers resp)))
    (body resp).
Definition rate_limit_middleware (check : string -> M W (Result rate_limit_result)) (strategy : string)
    (next : handler) : handler := fun req =>
  answer ← check (extract_key strategy req);
  match answer with
  | Ok r => if allowed r then next req else mret (too_many_requests r)
  | Err _ => next req
  end.

(** ** [audit_middleware] *)
Definition extract_client_ip (req : request) : option string :=
  let v := match header_get "x-forwarded-for" (req_headers req) with
           | Some v => Some v
           | None => header_get "x-real-ip" (req_headers req)
           end in
  (fun s => trim (before_char comma s)) <$> (v ≫= to_str).
Definition outcome_of (resp : response) : audit_outcome :=
  if is_success resp then Success
  else if (status resp =? 401) || (status resp =? 403) then Denied else Failure.
(** The event [audit_middleware] writes for a request that took [duration_ms]. *)
Definition audit_event_of (uuid : string) (wall duration_ms : Z) (req : request) (resp : response) :
    audit_event :=
  let ip := extract_client_ip req in
  let e := with_details
    (JObject [("method", JString (method req)); ("path", JString (path req));
              ("status", JNumber (pretty (status resp))); ("duration_ms", JNumber (pretty duration_ms))])
    (with_resource_id (path req)
       (new_event uuid wall (default "unknown" ip) ("http." +:+ to_lowercase (method req)) "http"
          (outcome_of resp))) in
  match ip with Some ip => with_ip ip e | None => e end.
Definition audit_middleware (log : audit_event -> M W (Result unit)) (next : handler) : handler :=
  fun req =>
    start ← gets now_instant;
    response ← next req;
    now ← gets now_instant;
    uuid ← gets new_v4;
    wall ← gets wall_clock;
    let duration_ms := as_u64 (as_millis (duration_since now start)) in
    _ ← log (audit_event_of uuid wall duration_ms req response);
    mret response.

(** ** [i18n_error_middleware] *)
Definition parse_accept_language (hs : headers) : string :=
  match header_get "accept-language" hs ≫= to_str with
  | Some s => trim (before_char semicolon (before_char comma s))
  | None => "en"
  end.
(** [Value::get] on a key, and [json[key] = value]: [serde_json]'s maps are
    sorted by key. *)
Definition json_get (k : string) (j : json) : option json :=
  match j with
  | JObject entries => snd ∘ snd <$> list_find (fun e => fst e = k) entries
  | _ => None
  end.
Fixpoint set_field (k : string) (v : json) (entries : list (string * json)) : list (string * json) :=
  match entries with
  | [] => [(k, v)]
  | (k', v') :: rest =>
      if decide (k = k') then (k, v) :: rest
      else if String.ltb k k' then (k, v) :: (k', v') :: rest
      else (k', v') :: set_field k v rest
  end.
(** What becomes of the parsed body of an error response. *)
Definition translate_body {I} `{!I18n I} (i18n : I) (locale : string) (j : json) : json :=
  match j, json_get "code" j with
  | JObject entries, Some (JString code) =>
      let key := "error." +:+ to_lowercase code in
      let translated := I18n.t i18n key locale in
      if decide (translated = key) then j else JObject (set_field "message" (JString translated) entries)
  | _, _ => j
  end.
Definition i18n_error_middleware {I} `{!I18n I} (i18n : I) (next : handler) : handler := fun req =>
  let locale := parse_accept_language (req_headers req) in
  response ← next req;
  mret (if is_success response then response
        else if negb (match header_get "content-type" (resp_headers response) ≫= to_str with
                      | Some ct => contains "application/json" ct
                      | None => false
                      end) then response
        else
          match body response with
          | None => Response (status response) (resp_headers response) (Some "")
          | Some bytes =>
              match from_slice bytes with
              | None => response
              | Some j =>
                  Response (status response) (resp_headers response)
                    (Some (default bytes (to_vec (translate_body i18n locale j))))
              end
          end).

(** ** [RequestIdLayer] and [OtelPropagationLayer]; the latter only sets the
    parent of the tracing span. *)
Definition request_id_layer (next : handler) : handler := fun req =>
  response ← next req;
  request_id ← gets new_v4;
  mret (Response (status response) (header_insert "x-request-id" request_id (resp_headers response))
          (body response)).
Definition otel_propagation_layer (next : handler) : handler := next.

(** * The stack *)

(** The routers, and a request at one of them. *)
Context {R : Type} `{LibR : !RouterLib handler (handler -> handler) R, LawsR : !RouterLaws handler (handler -> handler) R,
  ServiceR : !RouterService handler R, InsideR : !LayersRunInside handler R}.
Definition call (r : R) : handler := fun req => dispatch r (method req) (path req) req.

(** [Box<dyn Any>] holding a router, or not. *)
Inductive any_router : Type := IsRouter (r : R) | NotRouter.
Definition downcast_router (r : any_router) : Result R :=
  match r with IsRouter r => Ok r | NotRouter => fail Internal "middleware: expected axum::Router" end.

(** [trait HttpMiddleware] *)
Record http_middleware : Type := HttpMiddleware {
  mw_name : string;
  mw_order : Z;
  mw_apply : any_router -> outcome (Result any_router);
}.
(** The shape of every built-in middleware: downcast, wrap, box. *)
Definition router_middleware (name : string) (order : Z) (step : R -> outcome R) : http_middleware :=
  HttpMiddleware name order (fun r =>
    match downcast_router r with
    | Ok router => router ← step router; Ret (Ok (IsRouter router))
    | Err e => Ret (Err e)
    end).
Definition add_layer (l : handler -> handler) (r : R) : outcome R := Ret (layer l r).
Definition layer_middleware (name : string) (order : Z) (l : handler -> handler) : http_middleware :=
  router_middleware name order (add_layer l).

(** [HttpMiddlewareRegistry::apply_all] on registered middlewares. *)
Definition apply_all (values : list http_middleware) (r : any_router) : outcome (Result any_router) :=
  Middleware.apply_all mw_order mw_apply values r.

(** ** [struct MiddlewareConfig], [struct MetricsConfig] and what the factory
    takes from the application state *)
Record middleware_config : Type := MiddlewareConfig {
  cors_enabled : bool;
  cors_allow_origins : list string;
  request_id_enabled : bool;
  timeout_enabled : bool;
  timeout_secs : Z;
  auth_enabled : bool;
  jwt_secret_env : string;
  auth_exclude_paths : list string;
  rate_limit_enabled : bool;
  key_strategy : string;
}.
Record metrics_config : Type := MetricsConfig { metrics_enabled : bool; metrics_endpoint : string }.
(** The cargo features that the factory asks for. *)
Record features : Type := Features { metrics_feature : bool; jwt_auth_feature : bool; telemetry_feature : bool }.
Record stack_state (I : Type) : Type := StackState {
  prometheus_handle : bool;
  ratelimiter : option (string -> M W (Result rate_limit_result));
  audit_logger : option (audit_event -> M W (Result unit));
  i18n : option I;
}.

(** [build_cors_layer]; [AllowOrigin::list] panics on a list that contains
    the wildcard. *)
Inductive allow_origin : Type := AnyOrigin | Origins (l : list string).
Definition allow_origin_list (origins : list string) : outcome allow_origin :=
  if existsb (String.eqb "*") origins
  then Panic "Wildcard origin (`*`) cannot be passed to `AllowOrigin::list`. Use `AllowOrigin::any()` instead"
  else Ret (Origins origins).
Definition build_cors_layer (origins : list string) : outcome allow_origin :=
  if bool_decide (origins = ["*"]) then Ret AnyOrigin else allow_origin_list (omap to_str origins).

(** The layers of [tower-http], the layer of [http_metrics_middleware] (in
    [Telemetry]) and the rendering of the Prometheus exporter. *)
Variable trace_layer : handler -> handler.
Variable timeout_layer : Z -> handler -> handler.
Variable cors_layer : allow_origin -> handler -> handler.
Variable http_metrics : handler -> handler.
Variable render : handler.
Context {I : Type} `{!I18n I}.

Definition when (b : bool) {A} (x : A) : list A := if b then [x] else [].
Definition when_some {A B} (o : option A) (f : A -> B) : list B :=
  match o with Some a => [f a] | None => [] end.

(** The middlewares, with the names and orders of their [impl]s. *)
Definition metrics_router (e : string) : outcome R := route e [("GET", render)] new_router.
Definition add_metrics (e : string) (r : R) : outcome R :=
  metrics_route ← metrics_router e; r ← merge r metrics_route; add_layer http_metrics r.
Definition MetricsHttpMiddleware (e : string) := router_middleware "metrics" 10 (add_metrics e).
Definition AuthHttpMiddleware (s : auth_state) := layer_middleware "auth" 20 (auth_middleware s).
Definition RateLimitHttpMiddleware check strategy :=
  layer_middleware "rate_limit" 25 (rate_limit_middleware check strategy).
Definition TraceHttpMiddleware := layer_middleware "trace" 30 trace_layer.
Definition OtelHttpMiddleware := layer_middleware "otel" 35 otel_propagation_layer.
Definition RequestIdHttpMiddleware := layer_middleware "request_id" 40 request_id_layer.
Definition TimeoutHttpMiddleware (secs : Z) := layer_middleware "timeout" 50 (timeout_layer secs).
Definition AuditHttpMiddleware log := layer_middleware "audit" 55 (audit_middleware log).
Definition I18nErrorHttpMiddleware (i : I) := layer_middleware "i18n_error" 8 (i18n_error_middleware i).
Definition add_cors (origins : list string) (r : R) : outcome R :=
  origin ← build_cors_layer origins; add_layer (cors_layer origin) r.
Definition CorsHttpMiddleware (origins : list string) := router_middleware "cors" 60 (add_cors origins).

(** [builtin_http_middlewares], in the order it pushes them; [env] is
    [std::env::var], [f] the features compiled in: without [jwt-auth] an
    enabled authentication is ignored. *)
Definition auth_state_of (env : string -> option string) (m : middleware_config) : auth_state :=
  AuthState (default "" (env (jwt_secret_env m))) (auth_exclude_paths m).
Definition metrics_on (f : features) (mc : metrics_config) (st : stack_state I) : bool :=
  metrics_feature f && (metrics_enabled mc && prometheus_handle _ st).
Definition builtin_http_middlewares (f : features) (env : string -> option string) (m : middleware_config)
    (mc : metrics_config) (telemetry_enabled : bool) (st : stack_state I) : list http_middleware :=
  when (metrics_on f mc st) (MetricsHttpMiddleware (metrics_endpoint mc)) ++
  when (jwt_auth_feature f && auth_enabled m) (AuthHttpMiddleware (auth_state_of env m)) ++
  (if rate_limit_enabled m
   then when_some (ratelimiter _ st) (fun check => RateLimitHttpMiddleware check (key_strategy m)) else []) ++
  [TraceHttpMiddleware] ++
  when (telemetry_feature f && telemetry_enabled) OtelHttpMiddleware ++
  when (request_id_enabled m) RequestIdHttpMiddleware ++
  when (timeout_enabled m) (TimeoutHttpMiddleware (timeout_secs m)) ++
  when (cors_enabled m) (CorsHttpMiddleware (cors_allow_origins m)) ++
  when_some (audit_logger _ st) AuditHttpMiddleware ++
  when_some (i18n _ st) I18nErrorHttpMiddleware.

(** ** The stack is sorted *)

(** A list of middlewares whose names and orders are among the given ones. *)
Definition tag (m : http_middleware) : string * Z := (mw_name m, mw_order m).
Definition inner_first (f : features) (env : string -> option string) (m : middleware_config)
    (mc : metrics_config) (telemetry_enabled : bool) (st : stack_state I) : list http_middleware :=
  when_some (i18n _ st) I18nErrorHttpMiddleware ++
  when (metrics_on f mc st) (MetricsHttpMiddleware (metrics_endpoint mc)) ++
  when (jwt_auth_feature f && auth_enabled m) (AuthHttpMiddleware (auth_state_of env m)) ++
  (if rate_limit_enabled m
   then when_some (ratelimiter _ st) (fun check => RateLimitHttpMiddleware check (key_strategy m)) else []) ++
  [TraceHttpMiddleware] ++
  when (telemetry_feature f && telemetry_enabled) OtelHttpMiddleware ++
  when (request_id_enabled m) RequestIdHttpMiddleware ++
  when (timeout_enabled m) (TimeoutHttpMiddleware (timeout_secs m)) ++
  when_some (audit_logger _ st) AuditHttpMiddleware ++
  when (cors_enabled m) (CorsHttpMiddleware (cors_allow_origins m)).
Definition tags : list (string * Z) :=
  [("i18n_error", 8); ("metrics", 10); ("auth", 20); ("rate_limit", 25); ("trace", 30); ("otel", 35);
   ("request_id", 40); ("timeout", 50); ("audit", 55); ("cors", 60)].

Lemma inner_first_tags f env m mc telemetry st :
  (tag <$> inner_first f env m mc telemetry st) `sublist_of` tags.
Proof.
  assert (forall x (l1 l2 k : list (string * Z)), l1 = [x] \/ l1 = [] -> l2 `sublist_of` k ->
    (l1 ++ l2) `sublist_of` (x :: k)) as Hstep.
  { intros x l1 l2 k [-> | ->] Hk; simpl; [by apply sublist_skip|by apply sublist_cons]. }
  assert (forall b x, tag <$> when b x = [tag x] \/ tag <$> when b x = []) as Hw by (intros [] x; auto).
  unfold inner_first, tags. rewrite !fmap_app, <- (app_nil_r (tag <$> when (cors_enabled m) _)).
  repeat (apply Hstep; [first [apply Hw | unfold when_some; repeat case_match; auto]|]). done.
Qed.

Lemma inner_first_perm f env m mc telemetry st :
  builtin_http_middlewares f env m mc telemetry st ≡ₚ inner_first f env m mc telemetry st.
Proof. unfold builtin_http_middlewares, inner_first. solve_Permutation. Qed.

(** [axum::serve(listener, router)] hands the router each request as it was
    parsed: without [into_make_service_with_connect_info] nothing sets the
    peer's address among its extensions. *)
Definition serve (h : handler) (peer : string) (method path : string) (hs : headers) : M W response :=
  h (Request method path hs None None).

(** The stack as one function on routers, from the inside to the outside. *)
Definition opt_step (b : bool) (step : R -> outcome R) (r : R) : outcome R := if b then step r else Ret r.
Definition some_step {A} (o : option A) (step : A -> R -> outcome R) (r : R) : outcome R :=
  match o with Some a => step a r | None => Ret r end.
Definition inner (f : features) (mc : metrics_config) (st : stack_state I) (app : R) : outcome R :=
  r ← some_step (i18n _ st) (fun i => add_layer (i18n_error_middleware i)) app;
  opt_step (metrics_on f mc st) (add_metrics (metrics_endpoint mc)) r.
Definition nested (f : features) (env : string -> option string) (m : middleware_config)
    (mc : metrics_config) (telemetry_enabled : bool) (st : stack_state I) (app : R) : outcome R :=
  r ← inner f mc st app;
  r ← opt_step (jwt_auth_feature f && auth_enabled m) (add_layer (auth_middleware (auth_state_of env m))) r;
  r ← some_step (if rate_limit_enabled m then ratelimiter _ st else None)
        (fun check => add_layer (rate_limit_middleware check (key_strategy m))) r;
  r ← add_layer trace_layer r;
  r ← opt_step (telemetry_feature f && telemetry_enabled) (add_layer otel_propagation_layer) r;
  r ← opt_step (request_id_enabled m) (add_layer request_id_layer) r;
  r ← opt_step (timeout_enabled m) (add_layer (timeout_layer (timeout_secs m))) r;
  r ← some_step (audit_logger _ st) (fun log => add_layer (audit_middleware log)) r;
  opt_step (cors_enabled m) (add_cors (cors_allow_origins m)) r.

(** What it is around a handler of the router inside the authentication. *)
Definition opt_layer (b : bool) (l : handler -> handler) (h : handler) : handler :=
  if b then l h else h.
Definition some_layer {A} (o : option A) (l : A -> handler -> handler) (h : handler) : handler :=
  match o with Some a => l a h | None => h end.
Definition outer (f : features) (env : string -> option string) (m : middleware_config)
    (telemetry_enabled : bool) (st : stack_state I) (origin : allow_origin) (h : handler) : handler :=
  opt_layer (cors_enabled m) (cors_layer origin)
 (some_layer (audit_logger _ st) audit_middleware
 (opt_layer (timeout_enabled m) (timeout_layer (timeout_secs m))
 (opt_layer (request_id_enabled m) request_id_layer
 (opt_layer (telemetry_feature f && telemetry_enabled) otel_propagation_layer
 (trace_layer
 (some_layer (if rate_limit_enabled m then ratelimiter _ st else None)
    (fun check => rate_limit_middleware check (key_strategy m))
 (opt_layer (jwt_auth_feature f && auth_enabled m) (auth_middleware (auth_state_of env m)) h))))))).

(** ** Lemmas on the stack *)
Abbreviation apply_each := (Middleware.apply_each mw_apply).
Lemma apply_when b n o step ms r :
  apply_each (when b (router_middleware n o step) ++ ms) (IsRouter r) =
  (r ← opt_step b step r; apply_each ms (IsRouter r)).
Proof. destruct b; [|done]. simpl. by destruct (step r). Qed.
Lemma apply_when_some {A} (x : option A) n o (step : A -> R -> outcome R) ms r :
  apply_each (when_some x (fun a => router_middleware n o (step a)) ++ ms) (IsRouter r) =
  (r ← some_step x step r; apply_each ms (IsRouter r)).
Proof. destruct x as [a|]; [|done]. simpl. by destruct (step a r). Qed.
Lemma outcome_bind_assoc {A B C} (m : outcome A) (f : A -> outcome B) (g : B -> outcome C) :
  ((m ≫= f) ≫= g) = (m ≫= fun a => f a ≫= g).
Proof. by destruct m. Qed.
Lemma outcome_bind_ext {A B} (m : outcome A) (f g : A -> outcome B) : (forall a, f a = g a) -> (m ≫= f) = (m ≫= g).
Proof. intros H. destruct m; [apply H|done]. Qed.

Lemma apply_inner_first f env m mc telemetry st r :
  apply_each (inner_first f env m mc telemetry st) (IsRouter r) =
  (r ← nested f env m mc telemetry st r; Ret (Ok (IsRouter r))).
Proof.
  unfold inner_first, nested, inner.
  replace (if rate_limit_enabled m
           then when_some (ratelimiter _ st) (fun check => RateLimitHttpMiddleware check (key_strategy m))
           else [])
    with (when_some (if rate_limit_enabled m then ratelimiter _ st else None)
            (fun check => RateLimitHttpMiddleware check (key_strategy m))) by by destruct (rate_limit_enabled m).
  unfold I18nErrorHttpMiddleware, MetricsHttpMiddleware, AuthHttpMiddleware, RateLimitHttpMiddleware,
    OtelHttpMiddleware, RequestIdHttpMiddleware, TimeoutHttpMiddleware, AuditHttpMiddleware, CorsHttpMiddleware,
    TraceHttpMiddleware, layer_middleware.
  change [router_middleware "trace" 30 (add_layer trace_layer)] with
    (when true (router_middleware "trace" 30 (add_layer trace_layer))).
  rewrite <- (app_nil_r (when (cors_enabled m) _)).
  repeat first [rewrite apply_when_some | rewrite apply_when | rewrite outcome_bind_assoc
    | apply outcome_bind_ext; intros ?].
  done.
Qed.

Lemma opt_step_layer b l r r' meth p : opt_step b (add_layer l) r = Ret r' ->
  dispatch r' meth p = opt_layer b l (dispatch r meth p).
Proof using InsideR. destruct b; intros [= <-]; [apply dispatch_layer|done]. Qed.
Lemma some_step_layer {A} (o : option A) l r r' meth p :
  some_step o (fun a => add_layer (l a)) r = Ret r' -> dispatch r' meth p = some_layer o l (dispatch r meth p).
Proof using InsideR. destruct o; intros [= <-]; [apply dispatch_layer|done]. Qed.

(** The assembled stack, from the router inside the authentication. *)
Lemma nested_inv f env m mc telemetry st app r : nested f env m mc telemetry st app = Ret r ->
  exists i origin, inner f mc st app = Ret i /\
    (cors_enabled m = true -> build_cors_layer (cors_allow_origins m) = Ret origin) /\
    forall meth p, dispatch r meth p = outer f env m telemetry st origin (dispatch i meth p).
Proof using InsideR.
  unfold nested. intros (i & Hi & (r1 & H1 & (r2 & H2 & (r3 & H3 & (r4 & H4 & (r5 & H5 & (r6 & H6 & (r7 & H7 & H8
    )%outcome_bind_inv)%outcome_bind_inv)%outcome_bind_inv)%outcome_bind_inv)%outcome_bind_inv)%outcome_bind_inv)%outcome_bind_inv)%outcome_bind_inv.
  assert (forall meth p, dispatch r7 meth p = outer f env (MiddlewareConfig false (cors_allow_origins m) (request_id_enabled m)
    (timeout_enabled m) (timeout_secs m) (auth_enabled m) (jwt_secret_env m) (auth_exclude_paths m)
    (rate_limit_enabled m) (key_strategy m)) telemetry st AnyOrigin (dispatch i meth p)) as Hd.
  { intros meth p. rewrite (some_step_layer _ _ _ _ _ _ H7), (opt_step_layer _ _ _ _ _ _ H6), (opt_step_layer _ _ _ _ _ _ H5),
      (opt_step_layer _ _ _ _ _ _ H4). injection H3 as <-. rewrite dispatch_layer, (some_step_layer _ _ _ _ _ _ H2),
      (opt_step_layer _ _ _ _ _ _ H1). done. }
  unfold outer, opt_layer, opt_step, add_cors in *. destruct (cors_enabled m).
  - apply outcome_bind_inv in H8 as (origin & Ho & [= <-]). exists i, origin. split; [done|]. split; [done|].
    intros meth p. by rewrite dispatch_layer, Hd.
  - injection H8 as <-. by exists i, AnyOrigin.
Qed.

(** ** Requests the authentication refuses

    [oblivious P l]: on requests in [P], the layer [l] calls what it wraps
    only with requests in [P], so it cannot tell two handlers apart that agree
    there. *)
Definition oblivious (P : request -> Prop) (l : handler -> handler) : Prop :=
  forall h h', (forall req w, P req -> h req w = h' req w) -> forall req w, P req -> l h req w = l h' req w.

Definition auth_rejects (s : auth_state) (req : request) : Prop :=
  existsb (fun p => starts_with p (path req)) (exclude_paths s) = false /\
  forall token w, bearer_token req = Some token -> exists e, decode (secret s) token w = Err e.

Lemma bind_agree {A B} (m m' : M W A) (f f' : A -> M W B) w :
  m w = m' w -> (forall a w, f a w = f' a w) -> (m ≫= f) w = (m' ≫= f') w.
Proof. intros H Hf. unfold mbind, M_bind. rewrite H. by destruct (m' w) as [[a w']|]. Qed.

Lemma audit_oblivious P log : oblivious P (audit_middleware log).
Proof.
  intros h h' H req w HP. unfold audit_middleware. apply bind_agree; [done|]. intros start w1.
  apply bind_agree; [by apply H|done].
Qed.
Lemma request_id_oblivious P : oblivious P request_id_layer.
Proof. intros h h' H req w HP. unfold request_id_layer. apply bind_agree; [by apply H|done]. Qed.
Lemma rate_limit_oblivious P check strategy : oblivious P (rate_limit_middleware check strategy).
Proof.
  intros h h' H req w HP. unfold rate_limit_middleware. apply bind_agree; [done|].
  intros [r|e] w1; [|by apply H]. destruct (allowed r); [by apply H|done].
Qed.
Lemma otel_oblivious P : oblivious P otel_propagation_layer.
Proof. intros h h' H. apply H. Qed.
Lemma opt_oblivious P b l : oblivious P l -> oblivious P (opt_layer b l).
Proof. intros H. destruct b; [exact H|]. intros h h' Hh. exact Hh. Qed.
Lemma some_oblivious {A} P (o : option A) l : (forall a, oblivious P (l a)) -> oblivious P (some_layer o l).
Proof. intros H. destruct o as [a|]; [apply H|]. intros h h' Hh. exact Hh. Qed.

Lemma auth_rejected s app req w : auth_rejects s req ->
  exists code message, code ∈ [AuthTokenMissing; AuthTokenInvalid; AuthTokenExpired] /\
    auth_middleware s app req w = Ret (make_error_response code message, w).
Proof.
  intros [Hex Hdec]. unfold auth_middleware. rewrite Hex. destruct (bearer_token req) as [token|] eqn:E.
  - destruct (Hdec token w eq_refl) as [[kind text] He]. unfold gets, mbind, M_bind. rewrite He.
    eexists _, _. split; [|done]. case_decide; set_solver.
  - eexists _, _. split; [|done]. set_solver.
Qed.

Lemma auth_rejected_any s app app' req w : auth_rejects s req ->
  auth_middleware s app req w = auth_middleware s app' req w.
Proof.
  intros [Hex Hdec]. unfold auth_middleware. rewrite Hex. destruct (bearer_token req) as [token|] eqn:E; [|done].
  destruct (Hdec token w eq_refl) as [[kind text] He]. unfold gets, mbind, M_bind. by rewrite He.
Qed.

(** C21: with authentication enabled and compiled in, a request without a
    token the decoder accepts, on a path that is not excluded, gets the same
    answer and leaves the same world from every router assembled for that
    configuration, whatever the application, the metrics and the error
    translation inside the authentication are: they are never run.  The
    authentication answers 401 with one of its three error codes.  The layers
    that are not this program's are assumed to pass a request on with its path
    and headers. *)
Theorem rejected_request_never_reaches_app f env m mc mc' telemetry st i18n' app app' r r' req w :
  jwt_auth_feature f = true -> auth_enabled m = true -> auth_rejects (auth_state_of env m) req ->
  oblivious (auth_rejects (auth_state_of env m)) trace_layer ->
  oblivious (auth_rejects (auth_state_of env m)) (timeout_layer (timeout_secs m)) ->
  (forall origin, oblivious (auth_rejects (auth_state_of env m)) (cors_layer origin)) ->
  nested f env m mc telemetry st app = Ret r ->
  nested f env m mc' telemetry (StackState I (prometheus_handle _ st) (ratelimiter _ st) (audit_logger _ st) i18n')
    app' = Ret r' ->
  call r req w = call r' req w /\
  exists code message, http_status code = 401 /\
    forall next, auth_middleware (auth_state_of env m) next req w = Ret (make_error_response code message, w).
Proof using LawsR InsideR.
  intros Hf Hauth Hrej Htrace Htimeout Hcors (i & origin & _ & Ho & Hd)%nested_inv
    (i' & origin' & _ & Ho' & Hd')%nested_inv. split.
  - unfold call. rewrite Hd, Hd'. unfold outer. rewrite Hauth, Hf. cbn [andb opt_layer ratelimiter audit_logger].
    assert (opt_layer (cors_enabled m) (cors_layer origin) = opt_layer (cors_enabled m) (cors_layer origin')) as ->.
    { destruct (cors_enabled m); [|done]. rewrite Ho in Ho' by done. by injection (Ho' eq_refl) as ->. }
    apply (opt_oblivious _ _ _ (Hcors origin')); [|done]. apply some_oblivious; [apply audit_oblivious|].
    apply (opt_oblivious _ _ _ Htimeout). apply opt_oblivious; [apply request_id_oblivious|].
    apply opt_oblivious; [apply otel_oblivious|]. apply Htrace.
    apply some_oblivious; [intros check; apply rate_limit_oblivious|].
    intros req' w' Hrej'. by apply auth_rejected_any.
  - destruct (auth_rejected (auth_state_of env m) (fun req w => Panic "") req w Hrej) as (code & message & Hcode & Hans).
    exists code, message. split.
    + set_unfold. by destruct Hcode as [-> |[-> |[-> |[]]]].
    + intros next. by rewrite <- Hans, (auth_rejected_any _ _ (fun req w => Panic "") req w Hrej).
Qed.

(** Translating in the middleware and translating in the envelope agree:
    for an application error, the middleware rewrites the answer's body to
    exactly the envelope [ApiResponse::error_i18n] builds for the locale the
    request asks for, with the error's status. *)
Theorem error_translation_agrees (i : I) (e : app_error) req w :
  (forall r, exists text, to_vec (envelope_json r) = Some text /\ from_slice text = Some (envelope_json r)) ->
  i18n_error_middleware i (fun _ => mret (into_response e)) req w =
  Ret (json_response (http_status (err_code e))
         (error_i18n (I18n.t i) e (parse_accept_language (req_headers req))), w).
Proof.
  intros Hjson. unfold i18n_error_middleware, mbind, M_bind, mret, M_ret, into_response, json_response.
  assert (translate_body i (parse_accept_language (req_headers req)) (envelope_json (response_error e)) =
          envelope_json (error_i18n (I18n.t i) e (parse_accept_language (req_headers req)))) as Htb.
  { unfold translate_body, error_i18n, i18n_key. simpl. by case_decide. }
  destruct (Hjson (response_error e)) as (text & -> & Hparse).
  destruct (Hjson (error_i18n (I18n.t i) e (parse_accept_language (req_headers req)))) as (text' & Ht & _).
  rewrite <- Htb in Ht. rewrite <- Htb, Ht. cbv beta iota zeta.
  pose proof (http_status_is_error (err_code e)) as Hs. unfold is_success. cbn [status resp_headers body].
  destruct (http_status (err_code e) <? 300) eqn:E; [arith|]. rewrite andb_false_r, Hparse, Ht. done.
Qed.

(** The audit trail gets exactly one event per request, with the method,
    path, status, client address and outcome of the answer, which is handed
    back unchanged even when the event cannot be written. *)
Theorem audit_records_every_answer log next req w resp w' :
  audit_middleware log next req w = Ret (resp, w') <->
  exists w1 answer, next req w = Ret (resp, w1) /\
    log (audit_event_of (new_v4 w1) (wall_clock w1)
           (as_u64 (as_millis (duration_since (now_instant w1) (now_instant w)))) req resp) w1 =
      Ret (answer, w').
Proof.
  unfold audit_middleware, gets, mbind, M_bind. destruct (next req w) as [[r w1]|] eqn:E.
  - split.
    + destruct (log _ w1) as [[a w2]|] eqn:El; [|done]. intros [= -> ->]. by exists w1, a.
    + intros (w2 & a & [= -> ->] & El). by rewrite El.
  - split; [done|]. by intros (? & ? & ? & _).
Qed.

(** The per-address limit is one limit for everybody: served by this
    server, every request of every peer is counted under the same key, so once
    the limiter denies that key a request from any address is refused with
    429. *)
Theorem address_limit_is_shared check strategy app r w w' peer method path hs :
  strategy <> "global" -> strip_prefix "header:" strategy = None ->
  check "unknown" w = Ret (Ok r, w') -> allowed r = false ->
  serve (rate_limit_middleware check strategy app) peer method path hs w = Ret (too_many_requests r, w').
Proof.
  intros Hg Hh Hc Hr. unfold serve, rate_limit_middleware, extract_key.
  rewrite (proj2 (String.eqb_neq _ _) Hg), Hh. simpl. unfold mbind, M_bind. by rewrite Hc, Hr.
Qed.

(** ** [HttpServer::router] *)
Variable health_handler : handler.
Definition base_router (extra : option R) : outcome R :=
  r ← route "/health" [("GET", health_handler)] new_router;
  match extra with Some e => merge r e | None => Ret r end.
Definition router (extra : option R) (values : list http_middleware) : outcome (Result R) :=
  r ← base_router extra;
  match values with
  | [] => Ret (Ok r)
  | _ =>
      any ← apply_all values (IsRouter r);
      Ret match any with
          | Ok (IsRouter h) => Ok h
          | Ok NotRouter => fail Internal "middleware pipeline did not return axum::Router"
          | Err e => Err e
          end
  end.

(** The configurations and applications that panic while the server is
    assembled: an application with its own [GET /health]; metrics under a path
    without a slash or one that is taken; a wildcard among several origins. *)
Definition extra_keys (extra : option R) : list (string * string) :=
  match extra with Some e => keys (routes e) | None => [] end.
Definition ill_formed (f : features) (m : middleware_config) (mc : metrics_config) (st : stack_state I)
    (extra : option R) : Prop :=
  ("GET", "/health") ∈ extra_keys extra \/
  (metrics_on f mc st = true /\
     (starts_with "/" (metrics_endpoint mc) = false \/
      ("GET", metrics_endpoint mc) ∈ ("GET", "/health") :: extra_keys extra)) \/
  (cors_enabled m = true /\ cors_allow_origins m <> ["*"] /\ "*" ∈ cors_allow_origins m).

Lemma base_router_inv extra r : base_router extra = Ret r ->
  keys (routes r) = ("GET", "/health") :: extra_keys extra /\ NoDup (keys (routes r)).
Proof using LawsR.
  intros (r0 & (_ & H0 & Hnd)%routes_route & Hr)%outcome_bind_inv. rewrite routes_new in H0.
  destruct extra as [e|]; [|injection Hr as <-; by rewrite H0 in *].
  apply routes_merge in Hr as [Hr Hnd']. rewrite Hr, H0 in *. done.
Qed.
Lemma inner_inv f mc st app r : inner f mc st app = Ret r -> metrics_on f mc st = true ->
  starts_with "/" (metrics_endpoint mc) = true /\ ("GET", metrics_endpoint mc) ∉ keys (routes app).
Proof using LawsR.
  intros (r0 & Hi & Hr)%outcome_bind_inv Hm. rewrite Hm in Hr. cbn in Hr.
  assert (keys (routes r0) = keys (routes app)) as Hk.
  { destruct (i18n _ st); injection Hi as <-; [|done]. by rewrite routes_layer, keys_layered. }
  apply outcome_bind_inv in Hr as (mr & Hmr & Hr). apply routes_route in Hmr as (Hs & Hmr & _).
  rewrite routes_new in Hmr. split; [done|]. rewrite <- Hk.
  apply outcome_bind_inv in Hr as (r1 & [Hr1 Hnd]%routes_merge & _). rewrite Hr1, Hmr, keys_app in Hnd.
  apply NoDup_app in Hnd as (_ & Hd & _). intros Hin. apply (Hd _ Hin). by left.
Qed.
Lemma wildcard_panics origins : origins <> ["*"] -> "*" ∈ origins -> exists why, build_cors_layer origins = Panic why.
Proof.
  intros Hne Hin. unfold build_cors_layer, allow_origin_list. rewrite bool_decide_eq_false_2 by done.
  assert (existsb (String.eqb "*") (omap to_str origins) = true) as ->; [|by eexists].
  apply existsb_exists. exists "*". split; [|apply String.eqb_refl]. apply list_elem_of_In, list_elem_of_omap.
  by exists "*".
Qed.

(** Any enumeration of the registered middlewares is applied from the inside
    to the outside, and there is at least one. *)
Lemma sorted_stack f env m mc telemetry st values :
  values ≡ₚ (map_to_list (register_all mw_name
               (fun n => "http middleware '" +:+ n +:+ "' already registered")
               (builtin_http_middlewares f env m mc telemetry st) ∅)).*2 ->
  apply_all values = apply_each (inner_first f env m mc telemetry st) /\ values <> [].
Proof.
  intros Hv. pose proof (inner_first_tags f env m mc telemetry st) as Ht.
  pose proof (inner_first_perm f env m mc telemetry st) as Hp.
  assert (NoDup (mw_name <$> inner_first f env m mc telemetry st)) as Hn.
  { apply (sublist_NoDup _ tags.*1); [by apply (bool_decide_unpack _)|].
    change mw_name with (fst ∘ tag). by rewrite list_fmap_compose, Ht. }
  rewrite register_all_values in Hv by by rewrite Hp.
  split.
  - unfold apply_all, Middleware.apply_all, Middleware.sorted. f_equal. apply sort_by_key_unique.
    + by rewrite Hv.
    + apply (sublist_NoDup _ tags.*2); [by apply (bool_decide_unpack _)|].
      change mw_order with (snd ∘ tag). by rewrite list_fmap_compose, Ht.
    + apply (StronglySorted_key tag snd). eapply StronglySorted_sublist; [|exact Ht].
      unfold tags. repeat constructor; unfold key_le; simpl; lia.
  - intros ->. rewrite Hp in Hv. apply Permutation_nil in Hv. unfold inner_first in Hv.
    rewrite !app_nil in Hv. by destruct Hv as (_ & _ & _ & _ & [=] & _).
Qed.

End middlewares.

(** * Witnesses: a world that counts requests, a decoder that accepts one
    token, and a text form of the envelopes that can be read back. *)
Module HttpExamples.
#[local] Existing Instance FileI18n.file_i18n_instance.

Definition one : Ascii.ascii := Ascii.ascii_of_N 49.
Fixpoint unary (n : nat) : string := match n with O => "0" | S n => String one (unary n) end.
Fixpoint parse_unary (s : string) : nat * string :=
  match s with
  | EmptyString => (0%nat, "")
  | String c s => if Ascii.eqb c one then let '(n, r) := parse_unary s in (S n, r) else (0%nat, s)
  end.
Fixpoint split_at (n : nat) (s : string) : string * string :=
  match n, s with
  | S n, String c s => let '(a, b) := split_at n s in (String c a, b)
  | _, _ => ("", s)
  end.
Definition to_vec (j : json) : option string :=
  match j with
  | JObject [(_, JString c); (_, JNull); (_, JString m)] => Some (unary (String.length c) +:+ c +:+ m)
  | _ => None
  end.
Definition from_slice (s : string) : option json :=
  let '(n, r) := parse_unary s in
  let '(c, m) := split_at n r in
  Some (JObject [("code", JString c); ("data", JNull); ("message", JString m)]).

Lemma parse_unary_app n s : parse_unary (unary n +:+ s) = (n, s).
Proof. induction n as [|n IH]; [done|]. unfold String.app in *. simpl. by rewrite IH. Qed.
Lemma split_at_app a b : split_at (String.length a) (a +:+ b) = (a, b).
Proof. induction a as [|c a IH]; [by destruct b|]. unfold String.app in *. simpl. by rewrite IH. Qed.
Lemma envelopes_read_back r : exists text, to_vec (envelope_json r) = Some text /\
  from_slice text = Some (envelope_json r).
Proof.
  destruct r as [c d m]. eexists. split; [reflexivity|]. unfold from_slice. simpl.
  by rewrite parse_unary_app, split_at_app.
Qed.

Definition clock (w : Z) : Z := w.
Definition uuid (w : Z) : string := pretty w.
Definition decode (secret token : string) (w : Z) : result (jwt_error_kind * string) string :=
  if String.eqb token "good" then Ok "alice"
  else Err (if String.eqb token "old" then ExpiredSignature else OtherJwtError, "refused").
Definition app (text : string) : handler (W := Z) (claims := string) :=
  fun _ w => Ret (Response 200 [] (Some text), w + 1).
Definition config : middleware_config :=
  MiddlewareConfig true ["*"] true true 30 true "RINFRA_JWT_SECRET" ["/health"] true "ip".
Definition metrics : metrics_config := MetricsConfig true "/metrics".
Definition all_features : features := Features true true true.
Definition no_limit (key : string) : M Z (Result rate_limit_result) :=
  fun w => Ret (Ok (RateLimitResult (w <? 3) (Z.max 0 (3 - w)) (Some 1500)), w).
Definition log (e : audit_event) : M Z (Result unit) := fun w => Ret (Ok tt, w + 100).
Abbreviation a_handler := (handler (W := Z) (claims := string)).
Abbreviation a_router := (ListRouter.router a_handler (a_handler -> a_handler)).
Definition pass (h : a_handler) : a_handler := h.
Definition state : stack_state (W := Z) FileI18n.file_i18n :=
  StackState _ true (Some no_limit) (Some log) (Some FileI18n.loaded).

(** Routers that are lists of endpoints, with a fallback that answers 404. *)
#[local] Existing Instance ListRouter.list_router.
#[local] Existing Instance ListRouter.list_router_laws.
Definition not_found : a_handler := fun _ w => Ret (Response 404 [] (Some ""), w).
#[export] Instance list_service : RouterService a_handler a_router := ListRouter.list_dispatch not_found.
#[export] Instance list_service_inside : LayersRunInside a_handler a_router := ListRouter.list_dispatch_layer not_found.
Definition orders (text : string) : a_router := ListRouter.Router [Endpoint "GET" "/orders" (app text) []] [].

Definition mws (f : features) (m : middleware_config) : list (http_middleware (R := a_router)) :=
  builtin_http_middlewares clock clock uuid decode from_slice to_vec pass (fun _ => pass) (fun _ => pass) pass
    (app "series") f (fun _ => None) m metrics true state.
Definition values (f : features) (m : middleware_config) : list (http_middleware (R := a_router)) :=
  (map_to_list (register_all mw_name (fun n => "http middleware '" +:+ n +:+ "' already registered") (mws f m) ∅)).*2.
Definition stack (mc : metrics_config) (i : option FileI18n.file_i18n) (r : a_router) : outcome a_router :=
  nested clock clock uuid decode from_slice to_vec pass (fun _ => pass) (fun _ => pass) pass (app "series")
    all_features (fun _ => None) config mc true (StackState _ true (Some no_limit) (Some log) i) r.
Definition assembled (m : middleware_config) (extra : a_router) : outcome (Result a_router) :=
  router (app "healthy") (Some extra) (values all_features m).
Definition get (path : string) (auth : headers) : request string := Request "GET" path auth None None.
Definition anonymous : request string := get "/orders" [].
(** The status of the answer of what has been assembled. *)
Definition answer (r : outcome (Result a_router)) (req : request string) : option Z :=
  match r with
  | Ret (Ok r) => match call r req 0 with Ret (resp, _) => Some (status resp) | Panic _ => None end
  | _ => None
  end.
Example assembled_answers :
  map (answer (assembled config (orders "secret")))
    [get "/orders" [("authorization", "Bearer good")]; anonymous; get "/health" []; get "/metrics" [];
     get "/absent" []; get "/absent" [("authorization", "Bearer good")]] =
  [Some 200; Some 401; Some 200; Some 401; Some 401; Some 404].
Proof. vm_compute. reflexivity. Qed.

(** Two origins, one of them the wildcard. *)
Definition wild : middleware_config :=
  MiddlewareConfig true ["https://a.example"; "*"] true true 30 true "RINFRA_JWT_SECRET" ["/health"] true "ip".
Definition is_assembled {A} (x : outcome (Result A)) : bool := match x with Ret (Ok _) => true | _ => false end.
Lemma assembled_ok {A} (x : outcome (Result A)) : is_assembled x = true -> exists r, x = Ret (Ok r).
Proof. destruct x as [[r|e]|why]; [|done..]. by exists r. Qed.

Definition ret_or (d : a_router) (r : outcome a_router) : a_router := match r with Ret r => r | Panic _ => d end.
Definition is_ret {A} (r : outcome A) : bool := match r with Ret _ => true | Panic _ => false end.
Lemma ret_or_eq d r : is_ret r = true -> r = Ret (ret_or d r).
Proof. by destruct r. Qed.
Definition secret_site : a_router := ret_or (orders "") (stack metrics (Some FileI18n.loaded) (orders "secret")).
Definition public_site : a_router := ret_or (orders "") (stack (MetricsConfig false "") None (orders "public")).
Lemma rejected_request_never_reaches_app_witness :
  answer (Ret (Ok secret_site)) anonymous = Some 401 /\ call secret_site anonymous 0 = call public_site anonymous 0.
Proof.
  split; [vm_compute; reflexivity|].
  refine (proj1 (rejected_request_never_reaches_app clock clock uuid decode from_slice to_vec pass
    (fun _ => pass) (fun _ => pass) pass (app "series") all_features (fun _ => None) config
    metrics (MetricsConfig false "") true state None
    (orders "secret") (orders "public") secret_site public_site anonymous 0 _ _ _ _ _ _ _ _)).
  - reflexivity.
  - reflexivity.
  - split; [reflexivity|]. intros token w Ht. vm_compute in Ht. discriminate.
  - intros h h' H. exact H.
  - intros h h' H. exact H.
  - intros origin h h' H. exact H.
  - exact (ret_or_eq _ (stack metrics (Some FileI18n.loaded) (orders "secret")) eq_refl).
  - exact (ret_or_eq _ (stack (MetricsConfig false "") None (orders "public")) eq_refl).
Defined.

Lemma error_translation_agrees_witness :
  i18n_error_middleware from_slice to_vec FileI18n.loaded
    (fun _ => mret (into_response to_vec (new_error FileNotFound "a.txt"))) anonymous 0 =
  Ret (json_response to_vec 404 (ApiResponse "FILE_NOT_FOUND" None "{who}: no such file"), 0).
Proof.
  exact (error_translation_agrees from_slice to_vec FileI18n.loaded (new_error FileNotFound "a.txt")
    anonymous 0 envelopes_read_back).
Defined.

Definition deny_all (key : string) : M Z (Result rate_limit_result) :=
  fun w => Ret (Ok (RateLimitResult false 0 (Some 1500)), w + 1).
Lemma address_limit_is_shared_witness :
  serve (rate_limit_middleware to_vec deny_all "ip" (app "ok")) "10.0.0.8" "GET" "/" [] 7 =
  Ret (too_many_requests to_vec (RateLimitResult false 0 (Some 1500)), 8).
Proof.
  refine (address_limit_is_shared to_vec deny_all "ip" (app "ok") (RateLimitResult false 0 (Some 1500))
    7 8 "10.0.0.8" "GET" "/" [] _ _ _ _); [discriminate|reflexivity..].
Defined.
End HttpExamples.
