(* ===== verification/RateLimit.v ===== *)
(** Rate limiting: the interface's result is [HttpStack]'s; here the
    fixed-window limiter over Redis ([rinfra-plugins/src/ratelimit/redis_limiter.rs])
    and the in-memory token buckets ([rinfra-plugins/src/ratelimit/mod.rs]). *)

From Stdlib Require Import SpecFloat.
From S2P Require Import Prelude Errors HttpStack.

(** * The fixed-window limiter *)

(** What it uses of the server: [INCR], [EXPIRE] and [DEL] on counters.
    [entry r k] is what is stored under [k]: a count and the instant it
    expires at, if it does.  A command may fail, with or without having been
    applied. *)
Definition live (now : Z) (e : option (Z * option Z)) : option (Z * option Z) :=
  match e with
  | Some (c, Some t) => if now <? t then e else None
  | _ => e
  end.
Definition incremented (now : Z) (e : option (Z * option Z)) : Z * option Z :=
  match live now e with Some (c, t) => (c + 1, t) | None => (1, None) end.
Class RedisCounters (R : Type) : Type := {
  entry : R -> string -> option (Z * option Z);
  incr : Z -> string -> R -> result string Z * R;
  expire : Z -> string -> Z -> R -> result string unit * R;
  del : Z -> string -> R -> result string unit * R;
  incr_spec now k r a r' :
    incr now k r = (a, r') ->
    match a with
    | Ok c => c = fst (incremented now (entry r k)) /\ entry r' k = Some (incremented now (entry r k))
    | Err _ => entry r' k = entry r k \/ entry r' k = Some (incremented now (entry r k))
    end /\ forall k', k' <> k -> entry r' k' = entry r k';
  expire_spec now k secs r a r' :
    expire now k secs r = (a, r') ->
    (entry r' k = entry r k \/
     exists c t, live now (entry r k) = Some (c, t) /\ entry r' k = Some (c, Some (now + from_secs secs))) /\
    forall k', k' <> k -> entry r' k' = entry r k';
}.

Module RedisRateLimiter.
Section limiter.
Context {R : Type} `{!RedisCounters R}.

(** [struct RedisRateLimitConfig], [struct RedisRateLimiter] *)
Record config : Type := Config {
  enabled : bool;
  requests_per_second : Z;
  window_secs : Z;
}.
Record limiter : Type := Limiter { cfg : config; connected : bool; server : R }.

Definition with_server (r : R) (l : limiter) : limiter := Limiter (cfg l) (connected l) r.
Definition get_conn (l : limiter) : Result unit :=
  if connected l then Ok tt else fail CacheConnectionFailed "redis not connected".

(** [rate_key]: [now] is the wall clock. *)
Definition window (c : config) (now : Z) : Z := as_secs now / Z.max (window_secs c) 1.
Definition rate_key (c : config) (now : Z) (key : string) : string :=
  "rinfra:rl:" +:+ key +:+ ":" +:+ pretty (window c now).

(** [check] *)
Definition check (now : Z) (key : string) (l : limiter) : outcome (Result rate_limit_result * limiter) :=
  if negb (enabled (cfg l)) then Ret (fail RateLimitExceeded "redis rate limiter not enabled", l)
  else
    match get_conn l with
    | Err e => Ret (Err e, l)
    | Ok _ =>
        let rk := rate_key (cfg l) now key in
        let '(r, s) := incr now rk (server l) in
        match r with
        | Err e => Ret (fail Internal ("redis INCR failed: " +:+ e), with_server s l)
        | Ok count =>
            s ← (if count =? 1 then
                   ttl ← u64_add (Z.max (window_secs (cfg l)) 1) 1;
                   Ret (snd (expire now rk (as_i64 ttl) s))
                 else Ret s);
            limit ← u64_mul (requests_per_second (cfg l)) (Z.max (window_secs (cfg l)) 1);
            if count <=? limit
            then Ret (Ok (RateLimitResult true (u64_saturating_sub limit count) None), with_server s l)
            else
              retry ← u64_mul (Z.max (window_secs (cfg l)) 1) 1000;
              Ret (Ok (RateLimitResult false 0 (Some retry)), with_server s l)
        end
    end.

(** [reset] *)
Definition reset (now : Z) (key : string) (l : limiter) : Result unit * limiter :=
  if negb (enabled (cfg l)) then (fail RateLimitExceeded "redis rate limiter not enabled", l)
  else
    match get_conn l with
    | Err e => (Err e, l)
    | Ok _ =>
        let '(r, s) := del now (rate_key (cfg l) now key) (server l) in
        (map_err (fun e => new_error Internal ("redis DEL failed: " +:+ e)) r, with_server s l)
    end.

(** ** The keys of different windows and callers differ *)
Definition colon : Ascii.ascii := Ascii.ascii_of_N 58.
Lemma pretty_go_no_colon x s : has_char colon s = false -> has_char colon (pretty_N_go x s) = false.
Proof.
  revert s. induction (N.lt_wf_0 x) as [x _ IH]; intros s Hs.
  assert (x = 0 \/ 0 < x)%N as [->|Hx] by lia; [by rewrite pretty_N_go_0|].
  rewrite pretty_N_go_step by done. apply IH; [by apply N.div_lt|]. simpl. rewrite Hs, orb_false_r.
  unfold pretty_N_char. by repeat case_match.
Qed.
Lemma pretty_no_colon (z : Z) : has_char colon (pretty z) = false.
Proof.
  unfold pretty, pretty_Z, pretty, pretty_N. destruct z as [|p|p]; [done| |].
  - by apply pretty_go_no_colon.
  - rewrite (has_char_app colon "-"). simpl. by apply pretty_go_no_colon.
Qed.
Lemma colon_inj a b x y : has_char colon x = false -> has_char colon y = false ->
  a +:+ ":" +:+ x = b +:+ ":" +:+ y -> a = b /\ x = y.
Proof.
  intros Hx Hy. revert b. induction a as [|c a IH]; intros [|d b]; unfold String.app in *; simpl.
  - by intros [= ->].
  - intros [= <- ->]. change (has_char colon (b +:+ ":" +:+ y) = false) in Hx. rewrite !has_char_app in Hx. apply orb_false_iff in Hx as [_ Hx]. done.
  - intros [= -> <-]. change (has_char colon (a +:+ ":" +:+ x) = false) in Hy. rewrite !has_char_app in Hy. apply orb_false_iff in Hy as [_ Hy]. done.
  - intros [= -> H]. by destruct (IH b H) as [-> ->].
Qed.
Lemma str_app_inj (p a b : string) : p +:+ a = p +:+ b -> a = b.
Proof. unfold String.app. induction p as [|ch p IH]; simpl; [done|]. intros [= E]. by apply IH. Qed.

(** The counter of a key in a window. *)
Definition window_key (key : string) (n : Z) : string := "rinfra:rl:" +:+ key +:+ ":" +:+ pretty n.
Lemma window_key_inj key key' n n' : window_key key n = window_key key' n' -> key = key' /\ n = n'.
Proof.
  intros [-> H]%str_app_inj%colon_inj; [|apply pretty_no_colon..]. split; [done|].
  by apply (inj (pretty (A := Z))).
Qed.

(** ** Counting within a window *)

(** Checks in the order the server runs them, and the allowed ones among those
    of one key in one window. *)
Fixpoint run_checks (cs : list (Z * string)) (l : limiter) :
    outcome (list (Z * string * Result rate_limit_result) * limiter) :=
  match cs with
  | [] => Ret ([], l)
  | (now, key) :: cs =>
      r ← check now key l;
      rest ← run_checks cs (snd r);
      Ret ((now, key, fst r) :: fst rest, snd rest)
  end.
Definition allowed_in (c : config) (key : string) (n : Z) (x : Z * string * Result rate_limit_result) : bool :=
  let '(now, k, r) := x in
  String.eqb k key && (window c now =? n) && match r with Ok r => allowed r | Err _ => false end.
Definition window_end (c : config) (n : Z) : Z := from_secs ((n + 1) * Z.max (window_secs c) 1).

(** The counter of a window lasts until the window's end. *)
Definition lasting (c : config) (n : Z) (e : option (Z * option Z)) (count : Z) : Prop :=
  match e with
  | None => count = 0
  | Some (c', exp) => c' = count /\ 1 <= count /\ match exp with Some t => window_end c n <= t | None => True end
  end.

Lemma window_bounds c now n : window c now = n ->
  from_secs (n * Z.max (window_secs c) 1) <= now < window_end c n.
Proof.
  unfold window, window_end, as_secs, from_secs, nanos_per_sec. intros <-.
  set (w := Z.max (window_secs c) 1). assert (0 < w) by lia.
  pose proof (Z.mul_div_le (now / 1000000000) w). pose proof (Z.mul_succ_div_gt (now / 1000000000) w).
  pose proof (Z.mul_div_le now 1000000000). pose proof (Z.mul_succ_div_gt now 1000000000). nia.
Qed.

Lemma lasting_incremented c n now e count : lasting c n e count -> now < window_end c n ->
  exists exp, incremented now e = (count + 1, exp) /\
    match exp with Some t => window_end c n <= t | None => True end /\
    lasting c n (Some (incremented now e)) (count + 1) /\ 0 <= count /\ (count + 1 = 1 -> exp = None).
Proof.
  unfold lasting, incremented, live. intros He Hn. destruct e as [[c' [t|]]|].
  - destruct He as (-> & H1 & Ht). rewrite (proj2 (Z.ltb_lt now t)) by lia. eexists. split_and!; try done; lia.
  - destruct He as (-> & H1 & _). eexists. split_and!; try done; lia.
  - subst count. eexists. split_and!; done.
Qed.

Definition limit (c : config) : Z := requests_per_second c * Z.max (window_secs c) 1.

Lemma check_cfg now k l r l' : check now k l = Ret (r, l') -> cfg l' = cfg l.
Proof.
  unfold check. destruct (enabled (cfg l)); simpl; [|by intros [= _ <-]].
  destruct (get_conn l); [|by intros [= _ <-]]. destruct (incr _ _ _) as [[c|e] s]; [|by intros [= _ <-]].
  unfold mbind, outcome_bind. destruct (if c =? 1 then _ else _); [|done].
  destruct (u64_mul _ _); [|done]. case_match; [by intros [= _ <-]|].
  destruct (u64_mul _ _); [|done]. by intros [= _ <-].
Qed.

(** The expiry set on a new counter is past its window's end. *)
Lemma expire_lasting c n now e c' t : window c now = n -> Z.max (window_secs c) 1 < i64_max ->
  lasting c n e c' -> e = Some (c', t) ->
  lasting c n (Some (c', Some (now + from_secs (as_i64 (Z.max (window_secs c) 1 + 1))))) c'.
Proof.
  intros Hw Hmax He ->. destruct He as (_ & H1 & _). split_and!; [done|done|].
  pose proof (window_bounds c now n Hw) as [Hlo _].
  assert (as_i64 (Z.max (window_secs c) 1 + 1) = Z.max (window_secs c) 1 + 1) as ->.
  { unfold as_i64, i64_max in *. rewrite Z.mod_small; lia. }
  unfold window_end, from_secs, nanos_per_sec in *. lia.
Qed.

(** [check] in terms of what the server did. *)
Lemma check_inv now k l r l' :
  check now k l = Ret (r, l') ->
  (exists e, r = Err e) /\ l' = l \/
  exists a s, incr now (rate_key (cfg l) now k) (server l) = (a, s) /\
    match a with
    | Err _ => (exists e, r = Err e) /\ l' = with_server s l
    | Ok c => exists s', l' = with_server s' l /\
        (c <> 1 /\ s' = s \/
         s' = snd (expire now (rate_key (cfg l) now k) (as_i64 (Z.max (window_secs (cfg l)) 1 + 1)) s)) /\
        exists res, r = Ok res /\ (allowed res = true -> c <= limit (cfg l))
    end.
Proof.
  unfold check. destruct (enabled (cfg l)); simpl; [|intros [= <- <-]; left; unfold fail; eauto].
  destruct (get_conn l) as [u|e]; [|intros [= <- <-]; left; eauto].
  destruct (incr now _ _) as [[c|e] s]; [|intros [= <- <-]; right; exists (Err e), s; unfold fail; eauto].
  intros H. right. exists (Ok c), s. split; [done|].
  unfold mbind, outcome_bind in H. destruct (if c =? 1 then _ else _) as [s'|] eqn:Ex; [|done].
  unfold u64_mul at 1, checked in H. destruct (_ && _); [|done]. exists s'.
  fold (limit (cfg l)) in H. split.
  { destruct (c <=? limit (cfg l)); [by injection H as _ <-|]. destruct (u64_mul _ 1000); [|done].
    by injection H as _ <-. }
  split.
  - destruct (c =? 1) eqn:E; bools; [right|left; by injection Ex as ->].
    unfold u64_add, checked in Ex. destruct (_ && _); [|done]. by injection Ex as <-.
  - destruct (c <=? limit (cfg l)) eqn:E.
    + injection H as <- _. eexists. split; [reflexivity|]. intros _. by apply Z.leb_le.
    + destruct (u64_mul _ 1000); [|done]. injection H as <- _. by eexists.
Qed.

Lemma check_other_key key n now k l r l' :
  check now k l = Ret (r, l') -> window_key k (window (cfg l) now) <> window_key key n ->
  entry (server l') (window_key key n) = entry (server l) (window_key key n).
Proof.
  intros [[_ ->]|(a & s & Hi & Ha)]%check_inv Hk; [done|].
  apply incr_spec in Hi as [_ Hi]. specialize (Hi (window_key key n) (not_eq_sym Hk)).
  destruct a as [c|e]; [|by destruct Ha as [_ ->]]. destruct Ha as (s' & -> & [[_ ->]|Hs'] & _); [done|].
  simpl. rewrite Hs', <- Hi. destruct (expire _ _ _ s) as [b s''] eqn:Ee. apply expire_spec in Ee as [_ Ee].
  by apply Ee, not_eq_sym.
Qed.

Lemma check_same_key key count now l r l' :
  check now key l = Ret (r, l') -> Z.max (window_secs (cfg l)) 1 < i64_max ->
  let n := window (cfg l) now in
  lasting (cfg l) n (entry (server l) (window_key key n)) count ->
  exists count', lasting (cfg l) n (entry (server l') (window_key key n)) count' /\ count <= count' /\
    forall res, r = Ok res -> allowed res = true -> count + 1 <= count' <= limit (cfg l).
Proof.
  intros [[[e ->] ->]|(a & s & Hi & Ha)]%check_inv Hmax n Hl; [by exists count|].
  apply incr_spec in Hi as [Hi _]. change (rate_key (cfg l) now key) with (window_key key n) in *.
  destruct (lasting_incremented (cfg l) n now _ count Hl (proj2 (window_bounds _ _ _ eq_refl)))
    as (exp & Hinc & Hexp & Hlast & Hnn & Hone). rewrite Hinc in Hi, Hlast.
  destruct a as [c|e].
  - destruct Hi as [-> Hs]. destruct Ha as (s' & -> & Hs' & res & -> & Hallow). simpl in Hallow, Hs'. simpl server.
    exists (count + 1). split; [|split; [lia|]].
    2: { intros res' [= <-] Hr. specialize (Hallow Hr). lia. }
    destruct Hs' as [[_ ->]|Hs']; [by rewrite Hs|].
    destruct (expire _ _ _ s) as [b s''] eqn:Ee. simpl in Hs'. subst s''.
    destruct (expire_spec _ _ _ _ _ _ Ee) as [[-> | (c' & t & Hlv & ->)] _]; [by rewrite Hs|].
    rewrite Hs in Hlv. assert (c' = count + 1) as ->.
    { unfold live in Hlv. destruct exp as [t0|]; [destruct (now <? t0); [|done]|]; by injection Hlv as <- _. }
    by apply (expire_lasting (cfg l) n now (Some (count + 1, exp)) (count + 1) exp).
  - destruct Ha as [[e' ->] ->]. simpl. destruct Hi as [-> | ->].
    + by exists count.
    + exists (count + 1). split_and!; [done|lia|done].
Qed.

Lemma check_step key n count now k l r l' :
  check now k l = Ret (r, l') -> Z.max (window_secs (cfg l)) 1 < i64_max ->
  lasting (cfg l) n (entry (server l) (window_key key n)) count ->
  exists count', lasting (cfg l) n (entry (server l') (window_key key n)) count' /\ count <= count' /\
    (allowed_in (cfg l) key n (now, k, r) = true -> count + 1 <= count' <= limit (cfg l)).
Proof.
  intros Hc Hmax Hl.
  destruct (decide (window_key k (window (cfg l) now) = window_key key n)) as [[-> <-]%window_key_inj|Hk].
  - destruct (check_same_key _ _ _ _ _ _ Hc Hmax Hl) as (count' & H1 & H2 & H3). exists count'.
    split_and!; [done|done|]. unfold allowed_in. rewrite String.eqb_refl, Z.eqb_refl. simpl.
    destruct r as [res|e]; [|done]. by apply H3.
  - exists count. rewrite (check_other_key _ _ _ _ _ _ _ Hc Hk). split_and!; [done|lia|].
    unfold allowed_in. destruct (String.eqb_spec k key) as [->|]; [|done].
    destruct (Z.eqb_spec (window (cfg l) now) n) as [Hw|]; [|done]. by rewrite Hw in Hk.
Qed.

Lemma run_checks_bound key n cs count l out l' :
  run_checks cs l = Ret (out, l') -> Z.max (window_secs (cfg l)) 1 < i64_max -> 0 <= limit (cfg l) ->
  lasting (cfg l) n (entry (server l) (window_key key n)) count ->
  Z.of_nat (Prelude.count (allowed_in (cfg l) key n) out) <= Z.max 0 (limit (cfg l) - count).
Proof.
  revert count l out. induction cs as [|[now k] cs IH]; intros count l out; cbn [run_checks].
  { intros [= <- <-]. rewrite count_nil. lia. }
  unfold mbind, outcome_bind. destruct (check now k l) as [[r l1]|] eqn:Ec; [|done]. cbn [fst snd].
  destruct (run_checks cs l1) as [[rest l2]|] eqn:Er; [|done]. intros [= <- <-] Hmax Hlim Hl.
  destruct (check_step key n count now k l r l1 Ec Hmax Hl) as (count' & Hl1 & Hge & Ha).
  pose proof (check_cfg _ _ _ _ _ Ec) as Hcfg. rewrite <- Hcfg in Hl1, Hmax, Hlim.
  specialize (IH count' l1 rest Er Hmax Hlim Hl1). rewrite Hcfg in IH. rewrite count_cons. cbn [fst].
  destruct (allowed_in (cfg l) key n (now, k, r)); simpl Nat.b2n; [specialize (Ha eq_refl)|]; lia.
Qed.
End limiter.

(** The limit holds in every window across all processes: starting from a
    server without a counter for the window, however the checks of any keys
    interleave, whichever commands fail and whether or not they were applied,
    at most requests-per-second times the window's seconds checks of a key are
    allowed among those made in one window. *)
Theorem window_limit_holds {R} `{!RedisCounters R} key n cs l out l' :
  run_checks cs l = Ret (out, l') -> Z.max (window_secs (cfg l)) 1 < i64_max -> 0 <= limit (cfg l) ->
  entry (server l) (window_key key n) = None ->
  Z.of_nat (count (allowed_in (cfg l) key n) out) <= limit (cfg l).
Proof.
  intros Hrun Hmax Hlim Hnew.
  pose proof (run_checks_bound key n cs 0 l out l' Hrun Hmax Hlim) as H. rewrite Hnew in H.
  specialize (H eq_refl). lia.
Qed.

(** ** Witness: counters kept in a map *)
Abbreviation counters := (gmap string (Z * option Z)).
Definition map_incr (now : Z) (k : string) (m : counters) : result string Z * counters :=
  let e := incremented now (m !! k) in (Ok (fst e), <[k := e]> m).
Definition map_expire (now : Z) (k : string) (secs : Z) (m : counters) : result string unit * counters :=
  match live now (m !! k) with
  | Some (c, _) => (Ok tt, <[k := (c, Some (now + from_secs secs))]> m)
  | None => (Ok tt, m)
  end.
#[export] Program Instance map_counters : RedisCounters counters := {|
  entry m k := m !! k;
  incr := map_incr;
  expire := map_expire;
  del now k m := (Ok tt, delete k m);
|}.
Next Obligation.
  intros now k m a m' [= <- <-]. split; [by rewrite lookup_insert_eq|].
  intros k' Hk. by rewrite lookup_insert_ne.
Qed.
Next Obligation.
  intros now k secs m a m'. unfold map_expire. destruct (live now (m !! k)) as [[c t]|]; intros [= <- <-].
  - split; [right; exists c, t; by rewrite lookup_insert_eq|]. intros k' Hk. by rewrite lookup_insert_ne.
  - split; [by left|done].
Qed.

Definition fresh : limiter (R := counters) := Limiter (Config true 1 2) true ∅.
Definition calls : list (Z * string) :=
  [(from_secs 10, "a"); (from_secs 10, "b"); (from_secs 11, "a"); (from_secs 11, "a"); (from_secs 12, "a")].
Definition after_calls : list (Z * string * Result rate_limit_result) * limiter (R := counters) :=
  match run_checks calls fresh with Ret x => x | Panic _ => ([], fresh) end.

Lemma window_limit_holds_witness :
  count (allowed_in (cfg fresh) "a" 5) (fst after_calls) = 2%nat /\
  Z.of_nat (count (allowed_in (cfg fresh) "a" 5) (fst after_calls)) <= 2.
Proof.
  split; [vm_compute; reflexivity|].
  refine (window_limit_holds "a" 5 calls fresh (fst after_calls) (snd after_calls) _ _ _ _);
    [vm_compute; reflexivity|vm_compute; reflexivity|vm_compute; discriminate|reflexivity].
Defined.
End RedisRateLimiter.

(** * Token buckets *)
Module MemoryRateLimiter.

(** Rust's [f64]: [min], comparison and the saturating cast to [u64]. *)
Definition f64_add : spec_float -> spec_float -> spec_float := SFadd 53 1024.
Definition f64_sub : spec_float -> spec_float -> spec_float := SFsub 53 1024.
Definition f64_mul : spec_float -> spec_float -> spec_float := SFmul 53 1024.
Definition f64_div : spec_float -> spec_float -> spec_float := SFdiv 53 1024.
Definition f64_min (a b : spec_float) : spec_float :=
  match a, b with
  | S754_nan, _ => b
  | _, S754_nan => a
  | _, _ => if SFltb b a then b else a
  end.
Definition f64_as_u64 (f : spec_float) : Z :=
  match f with
  | S754_finite false m e => Z.min u64_max (if 0 <=? e then Z.pos m * 2 ^ e else Z.pos m / 2 ^ (- e))
  | S754_infinity false => u64_max
  | _ => 0
  end.
(** [Duration::as_secs_f64] *)
Definition as_secs_f64 (d : Z) : spec_float :=
  f64_add (as_f64 (d / nanos_per_sec)) (f64_div (as_f64 (d mod nanos_per_sec)) (as_f64 nanos_per_sec)).
Definition f64_one : spec_float := as_f64 1.

(** [struct TokenBucket], [new] and [try_consume] *)
Record token_bucket : Type := TokenBucket {
  tokens : spec_float;
  last_refill : Z;
  max_tokens : spec_float;
  refill_rate : spec_float;
}.
Definition new_bucket (now max_tokens refill_rate : Z) : token_bucket :=
  TokenBucket (as_f64 max_tokens) now (as_f64 max_tokens) (as_f64 refill_rate).
Definition try_consume (now : Z) (b : token_bucket) : rate_limit_result * token_bucket :=
  let elapsed := as_secs_f64 (duration_since now (last_refill b)) in
  let t := f64_min (f64_add (tokens b) (f64_mul elapsed (refill_rate b))) (max_tokens b) in
  if SFleb f64_one t then
    let t := f64_sub t f64_one in
    (RateLimitResult true (f64_as_u64 t) None, TokenBucket t now (max_tokens b) (refill_rate b))
  else
    let wait := f64_div (f64_sub f64_one t) (refill_rate b) in
    (RateLimitResult false 0 (Some (f64_as_u64 (f64_mul wait (as_f64 1000)))),
     TokenBucket t now (max_tokens b) (refill_rate b)).

(** [struct MemoryRateLimiter], [check] and [reset] *)
Record memory_rate_limiter : Type := MemoryLimiter {
  buckets : gmap string token_bucket;
  burst_size : Z;
  rps : Z;
}.
Definition new (burst rps : Z) : memory_rate_limiter := MemoryLimiter ∅ burst rps.
Definition check (now : Z) (key : string) (l : memory_rate_limiter) :
    rate_limit_result * memory_rate_limiter :=
  let bucket := default (new_bucket now (burst_size l) (rps l)) (buckets l !! key) in
  let '(r, b) := try_consume now bucket in
  (r, MemoryLimiter (<[key := b]> (buckets l)) (burst_size l) (rps l)).
Definition reset (key : string) (l : memory_rate_limiter) : memory_rate_limiter :=
  MemoryLimiter (delete key (buckets l)) (burst_size l) (rps l).

(** Checks of one key at the given instants, and which were allowed. *)
Fixpoint check_all (nows : list Z) (key : string) (l : memory_rate_limiter) : list bool :=
  match nows with
  | [] => []
  | now :: nows => let '(r, l) := check now key l in allowed r :: check_all nows key l
  end.
Example burst_then_refill :
  check_all [0; 0; 0; 0; from_millis 400; from_millis 500; from_millis 999; from_secs 60] "k" (new 3 2) =
  [true; true; true; false; false; true; false; true].
Proof. vm_compute. reflexivity. Qed.
End MemoryRateLimiter.
