(* ===== verification/HttpClient.v ===== *)
(** The outgoing HTTP client with its retries and its circuit breaker
    ([rinfra-core/src/http_client/mod.rs],
    [rinfra-plugins/src/http_client/reqwest_client.rs]). *)

From S2P Require Import Prelude Errors Resilience Tcp.

Module HttpClient.
Import CircuitBreaker.

(** ** Requests and responses *)

(** [enum HttpMethod] *)
Inductive http_method : Type := Get | Post | Put | Delete | Patch | Head | Options.
#[export] Instance http_method_eq_dec : EqDecision http_method.
Proof. solve_decision. Defined.

(** [struct HttpRequest] and its builders. *)
Record http_request : Type := HttpRequest {
  method : http_method;
  url : string;
  headers : gmap string string;
  body : bytes;
  timeout_secs : option Z;  (* u64 *)
}.

Definition new_request (m : http_method) (url : string) : http_request :=
  HttpRequest m url ∅ [] None.
Definition get_request (url : string) : http_request := new_request Get url.
Definition post_request (url : string) (body : bytes) : http_request :=
  HttpRequest Post url ∅ body None.
Definition header (r : http_request) (key value : string) : http_request :=
  HttpRequest (method r) (url r) (<[key := value]> (headers r)) (body r) (timeout_secs r).
Definition timeout (r : http_request) (secs : Z) : http_request :=
  HttpRequest (method r) (url r) (headers r) (body r) (Some secs).

(** [struct HttpResponse] *)
Record http_response : Type := HttpResponse {
  resp_status : Z;  (* u16 *)
  resp_headers : gmap string string;
  resp_body : bytes;
}.

(** [HttpResponse::is_success] *)
Definition is_success (r : http_response) : bool :=
  (200 <=? resp_status r) && (resp_status r <? 300).

(** ** What the HTTP library sees and answers *)

(** The request handed to [reqwest]: the method's name, the headers in the
    order the map yields them, a body unless it is empty, the overriding
    timeout. *)
Record wire_request : Type := WireRequest {
  w_method : string;
  w_url : string;
  w_headers : list (string * string);
  w_body : option bytes;
  w_timeout : option Z;  (* Duration *)
}.

(** The answer of [send().await]: an error, with whether it is a timeout, or
    a response whose header values are raw bytes and whose body may fail to
    arrive. *)
Inductive answer : Type :=
| SendFailed (is_timeout : bool) (text : string)
| Responded (status : Z) (headers : list (string * string)) (body : result string bytes).

Definition method_name (m : http_method) : string :=
  match m with
  | Get => "GET"
  | Post => "POST"
  | Put => "PUT"
  | Delete => "DELETE"
  | Patch => "PATCH"
  | Head => "HEAD"
  | Options => "OPTIONS"
  end.

(** The first half of [do_request]. *)
Definition wire (req : http_request) : wire_request :=
  WireRequest (method_name (method req)) (url req) (map_to_list (headers req))
    (if decide (body req = []) then None else Some (body req))
    (from_secs <$> timeout_secs req).

(** [struct ReqwestHttpClient]; the breaker's mutable part lives in the
    state shared with whoever else holds the breaker. *)
Record client : Type := Client {
  max_retries : Z;    (* u32 *)
  retry_delay : Z;    (* Duration *)
  breaker : option (string * config);
}.

(** [ReqwestHttpClient::new], given whether [reqwest] accepts the builder, and
    [with_circuit_breaker]. *)
Definition new (built : result string unit) (max_retries retry_delay_ms : Z) : Result client :=
  match built with
  | Err e => fail HttpRequestFailed ("failed to build HTTP client: " +:+ e)
  | Ok _ => Ok (Client max_retries (from_millis retry_delay_ms) None)
  end.
Definition with_circuit_breaker (c : client) (name : string) (cfg : config) : client :=
  Client (max_retries c) (retry_delay c) (Some (name, cfg)).

Section client.
(** The rest of the world, its clock, the network, the timer and the library's
    conversion of a header value to text ([HeaderValue::to_str]).  While a
    request is on the wire or the client sleeps, other tasks may use the
    breaker. *)
Context {W : Type} (now : W -> Z).
Abbreviation St := (internal_state * W)%type.
Context (send : wire_request -> M St answer) (sleep : Z -> M St unit).
Context (to_str : string -> option string).

(** [headers().iter().map(..).collect()] into a [HashMap]: a later entry of a
    name replaces an earlier one. *)
Definition collect_headers (l : list (string * string)) : gmap string string :=
  foldl (fun m kv => <[kv.1 := default "" (to_str kv.2)]> m) ∅ l.

(** The second half of [do_request]. *)
Definition interpret (req : http_request) (a : answer) : Result http_response :=
  match a with
  | SendFailed true _ => fail HttpTimeout ("HTTP request timed out: " +:+ url req)
  | SendFailed false e => fail HttpRequestFailed ("HTTP request failed: " +:+ e)
  | Responded status hs (Err e) =>
      fail HttpRequestFailed ("failed to read response body: " +:+ e)
  | Responded status hs (Ok b) => Ok (HttpResponse status (collect_headers hs) b)
  end.

(** [do_request] *)
Definition do_request (req : http_request) : M St (Result http_response) :=
  a ← send (wire req); mret (interpret req a).

(** The calls on the shared breaker. *)
Definition cb_allow (cfg : config) : M St bool := fun s =>
  let '(b, c) := allow_request cfg (now s.2) s.1 in Ret (b, (c, s.2)).
Definition cb_success (cfg : config) : M St unit := fun s =>
  c ← record_success cfg s.1; Ret (tt, (c, s.2)).
Definition cb_failure (cfg : config) : M St unit := fun s =>
  c ← record_failure cfg (now s.2) s.1; Ret (tt, (c, s.2)).

(** What an attempt's outcome tells the breaker: a 2xx response is a success,
    a 5xx response or an error a failure, any other response nothing. *)
Definition record (c : client) (r : Result http_response) : M St unit :=
  match breaker c with
  | None => mret tt
  | Some (_, cfg) =>
      match r with
      | Ok resp =>
          if is_success resp then cb_success cfg
          else if 500 <=? resp_status resp then cb_failure cfg
          else mret tt
      | Err _ => cb_failure cfg
      end
  end.

(** The retry loop of [request]: [n] attempts left, [first] on the first. *)
Fixpoint attempts_loop (c : client) (req : http_request) (n : nat) (first : bool)
    (last_err : option app_error) : M St (Result http_response) :=
  match n with
  | O =>
      match last_err with
      | Some e => mret (Err e)
      | None => fun _ => Panic "retry loop executed at least once"
      end
  | S n =>
      (if first then mret tt else sleep (retry_delay c)) ≫= fun _ =>
      do_request req ≫= fun r =>
      record c r ≫= fun _ =>
      match r with
      | Ok resp => mret (Ok resp)
      | Err e => attempts_loop c req n false (Some e)
      end
  end.

(** [self.max_retries + 1] *)
Definition attempts (c : client) : outcome Z := u32_add (max_retries c) 1.

(** [HttpClient::request] for [ReqwestHttpClient]: the check on the breaker,
    made once, then the loop. *)
Definition rejected_by (c : client) : M St (option string) :=
  match breaker c with
  | None => mret None
  | Some (name, cfg) => ok ← cb_allow cfg; mret (if ok : bool then None else Some name)
  end.
Definition request (c : client) (req : http_request) : M St (Result http_response) :=
  rejected_by c ≫= fun rejected =>
  match rejected with
  | Some name =>
      mret (fail CircuitBreakerOpen
        ("circuit breaker '" +:+ name +:+ "' is open, rejecting HTTP request to " +:+ url req))
  | None => n ← lift_outcome (attempts c); attempts_loop c req (Z.to_nat n) true None
  end.

(** The default methods [HttpClient::get] and [HttpClient::post]. *)
Definition get (c : client) (url : string) : M St (Result http_response) :=
  request c (get_request url).
Definition post (c : client) (url : string) (body : bytes) : M St (Result http_response) :=
  request c (post_request url body).

(** ** What a request does *)

(** The breaker's invariant, when the client has one. *)
Definition shared_inv (c : client) (s : St) : Prop :=
  match breaker c with None => True | Some (_, cfg) => breaker_inv cfg s.1 end.
Definition client_ok (c : client) : Prop :=
  in_u32 (max_retries c) /\
  match breaker c with None => True | Some (_, cfg) => config_ok cfg end.

(** The network and the timer return; the world keeps, for each client, the
    record of what it sent and was answered; the other users of the breaker
    keep its invariant. *)
Record network_ok (c : client) (log : W -> list (wire_request * answer)) : Prop := NetworkOk {
  net_send w s : shared_inv c s ->
    exists a s', send w s = Ret (a, s') /\ log s'.2 = log s.2 ++ [(w, a)] /\ shared_inv c s';
  net_sleep d s : shared_inv c s ->
    exists s', sleep d s = Ret (tt, s') /\ log s'.2 = log s.2 /\ shared_inv c s';
}.

(** Whether the breaker lets a request through. *)
Definition admitted (c : client) (s : St) : bool :=
  match breaker c with
  | None => true
  | Some (_, cfg) => (allow_request cfg (now s.2) s.1).1
  end.

Lemma record_returns c r s :
  client_ok c -> shared_inv c s ->
  exists s', record c r s = Ret (tt, s') /\ s'.2 = s.2 /\ shared_inv c s'.
Proof.
  unfold client_ok, shared_inv, record. intros [_ Hc] Hi.
  destruct (breaker c) as [[name cfg]|]; [|by exists s].
  assert (exists s', cb_failure cfg s = Ret (tt, s') /\ s'.2 = s.2 /\ breaker_inv cfg s'.1) as Hf.
  { destruct (record_failure_inv cfg Hc (now s.2) s.1 Hi) as (i & Hr & Hi').
    exists (i, s.2). unfold cb_failure. by rewrite Hr. }
  destruct r as [resp|e]; [|done].
  destruct (is_success resp); [|destruct (_ <=? _); [done|by exists s]].
  destruct (record_success_inv cfg Hc s.1 Hi) as (i & Hr & Hi').
  exists (i, s.2). unfold cb_success. by rewrite Hr.
Qed.

(** Failed answers, in order, and the one that ended the loop. *)
Definition failed (req : http_request) (a : answer) : Prop := is_ok (interpret req a) = false.

Lemma attempts_loop_step c req log n first last s :
  client_ok c -> network_ok c log -> shared_inv c s ->
  exists a s', log s'.2 = log s.2 ++ [(wire req, a)] /\ shared_inv c s' /\
    attempts_loop c req (S n) first last s =
      match interpret req a with
      | Ok resp => Ret (Ok resp, s')
      | Err e => attempts_loop c req n false (Some e) s'
      end.
Proof.
  intros Hc Hn Hs.
  assert (exists s1, (if first then mret tt else sleep (retry_delay c)) s = Ret (tt, s1) /\
      log s1.2 = log s.2 /\ shared_inv c s1) as (s1 & Hp & Hl1 & Hs1)
    by (destruct first; [by exists s|by apply (net_sleep _ _ Hn)]).
  destruct (net_send _ _ Hn (wire req) s1 Hs1) as (a & s2 & Ha & Hl2 & Hs2).
  destruct (record_returns c (interpret req a) s2 Hc Hs2) as (s3 & Hr & Hl3 & Hs3).
  exists a, s3. split; [by rewrite Hl3, Hl2, Hl1|]. split; [done|].
  cbn [attempts_loop]. rewrite (M_bind_ret _ _ _ _ _ Hp).
  assert (do_request req s1 = Ret (interpret req a, s2)) as Hd
    by (unfold do_request; by rewrite (M_bind_ret _ _ _ _ _ Ha)).
  rewrite (M_bind_ret _ _ _ _ _ Hd), (M_bind_ret _ _ _ _ _ Hr). by destruct (interpret req a).
Qed.

Lemma attempts_loop_spec c req log n first last s :
  client_ok c -> network_ok c log -> shared_inv c s ->
  exists fails a s',
    attempts_loop c req (S n) first last s = Ret (interpret req a, s') /\ shared_inv c s' /\
    log s'.2 = log s.2 ++ map (pair (wire req)) (fails ++ [a]) /\
    Forall (failed req) fails /\ (length fails <= n)%nat /\
    (failed req a -> length fails = n).
Proof.
  intros Hc Hn. revert first last s. induction n as [|n IH]; intros first last s Hs.
  all: edestruct (attempts_loop_step c req log) as (a & s1 & Hl1 & Hs1 & ->); [done..|].
  - exists [], a, s1. split; [by destruct (interpret req a)|]. by repeat split.
  - destruct (interpret req a) as [resp|e] eqn:Ei.
    + exists [], a, s1. rewrite Ei. split; [done|]. split; [done|]. split; [done|].
      split; [done|]. split; [simpl; lia|]. unfold failed. by rewrite Ei.
    + destruct (IH false (Some e) s1 Hs1) as (fails & b & s' & -> & Hs' & Hl' & Hf & Hlen & Hlast).
      exists (a :: fails), b, s'. split; [done|]. split; [done|].
      split; [by rewrite Hl', Hl1, <-app_assoc|].
      split; [constructor; [unfold failed; by rewrite Ei|done]|].
      simpl. split; [lia|]. intros H. by rewrite (Hlast H).
Qed.

Lemma rejected_by_spec c s :
  client_ok c -> shared_inv c s ->
  exists s', shared_inv c s' /\ s'.2 = s.2 /\
    rejected_by c s = Ret (match breaker c with
                           | Some (name, _) => if admitted c s then None else Some name
                           | None => None
                           end, s').
Proof.
  unfold shared_inv, client_ok, admitted, rejected_by. intros [_ Hc] Hs.
  destruct (breaker c) as [[name cfg]|]; [|by exists s].
  exists (maybe_transition_half_open cfg (now s.2) s.1, s.2).
  split; [by apply maybe_inv|]. done.
Qed.

(** An outgoing request always returns and asks the breaker exactly once.
    Refused, it sends nothing and answers the circuit-breaker error; let
    through, it sends the same request up to [max_retries + 1] times, each
    time the previous answer was an error, and returns the first answer that
    is none, whatever its status, or the last error: an error is only
    returned after all [max_retries + 1] attempts, even when the breaker has
    opened in the meantime. *)
Theorem request_retries_until_answered (c : client) (req : http_request)
    (log : W -> list (wire_request * answer)) (s : St) :
  client_ok c -> max_retries c < u32_max -> network_ok c log -> shared_inv c s ->
  exists r s', request c req s = Ret (r, s') /\ shared_inv c s' /\
    if admitted c s then
      exists fails a, r = interpret req a /\
        log s'.2 = log s.2 ++ map (pair (wire req)) (fails ++ [a]) /\
        Forall (failed req) fails /\ Z.of_nat (length fails) <= max_retries c /\
        (failed req a -> Z.of_nat (length fails) = max_retries c)
    else
      log s'.2 = log s.2 /\ exists e, r = Err e /\ err_code e = CircuitBreakerOpen.
Proof.
  intros Hc Hmax Hn Hs. destruct (rejected_by_spec c s Hc Hs) as (s1 & Hs1 & H2 & Hr).
  unfold request. rewrite (M_bind_ret _ _ _ _ _ Hr). unfold attempts.
  assert (Ha : u32_add (max_retries c) 1 = Ret (max_retries c + 1))
    by (destruct Hc as [[? ?] _]; apply u32_add_ret; arith).
  assert (Hlet : exists r s', lift_outcome (u32_add (max_retries c) 1) s1 = Ret (max_retries c + 1, s1) /\
    attempts_loop c req (Z.to_nat (max_retries c + 1)) true None s1 = Ret (r, s') /\
    shared_inv c s' /\ exists fails a, r = interpret req a /\
        log s'.2 = log s.2 ++ map (pair (wire req)) (fails ++ [a]) /\
        Forall (failed req) fails /\ Z.of_nat (length fails) <= max_retries c /\
        (failed req a -> Z.of_nat (length fails) = max_retries c)).
  { destruct Hc as [[H0 ?] Hc]. replace (Z.to_nat (max_retries c + 1)) with
      (S (Z.to_nat (max_retries c))) by lia.
    destruct (attempts_loop_spec c req log (Z.to_nat (max_retries c)) true None s1)
      as (fails & a & s' & He & Hs' & Hl & Hf & Hlen & Hlast); [done..|].
    exists (interpret req a), s'. split; [unfold lift_outcome; by rewrite Ha|]. split; [done|].
    split; [done|]. exists fails, a. rewrite Hl, H2. repeat split; [done|lia|].
    intros H'. rewrite (Hlast H'). lia. }
  unfold admitted in *. destruct (breaker c) as [[name cfg]|].
  - destruct (allow_request cfg (now s.2) s.1).1.
    + destruct Hlet as (r & s' & H1 & H3 & H4 & H5). rewrite (M_bind_ret _ _ _ _ _ H1). eauto 10.
    + eexists _, s1. split; [done|]. split; [done|]. split; [by rewrite H2|]. by eexists.
  - destruct Hlet as (r & s' & H1 & H3 & H4 & H5). rewrite (M_bind_ret _ _ _ _ _ H1). eauto 10.
Qed.

(** ** What a failing request costs the breaker *)

Lemma failing_loop_feeds c name cfg req n first last s e s' :
  breaker c = Some (name, cfg) ->
  (forall w, preserves fst (send w)) -> (forall d, preserves fst (sleep d)) ->
  attempts_loop c req n first last s = Ret (Err e, s') ->
  exists ts, length ts = n /\ run_calls cfg (CallFailure <$> ts) s.1 = Ret s'.1.
Proof.
  intros Hb Hsend Hsleep. revert first last s. induction n as [|n IH]; intros first last s.
  - cbn [attempts_loop]. destruct last; [intros [= _ <-]; by exists []|done].
  - cbn [attempts_loop]. intros (? & s1 & H1 & (r & s2 & H2 & (? & s3 & H3 & H4)%M_bind_inv)%M_bind_inv)%M_bind_inv.
    assert (s1.1 = s.1) as E1 by (destruct first; [by injection H1 as _ <-|by eapply Hsleep]).
    assert (s2.1 = s1.1) as E2.
    { unfold do_request in H2. apply M_bind_inv in H2 as (a & s5 & H5 & [= _ <-]).
      by eapply Hsend. }
    destruct r as [resp|e']; [by injection H4|].
    unfold record in H3. rewrite Hb in H3. unfold cb_failure in H3. rewrite E2, E1 in H3.
    destruct (record_failure cfg (now s2.2) s.1) as [i|] eqn:Er; [|done].
    injection H3 as _ <-. destruct (IH _ _ _ H4) as (ts & Hlen & Hts).
    exists (now s2.2 :: ts). split; [simpl; by rewrite Hlen|]. simpl. by rewrite Er.
Qed.

(** A request that fails counts as [max_retries + 1] consecutive failures
    of the breaker, one per attempt and none for the request itself; a closed
    breaker that has not that many failures left is open when the request
    returns, although a single call of the program failed. *)
Theorem failed_request_counts_every_attempt (c : client) (name : string) (cfg : config)
    (req : http_request) (s s' : St) (e : app_error) :
  breaker c = Some (name, cfg) -> 0 <= max_retries c ->
  (forall w, preserves fst (send w)) -> (forall d, preserves fst (sleep d)) ->
  status s.1 = Closed -> request c req s = Ret (Err e, s') ->
  exists ts, Z.of_nat (length ts) = max_retries c + 1 /\
    run_calls cfg (CallFailure <$> ts) s.1 = Ret s'.1 /\
    (failure_threshold cfg <= failure_count s.1 + (max_retries c + 1) -> status s'.1 = Open).
Proof.
  intros Hb H0 Hsend Hsleep Hst Hr. unfold request in Hr.
  apply M_bind_inv in Hr as (rej & s1 & H1 & H2).
  unfold rejected_by, cb_allow, allow_request, maybe_transition_half_open in H1.
  rewrite Hb in H1. unfold mbind, M_bind in H1. rewrite Hst in H1. simpl in H1.
  rewrite Hst in H1. injection H1 as <- <-. simpl in H2.
  apply M_bind_inv in H2 as (n & s2 & H3 & H4). unfold lift_outcome, attempts, u32_add, checked in H3.
  destruct (_ && _); [|done]. injection H3 as <- <-.
  destruct (failing_loop_feeds _ _ _ _ _ _ _ _ _ _ Hb Hsend Hsleep H4) as (ts & Hlen & Hts).
  exists ts. split; [lia|]. split; [done|]. intros Hle.
  apply (failures_trip cfg ts s.1); [done|lia|lia|done].
Qed.

(** With [max_retries] at the largest [u32] the number of attempts
    overflows: every request the breaker lets through panics before anything
    is sent. *)
Theorem retry_count_overflows (c : client) (req : http_request) (s : St) :
  max_retries c = u32_max -> admitted c s = true ->
  exists why, request c req s = Panic why.
Proof.
  intros Hm Ha. unfold request, rejected_by, attempts, admitted in *. rewrite Hm.
  unfold mbind, M_bind, cb_allow in *.
  destruct (breaker c) as [[name cfg]|]; [|by eexists].
  destruct (allow_request cfg (now s.2) s.1) as [b i]. simpl in *. subst b. by eexists.
Qed.
End client.

(** ** A concrete network *)

(** A world that answers from a script, then with a refusal, and records what
    it was asked; its clock moves only while the client sleeps. *)
Record script : Type := Script {
  clock : Z;
  answers : list answer;
  seen : list (wire_request * answer);
}.
Definition script_send (w : wire_request) : M (internal_state * script) answer := fun s =>
  let a := default (SendFailed false "refused") (head (answers s.2)) in
  Ret (a, (s.1, Script (clock s.2) (tail (answers s.2)) (seen s.2 ++ [(w, a)]))).
Definition script_sleep (d : Z) : M (internal_state * script) unit := fun s =>
  Ret (tt, (s.1, Script (clock s.2 + d) (answers s.2) (seen s.2))).

Definition example_client : client :=
  with_circuit_breaker (Client 3 (from_millis 100) None) "api" default_config.
Definition example_start : internal_state * script :=
  (CircuitBreaker.new, Script 0 [SendFailed true "t"; SendFailed false "x";
     Responded 404 [("a", "1"); ("a", "2")] (Ok [])] []).
Definition example_request : http_request := header (get_request "http://x") "h" "v".

Example two_failures_then_404 :
  exists s', request clock script_send script_sleep Some example_client example_request example_start =
    Ret (Ok (HttpResponse 404 {["a" := "2"]} []), s') /\ clock s'.2 = from_millis 200 /\
    failure_count s'.1 = 2.
Proof. eexists. split; [vm_compute; reflexivity|]. split; vm_compute; reflexivity. Qed.

Lemma script_network c : network_ok script_send script_sleep c seen.
Proof.
  split; unfold shared_inv.
  - intros w s Hs. eexists _, _. split; [done|]. done.
  - intros d s Hs. eexists. split; [done|]. done.
Qed.

Lemma request_retries_until_answered_witness :
  exists r s', request clock script_send script_sleep Some example_client example_request example_start =
    Ret (r, s') /\ shared_inv example_client s' /\
    if admitted clock example_client example_start then
      exists fails a, r = interpret Some example_request a /\
        seen s'.2 = [] ++ map (pair (wire example_request)) (fails ++ [a]) /\
        Forall (failed Some example_request) fails /\ Z.of_nat (length fails) <= 3 /\
        (failed Some example_request a -> Z.of_nat (length fails) = 3)
    else seen s'.2 = [] /\ exists e, r = Err e /\ err_code e = CircuitBreakerOpen.
Proof.
  apply (request_retries_until_answered clock script_send script_sleep Some
    example_client example_request seen example_start).
  - repeat split; vm_compute; discriminate.
  - vm_compute; reflexivity.
  - apply script_network.
  - vm_compute. repeat split; discriminate.
Defined.

Definition refusing_start : internal_state * script :=
  (InternalState Closed 1 0 (Some 0), Script 0 [] []).
Definition refusing_end : internal_state * script :=
  (InternalState Open 5 0 (Some (from_millis 300)),
   Script (from_millis 300) [] (replicate 4 (wire example_request, SendFailed false "refused"))).

Lemma failed_request_counts_every_attempt_witness :
  exists ts, Z.of_nat (length ts) = 3 + 1 /\
    run_calls default_config (CallFailure <$> ts) refusing_start.1 = Ret refusing_end.1 /\
    (5 <= 1 + (3 + 1) -> status refusing_end.1 = Open).
Proof.
  apply (failed_request_counts_every_attempt clock script_send script_sleep Some
    example_client "api" default_config example_request refusing_start refusing_end
    (new_error HttpRequestFailed "HTTP request failed: refused")).
  - reflexivity.
  - vm_compute; discriminate.
  - intros w s a s' [= _ <-]. reflexivity.
  - intros d s a s' [= _ <-]. reflexivity.
  - reflexivity.
  - vm_compute; reflexivity.
Defined.

Lemma retry_count_overflows_witness :
  exists why, request clock script_send script_sleep Some (Client u32_max 0 None) example_request
    example_start = Panic why.
Proof. apply retry_count_overflows; reflexivity. Defined.
End HttpClient.
