(* ===== verification/Tasks.v ===== *)
(** Asynchronous functions as resumptions: what an [async fn] does between two
    await points is one atomic step on the shared state, and tasks that run
    concurrently are interleaved at those points. *)

From S2P Require Import Prelude.

(** A task has returned, or performs a computation on the shared state and
    goes on with its result. *)
Inductive task (S A : Type) : Type :=
| Done (a : A)
| Await {X : Type} (m : M S X) (k : X -> task S A).
Arguments Done {S A} a.
Arguments Await {S A X} m k.

Fixpoint task_mbind {S A B} (f : A -> task S B) (t : task S A) : task S B :=
  match t with
  | Done a => f a
  | Await m k => Await m (fun x => task_mbind f (k x))
  end.
#[export] Instance task_ret S : MRet (task S) := fun A a => Done a.
#[export] Instance task_bind S : MBind (task S) := fun A B f t => task_mbind f t.

(** One library call, awaited. *)
Definition await {S A} (m : M S A) : task S A := Await m (fun a => Done a).

(** A task run without interruption. *)
Fixpoint run {S A} (t : task S A) : M S A :=
  match t with
  | Done a => mret a
  | Await m k => m ≫= fun x => run (k x)
  end.

(** [t?] followed by the rest of a function that returns a [Result]. *)
Definition try_await {S E A B} (t : task S (result E A)) (k : A -> task S (result E B)) :
    task S (result E B) :=
  t ≫= fun r => match r with Ok a => k a | Err e => mret (Err e) end.

(** Tasks in flight on one state; a scheduler picks the next to advance.
    Picking a finished task or none changes nothing. *)
Definition advance {S A} (i : nat) (p : list (task S A) * S) : outcome (list (task S A) * S) :=
  match p.1 !! i with
  | Some (Await m k) =>
      match m p.2 with
      | Ret (x, s) => Ret (<[i := k x]> p.1, s)
      | Panic w => Panic w
      end
  | _ => Ret p
  end.
Fixpoint interleave {S A} (schedule : list nat) (p : list (task S A) * S) :
    outcome (list (task S A) * S) :=
  match schedule with
  | [] => Ret p
  | i :: schedule => p ← advance i p; interleave schedule p
  end.

(** A task on one half of a state. *)
Fixpoint on_fst {S T A} (t : task S A) : task (S * T) A :=
  match t with
  | Done a => Done a
  | Await m k =>
      Await (fun st => '(x, s) ← m st.1; Ret (x, (s, st.2))) (fun x => on_fst (k x))
  end.
Fixpoint on_snd {S T A} (t : task T A) : task (S * T) A :=
  match t with
  | Done a => Done a
  | Await m k =>
      Await (fun st => '(x, s) ← m st.2; Ret (x, (st.1, s))) (fun x => on_snd (k x))
  end.

Lemma run_bind {S A B} (f : A -> task S B) (t : task S A) s :
  run (t ≫= f) s = (run t ≫= fun a => run (f a)) s.
Proof.
  revert s. induction t as [a|X m k IH]; intros s; [done|].
  change (run (Await m k ≫= f) s) with ((m ≫= fun x => run (k x ≫= f)) s).
  simpl. unfold mbind, M_bind. destruct (m s) as [[x s']|w]; [|done]. apply IH.
Qed.

Lemma run_try_await {S E A B} (t : task S (result E A)) (k : A -> task S (result E B)) s r s' :
  run t s = Ret (r, s') ->
  run (try_await t k) s = match r with Ok a => run (k a) s' | Err e => Ret (Err e, s') end.
Proof.
  intros H. unfold try_await. rewrite run_bind, (M_bind_ret _ _ _ _ _ H). by destruct r.
Qed.

Lemma run_bind_inv {S A B} (f : A -> task S B) (t : task S A) s r :
  run (t ≫= f) s = Ret r -> exists a s', run t s = Ret (a, s') /\ run (f a) s' = Ret r.
Proof. rewrite run_bind. apply M_bind_inv. Qed.

Lemma run_ret_inv {S A} (a b : A) (s s' : S) : run (mret a) s = Ret (b, s') -> b = a /\ s' = s.
Proof. by intros [= <- <-]. Qed.

Lemma run_await_inv {S A} (m : M S A) s r : run (await m) s = Ret r -> m s = Ret r.
Proof. simpl. intros (a & s' & -> & [= <-])%M_bind_inv. done. Qed.

(** Taking apart a finished run, one call at a time. *)
Ltac run_inv :=
  repeat match goal with
    | H : run (try_await _ _) _ = Ret _ |- _ => unfold try_await in H
    | H : run (_ ≫= _) _ = Ret _ |- _ =>
        let H1 := fresh H in apply run_bind_inv in H as (? & ? & H1 & H)
    | H : run (mret _) _ = Ret (_, _) |- _ => apply run_ret_inv in H as [? ?]; subst
    | H : run (match ?x with _ => _ end) _ = Ret _ |- _ => destruct x eqn:?; simplify_eq
    end.

(** A task that leaves an observation of the state unchanged. *)
Definition keeps {S X A} (obs : S -> X) (t : task S A) : Prop := preserves obs (run t).

Lemma keeps_ret {S X A} (obs : S -> X) (a : A) : keeps obs (mret a : task S A).
Proof. apply preserves_ret. Qed.
Lemma keeps_bind {S X A B} (obs : S -> X) (t : task S A) (f : A -> task S B) :
  keeps obs t -> (forall a, keeps obs (f a)) -> keeps obs (t ≫= f).
Proof.
  intros Ht Hf s b s' (a & s1 & H1 & H2)%run_bind_inv. rewrite (Hf _ _ _ _ H2). by eapply Ht.
Qed.
Lemma keeps_try {S X E A B} (obs : S -> X) (t : task S (result E A)) (k : A -> task S (result E B)) :
  keeps obs t -> (forall a, keeps obs (k a)) -> keeps obs (try_await t k).
Proof. intros Ht Hk. apply keeps_bind; [done|]. intros [a|e]; [apply Hk|apply keeps_ret]. Qed.
#[export] Hint Resolve keeps_ret keeps_bind keeps_try : rinfra.

(** From a run of a task to what the task keeps, which is left to prove. *)
Ltac kept obs H :=
  match type of H with
  | run ?t _ = _ => let K := fresh in assert (keeps obs t) as K; [|apply K in H; clear K]
  end.

(** Every step of a task that is taken where [I] holds leads to where [I]
    holds again, and is one that [T] allows. *)
Fixpoint stays {S A} (I : S -> Prop) (T : S -> S -> Prop) (t : task S A) : Prop :=
  match t with
  | Done _ => True
  | Await m k => forall s x s', I s -> m s = Ret (x, s') -> I s' /\ T s s' /\ stays I T (k x)
  end.
Lemma stays_ret {S A} I T (a : A) : stays I T (mret a : task S A).
Proof. done. Qed.
Lemma stays_await {S A} I T (m : M S A) :
  (forall s x s', I s -> m s = Ret (x, s') -> I s' /\ T s s') -> stays I T (await m).
Proof. intros H s x s' Hi Hm. destruct (H s x s' Hi Hm). by split_and!. Qed.
Lemma stays_bind {S A B} I T (t : task S A) (f : A -> task S B) :
  stays I T t -> (forall a, stays I T (f a)) -> stays I T (t ≫= f).
Proof.
  intros Ht Hf. induction t as [a|X m k IH]; simpl; [apply Hf|]. intros s x s' Hi Hm.
  destruct (Ht s x s' Hi Hm) as (? & ? & Hk). split_and!; [done..|]. by apply IH.
Qed.
Lemma stays_try {S E A B} I T (t : task S (result E A)) (k : A -> task S (result E B)) :
  stays I T t -> (forall a, stays I T (k a)) -> stays I T (try_await t k).
Proof. intros Ht Hk. apply stays_bind; [done|]. intros [a|e]; [apply Hk|done]. Qed.
Create HintDb stays.
#[export] Hint Resolve stays_ret stays_bind stays_try : stays.

Lemma advance_stays {S A} I T i (p p' : list (task S A) * S) :
  Forall (stays I T) p.1 -> I p.2 -> advance i p = Ret p' ->
  Forall (stays I T) p'.1 /\ I p'.2 /\ (p'.2 = p.2 \/ T p.2 p'.2).
Proof.
  intros Hp Hi. unfold advance. destruct (p.1 !! i) as [[a|X m k]|] eqn:E;
    [intros [= <-]; split_and!; [done|done|by left]| |intros [= <-]; split_and!; [done|done|by left]].
  destruct (m p.2) as [[x s]|w] eqn:Em; [|done]. intros [= <-]. simpl.
  pose proof (proj1 (Forall_lookup _ _) Hp i _ E) as Ht. destruct (Ht _ _ _ Hi Em) as (? & ? & ?).
  split_and!; [by apply Forall_insert|done|by right].
Qed.
