(* ===== verification/Paths.v ===== *)
(** [std::path] on Unix, as far as the file store and the admin backend use
    it: a path is its string, its components are what the standard library
    iterates over. *)

From S2P Require Import Prelude.

Definition slash : Ascii.ascii := Ascii.ascii_of_N 47.
Definition dot : Ascii.ascii := Ascii.ascii_of_N 46.

(** [s.split(c)] *)
Fixpoint split_on (c : Ascii.ascii) (s : string) : list string :=
  match s with
  | EmptyString => [""]
  | String a s =>
      if Ascii.eqb a c then "" :: split_on c s
      else match split_on c s with
           | p :: ps => String a p :: ps
           | [] => [String a ""]
           end
  end.

(** ** Components *)
Inductive component : Type := RootDir | CurDir | ParentDir | Normal (name : string).
#[export] Instance component_eq_dec : EqDecision component.
Proof. solve_decision. Defined.

(** Empty pieces and [.] are no components of a path's body. *)
Definition is_comp (p : string) : bool := negb (bool_decide (p = "") || bool_decide (p = ".")).
Definition comp_of (p : string) : component := if bool_decide (p = "..") then ParentDir else Normal p.
Definition body (parts : list string) : list component :=
  map comp_of (filter (fun p => is_comp p = true) parts).

Definition is_absolute (p : string) : bool := starts_with "/" p.
(** A leading [.] of a relative path is a component. *)
Definition has_cur_dir (p : string) : bool :=
  match split_on slash p with "." :: _ => true | _ => false end.
Definition components (p : string) : list component :=
  (if is_absolute p then [RootDir] else if has_cur_dir p then [CurDir] else []) ++
  body (split_on slash p).

(** [Path::join] *)
Definition path_join (base p : string) : string :=
  if is_absolute p then p
  else match last_char base with
       | None => p
       | Some c => if Ascii.eqb c slash then base +:+ p else base +:+ "/" +:+ p
       end.

(** Trimming what is no component from the ends of a list of pieces. *)
Fixpoint trim_left (parts : list string) : list string :=
  match parts with
  | [] => []
  | p :: ps => if is_comp p then p :: ps else trim_left ps
  end.
Definition trim_right (parts : list string) : list string := reverse (trim_left (reverse parts)).
(** The pieces after [n] components. *)
Fixpoint drop_comps (n : nat) (parts : list string) : list string :=
  match n, parts with
  | O, _ => parts
  | _, [] => []
  | S n', p :: ps => if is_comp p then drop_comps n' ps else drop_comps n ps
  end.

(** The string of the first pieces of [p], which keeps its root. *)
Definition rejoin (p : string) (parts : list string) : string :=
  match parts with
  | [] => if is_absolute p then "/" else if has_cur_dir p then "." else ""
  | _ => join "/" parts
  end.

(** [Path::strip_prefix]: the components of the prefix are consumed, what
    remains is the rest of the string without separators at its ends. *)
Definition path_strip_prefix (base p : string) : option string :=
  match components base with
  | [] => Some (rejoin p (trim_right (split_on slash p)))
  | cs =>
      if bool_decide (take (length cs) (components p) = cs)
      then Some (join "/" (trim_right (trim_left
             (drop_comps (length (body (split_on slash base))) (split_on slash p)))))
      else None
  end.

(** [Path::parent] *)
Definition parent (p : string) : option string :=
  match reverse (trim_right (split_on slash p)) with
  | [] => if is_absolute p then None else if has_cur_dir p then Some "" else None
  | _ :: ps => Some (rejoin p (trim_right (reverse ps)))
  end.

(** The position of the last dot of a file name, unless it is its first
    character. *)
Fixpoint stem_from (seen : bool) (s : string) : option string :=
  match s with
  | EmptyString => None
  | String a s =>
      match stem_from true s with
      | Some r => Some (String a r)
      | None => if Ascii.eqb a dot && seen then Some "" else None
      end
  end.
(** [Path::with_extension] *)
Definition with_extension (p ext : string) : string :=
  match reverse (trim_right (split_on slash p)) with
  | [] => p
  | name :: ps =>
      if bool_decide (name = "..") then p
      else join "/" (reverse ((default name (stem_from false name) +:+ "." +:+ ext) :: ps))
  end.

Example parents : map parent ["a"; "/a"; "a/b/"; "/"; ""; "x//y"; "./a"] =
  [Some ""; Some "/"; Some "a"; None; None; Some "x"; Some "."].
Proof. vm_compute. reflexivity. Qed.
Example extensions : map (fun p => with_extension p "tmp") ["d/tokens.json"; ".hidden"; "a.b.c"; "x/.."] =
  ["d/tokens.tmp"; ".hidden.tmp"; "a.b.tmp"; "x/.."].
Proof. vm_compute. reflexivity. Qed.
Example strips : map (path_strip_prefix "/r/") ["/r/a//b/"; "/r"; "/q/a"; "r/a"; "//r/./a"] =
  [Some "a//b"; Some ""; None; None; Some "a"].
Proof. vm_compute. reflexivity. Qed.

(** ** Splitting and joining *)

Lemma split_on_ne c s : split_on c s <> [].
Proof. destruct s as [|a s]; simpl; [done|]. destruct (Ascii.eqb a c); [done|]. by destruct (split_on c s). Qed.

Lemma split_on_app c a b : split_on c (a +:+ String c b) = split_on c a ++ split_on c b.
Proof.
  induction a as [|x a IH]; unfold String.app in *; simpl.
  - by rewrite Ascii.eqb_refl.
  - rewrite IH. destruct (Ascii.eqb x c); [done|].
    pose proof (split_on_ne c a). by destruct (split_on c a).
Qed.

Lemma split_on_pieces c s : Forall (fun p => has_char c p = false) (split_on c s).
Proof.
  induction s as [|a s IH]; simpl; [by constructor|].
  destruct (Ascii.eqb a c) eqn:E; [by constructor|].
  destruct (split_on c s) as [|p ps]; inversion_clear IH; constructor; simpl; try done; by rewrite E.
Qed.

Lemma split_on_piece c p : has_char c p = false -> split_on c p = [p].
Proof.
  induction p as [|a p IH]; simpl; [done|]. intros [-> H]%orb_false_iff. by rewrite (IH H).
Qed.

Lemma split_on_join c ps :
  ps <> [] -> Forall (fun p => has_char c p = false) ps ->
  split_on c (join (String c "") ps) = ps.
Proof.
  intros Hne H. induction H as [|p ps Hp Hps IH]; [done|].
  destruct ps as [|q ps]; [by apply split_on_piece|].
  change (join (String c "") (p :: q :: ps)) with (p +:+ String c (join (String c "") (q :: ps))).
  rewrite split_on_app, (split_on_piece _ _ Hp). simpl app. f_equal. by apply IH.
Qed.

Lemma last_char_app a b : b <> "" -> last_char (a +:+ b) = last_char b.
Proof.
  intros Hb. induction a as [|x a IH]; [done|]. unfold String.app in *; simpl.
  rewrite IH. destruct a; [destruct b; [done|]|]; done.
Qed.

Lemma last_char_inv c s : last_char s = Some c -> exists a, s = a +:+ String c "".
Proof.
  induction s as [|x s IH]; [done|]. destruct s as [|y s].
  - intros [= ->]. by exists "".
  - intros H. destruct (IH H) as [a Ha]. exists (String x a).
    rewrite Ha. done.
Qed.

(** ** Trimming *)

Lemma trim_left_body ps : body (trim_left ps) = body ps.
Proof.
  induction ps as [|p ps IH]; [done|]. unfold body in *. simpl.
  destruct (is_comp p) eqn:E; [done|]. rewrite IH, filter_cons_False; [done|by rewrite E].
Qed.

Lemma body_reverse ps : body (reverse ps) = reverse (body ps).
Proof. unfold body. by rewrite filter_reverse, map_reverse. Qed.

Lemma trim_right_body ps : body (trim_right ps) = body ps.
Proof.
  unfold trim_right. by rewrite body_reverse, trim_left_body, body_reverse, reverse_involutive.
Qed.

Lemma body_app ps qs : body (ps ++ qs) = body ps ++ body qs.
Proof. unfold body. by rewrite filter_app, map_app. Qed.

Lemma trim_left_Forall (Q : string -> Prop) ps : Forall Q ps -> Forall Q (trim_left ps).
Proof. induction 1; simpl; [done|]. destruct (is_comp x); [by constructor|done]. Qed.

Lemma trim_right_Forall (Q : string -> Prop) ps : Forall Q ps -> Forall Q (trim_right ps).
Proof. intros H. by apply Forall_reverse, trim_left_Forall, Forall_reverse. Qed.

Lemma drop_comps_0 ps : drop_comps 0 ps = ps.
Proof. by destruct ps. Qed.

Lemma trim_drop_comps xs ys :
  trim_left (drop_comps (length (body xs)) (xs ++ ys)) = trim_left ys.
Proof.
  induction xs as [|x xs IH]; [by rewrite drop_comps_0|].
  unfold body in *. rewrite filter_cons. destruct (is_comp x) eqn:E; simpl.
  - by rewrite E.
  - destruct (length _) eqn:El.
    + rewrite drop_comps_0 in IH. simpl. by rewrite E.
    + simpl. by rewrite E.
Qed.

(** ** Joining relative paths *)

Lemma is_absolute_first p : is_absolute p = true <-> exists q, p = String slash q.
Proof.
  unfold is_absolute, starts_with, strip_prefix. destruct p as [|a p]; [by split; [|intros [? [=]]]|].
  destruct (Ascii.eqb _ a) eqn:E.
  - apply Ascii.eqb_eq in E as <-. split; [intros _; by exists p|]. by destruct p.
  - split; [done|]. intros [q [= -> ->]]. vm_compute in E. done.
Qed.

Lemma is_absolute_app a b : a <> "" -> is_absolute (a +:+ b) = is_absolute a.
Proof.
  destruct a as [|x a]; [done|]. intros _. apply Bool.eq_true_iff_eq. rewrite !is_absolute_first.
  split; intros [q [= -> ?]]; by eexists.
Qed.

(** Joining is gluing at one separator. *)
Lemma path_join_glue base :
  base <> "" ->
  exists pre, (base = pre +:+ String slash "" \/ base = pre) /\
    forall p, is_absolute p = false -> path_join base p = pre +:+ String slash p.
Proof.
  intros Hb. unfold path_join.
  destruct (last_char base) as [c|] eqn:El.
  - destruct (Ascii.eqb c slash) eqn:Ec.
    + apply Ascii.eqb_eq in Ec as ->. destruct (last_char_inv _ _ El) as [a ->].
      exists a. split; [by left|]. intros p ->. by rewrite str_app_assoc.
    + exists base. split; [by right|]. by intros p ->.
  - destruct base as [|x base]; [done|]. exfalso. clear -El.
    revert x El. induction base as [|y base IH]; intros x; [done|]. apply (IH y).
Qed.

Lemma has_cur_dir_app pre s : has_cur_dir (pre +:+ String slash s) = has_cur_dir pre.
Proof.
  unfold has_cur_dir. rewrite split_on_app. pose proof (split_on_ne slash pre).
  by destruct (split_on slash pre).
Qed.

Lemma components_glue pre p :
  is_absolute (pre +:+ String slash p) = is_absolute (pre +:+ String slash "") ->
  components (pre +:+ String slash p) =
    components (pre +:+ String slash "") ++ body (split_on slash p).
Proof.
  intros H. unfold components. rewrite H, !has_cur_dir_app, !split_on_app, !body_app.
  simpl. by rewrite app_nil_r, app_assoc.
Qed.

Lemma is_absolute_glue pre p : is_absolute (pre +:+ String slash p) = is_absolute (pre +:+ String slash "").
Proof. destruct pre; [by destruct p|]. by rewrite !is_absolute_app. Qed.

Lemma components_trailing pre : pre <> "" -> components (pre +:+ String slash "") = components pre.
Proof.
  intros H. unfold components. rewrite is_absolute_app by done.
  rewrite has_cur_dir_app, split_on_app, body_app. simpl. by rewrite app_nil_r.
Qed.

Lemma components_join base p :
  base <> "" -> is_absolute p = false ->
  components (path_join base p) = components base ++ body (split_on slash p).
Proof.
  intros Hb Hp. destruct (path_join_glue base Hb) as (pre & Hpre & Hj). rewrite (Hj _ Hp).
  rewrite components_glue by apply is_absolute_glue. f_equal.
  destruct Hpre as [->| ->]; [done|by apply components_trailing].
Qed.

Lemma components_ne p : p <> "" -> components p <> [].
Proof.
  intros Hp. unfold components. destruct (is_absolute p) eqn:Ha; [done|].
  unfold has_cur_dir. destruct (split_on slash p) as [|q qs] eqn:Es; [by apply split_on_ne in Es|].
  assert (q <> "") as Hq.
  { intros ->. destruct p as [|a p]; [done|]. simpl in Es.
    destruct (Ascii.eqb a slash) eqn:Ea.
    - apply Ascii.eqb_eq in Ea as ->. assert (is_absolute (String slash p) = true); [|congruence].
      apply is_absolute_first. by exists p.
    - pose proof (split_on_ne slash p). by destruct (split_on slash p). }
  destruct (decide (q = ".")) as [->|Hd]; [done|].
  assert (is_comp q = true) as Hc
    by (unfold is_comp; rewrite !bool_decide_eq_false_2; done).
  unfold body. rewrite filter_cons_True by done. simpl.
  destruct (match q with "." => true | _ => false end); done.
Qed.

(** The rest of a path below a prefix. *)
Lemma strip_prefix_join base p :
  base <> "" -> is_absolute p = false ->
  path_strip_prefix base (path_join base p) =
    Some (join "/" (trim_right (trim_left (split_on slash p)))).
Proof.
  intros Hb Hp. unfold path_strip_prefix. rewrite (components_join _ _ Hb Hp).
  pose proof (components_ne base Hb) as Hne. destruct (components base) as [|c cs] eqn:Ec; [done|].
  rewrite <-Ec, take_app_length, bool_decide_eq_true_2 by done. do 3 f_equal.
  destruct (path_join_glue base Hb) as (pre & Hpre & Hj). rewrite (Hj _ Hp). rewrite split_on_app.
  assert (body (split_on slash base) = body (split_on slash pre)) as ->; [|apply trim_drop_comps].
  destruct Hpre as [->| ->]; [|done]. rewrite split_on_app, body_app. simpl. by rewrite app_nil_r.
Qed.

(** A base with a separator at its end. *)
Definition with_slash (base : string) : string :=
  match last_char base with
  | Some c => if Ascii.eqb c slash then base else base +:+ "/"
  | None => base
  end.

Lemma path_join_with_slash base p : is_absolute p = false -> path_join base p = with_slash base +:+ p.
Proof.
  intros Hp. unfold path_join, with_slash. rewrite Hp. destruct (last_char base) eqn:El.
  - destruct (Ascii.eqb _ _); [done|]. by rewrite str_app_assoc.
  - destruct base as [|x base]; [done|]. exfalso. clear -El.
    revert x El. induction base as [|y base IH]; intros x; [done|]. apply (IH y).
Qed.

Lemma last_char_with_slash base : base <> "" -> last_char (with_slash base) = Some slash.
Proof.
  intros Hb. unfold with_slash. destruct (last_char base) as [c|] eqn:El.
  - destruct (Ascii.eqb c slash) eqn:Ec; [by apply Ascii.eqb_eq in Ec as ->|]. by apply last_char_app.
  - destruct base as [|x base]; [done|]. exfalso. clear -El.
    revert x El. induction base as [|y base IH]; intros x; [done|]. apply (IH y).
Qed.

Lemma with_slash_app base p :
  base <> "" -> with_slash (with_slash base +:+ p) = with_slash base +:+ with_slash p.
Proof.
  intros Hb. destruct (decide (p = "")) as [->|Hp].
  - rewrite !str_app_nil. unfold with_slash at 1. by rewrite last_char_with_slash.
  - unfold with_slash at 1. rewrite last_char_app by done. unfold with_slash at 5.
    destruct (last_char p); [|done]. destruct (Ascii.eqb _ _); [done|]. by rewrite str_app_assoc.
Qed.

Lemma with_slash_relative p q :
  is_absolute p = false -> is_absolute q = false -> is_absolute (with_slash p +:+ q) = false.
Proof.
  intros Hp Hq. destruct (decide (p = "")) as [->|Hne]; [done|].
  unfold with_slash. destruct (last_char p); [destruct (Ascii.eqb _ _)|];
    by rewrite ?str_app_assoc, is_absolute_app.
Qed.

Lemma path_join_assoc base p q :
  base <> "" -> is_absolute p = false -> is_absolute q = false ->
  path_join (path_join base p) q = path_join base (path_join p q).
Proof.
  intros Hb Hp Hq. rewrite (path_join_with_slash base p Hp), (path_join_with_slash _ q Hq),
    (path_join_with_slash p q Hq), with_slash_app by done.
  by rewrite path_join_with_slash, str_app_assoc by by apply with_slash_relative.
Qed.
