(* ===== verification/Cache.v ===== *)
(** Caches: the interface ([rinfra-core/src/cache/mod.rs]), the in-memory, the
    Redis and the two-level cache ([rinfra-plugins/src/cache]). *)

From S2P Require Import Prelude Errors Tcp Tasks.

(** ** [trait Cache] *)
Record cache (S : Type) : Type := Cache {
  get : string -> task S (Result (option bytes));
  set : string -> bytes -> task S (Result unit);
  set_with_ttl : string -> bytes -> Z -> task S (Result unit);
  delete_key : string -> task S (Result unit);
  exists_key : string -> task S (Result bool);
}.
Arguments Cache {S}.
Arguments get {S}.
Arguments set {S}.
Arguments set_with_ttl {S}.
Arguments delete_key {S}.
Arguments exists_key {S}.

(** A cache on one half of a state. *)
Definition cache_fst {S T} (c : cache S) : cache (S * T) :=
  Cache (fun k => on_fst (get c k)) (fun k v => on_fst (set c k v))
    (fun k v d => on_fst (set_with_ttl c k v d)) (fun k => on_fst (delete_key c k))
    (fun k => on_fst (exists_key c k)).
Definition cache_snd {S T} (c : cache T) : cache (S * T) :=
  Cache (fun k => on_snd (get c k)) (fun k v => on_snd (set c k v))
    (fun k v d => on_snd (set_with_ttl c k v d)) (fun k => on_snd (delete_key c k))
    (fun k => on_snd (exists_key c k)).

(** ** The in-memory cache ([memory.rs]) *)
Module MemoryCache.

(** [moka::future::Cache], as far as it is used. *)
Class Moka (S : Type) : Type := {
  moka_get : string -> M S (option bytes);
  moka_insert : string -> bytes -> M S unit;
  moka_invalidate : string -> M S unit;
}.

Section memory.
Context {S : Type} `{!Moka S}.

Definition memory_get (key : string) : task S (Result (option bytes)) :=
  r ← await (moka_get key); mret (Ok r).
Definition memory_set (key : string) (value : bytes) : task S (Result unit) :=
  _ ← await (moka_insert key value); mret (Ok tt).
(** The time to live of the entry is not used. *)
Definition memory_set_with_ttl (key : string) (value : bytes) (_ttl : Z) : task S (Result unit) :=
  _ ← await (moka_insert key value); mret (Ok tt).
Definition memory_delete (key : string) : task S (Result unit) :=
  _ ← await (moka_invalidate key); mret (Ok tt).
Definition memory_exists (key : string) : task S (Result bool) :=
  r ← await (moka_get key); mret (Ok (bool_decide (is_Some r))).

Definition memory_cache : cache S :=
  Cache memory_get memory_set memory_set_with_ttl memory_delete memory_exists.
End memory.
End MemoryCache.

(** ** The Redis cache ([redis_cache.rs]) *)
Module RedisCache.

(** The [redis] client and the server: opening a client, connecting, and the
    commands, each of which may fail with an error text. *)
Class RedisCommands (R : Type) : Type := {
  redis_open : string -> result string unit;
  redis_connect : M R (result string unit);
  redis_get : string -> M R (result string (option bytes));
  redis_set : string -> bytes -> M R (result string unit);
  redis_set_ex : string -> bytes -> Z -> M R (result string unit);
  redis_del : string -> M R (result string unit);
  redis_exists : string -> M R (result string bool);
}.

(** [RedisCacheConfig], the fields read here. *)
Record config : Type := Config { enabled : bool; redis_url : string }.

(** [struct RedisCache]: the configuration, and in the state whether there is
    a connection manager. *)
Section redis.
Context {R : Type} `{!RedisCommands R} (cfg : config).
Abbreviation St := (bool * R)%type.

Definition new (r : R) : St := (false, r).

(** A command, with the error code and the prefix of its failures. *)
Definition command {A} (m : M R (result string A)) (code : error_code) (what : string) :
    task St (Result A) :=
  r ← on_snd (await m);
  mret (map_err (fun e => new_error code (what +:+ e)) r).

Definition set_conn (b : bool) : task St unit := await (fun s => Ret (tt, (b, s.2))).

(** [connect] *)
Definition connect : task St (Result unit) :=
  if enabled cfg then
    match redis_open (redis_url cfg) with
    | Err e => mret (fail CacheConnectionFailed ("invalid redis url: " +:+ e))
    | Ok _ =>
        try_await (command redis_connect CacheConnectionFailed "redis connect failed: ") (fun _ =>
        _ ← set_conn true; mret (Ok tt))
    end
  else mret (Ok tt).

(** [close] *)
Definition close : task St unit := set_conn false.

(** [get_conn] *)
Definition get_conn : task St (Result unit) :=
  c ← await (fun s => Ret (s.1, s));
  mret (if c : bool then Ok tt else fail CacheConnectionFailed "redis not connected").

Definition redis_cache_get (key : string) : task St (Result (option bytes)) :=
  try_await get_conn (fun _ => command (redis_get key) CacheGetFailed "redis GET failed: ").
Definition redis_cache_set (key : string) (value : bytes) : task St (Result unit) :=
  try_await get_conn (fun _ => command (redis_set key value) CacheSetFailed "redis SET failed: ").
Definition redis_cache_set_with_ttl (key : string) (value : bytes) (ttl : Z) :
    task St (Result unit) :=
  try_await get_conn (fun _ =>
  command (redis_set_ex key value (Z.max (as_secs ttl) 1)) CacheSetFailed "redis SETEX failed: ").
Definition redis_cache_delete (key : string) : task St (Result unit) :=
  try_await get_conn (fun _ => command (redis_del key) CacheDeleteFailed "redis DEL failed: ").
Definition redis_cache_exists (key : string) : task St (Result bool) :=
  try_await get_conn (fun _ => command (redis_exists key) CacheGetFailed "redis EXISTS failed: ").

Definition redis_cache : cache St :=
  Cache redis_cache_get redis_cache_set redis_cache_set_with_ttl redis_cache_delete
    redis_cache_exists.
End redis.
End RedisCache.

(** ** The two-level cache ([multilevel.rs]) *)
Module MultilevelCache.
Section multilevel.
Context {S : Type} (l1 l2 : cache S).

Definition multi_get (key : string) : task S (Result (option bytes)) :=
  try_await (get l1 key) (fun v =>
  match v with
  | Some val => mret (Ok (Some val))
  | None =>
      try_await (get l2 key) (fun v =>
      match v with
      | Some val => _ ← set l1 key val; mret (Ok (Some val))
      | None => mret (Ok None)
      end)
  end).
Definition multi_set (key : string) (value : bytes) : task S (Result unit) :=
  try_await (set l1 key value) (fun _ =>
  try_await (set l2 key value) (fun _ => mret (Ok tt))).
Definition multi_set_with_ttl (key : string) (value : bytes) (ttl : Z) : task S (Result unit) :=
  try_await (set_with_ttl l1 key value ttl) (fun _ =>
  try_await (set_with_ttl l2 key value ttl) (fun _ => mret (Ok tt))).
Definition multi_delete (key : string) : task S (Result unit) :=
  try_await (delete_key l1 key) (fun _ =>
  try_await (delete_key l2 key) (fun _ => mret (Ok tt))).
Definition multi_exists (key : string) : task S (Result bool) :=
  try_await (exists_key l1 key) (fun b =>
  if b : bool then mret (Ok true) else exists_key l2 key).

Definition multilevel_cache : cache S :=
  Cache multi_get multi_set multi_set_with_ttl multi_delete multi_exists.
End multilevel.

(** ** Operations in a row, on a cache and on a map *)
Inductive op : Type :=
| OGet (key : string)
| OSet (key : string) (value : bytes)
| OSetWithTtl (key : string) (value : bytes) (ttl : Z)
| ODelete (key : string)
| OExists (key : string).
Inductive reply : Type :=
| RValue (r : Result (option bytes))
| RUnit (r : Result unit)
| RBool (r : Result bool).

Definition op_task {S} (c : cache S) (o : op) : task S reply :=
  match o with
  | OGet k => r ← get c k; mret (RValue r)
  | OSet k v => r ← set c k v; mret (RUnit r)
  | OSetWithTtl k v d => r ← set_with_ttl c k v d; mret (RUnit r)
  | ODelete k => r ← delete_key c k; mret (RUnit r)
  | OExists k => r ← exists_key c k; mret (RBool r)
  end.
Fixpoint run_ops {S} (c : cache S) (os : list op) : M S (list reply) :=
  match os with
  | [] => mret []
  | o :: os => r ← run (op_task c o); rs ← run_ops c os; mret (r :: rs)
  end.

(** ** The map a two-level cache is

    Its values with the end of their time, for those that were written with
    one; [life d] is the time a time to live [d] stands for. *)
Abbreviation timed_map := (gmap string (bytes * option Z)).
Definition lives (t : Z) (e : option Z) : bool := match e with Some d => t <? d | None => true end.

(** A lookup finds the value, unless its time is over and the map forgets it
    here and now - it need not. *)
Definition may_forget (t : Z) (k : string) (m m' : timed_map) : Prop :=
  m' = m \/ exists v e, m !! k = Some (v, e) /\ lives t e = false /\ m' = delete k m.
(** One operation, that begins at [t] and ends at [t']. *)
Definition map_step (life : Z -> Z) (o : op) (t : Z) (m : timed_map) (r : reply) (t' : Z) (m' : timed_map) : Prop :=
  t <= t' /\
  match o with
  | OGet k => may_forget t' k m m' /\ r = RValue (Ok (fst <$> m' !! k))
  | OExists k => may_forget t' k m m' /\ r = RBool (Ok (bool_decide (is_Some (m' !! k))))
  | OSet k v => r = RUnit (Ok tt) /\ m' = <[k := (v, None)]> m
  | OSetWithTtl k v d =>
      r = RUnit (Ok tt) /\ exists at_, t <= at_ <= t' /\ m' = <[k := (v, Some (at_ + life d))]> m
  | ODelete k => r = RUnit (Ok tt) /\ m' = delete k m
  end.
Fixpoint map_steps (life : Z -> Z) (os : list op) (t : Z) (m : timed_map) (rs : list reply) (t' : Z) (m' : timed_map) :
    Prop :=
  match os with
  | [] => rs = [] /\ t' = t /\ m' = m
  | o :: os => exists r rest t1 m1, rs = r :: rest /\ map_step life o t m r t1 m1 /\ map_steps life os t1 m1 rest t' m'
  end.

(** ** What the levels promise *)

(** [m'] has what [m] has, but perhaps not the values whose time is over. *)
Definition expires (t : Z) (m m' : timed_map) : Prop :=
  m' ⊆ m /\ forall k v e, m !! k = Some (v, e) -> lives t e = true -> m' !! k = Some (v, e).

Lemma lives_later t t' e : t <= t' -> lives t' e = true -> lives t e = true.
Proof. intros Ht. destruct e as [d|]; [|done]. simpl. rewrite !Z.ltb_lt. lia. Qed.
Lemma expires_refl t m : expires t m m.
Proof. by split. Qed.
Lemma expires_trans t t' m m1 m2 : t <= t' -> expires t m m1 -> expires t' m1 m2 -> expires t' m m2.
Proof.
  intros Ht [H1 H2] [H3 H4]. split; [by etrans|]. intros k v e Hk He. apply H4; [|done]. apply H2; [done|].
  by eapply lives_later.
Qed.
Lemma expires_insert t k x m m' : expires t m m' -> expires t (<[k := x]> m) (<[k := x]> m').
Proof.
  intros [H1 H2]. split; [by apply insert_mono|]. intros k' v e [[<- ->]|[Hne Hk]]%lookup_insert_Some He.
  - by rewrite lookup_insert_eq.
  - rewrite lookup_insert_ne by done. by apply H2.
Qed.
Lemma expires_delete t k m m' : expires t m m' -> expires t (delete k m) (delete k m').
Proof.
  intros [H1 H2]. split; [by apply delete_mono|]. intros k' v e [Hne Hk]%lookup_delete_Some He.
  rewrite lookup_delete_ne by done. by apply H2.
Qed.

(** A first level may lose entries at any time, by expiry or eviction, but
    has none that was not stored; it leaves the second level alone, in which
    time goes by. *)
Record lossy {S} (ok : S -> Prop) (now : S -> Z) (c : cache S) (view : S -> gmap string bytes)
    (other : S -> timed_map) : Prop := Lossy {
  lossy_get k s : ok s -> exists s', run (get c k) s = Ret (Ok (view s' !! k), s') /\ ok s' /\ now s <= now s' /\
    view s' ⊆ view s /\ expires (now s') (other s) (other s');
  lossy_set k v s : ok s -> exists s', run (set c k v) s = Ret (Ok tt, s') /\ ok s' /\ now s <= now s' /\
    view s' ⊆ <[k := v]> (view s) /\ expires (now s') (other s) (other s');
  lossy_set_with_ttl k v d s : ok s -> exists s',
    run (set_with_ttl c k v d) s = Ret (Ok tt, s') /\ ok s' /\ now s <= now s' /\
    view s' ⊆ <[k := v]> (view s) /\ expires (now s') (other s) (other s');
  lossy_delete k s : ok s -> exists s', run (delete_key c k) s = Ret (Ok tt, s') /\ ok s' /\ now s <= now s' /\
    view s' ⊆ delete k (view s) /\ expires (now s') (other s) (other s');
  lossy_exists k s : ok s -> exists s',
    run (exists_key c k) s = Ret (Ok (bool_decide (is_Some (view s' !! k))), s') /\ ok s' /\ now s <= now s' /\
    view s' ⊆ view s /\ expires (now s') (other s) (other s');
}.

(** A second level that is available and loses nothing but the values whose
    time is over; it takes the times to live that satisfy [takes], and the
    first level may lose entries meanwhile. *)
Record timed {S} (ok : S -> Prop) (now : S -> Z) (life : Z -> Z) (takes : Z -> Prop) (c : cache S)
    (view : S -> timed_map) (other : S -> gmap string bytes) : Prop := Timed {
  timed_get k s : ok s -> exists s', run (get c k) s = Ret (Ok (fst <$> view s' !! k), s') /\ ok s' /\ now s <= now s' /\
    expires (now s') (view s) (view s') /\ other s' ⊆ other s;
  timed_set k v s : ok s -> exists s', run (set c k v) s = Ret (Ok tt, s') /\ ok s' /\ now s <= now s' /\
    expires (now s') (<[k := (v, None)]> (view s)) (view s') /\ other s' ⊆ other s;
  timed_set_with_ttl k v d s : ok s -> takes d -> exists t s',
    run (set_with_ttl c k v d) s = Ret (Ok tt, s') /\ ok s' /\ now s <= t <= now s' /\
    expires (now s') (<[k := (v, Some (t + life d))]> (view s)) (view s') /\ other s' ⊆ other s;
  timed_delete k s : ok s -> exists s', run (delete_key c k) s = Ret (Ok tt, s') /\ ok s' /\ now s <= now s' /\
    expires (now s') (delete k (view s)) (view s') /\ other s' ⊆ other s;
  timed_exists k s : ok s -> exists s',
    run (exists_key c k) s = Ret (Ok (bool_decide (is_Some (view s' !! k))), s') /\ ok s' /\ now s <= now s' /\
    expires (now s') (view s) (view s') /\ other s' ⊆ other s;
}.

Section refinement.
Context {S : Type} (l1 l2 : cache S) (ok : S -> Prop) (now : S -> Z) (life : Z -> Z) (takes : Z -> Prop).
Context (view1 : S -> gmap string bytes) (view2 : S -> timed_map).
Context (H1 : lossy ok now l1 view1 view2) (H2 : timed ok now life takes l2 view2 view1).

(** The state stands for the map: the second level has its values but perhaps
    those whose time is over, and the first level has no others. *)
Definition stands_for (s : S) (m : timed_map) : Prop :=
  ok s /\ expires (now s) m (view2 s) /\ view1 s ⊆ fst <$> m.
Definition taken (o : op) : Prop := match o with OSetWithTtl _ _ d => takes d | _ => True end.

Lemma in_first (m : timed_map) s k v : view1 s ⊆ fst <$> m -> view1 s !! k = Some v -> fst <$> m !! k = Some v.
Proof. intros Hsub Hk. by rewrite <- lookup_fmap, (lookup_weaken _ _ _ _ Hk Hsub). Qed.

(** A key that neither level has is not in the map, or its time is over. *)
Lemma missed k s m : stands_for s m -> view1 s !! k = None -> view2 s !! k = None ->
  exists m', may_forget (now s) k m m' /\ stands_for s m' /\ m' !! k = None.
Proof.
  intros (Hok & Hexp & Hsub) Hk1 Hk2. destruct (m !! k) as [[v e]|] eqn:Ek.
  2: { exists m. split; [by left|done]. }
  exists (delete k m). split; [|split; [|apply lookup_delete_eq]].
  - right. exists v, e. split; [done|]. split; [|done]. destruct (lives (now s) e) eqn:El; [|done].
    rewrite (proj2 Hexp _ _ _ Ek El) in Hk2. done.
  - split; [done|]. split.
    + rewrite <- (delete_id (view2 s) k) by done. by apply expires_delete.
    + rewrite fmap_delete, <- (delete_id (view1 s) k) by done. by apply delete_mono.
Qed.

(** A lookup in the first level, then in the second. *)
Lemma first_lookup {B} (t : task S (Result B)) (answer : option bytes -> B) k s m :
  (exists s', run t s = Ret (Ok (answer (view1 s' !! k)), s') /\ ok s' /\ now s <= now s' /\
    view1 s' ⊆ view1 s /\ expires (now s') (view2 s) (view2 s')) ->
  stands_for s m ->
  exists s', run t s = Ret (Ok (answer (view1 s' !! k)), s') /\ now s <= now s' /\ stands_for s' m.
Proof.
  intros (s1 & E & Hok & Ht & Hv & He) (_ & Hexp & Hsub). exists s1. split; [done|]. split; [done|].
  split; [done|]. split; [by eapply expires_trans|by etrans].
Qed.
Lemma second_lookup {B} (t : task S (Result B)) (answer : option (bytes * option Z) -> B) k s m :
  (exists s', run t s = Ret (Ok (answer (view2 s' !! k)), s') /\ ok s' /\ now s <= now s' /\
    expires (now s') (view2 s) (view2 s') /\ view1 s' ⊆ view1 s) ->
  stands_for s m -> view1 s !! k = None ->
  exists s', run t s = Ret (Ok (answer (view2 s' !! k)), s') /\ now s <= now s' /\ stands_for s' m /\ view1 s' !! k = None.
Proof.
  intros (s1 & E & Hok & Ht & He & Hv) (_ & Hexp & Hsub) Hk. exists s1. split; [done|]. split; [done|].
  split; [|by eapply lookup_weaken_None]. split; [done|]. split; [by eapply expires_trans|by etrans].
Qed.

Lemma multi_get_spec k s m : stands_for s m ->
  exists s' m', run (multi_get l1 l2 k) s = Ret (Ok (fst <$> m' !! k), s') /\ now s <= now s' /\
    may_forget (now s') k m m' /\ stands_for s' m'.
Proof.
  intros Hs. unfold multi_get.
  destruct (first_lookup (get l1 k) id k s m (lossy_get _ _ _ _ _ H1 k s (proj1 Hs)) Hs) as (s1 & E1 & Ht1 & Hs1).
  rewrite (run_try_await _ _ _ _ _ E1). unfold id in *. destruct (view1 s1 !! k) as [val|] eqn:Ek1.
  { exists s1, m. rewrite (in_first m s1 k val) by (done || apply Hs1). split; [done|]. split; [done|]. split; [by left|done]. }
  destruct (second_lookup (get l2 k) (fmap fst) k s1 m (timed_get _ _ _ _ _ _ _ H2 k s1 (proj1 Hs1)) Hs1 Ek1)
    as (s2 & E2 & Ht2 & Hs2 & Ek2).
  rewrite (run_try_await _ _ _ _ _ E2). destruct (view2 s2 !! k) as [[val e]|] eqn:Ev; simpl.
  - destruct Hs2 as (Hok2 & Hexp2 & Hsub2). pose proof (lookup_weaken _ _ _ _ Ev (proj1 Hexp2)) as Hm.
    destruct (lossy_set _ _ _ _ _ H1 k val s2 Hok2) as (s3 & E3 & Hok3 & Ht3 & Hv3 & Ho3).
    rewrite run_bind, (M_bind_ret _ _ _ _ _ E3). exists s3, m. rewrite Hm. split; [done|]. split; [lia|]. split; [by left|].
    split; [done|]. split; [by eapply expires_trans|]. etrans; [exact Hv3|].
    rewrite <- (insert_id (fst <$> m) k val) by by rewrite lookup_fmap, Hm. by apply insert_mono.
  - destruct (missed k s2 m Hs2 Ek2 Ev) as (m' & Hf & Hs' & Hk'). exists s2, m'. rewrite Hk'. split; [done|].
    split; [lia|done].
Qed.

Lemma multi_exists_spec k s m : stands_for s m ->
  exists s' m', run (multi_exists l1 l2 k) s = Ret (Ok (bool_decide (is_Some (m' !! k))), s') /\ now s <= now s' /\
    may_forget (now s') k m m' /\ stands_for s' m'.
Proof.
  intros Hs. unfold multi_exists.
  destruct (first_lookup (exists_key l1 k) (fun o => bool_decide (is_Some o)) k s m
    (lossy_exists _ _ _ _ _ H1 k s (proj1 Hs)) Hs) as (s1 & E1 & Ht1 & Hs1).
  rewrite (run_try_await _ _ _ _ _ E1). destruct (view1 s1 !! k) as [val|] eqn:Ek1; simpl.
  { exists s1, m. pose proof (in_first m s1 k val ltac:(apply Hs1) Ek1) as Hm.
    destruct (m !! k) as [x|]; [|done]. split; [done|]. split; [done|]. split; [by left|done]. }
  destruct (second_lookup (exists_key l2 k) (fun o => bool_decide (is_Some o)) k s1 m
    (timed_exists _ _ _ _ _ _ _ H2 k s1 (proj1 Hs1)) Hs1 Ek1) as (s2 & E2 & Ht2 & Hs2 & Ek2).
  rewrite E2. destruct (view2 s2 !! k) as [x|] eqn:Ev; simpl.
  - exists s2, m. rewrite (lookup_weaken _ _ _ _ Ev (proj1 (proj1 (proj2 Hs2)))). split; [done|]. split; [lia|].
    split; [by left|done].
  - destruct (missed k s2 m Hs2 Ek2 Ev) as (m' & Hf & Hs' & Hk'). exists s2, m'. rewrite Hk'. split; [done|].
    split; [lia|done].
Qed.

(** Writing the first level then the second. *)
Lemma write_both (t1 t2 : task S (Result unit)) (f1 : gmap string bytes -> gmap string bytes)
    (Q : Z -> Z -> (timed_map -> timed_map) -> Prop) s m :
  (forall t t' f, Q t t' f -> (forall x m m', expires x m m' -> expires x (f m) (f m')) /\
    forall v m, v ⊆ fst <$> m -> f1 v ⊆ fst <$> f m) ->
  (forall s, ok s -> exists s', run t1 s = Ret (Ok tt, s') /\ ok s' /\ now s <= now s' /\
    view1 s' ⊆ f1 (view1 s) /\ expires (now s') (view2 s) (view2 s')) ->
  (forall s, ok s -> exists f s', run t2 s = Ret (Ok tt, s') /\ ok s' /\ now s <= now s' /\ Q (now s) (now s') f /\
    expires (now s') (f (view2 s)) (view2 s') /\ view1 s' ⊆ view1 s) ->
  stands_for s m -> exists s' f t, run (try_await t1 (fun _ => try_await t2 (fun _ => mret (Ok tt)))) s = Ret (Ok tt, s') /\
    now s <= t <= now s' /\ Q t (now s') f /\ stands_for s' (f m).
Proof.
  intros Hf Ht1 Ht2 (Hok & Hexp & Hsub).
  destruct (Ht1 s Hok) as (s1 & E1 & Hok1 & Hn1 & Hv1 & Ho1).
  destruct (Ht2 s1 Hok1) as (f & s2 & E2 & Hok2 & Hn2 & HQ & Hv2 & Ho2).
  destruct (Hf _ _ _ HQ) as [Hmono Hboth].
  rewrite (run_try_await _ _ _ _ _ E1), (run_try_await _ _ _ _ _ E2).
  exists s2, f, (now s1). split; [done|]. split; [lia|]. split; [done|]. split; [done|]. split.
  - eapply (expires_trans (now s1)); [done| |exact Hv2]. apply Hmono. by eapply expires_trans.
  - etrans; [exact Ho2|]. etrans; [exact Hv1|]. by apply Hboth.
Qed.
Lemma insert_both k v e (a : gmap string bytes) (m : timed_map) :
  a ⊆ fst <$> m -> <[k := v]> a ⊆ fst <$> <[k := (v, e)]> m.
Proof. intros Ha. rewrite fmap_insert. by apply insert_mono. Qed.

Lemma op_refines o s m : stands_for s m -> taken o ->
  exists r s' m', run (op_task (multilevel_cache l1 l2) o) s = Ret (r, s') /\
    map_step life o (now s) m r (now s') m' /\ stands_for s' m'.
Proof.
  intros Hs Hd. destruct o as [k|k v|k v d|k|k]; simpl; rewrite run_bind.
  - destruct (multi_get_spec k s m Hs) as (s' & m' & E & Ht & Hf & Hs').
    rewrite (M_bind_ret _ _ _ _ _ E). by eexists _, s', m'.
  - destruct (write_both (set l1 k v) (set l2 k v) (fun a => <[k := v]> a)
      (fun _ _ f => f = fun m => <[k := (v, None)]> m) s m) as (s' & f & t & E & Ht & -> & Hs'); [..|done|].
    + intros _ _ f ->. split; [intros; by apply expires_insert|intros; by apply insert_both].
    + apply (lossy_set _ _ _ _ _ H1).
    + intros s1 Hok. destruct (timed_set _ _ _ _ _ _ _ H2 k v s1 Hok) as (s2 & ? & ? & ? & ?). by eexists _, s2.
    + rewrite (M_bind_ret _ _ _ _ _ E). eexists _, s', _. split; [done|]. split; [|done]. split; [lia|done].
  - destruct (write_both (set_with_ttl l1 k v d) (set_with_ttl l2 k v d) (fun a => <[k := v]> a)
      (fun t t' f => exists at_, t <= at_ <= t' /\ f = fun m => <[k := (v, Some (at_ + life d))]> m) s m)
      as (s' & f & t & E & Ht & (at_ & Hat & ->) & Hs'); [..|done|].
    + intros t t' f (at_ & _ & ->). split; [intros; by apply expires_insert|intros; by apply insert_both].
    + apply (lossy_set_with_ttl _ _ _ _ _ H1).
    + intros s1 Hok. destruct (timed_set_with_ttl _ _ _ _ _ _ _ H2 k v d s1 Hok Hd) as (at_ & s2 & ? & ? & ? & ? & ?).
      eexists _, s2. split; [done|]. split; [done|]. split; [lia|]. split; [by exists at_|done].
    + rewrite (M_bind_ret _ _ _ _ _ E). eexists _, s', _. split; [done|]. split; [|done]. split; [lia|]. split; [done|].
      exists at_. split; [lia|done].
  - destruct (write_both (delete_key l1 k) (delete_key l2 k) (fun a => delete k a)
      (fun _ _ f => f = fun m => delete k m) s m) as (s' & f & t & E & Ht & -> & Hs'); [..|done|].
    + intros _ _ f ->. split; [intros; by apply expires_delete|].
      intros a m' Ha. rewrite fmap_delete. by apply delete_mono.
    + apply (lossy_delete _ _ _ _ _ H1).
    + intros s1 Hok. destruct (timed_delete _ _ _ _ _ _ _ H2 k s1 Hok) as (s2 & ? & ? & ? & ?). by eexists _, s2.
    + rewrite (M_bind_ret _ _ _ _ _ E). eexists _, s', _. split; [done|]. split; [|done]. split; [lia|done].
  - destruct (multi_exists_spec k s m Hs) as (s' & m' & E & Ht & Hf & Hs').
    rewrite (M_bind_ret _ _ _ _ _ E). by eexists _, s', m'.
Qed.

(** C29: over a second level that is available, the two-level cache is a map
    in which a value written with a time to live may be forgotten once that
    time is over: any operations in a row get the answers such a map would
    give - every value is the last one written, a value written without a time
    to live stays until it is overwritten or deleted, one with a time to live
    at least that long, and one that has been missed is not found again -
    however the first level evicts and expires its entries.  It need not be
    forgotten: the first level takes no time to live, and may still answer. *)
Theorem multilevel_refines_map (os : list op) (s : S) (m : timed_map) :
  stands_for s m -> Forall taken os ->
  exists rs s' m', run_ops (multilevel_cache l1 l2) os s = Ret (rs, s') /\
    map_steps life os (now s) m rs (now s') m' /\ stands_for s' m'.
Proof.
  intros Hs Hos. revert s m Hs. induction Hos as [|o os Ho Hos IH]; intros s m Hs; [by exists [], s, m|].
  destruct (op_refines o s m Hs Ho) as (r & s1 & m1 & E1 & Hstep & Hs1).
  destruct (IH s1 m1 Hs1) as (rs & s' & m' & E2 & Hsteps & Hs').
  exists (r :: rs), s', m'. simpl. rewrite (M_bind_ret _ _ _ _ _ E1), (M_bind_ret _ _ _ _ _ E2). split; [done|].
  split; [|done]. by exists r, rs, (now s1), m1.
Qed.
End refinement.
End MultilevelCache.

(** ** Concrete levels: a first level with room for one entry, a map as first
    level, and a Redis server that answers *)
Module CacheExamples.
Import MemoryCache RedisCache MultilevelCache.

Abbreviation store := (gmap string bytes).

#[export] Instance one_slot : Moka store := {|
  moka_get k := fun s => Ret (s !! k, s);
  moka_insert k v := fun _ => Ret (tt, {[k := v]});
  moka_invalidate k := fun s => Ret (tt, delete k s);
|}.
Definition unbounded : Moka store := {|
  moka_get k := fun s => Ret (s !! k, s);
  moka_insert k v := fun s => Ret (tt, <[k := v]> s);
  moka_invalidate k := fun s => Ret (tt, delete k s);
|}.
(** A Redis server with a clock, which every command advances by a second; an
    entry of [SETEX] is not found once its time is over. *)
Record server : Type := Server { entries : timed_map; clock : Z }.
Definition tick (s : server) : server := Server (entries s) (clock s + from_secs 1).
Definition put (k : string) (x : bytes * option Z) (s : server) : server := Server (<[k := x]> (entries s)) (clock s).
Definition live_entry (s : server) (k : string) : option (bytes * option Z) :=
  match entries s !! k with
  | Some (v, e) => if lives (clock s) e then Some (v, e) else None
  | None => None
  end.
#[export] Instance clock_redis : RedisCommands server := {|
  redis_open _ := Ok tt;
  redis_connect := fun s => Ret (Ok tt, s);
  redis_get k := fun s => Ret (Ok (fst <$> live_entry (tick s) k), tick s);
  redis_set k v := fun s => Ret (Ok tt, put k (v, None) (tick s));
  redis_set_ex k v n := fun s => Ret (Ok tt, put k (v, Some (clock (tick s) + from_secs n)) (tick s));
  redis_del k := fun s => Ret (Ok tt, Server (delete k (entries s)) (clock (tick s)));
  redis_exists k := fun s => Ret (Ok (bool_decide (is_Some (live_entry (tick s) k))), tick s);
|}.

Abbreviation state := (store * (bool * server))%type.
Definition first : cache state := cache_fst memory_cache.
Definition second : cache state := cache_snd redis_cache.
Definition connected (s : state) : Prop := s.2.1 = true.
Definition now (s : state) : Z := clock s.2.2.
Definition life (d : Z) : Z := from_secs (Z.max (as_secs d) 1).
Definition takes (d : Z) : Prop := 0 <= d.
Definition view1 (s : state) : store := s.1.
Definition live_entries (s : server) : timed_map := filter (fun x => lives (clock s) (snd (snd x)) = true) (entries s).
Definition view2 (s : state) : timed_map := live_entries s.2.2.

Lemma live_entries_lookup s k : live_entries s !! k = live_entry s k.
Proof.
  unfold live_entries, live_entry. rewrite map_lookup_filter. destruct (entries s !! k) as [[v e]|]; [|done]. simpl.
  case_guard as H; destruct (lives (clock s) e); simpl in *; done.
Qed.
Lemma live_entry_some s k v e : live_entry s k = Some (v, e) <-> entries s !! k = Some (v, e) /\ lives (clock s) e = true.
Proof.
  unfold live_entry. destruct (entries s !! k) as [[v' e']|].
  - destruct (lives (clock s) e') eqn:El; split; [by intros [= -> ->]|by intros [[= -> ->] _]|done|].
    intros [[= -> ->] He]. congruence.
  - split; [done|by intros [? _]].
Qed.
(** The entries after a change of the stored ones that leaves no entry behind
    but those of [m], and all of them whose time is not over. *)
Lemma live_expires s' (m : timed_map) :
  (forall k v e, entries s' !! k = Some (v, e) -> lives (clock s') e = true -> m !! k = Some (v, e)) ->
  (forall k v e, m !! k = Some (v, e) -> lives (clock s') e = true -> entries s' !! k = Some (v, e)) ->
  expires (clock s') m (live_entries s').
Proof.
  intros Hin Hall. split.
  - apply map_subseteq_spec. intros k [v e] Hk. rewrite live_entries_lookup in Hk. apply live_entry_some in Hk as [Hk He].
    by apply Hin.
  - intros k v e Hk He. rewrite live_entries_lookup. apply live_entry_some. split; [by apply Hall|done].
Qed.
Lemma live_before s k v e : lives (clock (tick s)) e = true -> entries s !! k = Some (v, e) <-> live_entries s !! k = Some (v, e).
Proof.
  intros He. rewrite live_entries_lookup, live_entry_some. split; [|by intros [? _]]. intros Hk. split; [done|].
  eapply lives_later; [|exact He]. simpl. unfold from_secs, nanos_per_sec. lia.
Qed.
Lemma tick_expires s : expires (clock (tick s)) (live_entries s) (live_entries (tick s)).
Proof. apply (live_expires (tick s)); intros k v e Hk He; by apply (live_before s). Qed.
Lemma put_expires k x s : expires (clock (tick s)) (<[k := x]> (live_entries s)) (live_entries (put k x (tick s))).
Proof.
  apply (live_expires (put k x (tick s))); intros k' v e Hk He; simpl in *; apply lookup_insert_Some in Hk as [[-> ->]|[Hne Hk]];
    rewrite ?lookup_insert_eq by done; rewrite ?lookup_insert_ne by done; try done; by apply (live_before s).
Qed.
Lemma del_expires k s :
  expires (clock (tick s)) (delete k (live_entries s)) (live_entries (Server (delete k (entries s)) (clock (tick s)))).
Proof.
  apply (live_expires (Server (delete k (entries s)) (clock (tick s)))); intros k' v e Hk He; simpl in *;
    apply lookup_delete_Some in Hk as [Hne Hk]; rewrite lookup_delete_ne by done; by apply (live_before s).
Qed.
Lemma tick_later s : clock s <= clock (tick s).
Proof. simpl. unfold from_secs, nanos_per_sec. lia. Qed.

Lemma first_lossy : lossy connected now first view1 view2.
Proof.
  split; intros; destruct s as [a br].
  - exists (a, br). split; [done|]. split; [done|]. split; [done|]. split; [done|apply expires_refl].
  - exists ({[k := v]}, br). split; [done|]. split; [done|]. split; [done|].
    split; [by apply insert_mono, map_empty_subseteq|apply expires_refl].
  - exists ({[k := v]}, br). split; [done|]. split; [done|]. split; [done|].
    split; [by apply insert_mono, map_empty_subseteq|apply expires_refl].
  - exists (delete k a, br). split; [done|]. split; [done|]. split; [done|]. split; [done|apply expires_refl].
  - exists (a, br). split; [done|]. split; [done|]. split; [done|]. split; [done|apply expires_refl].
Qed.

Lemma second_timed : timed connected now life takes second view2 view1.
Proof.
  split; intros; destruct s as [a [b r]]; unfold connected in *; simpl in *; subst b.
  - exists (a, (true, tick r)). unfold view2. simpl. rewrite live_entries_lookup. split; [done|]. split; [done|].
    split; [apply tick_later|]. split; [apply tick_expires|done].
  - eexists (a, (true, put k (v, None) (tick r))). split; [done|]. split; [done|].
    split; [apply tick_later|]. split; [apply put_expires|done].
  - exists (clock (tick r)), (a, (true, put k (v, Some (clock (tick r) + life d)) (tick r))). split; [done|]. split; [done|].
    split; [split; [apply tick_later|done]|]. split; [apply put_expires|done].
  - exists (a, (true, Server (delete k (entries r)) (clock (tick r)))). split; [done|]. split; [done|].
    split; [apply tick_later|]. split; [apply del_expires|done].
  - exists (a, (true, tick r)). unfold view2. simpl. rewrite live_entries_lookup. split; [done|]. split; [done|].
    split; [apply tick_later|]. split; [apply tick_expires|done].
Qed.

(** "c" is given three seconds: it is found, and when the first level has lost
    it and its time is over it is not. *)
Definition start : state := (∅, (true, Server {["a" := ([Byte.x01], None)]} 0)).
Definition script : list op :=
  [OGet "a"; OSet "b" [Byte.x02]; OGet "a"; ODelete "a"; OExists "a"; OSetWithTtl "c" [] (from_secs 3); OGet "c";
   OGet "b"; OGet "b"; OExists "a"; OExists "a"; OGet "c"].
Definition answers : list reply :=
  [RValue (Ok (Some [Byte.x01])); RUnit (Ok tt); RValue (Ok (Some [Byte.x01])); RUnit (Ok tt);
   RBool (Ok false); RUnit (Ok tt); RValue (Ok (Some [])); RValue (Ok (Some [Byte.x02])); RValue (Ok (Some [Byte.x02]));
   RBool (Ok false); RBool (Ok false); RValue (Ok None)].

Lemma multilevel_refines_map_witness :
  exists s' m', run_ops (multilevel_cache first second) script start = Ret (answers, s') /\
    map_steps life script 0 (view2 start) answers (now s') m' /\ stands_for connected now view1 view2 s' m'.
Proof.
  destruct (multilevel_refines_map first second connected now life takes view1 view2 first_lossy second_timed
    script start (view2 start)) as (rs & s' & m' & E & Hsteps & Hs').
  - split; [reflexivity|]. split; [apply expires_refl|]. apply map_empty_subseteq.
  - repeat (apply Forall_cons_2; [first [exact I | unfold taken, takes, from_secs, nanos_per_sec; lia]|]). apply Forall_nil_2.
  - assert (rs = answers) as Hrs.
    { assert (match run_ops (multilevel_cache first second) script start with Ret (rs, _) => rs | Panic _ => [] end = answers)
        as H by (vm_compute; reflexivity). rewrite E in H. exact H. }
    subst rs. exists s', m'. split; [exact E|]. split; [exact Hsteps|exact Hs'].
Defined.

(** ** An entry that outlives its time *)

Definition roomy : cache state := cache_fst (memory_cache (Moka0 := unbounded)).

(** A time to live is not kept: a value whose time is over in the second
    level is still answered when the first level has it, as it does after a
    read that wrote it back. *)
Theorem ttl_outlived (k : string) (v : bytes) (t : Z) (d : Z) (a : store) :
  a !! k = Some v -> d <= t ->
  let c := multilevel_cache roomy second in
  let s : state := (a, (true, Server {[k := (v, Some d)]} t)) in
  live_entry s.2.2 k = None /\ run (op_task c (OGet k)) s = Ret (RValue (Ok (Some v)), s).
Proof.
  intros Hk Hd c s. split.
  - unfold live_entry, s. simpl. rewrite lookup_singleton_eq. simpl. by rewrite (proj2 (Z.ltb_ge _ _) Hd).
  - unfold c, s. simpl. unfold mbind, M_bind. simpl. by rewrite Hk.
Qed.

(** ** A deletion that a concurrent read undoes *)

(** Deletion is not final under concurrency: a read that misses the first
    level and reads the second before a concurrent deletion, and writes the
    first level after it, leaves the deleted value in the first level; both
    calls succeed, and every later read that finds it there returns it
    although the second level has nothing. *)
Theorem backfill_undoes_delete (k : string) (v : bytes) (es : timed_map) (t : Z) :
  es !! k = Some (v, None) ->
  let c := multilevel_cache roomy second in
  exists schedule s',
    interleave schedule ([op_task c (OGet k); op_task c (ODelete k)], (∅, (true, Server es t))) =
      Ret ([Done (RValue (Ok (Some v))); Done (RUnit (Ok tt))], s') /\
    entries s'.2.2 !! k = None /\
    run (op_task c (OGet k)) s' = Ret (RValue (Ok (Some v)), s').
Proof.
  intros Hk c. exists [0; 0; 0; 1; 1; 1; 0]%nat.
  exists ({[k := v]}, (true, Server (delete k es) (clock (tick (tick (Server es t)))))).
  assert (Hfin : ({[k := v]} : store) !! k = Some v) by apply lookup_singleton_eq.
  split; [|split; [apply lookup_delete_eq|]].
  - unfold interleave, advance; simpl. rewrite lookup_empty; simpl. unfold live_entry; simpl. rewrite Hk; simpl.
    rewrite delete_empty. done.
  - unfold c. simpl. unfold mbind, M_bind. simpl. rewrite Hfin. done.
Qed.

Lemma backfill_undoes_delete_witness :
  let c := multilevel_cache roomy second in
  exists schedule s',
    interleave schedule ([op_task c (OGet "a"); op_task c (ODelete "a")],
        (∅, (true, Server {["a" := ([Byte.x01], None)]} 0))) =
      Ret ([Done (RValue (Ok (Some [Byte.x01]))); Done (RUnit (Ok tt))], s') /\
    entries s'.2.2 !! "a" = None /\
    run (op_task c (OGet "a")) s' = Ret (RValue (Ok (Some [Byte.x01])), s').
Proof. apply (backfill_undoes_delete "a" [Byte.x01]). vm_compute. reflexivity. Defined.

Lemma ttl_outlived_witness :
  let s : state := ({["a" := [Byte.x01]]}, (true, Server {["a" := ([Byte.x01], Some 3)]} 5)) in
  live_entry s.2.2 "a" = None /\
  run (op_task (multilevel_cache roomy second) (OGet "a")) s = Ret (RValue (Ok (Some [Byte.x01])), s).
Proof. apply (ttl_outlived "a" [Byte.x01]); [vm_compute; reflexivity|lia]. Defined.
End CacheExamples.
