(* ===== verification/FileStore.v ===== *)
(** The file store: its interface ([rinfra-core/src/file_store/mod.rs]) and
    the store on the local file system
    ([rinfra-plugins/src/file_store/local.rs]). *)

From stdpp Require Import sorting.
From S2P Require Import Prelude Errors Tcp Tasks Paths.

Module FileStore.

(** [struct FileInfo] *)
Record file_info : Type := FileInfo {
  info_path : string;
  info_size : Z;                    (* u64 *)
  info_last_modified : option Z;    (* Option<u64> *)
  info_content_type : option string;
  info_is_dir : bool;
}.

(** [std::fs::Metadata], as far as it is read: the modification time is in
    nanoseconds from the epoch, absent where the platform has none. *)
Record metadata : Type := Metadata {
  meta_len : Z;
  meta_modified : option Z;
  meta_is_dir : bool;
}.

(** An I/O error: whether its kind is [NotFound], and its text. *)
Record io_error : Type := IoError { not_found : bool; io_text : string }.
Abbreviation io := (result io_error).

(** The system calls of [tokio::fs] and [std::fs]; a directory stream is the
    list of what it yields. *)
Class FileSystem (F : Type) : Type := {
  fs_create_dir_all : string -> M F (io unit);
  fs_write : string -> bytes -> M F (io unit);
  fs_read : string -> M F (io bytes);
  fs_remove_file : string -> M F (io unit);
  fs_exists : string -> M F bool;
  fs_read_dir : string -> M F (io (list (io string)));
  fs_metadata : string -> M F (io metadata);
}.

(** [struct LocalFileStore], [new] and [resolve] *)
Record local_file_store : Type := LocalFileStore { root : string }.
Definition resolve (s : local_file_store) (p : string) : string := path_join (root s) p.

Definition backslash : Ascii.ascii := Ascii.ascii_of_N 92.

(** [make_relative]; paths are valid UTF-8. *)
Definition make_relative (root full : string) : string :=
  replace_char backslash slash (default full (path_strip_prefix root full)).

(** [meta.modified().ok().and_then(..duration_since(UNIX_EPOCH).ok()).map(as_secs)] *)
Definition modified_secs (m : metadata) : option Z :=
  meta_modified m ≫= fun t => if 0 <=? t then Some (as_secs t) else None.
Definition info_of (p : string) (m : metadata) : file_info :=
  FileInfo p (meta_len m) (modified_secs m) None (meta_is_dir m).

Section store.
Context {F : Type} `{!FileSystem F} (st : local_file_store).

(** A call whose error becomes an application error. *)
Definition call {A} (m : M F (io A)) (f : io_error -> app_error) : task F (Result A) :=
  r ← await m; mret (map_err f r).

Definition store_name : string := "local".

Definition put (p : string) (data : bytes) : task F (Result unit) :=
  let full := resolve st p in
  try_await
    (match parent full with
     | Some dir => call (fs_create_dir_all dir)
         (fun e => new_error FileWriteFailed ("failed to create directory: " +:+ io_text e))
     | None => mret (Ok tt)
     end)
    (fun _ => call (fs_write full data)
       (fun e => new_error FileWriteFailed ("failed to write '" +:+ p +:+ "': " +:+ io_text e))).

(** The error of [get] and of [metadata]. *)
Definition read_error (what p : string) (e : io_error) : app_error :=
  if not_found e then new_error FileNotFound ("file not found: '" +:+ p +:+ "'")
  else new_error FileReadFailed ("failed to read " +:+ what +:+ "'" +:+ p +:+ "': " +:+ io_text e).

Definition get (p : string) : task F (Result bytes) :=
  call (fs_read (resolve st p)) (read_error "" p).

Definition delete_file (p : string) : task F (Result bool) :=
  r ← await (fs_remove_file (resolve st p));
  mret (match r with
        | Ok _ => Ok true
        | Err e =>
            if not_found e then Ok false
            else fail FileDeleteFailed ("failed to delete '" +:+ p +:+ "': " +:+ io_text e)
        end).

Definition exists_file (p : string) : task F (Result bool) :=
  b ← await (fs_exists (resolve st p)); mret (Ok b).

(** The loop of [list]; [entries] in the order they were pushed. *)
Fixpoint list_loop (dir : string) (names : list (io string)) (entries : list file_info) :
    task F (Result (list file_info)) :=
  match names with
  | [] => mret (Ok entries)
  | Err e :: _ => mret (fail FileReadFailed ("failed to read directory entry: " +:+ io_text e))
  | Ok name :: names =>
      let entry_path := path_join dir name in
      try_await
        (call (fs_metadata entry_path)
           (fun e => new_error FileReadFailed ("failed to read metadata: " +:+ io_text e)))
        (fun meta =>
           list_loop dir names (entries ++ [info_of (make_relative (root st) entry_path) meta]))
  end.

(** [entries.sort_by(|a, b| a.path.cmp(&b.path))] *)
Definition path_le (a b : file_info) : Prop := String.le (info_path a) (info_path b).
#[export] Instance path_le_dec : RelDecision path_le.
Proof. intros a b. unfold path_le. apply _. Defined.
Definition sort_entries (l : list file_info) : list file_info := merge_sort path_le l.

Definition list_files (prefix : string) : task F (Result (list file_info)) :=
  let dir := resolve st prefix in
  present ← await (fs_exists dir);
  if negb present then mret (Ok [])
  else
    try_await
      (call (fs_read_dir dir)
         (fun e => new_error FileReadFailed ("failed to list '" +:+ prefix +:+ "': " +:+ io_text e)))
      (fun names => try_await (list_loop dir names []) (fun entries => mret (Ok (sort_entries entries)))).

Definition file_metadata (p : string) : task F (Result file_info) :=
  try_await (call (fs_metadata (resolve st p)) (read_error "metadata for " p))
    (fun m => mret (Ok (info_of p m))).
End store.

(** ** Keys and paths *)

#[export] Instance path_le_total : Total path_le.
Proof. intros a b. unfold path_le. apply (total String.le). Qed.
#[export] Instance path_le_trans : Transitive path_le.
Proof. intros a b c. unfold path_le. apply transitivity. Qed.

Lemma replace_char_absent a b s : has_char a s = false -> replace_char a b s = s.
Proof.
  induction s as [|c s IH]; simpl; [done|]. intros [Hc H]%orb_false_iff. by rewrite Hc, (IH H).
Qed.

Lemma has_char_join c sep ps :
  has_char c sep = false -> Forall (fun p => has_char c p = false) ps ->
  has_char c (join sep ps) = false.
Proof.
  intros Hs H. induction H as [|p ps Hp Hps IH]; [done|]. destruct ps as [|q ps]; [done|].
  change (join sep (p :: q :: ps)) with (p +:+ (sep +:+ join sep (q :: ps))).
  by rewrite !has_char_app, Hp, Hs, IH.
Qed.

Lemma split_on_char a c s : has_char a s = false -> Forall (fun p => has_char a p = false) (split_on c s).
Proof.
  induction s as [|x s IH]; simpl; [by constructor|]. intros [Hx H]%orb_false_iff.
  specialize (IH H). destruct (Ascii.eqb x c); [by constructor|].
  destruct (split_on c s) as [|p ps]; inversion_clear IH; constructor; simpl; try done; by rewrite Hx.
Qed.

(** The pieces of the relative path that [list] reports. *)
Lemma rest_body p :
  body (split_on slash (join "/" (trim_right (trim_left (split_on slash p))))) = body (split_on slash p).
Proof.
  destruct (trim_right (trim_left (split_on slash p))) as [|q qs] eqn:E.
  - rewrite <-(trim_left_body (split_on slash p)), <-(trim_right_body (trim_left _)), E. done.
  - change "/" with (String slash ""). rewrite split_on_join; [|done|].
    + by rewrite <-E, trim_right_body, trim_left_body.
    + rewrite <-E. apply trim_right_Forall, trim_left_Forall, split_on_pieces.
Qed.

Lemma trim_left_head ps q qs : trim_left ps = q :: qs -> is_comp q = true.
Proof. induction ps as [|p ps IH]; simpl; [done|]. destruct (is_comp p) eqn:E; [by intros [= <- _]|done]. Qed.

Lemma rest_relative p :
  is_absolute (join "/" (trim_right (trim_left (split_on slash p)))) = false.
Proof.
  destruct (is_absolute _) eqn:E; [|done]. exfalso. apply is_absolute_first in E as [r Hr].
  destruct (trim_left (split_on slash p)) as [|q qs] eqn:Et; [done|].
  pose proof (trim_left_head _ _ _ Et) as Hq.
  assert (exists qs', trim_right (q :: qs) = q :: qs') as [qs' Hqs].
  { unfold trim_right. rewrite reverse_cons.
    assert (forall l, exists l', trim_left (l ++ [q]) = l' ++ [q]) as Hl.
    { induction l as [|x l [l' IH]]; simpl; [exists []; by rewrite Hq|].
      destruct (is_comp x); [by exists (x :: l)|by exists l']. }
    destruct (Hl (reverse qs)) as [l' ->]. rewrite reverse_app. by eexists. }
  rewrite Hqs in Hr.
  assert (has_char slash q = false) as Hns.
  { pose proof (trim_left_Forall _ _ (split_on_pieces slash p)) as Hf. rewrite Et in Hf.
    by inversion Hf. }
  destruct q as [|x q]; [done|]. simpl in Hns. apply orb_false_iff in Hns as [Hx _].
  destruct qs' as [|y qs']; injection Hr as -> _; by rewrite Ascii.eqb_refl in Hx.
Qed.

(** The path that [make_relative] gives for a file below the root denotes the
    same file again. *)
Lemma relative_resolves st p :
  root st <> "" -> is_absolute p = false -> has_char backslash p = false ->
  components (resolve st (make_relative (root st) (resolve st p))) = components (resolve st p).
Proof.
  intros Hr Hp Hb. unfold make_relative, resolve. rewrite (strip_prefix_join _ _ Hr Hp). simpl.
  rewrite replace_char_absent.
  - rewrite !components_join, rest_body; [done..|apply rest_relative].
  - apply has_char_join; [done|].
    by apply trim_right_Forall, trim_left_Forall, split_on_char.
Qed.

(** ** Listing *)

(** The names a directory can hold on this platform, short of those with a
    backslash. *)
Definition plain_name (n : string) : Prop :=
  n <> "" /\ has_char slash n = false /\ has_char backslash n = false.

Section listing.
Context {F : Type} `{!FileSystem F} (st : local_file_store).

Lemma list_loop_inv dir names acc s l s' :
  run (list_loop st dir names acc) s = Ret (Ok l, s') ->
  exists ns infos, names = Ok <$> ns /\ l = acc ++ infos /\
    info_path <$> infos = (fun n => make_relative (root st) (path_join dir n)) <$> ns.
Proof.
  revert acc s. induction names as [|[n|e] names IH]; intros acc s; cbn [list_loop].
  - intros [= <- _]. exists [], []. by rewrite app_nil_r.
  - intros H. unfold try_await in H. rewrite run_bind in H.
    apply M_bind_inv in H as (r & s1 & H1 & H2). destruct r as [m|e]; [|done].
    apply IH in H2 as (ns & infos & -> & -> & Hi).
    exists (n :: ns), (info_of (make_relative (root st) (path_join dir n)) m :: infos).
    split; [done|]. split; [by rewrite <-app_assoc|]. by rewrite !fmap_cons, Hi.
  - done.
Qed.

Lemma entry_resolves prefix n :
  root st <> "" -> is_absolute prefix = false -> has_char backslash prefix = false ->
  plain_name n ->
  components (resolve st (make_relative (root st) (path_join (resolve st prefix) n))) =
    components (path_join (resolve st prefix) n).
Proof.
  intros Hr Hp Hb (Hne & Hs & Hbn).
  assert (is_absolute n = false) as Hn.
  { destruct (is_absolute n) eqn:E; [|done]. apply is_absolute_first in E as [q ->].
    done. }
  unfold resolve. rewrite (path_join_assoc _ _ _ Hr Hp Hn). apply relative_resolves; [done|..].
  - rewrite (path_join_with_slash _ _ Hn). by apply with_slash_relative.
  - rewrite (path_join_with_slash _ _ Hn), has_char_app, Hbn. unfold with_slash.
    destruct (last_char prefix); [|by rewrite Hb]. destruct (Ascii.eqb _ _); [by rewrite Hb|].
    by rewrite has_char_app, Hb.
Qed.

(** Listing a directory below the root reports every entry the directory
    stream yields exactly once, sorted by path, and each reported path is a
    key of the store for the very file it was reported for: resolved again it
    has the components of the entry. *)
Theorem list_reports_every_entry (prefix : string) (s s' : F) (l : list file_info) :
  root st <> "" -> is_absolute prefix = false -> has_char backslash prefix = false ->
  run (list_files st prefix) s = Ret (Ok l, s') ->
  StronglySorted path_le l /\
  (fs_exists (resolve st prefix) s = Ret (false, s') /\ l = [] \/
   exists s1 s2 names,
     fs_exists (resolve st prefix) s = Ret (true, s1) /\
     fs_read_dir (resolve st prefix) s1 = Ret (Ok (Ok <$> names), s2) /\
     (Forall plain_name names ->
      (fun i => components (resolve st (info_path i))) <$> l ≡ₚ
      (fun n => components (path_join (resolve st prefix) n)) <$> names)).
Proof.
  intros Hr Hp Hb H. unfold list_files in H.
  rewrite run_bind in H. apply M_bind_inv in H as (present & s1 & H1 & H2).
  apply M_bind_inv in H1 as (b & s1' & H1 & [= <- <-]).
  destruct b; cbn [negb] in H2; [|simpl in H2; injection H2 as <- <-; split; [constructor|by left]].
  unfold try_await in H2. rewrite run_bind in H2.
  apply M_bind_inv in H2 as (r & s2 & H2 & H3). destruct r as [names|e]; [|done].
  unfold call in H2. rewrite run_bind in H2. apply M_bind_inv in H2 as (r & s2' & H2 & [= Hr2 ->]).
  apply M_bind_inv in H2 as (r' & s2'' & H2 & [= -> ->]).
  destruct r as [names'|e]; [|done]. injection Hr2 as ->.
  rewrite run_bind in H3. apply M_bind_inv in H3 as (r & s3 & H3 & H4).
  destruct r as [entries|e]; [|done]. injection H4 as <- <-.
  apply list_loop_inv in H3 as (ns & infos & -> & -> & Hi). simpl in *.
  split; [apply StronglySorted_merge_sort; apply _|]. right. eexists _, _, ns.
  split; [done|]. split; [done|]. intros Hns.
  unfold sort_entries. rewrite merge_sort_Permutation.
  assert ((fun i => components (resolve st (info_path i))) <$> infos =
    (fun n => components (path_join (resolve st prefix) n)) <$> ns) as ->; [|done].
  rewrite (list_fmap_compose info_path (fun p => components (resolve st p))), Hi, <-list_fmap_compose.
  apply list_fmap_ext. intros i n Hn. apply entry_resolves; try done.
  eapply Forall_lookup_1; [exact Hns|exact Hn].
Qed.
End listing.

(** A key that starts with a separator ignores the root: whatever the
    store's root, reading, writing and deleting it act on that path of the
    file system. *)
Theorem absolute_keys_escape_root {F} `{!FileSystem F} (st : local_file_store) (p : string) (s : F) :
  is_absolute p = true ->
  (forall data s1, fs_read p s = Ret (Ok data, s1) -> run (get st p) s = Ret (Ok data, s1)) /\
  (forall s1, fs_remove_file p s = Ret (Ok tt, s1) -> run (delete_file st p) s = Ret (Ok true, s1)).
Proof.
  intros Hp. assert (resolve st p = p) as He by (unfold resolve, path_join; by rewrite Hp).
  split; intros; unfold get, call, delete_file; rewrite He, run_bind; simpl;
    unfold mbind, M_bind; rewrite H; done.
Qed.

(** ** A concrete file system: one directory of empty files *)
Module Examples.
#[export] Instance names_fs : FileSystem (list string) := {|
  fs_create_dir_all _ := fun s => Ret (Ok tt, s);
  fs_write _ _ := fun s => Ret (Ok tt, s);
  fs_read _ := fun s => Ret (Ok [], s);
  fs_remove_file _ := fun s => Ret (Ok tt, s);
  fs_exists _ := fun s => Ret (true, s);
  fs_read_dir _ := fun s => Ret (Ok (Ok <$> s), s);
  fs_metadata _ := fun s => Ret (Ok (Metadata 0 (Some (from_secs 7)) false), s);
|}.

Definition files : local_file_store := LocalFileStore "/data".
Definition names : list string := ["b.txt"; "a.txt"].
Definition listed : list file_info :=
  [FileInfo "logs//x/a.txt" 0 (Some 7) None false; FileInfo "logs//x/b.txt" 0 (Some 7) None false].

Lemma list_reports_every_entry_witness :
  StronglySorted path_le listed /\
  (fs_exists (resolve files "logs//x/") names = Ret (false, names) /\ listed = [] \/
   exists s1 s2 ns,
     fs_exists (resolve files "logs//x/") names = Ret (true, s1) /\
     fs_read_dir (resolve files "logs//x/") s1 = Ret (Ok (Ok <$> ns), s2) /\
     (Forall plain_name ns ->
      (fun i => components (resolve files (info_path i))) <$> listed ≡ₚ
      (fun n => components (path_join (resolve files "logs//x/") n)) <$> ns)).
Proof.
  apply (list_reports_every_entry files "logs//x/" names names listed).
  - discriminate.
  - reflexivity.
  - reflexivity.
  - vm_compute. reflexivity.
Defined.

Lemma absolute_keys_escape_root_witness :
  (forall data s1, fs_read "/etc/passwd" names = Ret (Ok data, s1) ->
     run (get files "/etc/passwd") names = Ret (Ok data, s1)) /\
  (forall s1, fs_remove_file "/etc/passwd" names = Ret (Ok tt, s1) ->
     run (delete_file files "/etc/passwd") names = Ret (Ok true, s1)).
Proof. apply absolute_keys_escape_root. reflexivity. Defined.

(** A name with a backslash is reported as a path with a separator. *)
Example backslash_name :
  make_relative "/data" (path_join "/data" (String backslash "x")) = "/x".
Proof. vm_compute. reflexivity. Qed.
End Examples.
End FileStore.
