(* ===== verification/Admin.v ===== *)
(** The admin backend's authentication: the token store, the layer that
    checks requests, the token management handlers and the bootstrap
    ([rinfra-admin/backend/src]). *)

From S2P Require Import Prelude Errors AuditTrail HttpStack Tasks Paths.

(** * The token store ([auth/store.rs]) *)
Module TokenStore.

(** [enum AdminRole] and its [Display] *)
Inductive admin_role : Type := Root | Admin.
#[export] Instance admin_role_eq_dec : EqDecision admin_role.
Proof. solve_decision. Defined.
Definition role_to_string (r : admin_role) : string := match r with Root => "root" | Admin => "admin" end.

(** [struct AdminTokenRecord] *)
Record token_record : Type := TokenRecord {
  id : string;
  role : admin_role;
  token_hash : string;
  label : string;
  created_at : Z;             (* u64 *)
  last_used_at : option Z;    (* Option<u64> *)
  expires_at : option Z;      (* Option<u64> *)
}.
#[export] Instance token_record_eq_dec : EqDecision token_record.
Proof. solve_decision. Defined.

(** [struct AdminTokenInfo] and [From<&AdminTokenRecord>] *)
Record token_info : Type := TokenInfo {
  info_id : string;
  info_role : admin_role;
  info_label : string;
  info_created_at : Z;
  info_last_used_at : option Z;
  info_expires_at : option Z;
}.
Definition info_of (r : token_record) : token_info :=
  TokenInfo (id r) (role r) (label r) (created_at r) (last_used_at r) (expires_at r).

(** The libraries and the system the store uses: the clock (nanoseconds from
    the epoch), identifiers, 32 random bytes in hexadecimal, salted hashing and
    its verification (false for a malformed hash), [serde_json] on the list of
    records, and the file system. *)
Class Host (H : Type) : Type := {
  unix_nanos : M H Z;
  uuid_v4 : M H string;
  random_hex : M H string;
  argon2_hash : string -> M H (result string string);
  argon2_verify : string -> string -> bool;
  to_json : list token_record -> result string string;
  from_json : string -> result string (list token_record);
  path_exists : string -> M H bool;
  read_to_string : string -> M H (result string string);
  create_dir_all : string -> M H (result string unit);
  write_file : string -> string -> M H (result string unit);
  rename_file : string -> string -> M H (result string unit);
}.

Section store.
(** The store's file; the state holds the list under the lock and the host. *)
Context {H : Type} `{!Host H} (file : string).
Abbreviation St := (list token_record * H)%type.

Definition host {A} (m : M H A) : task St A := on_snd (await m).
(** A section that holds the lock. *)
Definition locked {A} (f : list token_record -> A * list token_record) : task St A :=
  await (fun s => Ret (f s.1, s.2) ≫= fun '((a, ts), h) => Ret (a, (ts, h))).

(** [now_millis] *)
Definition now_millis : task St Z := t ← host unix_nanos; mret (as_u64 (as_millis t)).

(** A host call whose error is reported with a prefix. *)
Definition host_try {A} (m : M H (result string A)) (what : string) : task St (result string A) :=
  r ← host m; mret (map_err (fun e => what +:+ e) r).

(** [AdminTokenStore::load], whose value becomes the state. *)
Definition load : task H (result string (list token_record)) :=
  present ← await (path_exists file);
  if present : bool then
    r ← await (read_to_string file);
    mret (match r with
          | Err e => Err ("failed to read token file " +:+ file +:+ ": " +:+ e)
          | Ok data => map_err (fun e => "failed to parse token file: " +:+ e) (from_json data)
          end)
  else mret (Ok []).

(** [has_root] *)
Definition is_root (r : token_record) : bool := bool_decide (role r = Root).
Definition has_root : task St bool := locked (fun ts => (existsb is_root ts, ts)).

(** [generate_token] *)
Definition generate_token (r : admin_role) : task St string :=
  hex ← host random_hex;
  mret (match r with Root => "rinfra_root_" +:+ hex | Admin => "rinfra_admin_" +:+ hex end).

(** [persist] *)
Definition persist : task St (result string unit) :=
  ts ← locked (fun ts => (ts, ts));
  try_await (mret (map_err (fun e => "serialize failed: " +:+ e) (to_json ts))) (fun data =>
  try_await
    (match parent file with
     | Some dir =>
         present ← host (path_exists dir);
         if present : bool then mret (Ok tt) else host_try (create_dir_all dir) "mkdir failed: "
     | None => mret (Ok tt)
     end) (fun _ =>
  let tmp := with_extension file "tmp" in
  try_await (host_try (write_file tmp data) "write tmp failed: ") (fun _ =>
  try_await (host_try (rename_file tmp file) "rename failed: ") (fun _ => mret (Ok tt))))).

(** [create_token_with_value] and [create_token] *)
Definition create_token_with_value (r : admin_role) (label plaintext : string)
    (expires_at : option Z) : task St (result string token_info) :=
  try_await (host_try (argon2_hash plaintext) "hash failed: ") (fun hash =>
  now ← now_millis;
  uuid ← host uuid_v4;
  let record := TokenRecord uuid r hash label now None expires_at in
  _ ← locked (fun ts => (tt, ts ++ [record]));
  try_await persist (fun _ => mret (Ok (info_of record)))).
Definition create_token (r : admin_role) (label : string) (expires_at : option Z) :
    task St (result string (string * token_info)) :=
  plaintext ← generate_token r;
  try_await (create_token_with_value r label plaintext expires_at) (fun info =>
  mret (Ok (plaintext, info))).

(** The loop of [verify]: the first unexpired record whose hash the token
    satisfies is marked as used. *)
Definition expired (now : Z) (r : token_record) : bool :=
  match expires_at r with Some e => e <? now | None => false end.
Definition used (now : Z) (r : token_record) : token_record :=
  TokenRecord (id r) (role r) (token_hash r) (label r) (created_at r) (Some now) (expires_at r).
Fixpoint verify_in (plaintext : string) (now : Z) (ts : list token_record) :
    option token_info * list token_record :=
  match ts with
  | [] => (None, [])
  | r :: ts =>
      if negb (expired now r) && argon2_verify plaintext (token_hash r)
      then (Some (info_of (used now r)), used now r :: ts)
      else let '(o, ts) := verify_in plaintext now ts in (o, r :: ts)
  end.
(** [verify] *)
Definition verify (plaintext : string) : task St (option token_info) :=
  now ← now_millis; locked (verify_in plaintext now).

(** [list] *)
Definition list_tokens : task St (list token_info) := locked (fun ts => (map info_of ts, ts)).

(** [delete] and [delete_root] *)
Definition delete_token (wanted : string) : task St (result string bool) :=
  removed ← locked (fun ts =>
    let ts' := filter (fun t => id t <> wanted) ts in
    (bool_decide (length ts' < length ts)%nat, ts'));
  if removed : bool then try_await persist (fun _ => mret (Ok true)) else mret (Ok false).
Definition delete_root : task St (result string unit) :=
  _ ← locked (fun ts => (tt, filter (fun t => role t <> Root) ts));
  persist.

(** ** What the store's calls do to the list *)

Lemma host_inv {A} (m : M H A) (s s' : St) (a : A) :
  run (host m) s = Ret (a, s') -> exists h, m s.2 = Ret (a, h) /\ s' = (s.1, h).
Proof.
  unfold host. simpl. intros (b & s1 & H1 & H2)%M_bind_inv.
  unfold mbind, outcome_bind in H1. destruct (m s.2) as [[x h]|]; [|done].
  injection H1 as <- <-. injection H2 as <- <-. by exists h.
Qed.
Lemma locked_inv {A} (f : list token_record -> A * list token_record) (s s' : St) (a : A) :
  run (locked f) s = Ret (a, s') -> a = (f s.1).1 /\ s' = ((f s.1).2, s.2).
Proof. simpl. unfold mbind, M_bind, outcome_bind. destruct (f s.1). by intros [= <- <-]. Qed.

Lemma keeps_host {A} (m : M H A) : keeps fst (host m).
Proof. intros s a s' (h & _ & ->)%host_inv. done. Qed.
Lemma keeps_host_try {A} (m : M H (result string A)) what : keeps fst (host_try m what).
Proof. apply keeps_bind; [apply keeps_host|]. intros. apply keeps_ret. Qed.
Lemma keeps_now : keeps fst now_millis.
Proof. apply keeps_bind; [apply keeps_host|]. intros. apply keeps_ret. Qed.
Lemma keeps_persist : keeps fst persist.
Proof.
  intros s r s' Hr. unfold persist in Hr. apply run_bind_inv in Hr as (ts & s1 & H1 & H2).
  apply locked_inv in H1 as [-> ->]. kept (@fst (list token_record) H) H2; [|done].
  apply keeps_try; [apply keeps_ret|]. intros data. apply keeps_try.
  - destruct (parent file) as [d|]; [|apply keeps_ret]. apply keeps_bind; [apply keeps_host|].
    intros []; [apply keeps_ret|apply keeps_host_try].
  - intros _. apply keeps_try; [apply keeps_host_try|]. intros _.
    apply keeps_try; [apply keeps_host_try|]. intros. apply keeps_ret.
Qed.

(** Creation appends one record of the role, for the plaintext, whether or not
    the file could be written. *)
Lemma create_with_value_inv r l plaintext e s res s' :
  run (create_token_with_value r l plaintext e) s = Ret (res, s') ->
  (s'.1 = s.1 /\ is_ok res = false) \/
  exists hash uuid now h h',
    argon2_hash plaintext h = Ret (Ok hash, h') /\
    s'.1 = s.1 ++ [TokenRecord uuid r hash l now None e] /\
    (forall i, res = Ok i -> i = info_of (TokenRecord uuid r hash l now None e)).
Proof.
  unfold create_token_with_value. intros Hr. unfold try_await in Hr at 1.
  apply run_bind_inv in Hr as (rh & s1 & H1 & Hr). unfold host_try in H1.
  apply run_bind_inv in H1 as (rh' & s1' & H1 & [-> ->]%run_ret_inv).
  apply host_inv in H1 as (h1 & H1 & ->).
  destruct rh' as [hash|err]; cbn [map_err] in Hr; [|left; by apply run_ret_inv in Hr as [-> ->]].
  right. apply run_bind_inv in Hr as (now & s2 & H2 & Hr). apply keeps_now in H2. simpl in H2.
  apply run_bind_inv in Hr as (uuid & s3 & H3 & Hr). apply host_inv in H3 as (h3 & _ & ->).
  apply run_bind_inv in Hr as (? & s4 & [_ ->]%locked_inv & Hr). cbn [fst snd] in Hr.
  exists hash, uuid, now, s.2, h1. split; [done|].
  unfold try_await in Hr. apply run_bind_inv in Hr as (rp & s5 & H5 & Hr).
  apply keeps_persist in H5. simpl in H5. rewrite H2 in H5.
  destruct rp; apply run_ret_inv in Hr as [-> ->]; (split; [done|]); by intros i [= <-].
Qed.

Lemma create_inv r l e s res s' :
  run (create_token r l e) s = Ret (res, s') ->
  (s'.1 = s.1 /\ is_ok res = false) \/
  exists plaintext hash uuid now h h',
    argon2_hash plaintext h = Ret (Ok hash, h') /\
    s'.1 = s.1 ++ [TokenRecord uuid r hash l now None e] /\
    (forall t i, res = Ok (t, i) ->
      t = plaintext /\ i = info_of (TokenRecord uuid r hash l now None e)).
Proof.
  unfold create_token. intros Hr. apply run_bind_inv in Hr as (p & s1 & H1 & Hr).
  assert (s1.1 = s.1) as Hs1.
  { kept (@fst (list token_record) H) H1; [|done].
    apply keeps_bind; [apply keeps_host|]. intros. apply keeps_ret. }
  unfold try_await in Hr. apply run_bind_inv in Hr as (ri & s2 & H2 & Hr).
  assert (s2 = s' /\ res = match ri with Ok i => Ok (p, i) | Err e => Err e end) as [-> ->]
    by (destruct ri; by apply run_ret_inv in Hr as [-> ->]).
  apply create_with_value_inv in H2 as [[H2 H3]|(hash & uuid & now & h & h' & Hh & H2 & H3)].
  - left. rewrite H2, Hs1. by destruct ri.
  - right. exists p, hash, uuid, now, h, h'. rewrite <-Hs1. split; [done|]. split; [done|].
    intros t i. destruct ri; [|done]. intros [= -> ->]. split; [done|]. by apply H3.
Qed.

Lemma delete_inv wanted s res s' :
  run (delete_token wanted) s = Ret (res, s') -> s'.1 = filter (fun t => id t <> wanted) s.1.
Proof.
  unfold delete_token. intros Hr. apply run_bind_inv in Hr as (b & s1 & [-> ->]%locked_inv & Hr).
  cbn [fst snd] in Hr. destruct (bool_decide _).
  - unfold try_await in Hr. apply run_bind_inv in Hr as (rp & s2 & H2 & Hr).
    apply keeps_persist in H2. simpl in H2. rewrite <-H2. by destruct rp; apply run_ret_inv in Hr as [_ ->].
  - by apply run_ret_inv in Hr as [_ ->].
Qed.

Lemma delete_root_inv s res s' :
  run delete_root s = Ret (res, s') -> s'.1 = filter (fun t => role t <> Root) s.1.
Proof.
  unfold delete_root. intros Hr. apply run_bind_inv in Hr as (? & s1 & [_ ->]%locked_inv & Hr).
  by apply keeps_persist in Hr.
Qed.

(** ** Verification *)

(** A record accepts a token at an instant. *)
Definition accepts (t : string) (now : Z) (r : token_record) : Prop :=
  (forall e, expires_at r = Some e -> now <= e) /\ argon2_verify t (token_hash r) = true.

Lemma accepts_spec t now r :
  negb (expired now r) && argon2_verify t (token_hash r) = true <-> accepts t now r.
Proof.
  unfold accepts, expired. rewrite andb_true_iff, negb_true_iff. split; intros [H1 H2]; (split; [|done]).
  - intros e He. rewrite He in H1. by apply Z.ltb_ge in H1.
  - destruct (expires_at r); [|done]. apply Z.ltb_ge. by apply H1.
Qed.

Lemma verify_in_spec t now ts o ts' :
  verify_in t now ts = (o, ts') ->
  match o with
  | Some i => exists pre r post, ts = pre ++ r :: post /\ Forall (fun r => ~ accepts t now r) pre /\
      accepts t now r /\ i = info_of (used now r) /\ ts' = pre ++ used now r :: post
  | None => ts' = ts /\ Forall (fun r => ~ accepts t now r) ts
  end.
Proof.
  revert o ts'. induction ts as [|r ts IH]; intros o ts'; simpl; [by intros [= <- <-]|].
  destruct (negb _ && _) eqn:E.
  - intros [= <- <-]. exists [], r, ts. apply accepts_spec in E. done.
  - destruct (verify_in t now ts) as [o1 ts1] eqn:Ev. intros [= <- <-].
    assert (~ accepts t now r) as Hr by (rewrite <-accepts_spec, E; done).
    specialize (IH _ _ eq_refl). destruct o1 as [i|].
    + destruct IH as (pre & r' & post & -> & Hp & Ha & -> & ->).
      exists (r :: pre), r', post. repeat split; try done; [by constructor|apply Ha|apply Ha].
    + destruct IH as [-> ?]. split; [done|by constructor].
Qed.

Lemma verify_accepts t s s' o :
  run (verify t) s = Ret (o, s') ->
  exists now,
    match o with
    | Some i => exists pre r post, s.1 = pre ++ r :: post /\
        Forall (fun r => ~ accepts t now r) pre /\ accepts t now r /\
        i = info_of (used now r) /\ s'.1 = pre ++ used now r :: post
    | None => s'.1 = s.1 /\ Forall (fun r => ~ accepts t now r) s.1
    end.
Proof.
  unfold verify. intros Hr. apply run_bind_inv in Hr as (now & s1 & H1 & Hr).
  apply keeps_now in H1. apply locked_inv in Hr as [-> ->]. exists now. simpl. rewrite H1.
  destruct (verify_in t now s.1) as [o ts] eqn:E. by apply verify_in_spec in E.
Qed.

(** A token is accepted exactly when some record that has not expired has
    its hash: the first such record is the one reported, with the use just
    made, it alone changes and only in its time of last use; otherwise the
    store is untouched. *)
Theorem verify_accepts_exactly (t : string) (s s' : St) (o : option token_info) :
  run (verify t) s = Ret (o, s') ->
  exists now,
    match o with
    | Some i => exists pre r post, s.1 = pre ++ r :: post /\
        Forall (fun r => ~ accepts t now r) pre /\ accepts t now r /\
        i = info_of (used now r) /\ s'.1 = pre ++ used now r :: post
    | None => s'.1 = s.1 /\ Forall (fun r => ~ accepts t now r) s.1
    end.
Proof. apply verify_accepts. Qed.

(** ** Restarts *)

(** What the file system promises: a call that succeeds has its effect, the
    others leave the contents alone; and [serde_json] reads back what it
    wrote. *)
Record file_laws (content : H -> string -> option string) : Prop := FileLaws {
  law_write p d h h' : write_file p d h = Ret (Ok tt, h') -> content h' p = Some d;
  law_rename a b d h h' :
    rename_file a b h = Ret (Ok tt, h') -> content h a = Some d -> content h' b = Some d;
  law_exists p b h h' :
    path_exists p h = Ret (b, h') -> b = bool_decide (is_Some (content h p)) /\ content h' = content h;
  law_read p d h r h' :
    read_to_string p h = Ret (r, h') -> content h p = Some d -> r = Ok d;
  law_json ts d : to_json ts = Ok d -> from_json d = Ok ts;
}.

Lemma persist_writes content s s' :
  file_laws content -> run persist s = Ret (Ok tt, s') ->
  exists d, to_json s.1 = Ok d /\ content s'.2 file = Some d.
Proof.
  intros Hl Hr. unfold persist in Hr. apply run_bind_inv in Hr as (ts & s1 & [-> ->]%locked_inv & Hr).
  unfold try_await in Hr at 1. apply run_bind_inv in Hr as (d & s2 & [-> ->]%run_ret_inv & Hr).
  cbn [fst] in Hr. destruct (to_json s.1) as [d|e] eqn:Ed; cbn [map_err] in Hr;
    [|by apply run_ret_inv in Hr as [? _]].
  exists d. split; [done|].
  unfold try_await in Hr at 1. apply run_bind_inv in Hr as (rd & s3 & _ & Hr).
  destruct rd; [|by apply run_ret_inv in Hr as [? _]].
  unfold try_await in Hr at 1. apply run_bind_inv in Hr as (rw & s4 & Hw & Hr).
  apply run_bind_inv in Hw as (rw' & s4' & Hw & [-> ->]%run_ret_inv).
  apply host_inv in Hw as (h4 & Hw & ->).
  destruct rw' as [[]|]; cbn [map_err] in Hr; [|by apply run_ret_inv in Hr as [? _]].
  unfold try_await in Hr. apply run_bind_inv in Hr as (rn & s5 & Hn & Hr).
  apply run_bind_inv in Hn as (rn' & s5' & Hn & [-> ->]%run_ret_inv).
  apply host_inv in Hn as (h5 & Hn & ->).
  destruct rn' as [[]|]; cbn [map_err] in Hr; apply run_ret_inv in Hr as [? ->]; [|done].
  eapply (law_rename _ Hl); [exact Hn|]. by eapply (law_write _ Hl).
Qed.

Lemma load_reads content ts d h r h' :
  file_laws content -> to_json ts = Ok d -> content h file = Some d ->
  run load h = Ret (r, h') -> r = Ok ts.
Proof.
  intros Hl Hd Hc Hr. unfold load in Hr. apply run_bind_inv in Hr as (b & h1 & He%run_await_inv & Hr).
  apply (law_exists _ Hl) in He as [-> He]. rewrite bool_decide_eq_true_2 in Hr by (by rewrite Hc).
  apply run_bind_inv in Hr as (rr & h2 & Hrd%run_await_inv & [-> ->]%run_ret_inv).
  apply (law_read _ Hl) with (d := d) in Hrd; [|by rewrite He]. subst rr.
  by rewrite (law_json _ Hl _ _ Hd).
Qed.

(** An acknowledged change survives a restart: when creating or deleting a
    token succeeds, loading the store again gives exactly the list in memory. *)
Theorem acknowledged_changes_are_reloaded (content : H -> string -> option string)
    (t : task St bool) (s s' : St) (h' : H) (r : result string (list token_record)) :
  file_laws content ->
  (exists rl l e, t = (res ← create_token rl l e; mret (is_ok res))) \/
  (exists wanted, t = (res ← delete_token wanted; mret (bool_decide (res = Ok true)))) ->
  run t s = Ret (true, s') -> run load s'.2 = Ret (r, h') -> r = Ok s'.1.
Proof.
  intros Hl Ht Hr Hld.
  assert (exists s0, run persist s0 = Ret (Ok tt, s') /\ s'.1 = s0.1) as (s0 & Hp & Heq).
  { destruct Ht as [(rl & l & e & ->)|(wanted & ->)];
      apply run_bind_inv in Hr as (res & s1 & Hr & [Hok ->]%run_ret_inv).
    - destruct res as [[p i]|]; [|done]. unfold create_token in Hr.
      apply run_bind_inv in Hr as (p' & s2 & _ & Hr). unfold try_await in Hr.
      apply run_bind_inv in Hr as (ri & s3 & H3 & Hr).
      destruct ri; apply run_ret_inv in Hr as [Hq ->]; [|done]. clear Hq.
      unfold create_token_with_value in H3. unfold try_await in H3 at 1.
      apply run_bind_inv in H3 as (rh & s4 & _ & H3). destruct rh; [|by apply run_ret_inv in H3 as [? _]].
      apply run_bind_inv in H3 as (now & s5 & _ & H3). apply run_bind_inv in H3 as (u & s6 & _ & H3).
      apply run_bind_inv in H3 as (? & s7 & _ & H3). unfold try_await in H3.
      apply run_bind_inv in H3 as (rp & s8 & Hp & H3). destruct rp as [[]|]; apply run_ret_inv in H3 as [? ->];
        [|done]. exists s7. split; [done|]. by apply keeps_persist in Hp.
    - symmetry in Hok. apply bool_decide_eq_true in Hok as ->. unfold delete_token in Hr.
      apply run_bind_inv in Hr as (b & s2 & _ & Hr). destruct b; [|by apply run_ret_inv in Hr as [? _]].
      unfold try_await in Hr. apply run_bind_inv in Hr as (rp & s8 & Hp & Hr).
      destruct rp as [[]|]; apply run_ret_inv in Hr as [? ->]; [|done].
      exists s2. split; [done|]. by apply keeps_persist in Hp. }
  destruct (persist_writes content _ _ Hl Hp) as (d & Hd & Hc). rewrite Heq.
  by eapply load_reads.
Qed.
End store.
End TokenStore.

(** * The authentication layer ([auth/middleware.rs]) *)
Module AuthLayer.
Import TokenStore.

Section layer.
Context {H : Type} `{!Host H}.
Abbreviation St := (list token_record * H)%type.
Abbreviation request := (request token_info).

(** [struct AdminAuthLayer]: the store is the state; the audit logger is any
    task on it. *)
Record auth_layer : Type := AdminAuthLayer {
  exclude_paths : list string;
  audit : option (audit_event -> task St (Result unit));
}.
Definition new_layer (exclude : list string) : auth_layer := AdminAuthLayer exclude None.
Definition with_audit (l : auth_layer) (a : audit_event -> task St (Result unit)) : auth_layer :=
  AdminAuthLayer (exclude_paths l) (Some a).

(** [extract_token] *)
Definition extract_token (req : request) : option string :=
  match header_get "x-admin-token" (req_headers req) ≫= to_str with
  | Some s => Some s
  | None => (header_get "authorization" (req_headers req) ≫= to_str) ≫= strip_prefix "Bearer "
  end.

(** [unauthorized] *)
Definition unauthorized : response := Response 401 [] (Some "").

(** [AuditEvent::new] inside a task, and the logging of an event, whose
    failure is only logged. *)
Definition audit_event_now (actor action resource : string) (o : audit_outcome) :
    task St audit_event :=
  uuid ← host uuid_v4; now ← host unix_nanos; mret (new_event uuid now actor action resource o).
Definition log_quietly (a : option (audit_event -> task St (Result unit))) (actor action resource : string)
    (o : audit_outcome) (f : audit_event -> audit_event) : task St unit :=
  match a with
  | Some logger => e ← audit_event_now actor action resource o; _ ← logger (f e); mret tt
  | None => mret tt
  end.
(** [emit_audit] *)
Definition emit_audit (a : option (audit_event -> task St (Result unit))) (actor path : string)
    (o : audit_outcome) : task St unit :=
  log_quietly a actor "admin.access" "admin_api" o (with_details (JObject [("path", JString path)])).

(** [AdminAuthService::call] *)
Definition auth_call (l : auth_layer) (inner : request -> task St response) (req : request) :
    task St response :=
  if existsb (fun p => starts_with p (path req)) (exclude_paths l) then inner req
  else
    match extract_token req with
    | None => _ ← emit_audit (audit l) "anonymous" (path req) Denied; mret unauthorized
    | Some token =>
        v ← verify token;
        match v with
        | Some info =>
            _ ← emit_audit (audit l) (info_label info) (path req) Success;
            inner (with_claims info req)
        | None => _ ← emit_audit (audit l) "unknown" (path req) Denied; mret unauthorized
        end
    end.

(** The path starts with one of the excluded ones. *)
Definition is_excluded (l : auth_layer) (req : request) : bool :=
  existsb (fun p => starts_with p (path req)) (exclude_paths l).

(** An audit logger that does not touch the token list. *)
Definition audit_keeps (a : option (audit_event -> task St (Result unit))) : Prop :=
  forall f e, a = Some f -> keeps fst (f e).

Lemma keeps_log_quietly a actor action resource o f :
  audit_keeps a -> keeps (@fst (list token_record) H) (log_quietly a actor action resource o f).
Proof.
  intros Ha. unfold log_quietly. destruct a as [logger|]; [|apply keeps_ret].
  apply keeps_bind.
  - unfold audit_event_now. apply keeps_bind; [apply keeps_host|]. intros.
    apply keeps_bind; [apply keeps_host|]. intros. apply keeps_ret.
  - intros e. apply keeps_bind; [by apply Ha|]. intros. apply keeps_ret.
Qed.

(** C13: behind the layer the application is reached only by requests whose
    path starts with an excluded path, which reach it as they are, without a
    token, and by authenticated ones: on any other path either the answer is
    401 and the token list is as it was, or the request carries a token
    accepted by a record of the list and what the application gets is that
    request with the identity of that record. *)
Theorem admin_auth_gate (l : auth_layer) (inner : request -> task St response) (req : request)
    (s s' : St) (resp : response) :
  audit_keeps (audit l) ->
  run (auth_call l inner req) s = Ret (resp, s') ->
  if is_excluded l req then run (inner req) s = Ret (resp, s')
  else
    (resp = unauthorized /\ s'.1 = s.1) \/
    exists t now r s1, extract_token req = Some t /\ r ∈ s.1 /\ accepts t now r /\
      run (inner (with_claims (info_of (used now r)) req)) s1 = Ret (resp, s').
Proof.
  intros Ha Hr. unfold auth_call in Hr. fold (is_excluded l req) in Hr.
  destruct (is_excluded l req); [done|].
  destruct (extract_token req) as [t|] eqn:Et.
  - apply run_bind_inv in Hr as (v & s1 & H1 & Hr).
    apply verify_accepts in H1 as (now & Hv). destruct v as [info|].
    + right. destruct Hv as (pre & r & post & Hs & _ & Hacc & -> & _).
      apply run_bind_inv in Hr as (? & s2 & _ & Hr). exists t, now, r, s2.
      split; [done|]. split; [rewrite Hs; set_solver|]. done.
    + left. apply run_bind_inv in Hr as (? & s2 & H2 & [-> ->]%run_ret_inv).
      apply (keeps_log_quietly _ _ _ _ _ _ Ha) in H2. rewrite H2. by destruct Hv as [-> _].
  - left. apply run_bind_inv in Hr as (? & s2 & H2 & [-> ->]%run_ret_inv).
    by apply (keeps_log_quietly _ _ _ _ _ _ Ha) in H2.
Qed.
End layer.
End AuthLayer.

(** * The token management handlers ([routes.rs]) *)
Module TokenRoutes.
Import TokenStore AuthLayer.

Section routes.
Context {H : Type} `{!Host H} (file : string).
Abbreviation St := (list token_record * H)%type.
Context (audit : option (audit_event -> task St (Result unit))).

(** What the handlers answer: an HTTP status and the envelope, whose data is
    one of these. *)
Inductive reply_data : Type :=
| Tokens (l : list token_info)
| Created (token : string) (info : token_info)
| Deleted (id : string)
| Rotated (token : string) (info : token_info) (message : string).
Definition reply : Type := Z * api_response reply_data.
Definition ok_reply (d : reply_data) : reply := (200, response_success d).
Definition error_reply (status : Z) (code message : string) : reply :=
  (status, ApiResponse code None message).

(** [audit_token_op] *)
Definition audit_token_op (actor action target : string) : task St unit :=
  log_quietly audit actor action "admin_token" Success (with_resource_id target).

(** [require_root] *)
Definition require_root (info : option token_info) : result reply token_info :=
  match info with
  | Some i =>
      if bool_decide (info_role i = Root) then Ok i
      else Err (error_reply 403 "FORBIDDEN" "root role required")
  | None => Err (error_reply 401 "UNAUTHORIZED" "admin token required")
  end.

(** The requests of the routes: [GET /tokens], [POST /tokens] with its body,
    [DELETE /tokens/{id}], [POST /tokens/root/rotate]. *)
Inductive token_request : Type :=
| ListTokens
| CreateToken (label : string) (expires_in_days : option Z)  (* Option<u64> *)
| DeleteToken (token_id : string)
| RotateRoot.

Definition list_tokens_handler (info : option token_info) : task St reply :=
  match require_root info with
  | Err e => mret e
  | Ok _ => tokens ← list_tokens; mret (ok_reply (Tokens tokens))
  end.

(** [days * 24 * 60 * 60 * 1000 + now] *)
Definition expiry (now days : Z) : outcome Z :=
  h ← u64_mul days 24; m ← u64_mul h 60; s ← u64_mul m 60; ms ← u64_mul s 1000; u64_add now ms.

Definition create_token_handler (info : option token_info) (label : string) (days : option Z) :
    task St reply :=
  match require_root info with
  | Err e => mret e
  | Ok root_info =>
      expires_at ←
        match days with
        | Some d =>
            now ← now_millis;
            e ← await (lift_outcome (expiry now d));
            mret (Some e)
        | None => mret None
        end;
      r ← create_token file Admin label expires_at;
      match r with
      | Ok (token, token_info) =>
          _ ← audit_token_op (info_label root_info) "token.create" (info_id token_info);
          mret (ok_reply (Created token token_info))
      | Err e => mret (error_reply 500 "INTERNAL" e)
      end
  end.

Definition delete_token_handler (info : option token_info) (token_id : string) : task St reply :=
  match require_root info with
  | Err e => mret e
  | Ok root_info =>
      if bool_decide (token_id = info_id root_info)
      then mret (error_reply 400 "BAD_REQUEST" "cannot delete your own root token — use rotate instead")
      else
        r ← delete_token file token_id;
        match r with
        | Ok true =>
            _ ← audit_token_op (info_label root_info) "token.delete" token_id;
            mret (ok_reply (Deleted token_id))
        | Ok false => mret (error_reply 404 "NOT_FOUND" ("token " +:+ token_id +:+ " not found"))
        | Err e => mret (error_reply 500 "INTERNAL" e)
        end
  end.

Definition rotate_root_handler (info : option token_info) : task St reply :=
  match require_root info with
  | Err e => mret e
  | Ok _ =>
      d ← delete_root file;
      match d with
      | Err e => mret (error_reply 500 "INTERNAL" e)
      | Ok _ =>
          r ← create_token file Root "root" None;
          match r with
          | Ok (token, token_info) =>
              _ ← audit_token_op "root" "token.rotate" (info_id token_info);
              mret (ok_reply (Rotated token token_info "root token rotated — old token is now invalid"))
          | Err e => mret (error_reply 500 "INTERNAL" e)
          end
      end
  end.

(** The routes, for a request whose extension the layer has set. *)
Definition token_routes (info : option token_info) (r : token_request) : task St reply :=
  match r with
  | ListTokens => list_tokens_handler info
  | CreateToken label days => create_token_handler info label days
  | DeleteToken token_id => delete_token_handler info token_id
  | RotateRoot => rotate_root_handler info
  end.

(** ** Who may manage tokens, and what rotation does *)

(** Without the root role no token route does anything: the answer is
    401 without an identity and 403 with the admin role, for every request,
    and neither the tokens nor the file nor the audit trail are touched. *)
Theorem token_routes_need_root (info : option token_info) (r : token_request) (s : St) :
  (forall i, info = Some i -> info_role i <> Root) ->
  run (token_routes info r) s =
    Ret (match info with
         | None => error_reply 401 "UNAUTHORIZED" "admin token required"
         | Some _ => error_reply 403 "FORBIDDEN" "root role required"
         end, s).
Proof.
  intros Hi. assert (require_root info = Err (match info with
         | None => error_reply 401 "UNAUTHORIZED" "admin token required"
         | Some _ => error_reply 403 "FORBIDDEN" "root role required"
         end)) as Hr.
  { unfold require_root. destruct info as [i|]; [|done].
    rewrite bool_decide_eq_false_2; [done|]. by apply Hi. }
  destruct r; simpl; unfold list_tokens_handler, create_token_handler, delete_token_handler,
    rotate_root_handler; by rewrite Hr.
Qed.

(** Roots of a list, and what the operations do to their number. *)
Lemma count_snoc {A} (p : A -> bool) l x : count p (l ++ [x]) = (count p l + Nat.b2n (p x))%nat.
Proof. rewrite count_app, count_cons, count_nil. lia. Qed.
Lemma count_filter_le {A} (p : A -> bool) (P : A -> Prop) `{!forall x, Decision (P x)} l :
  (count p (filter P l) <= count p l)%nat.
Proof.
  induction l as [|x l IH]; [done|]. rewrite filter_cons, count_cons.
  destruct (decide (P x)); rewrite ?count_cons; lia.
Qed.
Lemma no_roots_left ts : count is_root (filter (fun t => role t <> Root) ts) = 0%nat.
Proof.
  induction ts as [|t ts IH]; [done|]. rewrite filter_cons. destruct (decide _); [|done].
  rewrite count_cons, IH. unfold is_root. by rewrite bool_decide_eq_false_2.
Qed.

Lemma rotate_inv info s rep s' :
  audit_keeps audit -> run (rotate_root_handler info) s = Ret (rep, s') ->
  s'.1 = s.1 /\ ~ (exists d, rep = ok_reply d) \/
  s'.1 = filter (fun t => role t <> Root) s.1 /\ ~ (exists d, rep = ok_reply d) \/
  exists plaintext hash uuid now h h',
    argon2_hash plaintext h = Ret (Ok hash, h') /\
    let rec := TokenRecord uuid Root hash "root" now None None in
    s'.1 = filter (fun t => role t <> Root) s.1 ++ [rec] /\
    ((exists d, rep = ok_reply d) ->
      rep = ok_reply (Rotated plaintext (info_of rec) "root token rotated — old token is now invalid")).
Proof.
  intros Ha Hr. unfold rotate_root_handler in Hr. destruct (require_root info) as [i|e] eqn:Eq.
  - apply run_bind_inv in Hr as (d & s1 & H1%delete_root_inv & Hr). destruct d as [u|e].
    + apply run_bind_inv in Hr as (c & s2 & H2%create_inv & Hr).
      destruct H2 as [[H2 Hc]|(p & hash & uuid & now & h & h' & Hh & H2 & H3)].
      * destruct c as [|e]; [done|]. apply run_ret_inv in Hr as [-> ->].
        right. left. rewrite H2, H1. split; [done|]. by intros [d [=]].
      * right. right. exists p, hash, uuid, now, h, h'. split; [done|]. cbv zeta. rewrite <-H1, <-H2.
        destruct c as [[t ti]|e].
        -- apply run_bind_inv in Hr as (? & s3 & H4 & [-> ->]%run_ret_inv).
           apply (keeps_log_quietly _ _ _ _ _ _ Ha) in H4. rewrite H4. split; [done|].
           destruct (H3 _ _ eq_refl) as [-> ->]. done.
        -- apply run_ret_inv in Hr as [-> ->]. split; [done|]. by intros [d [=]].
    + apply run_ret_inv in Hr as [-> ->]. right. left. split; [done|]. by intros [d [=]].
  - apply run_ret_inv in Hr as [-> ->]. left. split; [done|].
    unfold require_root in Eq. destruct info; [destruct (bool_decide _); [done|]|];
      injection Eq as <-; by intros [d [=]].
Qed.

Lemma create_handler_inv info label days s rep s' :
  audit_keeps audit -> run (create_token_handler info label days) s = Ret (rep, s') ->
  s'.1 = s.1 \/ exists r, role r = Admin /\ s'.1 = s.1 ++ [r].
Proof.
  intros Ha Hr. unfold create_token_handler in Hr. destruct (require_root info) as [i|e];
    [|apply run_ret_inv in Hr as [-> ->]; by left].
  apply run_bind_inv in Hr as (exp & s1 & H1 & Hr).
  assert (s1.1 = s.1) as Hs1.
  { destruct days; [|by apply run_ret_inv in H1 as [_ ->]].
    apply run_bind_inv in H1 as (now & s2 & H2%keeps_now & H1).
    apply run_bind_inv in H1 as (e & s3 & H3%run_await_inv & [_ ->]%run_ret_inv).
    unfold lift_outcome, mbind, outcome_bind in H3. destruct (expiry now z); [|done].
    by injection H3 as <- <-. }
  apply run_bind_inv in Hr as (c & s2 & H2%create_inv & Hr).
  assert (s'.1 = s2.1) as ->.
  { destruct c as [[t ti]|e]; [|by apply run_ret_inv in Hr as [_ ->]].
    apply run_bind_inv in Hr as (? & s3 & H4 & [_ ->]%run_ret_inv).
    by apply (keeps_log_quietly _ _ _ _ _ _ Ha) in H4. }
  rewrite <-Hs1. destruct H2 as [[-> _]|(? & ? & ? & ? & ? & ? & _ & -> & _)]; [by left|right].
  eexists. split; [|done]. done.
Qed.

Lemma delete_handler_inv info token_id s rep s' :
  audit_keeps audit -> run (delete_token_handler info token_id) s = Ret (rep, s') ->
  s'.1 = s.1 \/ s'.1 = filter (fun t => id t <> token_id) s.1.
Proof.
  intros Ha Hr. unfold delete_token_handler in Hr. destruct (require_root info) as [i|e];
    [|apply run_ret_inv in Hr as [-> ->]; by left].
  destruct (bool_decide _); [apply run_ret_inv in Hr as [-> ->]; by left|].
  apply run_bind_inv in Hr as (c & s2 & H2%delete_inv & Hr). right. rewrite <-H2.
  destruct c as [[]|e]; [|by apply run_ret_inv in Hr as [_ ->]..].
  apply run_bind_inv in Hr as (? & s3 & H4 & [_ ->]%run_ret_inv).
  by apply (keeps_log_quietly _ _ _ _ _ _ Ha) in H4.
Qed.

(** No request to the token routes, whoever sends it and however it
    fails, adds a root to a store that has one: there is at most one root
    token, and only rotation creates a record with the root role. *)
Theorem one_root_kept (info : option token_info) (r : token_request) (s s' : St) (rep : reply) :
  audit_keeps audit -> run (token_routes info r) s = Ret (rep, s') ->
  (count is_root s.1 <= 1)%nat ->
  (count is_root s'.1 <= 1)%nat /\
  (r <> RotateRoot -> forall t, t ∈ s'.1 -> role t = Root -> t ∈ s.1).
Proof.
  intros Ha Hr Hc. destruct r as [|label days|tid|]; simpl in Hr.
  - assert (s' = s) as ->; [|done]. unfold list_tokens_handler in Hr.
    destruct (require_root info); [|by apply run_ret_inv in Hr as [_ ->]].
    apply run_bind_inv in Hr as (? & s1 & [_ ->]%locked_inv & [_ ->]%run_ret_inv). by destruct s.
  - apply (create_handler_inv _ _ _ _ _ _ Ha) in Hr as [->|(t & Ht & ->)]; [done|].
    rewrite count_snoc. unfold is_root at 2. rewrite Ht. simpl. split; [lia|].
    intros _ t' [Ht'|Ht'%list_elem_of_singleton]%elem_of_app Hroot; [done|congruence].
  - apply (delete_handler_inv _ _ _ _ _ Ha) in Hr as [->| ->]; [done|]. split.
    + etrans; [apply count_filter_le|done].
    + intros _ t [_ Ht]%list_elem_of_filter _. done.
  - split; [|done]. apply (rotate_inv _ _ _ _ Ha) in Hr
      as [[-> _]|[[-> _]|(? & ? & ? & ? & ? & ? & _ & -> & _)]]; [done|..].
    + rewrite no_roots_left. lia.
    + rewrite count_snoc, no_roots_left. simpl. lia.
Qed.

(** A rotation that succeeds removes every root token, keeps every admin
    token, and adds one root record, which accepts the token it returns at any
    time. *)
Theorem rotation_replaces_root (info : option token_info) (s s' : St) (token message : string)
    (i : token_info) :
  audit_keeps audit ->
  (forall p h hash h', argon2_hash p h = Ret (Ok hash, h') -> argon2_verify p hash = true) ->
  run (token_routes info RotateRoot) s = Ret (ok_reply (Rotated token i message), s') ->
  exists rec, s'.1 = filter (fun t => role t <> Root) s.1 ++ [rec] /\ role rec = Root /\
    i = info_of rec /\ forall now, accepts token now rec.
Proof.
  intros Ha Hv Hr. apply (rotate_inv _ _ _ _ Ha) in Hr
    as [[_ []]|[[_ []]|(p & hash & uuid & now & h & h' & Hh & Hs & Hd)]]; [by eexists..|].
  pose proof (Hd (ex_intro _ _ eq_refl)) as [= -> -> _].
  eexists. split; [exact Hs|]. split; [done|]. split; [done|]. intros t. split; [done|].
  by eapply Hv.
Qed.

(** A rotation whose new token cannot be hashed has removed the roots
    already: the answer is an error and the store is left without a root. *)
Theorem failed_rotation_locks_out (i : token_info) (s s1 s2 s3 : St) (hex e : string) :
  info_role i = Root ->
  run (delete_root file) s = Ret (Ok tt, s1) ->
  random_hex s1.2 = Ret (hex, s2.2) ->
  argon2_hash ("rinfra_root_" +:+ hex) s2.2 = Ret (Err e, s3.2) ->
  run (token_routes (Some i) RotateRoot) s =
    Ret (error_reply 500 "INTERNAL" ("hash failed: " +:+ e), (s1.1, s3.2)) /\
  count is_root s1.1 = 0%nat.
Proof.
  intros Hi Hd Hx Hh. split; [|rewrite (delete_root_inv _ _ _ _ Hd); apply no_roots_left].
  simpl. unfold rotate_root_handler, require_root. rewrite Hi, bool_decide_eq_true_2 by done.
  rewrite run_bind, (M_bind_ret _ _ _ _ _ Hd), run_bind. unfold create_token.
  destruct s1 as [ts1 h1], s2 as [ts2 h2], s3 as [ts3 h3]. simpl in *.
  unfold mbind, M_bind, outcome_bind. cbn [fst snd]. rewrite Hx. cbn [fst snd]. by rewrite Hh.
Qed.
End routes.
End TokenRoutes.

(** * Bootstrap and assembly ([auth/mod.rs], [lib.rs]) *)
Module Bootstrap.
Import TokenStore AuthLayer.

Section bootstrap.
Context {H : Type} `{!Host H}.
Abbreviation St := (list token_record * H)%type.

(** [AdminAuthConfig]; the environment is a lookup function. *)
Record config : Type := Config {
  enabled : bool;
  token_file : string;
  root_token_env : string;
  excluded : list string;
}.

(** [bootstrap_admin_auth]: the loaded store is the first half of the final
    state. *)
Definition bootstrap_on (cfg : config) (env : string -> option string) :
    task St (result string unit) :=
  let file := token_file cfg in
  root ← has_root;
  match env (root_token_env cfg) with
  | Some t =>
      if negb (bool_decide (t = "")) && negb root
      then try_await (create_token_with_value file Root "root (from env)" t None)
             (fun _ => mret (Ok tt))
      else if root : bool then mret (Ok tt)
           else try_await (create_token file Root "root" None) (fun _ => mret (Ok tt))
  | None =>
      if root : bool then mret (Ok tt)
      else try_await (create_token file Root "root" None) (fun _ => mret (Ok tt))
  end.
Definition bootstrap_loaded (cfg : config) (env : string -> option string)
    (ts : list token_record) : M H (result string (list token_record)) := fun h =>
  match run (bootstrap_on cfg env) (ts, h) with
  | Ret (Ok _, (ts, h)) => Ret (Ok ts, h)
  | Ret (Err e, (_, h)) => Ret (Err e, h)
  | Panic w => Panic w
  end.
Definition bootstrap_admin_auth (cfg : config) (env : string -> option string) :
    M H (result string (list token_record)) :=
  run (load (token_file cfg)) ≫= fun l =>
  match l with Err e => mret (Err e) | Ok ts => bootstrap_loaded cfg env ts end.

(** [struct AdminBuilder], its authentication part, and [with_auth_config]:
    the store's initial list and the paths to exclude. *)
Record admin_builder : Type := AdminBuilder {
  token_store : option (list token_record);
  auth_exclude_paths : list string;
}.
Definition new : admin_builder := AdminBuilder None [].
Definition with_auth (b : admin_builder) (store : list token_record) (exclude : list string) :
    admin_builder := AdminBuilder (Some store) exclude.
Definition with_auth_config (b : admin_builder) (cfg : config) (env : string -> option string) :
    M H admin_builder :=
  if enabled cfg then
    r ← bootstrap_admin_auth cfg env;
    mret (match r with Ok store => with_auth b store (excluded cfg) | Err _ => b end)
  else mret b.

(** [build]: the layer is put around the API only when there is a store. *)
Definition build (b : admin_builder) (audit : option (audit_event -> task St (Result unit)))
    (api : request token_info -> task St response) : request token_info -> task St response :=
  match token_store b with
  | None => api
  | Some _ => auth_call (AdminAuthLayer (auth_exclude_paths b) audit) api
  end.

(** A task that, if it succeeds, has added a root. *)
Definition grows_root {A} (t : task St (result string A)) : Prop :=
  forall s res s', run t s = Ret (res, s') ->
    (s'.1 = s.1 /\ is_ok res = false) \/ exists rec, is_root rec = true /\ s'.1 = s.1 ++ [rec].

Lemma try_grows_root {A} (t : task St (result string A)) s u s' :
  grows_root t -> run (try_await t (fun _ => mret (Ok tt))) s = Ret (Ok u, s') ->
  existsb is_root s'.1 = true.
Proof.
  intros Ht Hrun. unfold try_await in Hrun. apply run_bind_inv in Hrun as (res & s2 & H2 & Hrun).
  apply Ht in H2. destruct res; apply run_ret_inv in Hrun as [? ->]; [|done].
  destruct H2 as [[_ ?]|(rec & Hrec & ->)]; [done|]. rewrite existsb_app.
  simpl. by rewrite Hrec, orb_true_r.
Qed.
Lemma create_value_grows file l p e : grows_root (create_token_with_value file Root l p e).
Proof.
  intros s res s' [Hs|(? & ? & ? & ? & ? & _ & Hs & _)]%create_with_value_inv; [by left|right].
  eexists. split; [|exact Hs]. done.
Qed.
Lemma create_grows file l e : grows_root (create_token file Root l e).
Proof.
  intros s res s' [Hs|(? & ? & ? & ? & ? & ? & _ & Hs & _)]%create_inv; [by left|right].
  eexists. split; [|exact Hs]. done.
Qed.

(** A successful bootstrap leaves a root token in the store, whichever of
    the file, the environment and the generator it came from; and when the
    file already had one, the environment's token is ignored. *)
Theorem bootstrap_ensures_root (cfg : config) (env : string -> option string) (h h' : H)
    (ts : list token_record) :
  bootstrap_admin_auth cfg env h = Ret (Ok ts, h') ->
  existsb is_root ts = true /\
  exists loaded h1, run (load (token_file cfg)) h = Ret (Ok loaded, h1) /\
    (existsb is_root loaded = true -> ts = loaded).
Proof.
  unfold bootstrap_admin_auth. intros (l & h1 & Hl & Hr)%M_bind_inv.
  destruct l as [loaded|e]; [|done]. unfold bootstrap_loaded in Hr.
  destruct (run (bootstrap_on cfg env) (loaded, h1)) as [[[u|e] [ts' h2]]|] eqn:Hb; [|done..].
  injection Hr as -> ->. enough (existsb is_root ts = true /\ (existsb is_root loaded = true -> ts = loaded))
    as [? ?] by eauto 10.
  unfold bootstrap_on in Hb. apply run_bind_inv in Hb as (root & s1 & [-> ->]%locked_inv & Hb).
  cbn [fst snd] in Hb.
  destruct (existsb is_root loaded) eqn:Eroot.
  - assert (ts = loaded) as ->; [|by rewrite Eroot].
    destruct (env (root_token_env cfg)) as [t|]; [rewrite andb_false_r in Hb|];
      by apply run_ret_inv in Hb as [_ [= -> _]].
  - split; [|done]. destruct (env (root_token_env cfg)) as [t|]; [|by apply try_grows_root in Hb; [|apply create_grows]].
    destruct (_ && _); apply try_grows_root in Hb; auto using create_value_grows, create_grows.
Qed.

(** When authentication is configured but its bootstrap fails, for
    instance because the token file is damaged, the backend is built without
    the layer: every request reaches the API. *)
Theorem failed_bootstrap_serves_everyone (b : admin_builder) (cfg : config)
    (env : string -> option string) (audit : option (audit_event -> task St (Result unit)))
    (api : request token_info -> task St response) (h h' : H) (e : string) :
  token_store b = None -> enabled cfg = true ->
  bootstrap_admin_auth cfg env h = Ret (Err e, h') ->
  exists b', with_auth_config b cfg env h = Ret (b', h') /\
    forall req, build b' audit api req = api req.
Proof.
  intros Hb He Hboot. exists b. unfold with_auth_config. rewrite He.
  rewrite (M_bind_ret _ _ _ _ _ Hboot). split; [done|]. intros req. unfold build. by rewrite Hb.
Qed.
End bootstrap.
End Bootstrap.

(** * A concrete host: files in a map, a counter for everything random *)
Module AdminExamples.
Import TokenStore AuthLayer TokenRoutes Bootstrap.

(** Lists of records as strings of binary digits. *)
#[export] Instance admin_role_countable : Countable admin_role.
Proof.
  apply (inj_countable' (fun r => bool_decide (r = Root)) (fun b : bool => if b then Root else Admin)).
  by intros [].
Defined.
#[export] Instance token_record_countable : Countable token_record.
Proof.
  apply (inj_countable'
    (fun r => (id r, role r, token_hash r, label r, created_at r, last_used_at r, expires_at r))
    (fun '(a, b, c, d, e, f, g) => TokenRecord a b c d e f g)).
  by intros [].
Defined.
Definition zero : Ascii.ascii := Ascii.ascii_of_N 48.
Definition one : Ascii.ascii := Ascii.ascii_of_N 49.
Fixpoint bits (p : positive) : string :=
  match p with
  | xH => ""
  | xO p => String zero (bits p)
  | xI p => String one (bits p)
  end.
Fixpoint unbits (s : string) : option positive :=
  match s with
  | EmptyString => Some xH
  | String c s =>
      p ← unbits s;
      if Ascii.eqb c zero then Some (xO p) else if Ascii.eqb c one then Some (xI p) else None
  end.
Lemma unbits_bits p : unbits (bits p) = Some p.
Proof. induction p as [p IH|p IH|]; simpl; [by rewrite IH..|done]. Qed.

Record sim : Type := Sim { clock : Z; fresh : nat; hash_ok : bool; files : gmap string string }.
Definition tick (s : sim) : sim := Sim (clock s) (S (fresh s)) (hash_ok s) (files s).
Definition set_files (f : gmap string string) (s : sim) : sim := Sim (clock s) (fresh s) (hash_ok s) f.

#[export] Instance sim_host : Host sim := {|
  unix_nanos := fun s => Ret (clock s, s);
  uuid_v4 := fun s => Ret ("id" +:+ pretty (fresh s), tick s);
  random_hex := fun s => Ret (pretty (fresh s), tick s);
  argon2_hash p := fun s => if hash_ok s then Ret (Ok p, s) else Ret (Err "no entropy", s);
  argon2_verify p h := bool_decide (p = h);
  to_json ts := Ok (bits (encode ts));
  from_json d := ok_or "bad json" (unbits d ≫= decode);
  path_exists p := fun s => Ret (bool_decide (is_Some (files s !! p)), s);
  read_to_string p := fun s => Ret (ok_or "no such file" (files s !! p), s);
  create_dir_all p := fun s => Ret (Ok tt, s);
  write_file p d := fun s => Ret (Ok tt, set_files (<[p := d]> (files s)) s);
  rename_file a b := fun s =>
    match files s !! a with
    | Some d => Ret (Ok tt, set_files (<[b := d]> (delete a (files s))) s)
    | None => Ret (Err "no such file", s)
    end;
|}.

Lemma sim_laws : file_laws (fun (s : sim) p => files s !! p).
Proof.
  split; simpl.
  - intros p d h h' [= <-]. simpl. apply lookup_insert_eq.
  - intros a b d h h' Hr Ha. rewrite Ha in Hr. injection Hr as <-. apply lookup_insert_eq.
  - by intros p b h h' [= <- <-].
  - intros p d h r h' [= <- _] ->. done.
  - intros ts d [= <-]. change (ok_or "bad json" (unbits (bits (encode ts)) ≫= decode) = @Ok string _ ts).
    rewrite unbits_bits. unfold mbind, option_bind. by rewrite decode_encode.
Qed.

Definition file : string := "admin/tokens.json".
Definition root_record : token_record := TokenRecord "r" Root "secret" "root" 0 None None.
Definition leaked : token_record := TokenRecord "b" Admin "leaked" "bob" 0 None (Some 9).
Definition start : list token_record * sim := ([leaked; root_record], Sim 5000000 0 true ∅).
Definition root_info : token_info := info_of root_record.
Definition finish {A} (r : outcome (A * (list token_record * sim))) : list token_record * sim :=
  match r with Ret (_, s) => s | Panic _ => start end.

(** ** A revoked token that comes back *)

Definition t_create : task (list token_record * sim) bool :=
  r ← create_token file Admin "carol" None; mret (is_ok r).
Definition t_delete : task (list token_record * sim) bool :=
  r ← delete_token file "b"; mret (bool_decide (r = Ok true)).

(** Two administrators at work at the same time can undo a revocation:
    when a deletion runs between the snapshot and the write of a concurrent
    creation, both are acknowledged and the token is gone from memory, but the
    file has it, and after a restart it is accepted again. *)
Theorem revoked_token_returns :
  exists schedule ts h ts',
    interleave schedule ([t_create; t_delete], start) = Ret ([Done true; Done true], (ts, h)) /\
    (leaked ∉ ts) /\
    run (load file) h = Ret (Ok ts', h) /\ (leaked ∈ ts') /\ accepts "leaked" 5 leaked.
Proof.
  exists ([0; 0; 0; 0; 0; 0; 1; 1; 1; 1; 1; 1; 0; 0; 0; 0]%nat).
  do 3 eexists. split; [vm_compute; reflexivity|].
  split; [apply (bool_decide_unpack _); vm_compute; exact I|].
  split; [vm_compute; reflexivity|].
  split; [apply (bool_decide_unpack _); vm_compute; exact I|].
  split; [|reflexivity]. intros e [= <-]. vm_compute. discriminate.
Qed.

(** ** Witnesses *)

Definition get_tokens : request token_info :=
  Request "GET" "/api/admin/info" [("authorization", "Bearer leaked")] None None.
Definition echo (r : request token_info) : task (list token_record * sim) response :=
  mret (Response 200 [] (info_label <$> req_claims r)).
Definition layer : auth_layer (H := sim) := new_layer ["/api/admin/health"].
Definition verified : list token_record * sim := finish (run (verify "leaked") start).

Lemma no_audit_keeps : audit_keeps (H := sim) None.
Proof. intros f e [=]. Qed.

Lemma verify_accepts_exactly_witness :
  exists now, exists pre r post, start.1 = pre ++ r :: post /\
    Forall (fun r => ~ accepts "leaked" now r) pre /\ accepts "leaked" now r /\
    info_of (used 5 leaked) = info_of (used now r) /\ verified.1 = pre ++ used now r :: post.
Proof.
  apply (verify_accepts_exactly "leaked" start verified (Some (info_of (used 5 leaked)))).
  vm_compute. reflexivity.
Defined.

Lemma admin_auth_gate_witness :
  (Response 200 [] (Some "bob") = unauthorized /\ verified.1 = start.1) \/
  exists t now r s1, extract_token get_tokens = Some t /\ r ∈ start.1 /\ accepts t now r /\
    run (echo (with_claims (info_of (used now r)) get_tokens)) s1 =
      Ret (Response 200 [] (Some "bob"), verified).
Proof.
  apply (admin_auth_gate layer echo get_tokens start verified).
  - exact no_audit_keeps.
  - vm_compute. reflexivity.
Defined.

Lemma token_routes_need_root_witness :
  run (token_routes file None (Some (info_of leaked)) RotateRoot) start =
    Ret (error_reply 403 "FORBIDDEN" "root role required", start).
Proof.
  apply (token_routes_need_root file None (Some (info_of leaked)) RotateRoot start).
  intros i [= <-]. discriminate.
Defined.

Definition rotated : list token_record * sim :=
  finish (run (token_routes file None (Some root_info) RotateRoot) start).
Definition new_root : token_record := TokenRecord "id1" Root "rinfra_root_0" "root" 5 None None.
Definition rotation_message : string := "root token rotated — old token is now invalid".

Lemma rotate_runs : run (token_routes file None (Some root_info) RotateRoot) start =
  Ret (ok_reply (Rotated "rinfra_root_0" (info_of new_root) rotation_message), rotated).
Proof. vm_compute. reflexivity. Qed.

Lemma one_root_kept_witness :
  (count is_root rotated.1 <= 1)%nat /\
  (RotateRoot <> RotateRoot -> forall t, t ∈ rotated.1 -> role t = Root -> t ∈ start.1).
Proof.
  apply (one_root_kept file None (Some root_info) RotateRoot start rotated _ no_audit_keeps rotate_runs).
  apply (bool_decide_unpack (count is_root start.1 <= 1)%nat). vm_compute. exact I.
Defined.

Lemma rotation_replaces_root_witness :
  exists rec, rotated.1 = filter (fun t => role t <> Root) start.1 ++ [rec] /\ role rec = Root /\
    info_of new_root = info_of rec /\ forall now, accepts "rinfra_root_0" now rec.
Proof.
  apply (rotation_replaces_root file None (Some root_info) start rotated "rinfra_root_0"
    rotation_message (info_of new_root) no_audit_keeps).
  - simpl. intros p h hash h'. destruct (hash_ok h); [|discriminate]. intros [= <- _].
    by apply bool_decide_eq_true.
  - exact rotate_runs.
Defined.

Definition drained : list token_record * sim := (start.1, Sim 5000000 0 false ∅).
Definition drained1 : list token_record * sim := finish (run (delete_root file) drained).
Definition drained2 : list token_record * sim := (drained1.1, tick drained1.2).

Lemma failed_rotation_locks_out_witness :
  run (token_routes file None (Some root_info) RotateRoot) drained =
    Ret (error_reply 500 "INTERNAL" "hash failed: no entropy", (drained1.1, drained2.2)) /\
  count is_root drained1.1 = 0%nat.
Proof.
  apply (failed_rotation_locks_out file None root_info drained drained1 drained2 drained2 "0" "no entropy");
    vm_compute; reflexivity.
Defined.

Definition deleted : list token_record * sim := finish (run t_delete start).
Definition reloaded : sim := deleted.2.

Lemma acknowledged_changes_are_reloaded_witness : Ok [root_record] = @Ok string _ deleted.1.
Proof.
  apply (acknowledged_changes_are_reloaded file (fun s p => files s !! p) t_delete start deleted
    reloaded (Ok [root_record]) sim_laws).
  - right. exists "b". reflexivity.
  - vm_compute. reflexivity.
  - vm_compute. reflexivity.
Defined.

Definition config : config := Config true file "ADMIN_ROOT" [].
Definition booted : sim :=
  match bootstrap_admin_auth config (fun _ => Some "hunter2") (Sim 5000000 0 true ∅) with
  | Ret (_, h) => h
  | Panic _ => Sim 0 0 true ∅
  end.
Definition env_root : token_record := TokenRecord "id0" Root "hunter2" "root (from env)" 5 None None.

Lemma bootstrap_ensures_root_witness :
  existsb is_root [env_root] = true /\
  exists loaded h1, run (load (token_file config)) (Sim 5000000 0 true ∅) = Ret (Ok loaded, h1) /\
    (existsb is_root loaded = true -> [env_root] = loaded).
Proof.
  apply (bootstrap_ensures_root config (fun _ => Some "hunter2") (Sim 5000000 0 true ∅) booted).
  vm_compute. reflexivity.
Defined.

Definition damaged : sim := Sim 0 0 true {[file := "{"]}.

Lemma failed_bootstrap_serves_everyone_witness :
  exists b', with_auth_config new config (fun _ => None) damaged = Ret (b', damaged) /\
    forall req, build b' None echo req = echo req.
Proof.
  apply (failed_bootstrap_serves_everyone new config (fun _ => None) None echo damaged damaged
    "failed to parse token file: bad json"); vm_compute; reflexivity.
Defined.
End AdminExamples.
