(* ===== verification/Serde.v ===== *)
(** Derived (de)serialisation: what [#[derive(Serialize, Deserialize)]] with
    [#[serde(default)]] does between a type and a [serde_json::Value], as
    codecs, and a [Value] as a tree that is read and written along a path. *)

From Stdlib Require Import DecimalString DecimalN.
From S2P Require Import Prelude.

(** ** Unsigned decimal numerals *)
Definition print_dec (n : Z) : string := NilZero.string_of_uint (N.to_uint (Z.to_N n)).
Definition parse_dec (s : string) : option Z :=
  (fun d => Z.of_N (N.of_uint d)) <$> NilZero.uint_of_string s.

Lemma parse_print_dec n : 0 <= n -> parse_dec (print_dec n) = Some n.
Proof.
  intros Hn. unfold parse_dec, print_dec. rewrite NilZero.usu.
  - simpl. by rewrite Unsigned.of_to, Z2N.id.
  - destruct (Z.to_N n) as [|p]; [done|]. simpl. apply DecimalPos.Unsigned.to_uint_nonnil.
Qed.

(** ** Objects: the first entry of a key counts, as in a map *)
Fixpoint assoc {A} (k : string) (es : list (string * A)) : option A :=
  match es with
  | [] => None
  | (k', v) :: es => if String.eqb k k' then Some v else assoc k es
  end.
(** [Map::insert]: in place, or at the end. *)
Fixpoint assoc_insert {A} (k : string) (v : A) (es : list (string * A)) : list (string * A) :=
  match es with
  | [] => [(k, v)]
  | (k', v') :: es => if String.eqb k k' then (k, v) :: es else (k', v') :: assoc_insert k v es
  end.

Lemma assoc_insert_eq {A} k (v : A) es : assoc k (assoc_insert k v es) = Some v.
Proof.
  induction es as [|[k' v'] es IH]; simpl; [by rewrite String.eqb_refl|].
  destruct (String.eqb k k') eqn:E; simpl; [by rewrite String.eqb_refl|by rewrite E].
Qed.
Lemma assoc_insert_ne {A} k k' (v : A) es : k <> k' -> assoc k (assoc_insert k' v es) = assoc k es.
Proof.
  intros Hne. induction es as [|[k1 v1] es IH]; simpl.
  - by rewrite (proj2 (String.eqb_neq _ _) Hne).
  - destruct (String.eqb k' k1) eqn:E; simpl.
    + apply String.eqb_eq in E as <-. by rewrite (proj2 (String.eqb_neq _ _) Hne).
    + by rewrite IH.
Qed.

(** ** Codecs *)

(** [ok] is the invariant of the Rust type behind [A] (the range of an
    integer). *)
Record codec (A : Type) : Type := Codec {
  enc : A -> json;
  dec : json -> result string A;
  ok : A -> Prop;
}.
Arguments Codec {A}.
Arguments enc {A}.
Arguments dec {A}.
Arguments ok {A}.

Record lawful {A} (c : codec A) : Prop := Lawful {
  dec_enc a : ok c a -> dec c (enc c a) = Ok a;
  enc_not_null a : enc c a <> JNull;
}.

Definition invalid_type {A} (expected : string) : result string A :=
  Err ("invalid type: expected " +:+ expected).

Definition bool_c : codec bool :=
  Codec JBool (fun j => match j with JBool b => Ok b | _ => invalid_type "a boolean" end)
    (fun _ => True).
Definition string_c : codec string :=
  Codec JString (fun j => match j with JString s => Ok s | _ => invalid_type "a string" end)
    (fun _ => True).
Definition uint_c (hi : Z) : codec Z :=
  Codec (fun n => JNumber (print_dec n))
    (fun j => match j with
              | JNumber l =>
                  match parse_dec l with
                  | Some n => if n <=? hi then Ok n else Err "invalid value: integer out of range"
                  | None => invalid_type "an unsigned integer"
                  end
              | _ => invalid_type "an unsigned integer"
              end)
    (fun n => 0 <= n <= hi).
Definition u32_c : codec Z := uint_c u32_max.
Definition u64_c : codec Z := uint_c u64_max.
Definition usize_c : codec Z := uint_c usize_max.
(** An [f64] is kept as the literal it is written with. *)
Definition f64_c : codec string :=
  Codec JNumber (fun j => match j with JNumber l => Ok l | _ => invalid_type "f64" end)
    (fun _ => True).
(** A [serde_json::Value] field. *)
Definition value_c : codec json := Codec (fun j => j) Ok (fun _ => True).
Definition option_c {A} (c : codec A) : codec (option A) :=
  Codec (fun o => match o with Some a => enc c a | None => JNull end)
    (fun j => match j with
              | JNull => Ok None
              | _ => match dec c j with Ok a => Ok (Some a) | Err e => Err e end
              end)
    (fun o => match o with Some a => ok c a | None => True end).
Definition vec_c {A} (c : codec A) : codec (list A) :=
  Codec (fun l => JArray (map (enc c) l))
    (fun j => match j with JArray l => collect (dec c) l | _ => invalid_type "a sequence" end)
    (Forall (ok c)).
(** An enum of unit variants: a string, or an object from the variant to
    null. *)
Fixpoint variant_named {A} (name : A -> string) (variants : list A) (s : string) : result string A :=
  match variants with
  | [] => Err ("unknown variant `" +:+ s +:+ "`")
  | v :: vs => if String.eqb (name v) s then Ok v else variant_named name vs s
  end.
Definition enum_c {A} (name : A -> string) (variants : list A) : codec A :=
  Codec (fun a => JString (name a))
    (fun j => match j with
              | JString s | JObject [(s, JNull)] => variant_named name variants s
              | _ => invalid_type "variant identifier"
              end)
    (fun a => variant_named name variants (name a) = Ok a).

(** ** Structs *)

(** A struct is read from an object by name, or from an array by position; an
    array must not be longer than the struct. *)
Inductive source : Type := Named (es : list (string * json)) | Positional (l : list json).
Definition struct_source (n : nat) (j : json) : result string source :=
  match j with
  | JObject es => Ok (Named es)
  | JArray l => if bool_decide (length l <= n)%nat then Ok (Positional l) else Err "invalid length"
  | _ => invalid_type "a struct"
  end.
Definition field_value (src : source) (i : nat) (name : string) : option json :=
  match src with Named es => assoc name es | Positional l => l !! i end.
(** A field with [#[serde(default)]], and one without. *)
Definition field_or {A} (src : source) (i : nat) (name : string) (c : codec A) (d : A) :
    result string A :=
  match field_value src i name with Some j => dec c j | None => Ok d end.
Definition field_req {A} (src : source) (i : nat) (name : string) (c : codec A) : result string A :=
  match field_value src i name with
  | Some j => dec c j
  | None => Err ("missing field `" +:+ name +:+ "`")
  end.

(** ** The laws of the codecs *)
Create HintDb serde discriminated.

Lemma bool_c_law : lawful bool_c.
Proof. by split. Qed.
Lemma string_c_law : lawful string_c.
Proof. by split. Qed.
Lemma f64_c_law : lawful f64_c.
Proof. by split. Qed.
Lemma uint_c_law hi : lawful (uint_c hi).
Proof.
  split; [|done]. intros n [H0 H1]. simpl. rewrite parse_print_dec by done.
  apply Z.leb_le in H1. by rewrite H1.
Qed.
Lemma u32_c_law : lawful u32_c.
Proof. apply uint_c_law. Qed.
Lemma u64_c_law : lawful u64_c.
Proof. apply uint_c_law. Qed.
Lemma usize_c_law : lawful usize_c.
Proof. apply uint_c_law. Qed.
Lemma option_c_law {A} (c : codec A) : lawful c ->
  forall o, ok (option_c c) o -> dec (option_c c) (enc (option_c c) o) = Ok o.
Proof.
  intros [Hd Hn] [a|]; [|done]. intros Ha. simpl in *. apply Hd in Ha. specialize (Hn a).
  destruct (enc c a); [done|by rewrite Ha..].
Qed.
Lemma vec_c_law {A} (c : codec A) : lawful c -> lawful (vec_c c).
Proof.
  intros [Hd _]. split; [|done]. simpl. induction 1 as [|a l Ha Hl IH]; [done|].
  simpl. by rewrite (Hd a Ha), IH.
Qed.
Lemma enum_c_law {A} (name : A -> string) vs : lawful (enum_c name vs).
Proof. split; [|done]. by intros a Ha. Qed.
#[export] Hint Resolve bool_c_law string_c_law f64_c_law u32_c_law u64_c_law usize_c_law vec_c_law enum_c_law : serde.

Lemma field_or_enc {A} (c : codec A) es i name d a :
  assoc name es = Some (enc c a) -> ok c a -> (ok c a -> dec c (enc c a) = Ok a) ->
  field_or (Named es) i name c d = Ok a.
Proof. intros He Ha Hc. unfold field_or. simpl. rewrite He. by apply Hc. Qed.
Lemma field_req_enc {A} (c : codec A) es i name a :
  assoc name es = Some (enc c a) -> ok c a -> (ok c a -> dec c (enc c a) = Ok a) ->
  field_req (Named es) i name c = Ok a.
Proof. intros He Ha Hc. unfold field_req. simpl. rewrite He. by apply Hc. Qed.
Lemma lawful_dec {A} (c : codec A) a : lawful c -> ok c a -> dec c (enc c a) = Ok a.
Proof. intros [Hd _]. apply Hd. Qed.

(** A struct is read back field by field. *)
Ltac field_law :=
  first
    [ intros; apply lawful_dec; [solve [auto with serde]|assumption]
    | intros; apply option_c_law; [solve [auto with serde]|assumption]
    | intros; reflexivity ].
Ltac fields_law :=
  repeat first
    [ erewrite field_or_enc; [|reflexivity|eassumption|field_law]; cbn [mbind result_bind]
    | erewrite field_req_enc; [|reflexivity|eassumption|field_law]; cbn [mbind result_bind] ];
  reflexivity.

(** The default of a section is valid field by field. *)
Ltac defaults_valid :=
  repeat match goal with |- _ /\ _ => split end;
  first [ exact I | reflexivity | solve [auto with serde_default] | by repeat constructor
        | vm_compute; split; discriminate ].
Create HintDb serde_default discriminated.

(** ** What is read is valid

    A codec is sound when whatever it reads satisfies the invariant of the
    type it reads it into. *)
Definition sound {A} (c : codec A) : Prop := forall j a, dec c j = Ok a -> ok c a.
Create HintDb serde_sound discriminated.

Lemma result_bind_ok {E A B} (r : result E A) (f : A -> result E B) b :
  r ≫= f = Ok b -> exists a, r = Ok a /\ f a = Ok b.
Proof. destruct r; [by eauto|done]. Qed.
Lemma bool_c_sound : sound bool_c.
Proof. done. Qed.
Lemma string_c_sound : sound string_c.
Proof. done. Qed.
Lemma f64_c_sound : sound f64_c.
Proof. done. Qed.
Lemma value_c_sound : sound value_c.
Proof. done. Qed.
Lemma parse_dec_nonneg s n : parse_dec s = Some n -> 0 <= n.
Proof.
  unfold parse_dec. destruct (NilZero.uint_of_string s); [|done]. intros [= <-]. lia.
Qed.
Lemma uint_c_sound hi : sound (uint_c hi).
Proof.
  intros [| |l|s|js|es] n H; simpl in H; try done. destruct (parse_dec l) as [m|] eqn:E; [|done].
  destruct (Z.leb_spec m hi); [|done]. injection H as <-. split; [by eapply parse_dec_nonneg|done].
Qed.
Lemma u32_c_sound : sound u32_c.
Proof. apply uint_c_sound. Qed.
Lemma u64_c_sound : sound u64_c.
Proof. apply uint_c_sound. Qed.
Lemma usize_c_sound : sound usize_c.
Proof. apply uint_c_sound. Qed.
Lemma option_c_sound {A} (c : codec A) : sound c -> sound (option_c c).
Proof.
  intros Hc j [a|] H; [|done]. simpl in *.
  assert (dec c j = Ok a); [|by eapply Hc]. by destruct j, (dec c _); simplify_eq.
Qed.
Lemma vec_c_sound {A} (c : codec A) : sound c -> sound (vec_c c).
Proof.
  intros Hc [| | | |js|] l H; simpl in *; try done. revert l H. induction js as [|j js IH]; intros l H; simpl in H.
  { injection H as <-. constructor. }
  destruct (dec c j) as [a|] eqn:Ea; [|done]. destruct (collect (dec c) js) as [l'|] eqn:El; [|done].
  injection H as <-. constructor; [by eapply Hc|by apply IH].
Qed.
Lemma variant_named_self {A} (name : A -> string) vs s v :
  variant_named name vs s = Ok v -> variant_named name vs (name v) = Ok v.
Proof.
  induction vs as [|w vs IH]; simpl; [done|]. destruct (String.eqb_spec (name w) s) as [<-|Hne].
  - intros [= <-]. by rewrite String.eqb_refl.
  - intros H. destruct (String.eqb_spec (name w) (name v)) as [He|_]; [|by apply IH].
    rewrite He in Hne. destruct Hne. clear -H. induction vs as [|u vs IH]; simpl in H; [done|].
    destruct (String.eqb_spec (name u) s) as [<-|_]; [by injection H as <-|by apply IH].
Qed.
Lemma enum_c_sound {A} (name : A -> string) vs : sound (enum_c name vs).
Proof.
  intros j a H. simpl in H |- *. assert (exists s, variant_named name vs s = Ok a) as [s Hs];
    [|by apply (variant_named_self name vs s)].
  destruct j as [| | |s| |[|[s []] []]]; try done; by exists s.
Qed.
#[export] Hint Resolve bool_c_sound string_c_sound f64_c_sound value_c_sound u32_c_sound u64_c_sound
  usize_c_sound option_c_sound vec_c_sound enum_c_sound : serde_sound.

Lemma field_or_ok {A} (c : codec A) src i name d a :
  sound c -> ok c d -> field_or src i name c d = Ok a -> ok c a.
Proof. unfold field_or. intros Hc Hd H. destruct (field_value _ _ _); [by eapply Hc|by injection H as <-]. Qed.
Lemma field_req_ok {A} (c : codec A) src i name a : sound c -> field_req src i name c = Ok a -> ok c a.
Proof. unfold field_req. intros Hc H. destruct (field_value _ _ _); [by eapply Hc|done]. Qed.

(** The fields a section was read from ([H]), and that each of them is valid. *)
Ltac section_fields H :=
  repeat match type of H with
    | (_ ≫= _) = Ok _ =>
        let H1 := fresh "F" in let H2 := fresh in
        apply result_bind_ok in H as (? & H1 & H2); rename H2 into H; cbv beta in H
    end.
Ltac section_sound H :=
  section_fields H; injection H as <-; repeat match goal with |- _ /\ _ => split end;
  first
    [ match goal with
      | F : field_or _ _ _ ?c _ = Ok ?x |- ok ?c ?y =>
          unify x y; refine (field_or_ok _ _ _ _ _ _ _ _ F); [solve [auto with serde_sound]|defaults_valid]
      | F : field_req _ _ _ ?c = Ok ?x |- ok ?c ?y =>
          unify x y; refine (field_req_ok _ _ _ _ _ _ F); solve [auto with serde_sound]
      end
    | reflexivity ].
