(* ===== verification/ConfigLoad.v ===== *)
(** Loading the configuration with its environment overrides
    ([rinfra-plugins/src/config/mod.rs]) and watching its file
    ([rinfra-plugins/src/config_watch], [rinfra-core/src/config/watch.rs]). *)

From S2P Require Import Prelude Errors AuditTrail Serde Config.

(** * Loading *)
Module Load.
Section load.
(** [serde_yaml] into a configuration and into a tree, [str::parse::<f64>]
    with [Number::from_f64] (the literal of a finite float), and the name a
    Redis Streams consumer defaults to. *)
Context (yaml_config : string -> result string RinfraConfig.t).
Context (yaml_value : string -> result string json).
Context (parse_f64 : string -> option string).
Context (consumer : string).

(** [std::env::vars()], in the order of the environment. *)
Abbreviation vars := (list (string * string)).

Definition parse_error (e : string) : app_error :=
  new_error ConfigParseFailed ("failed to parse YAML config: " +:+ e).

(** [load_from_str] *)
Definition load_from_str (yaml : string) : Result RinfraConfig.t :=
  map_err parse_error (yaml_config yaml).

(** [load_from_file]; [content] is the result of reading the file. *)
Definition missing (path e : string) : app_error :=
  new_error ConfigFileMissing ("config file '" +:+ path +:+ "' not found: " +:+ e).
Definition load_from_file (path : string) (content : result string string) :
    Result RinfraConfig.t :=
  text ← map_err (missing path) content; load_from_str text.

(** [u64] from a string: an optional plus sign, digits, in range. *)
Definition parse_u64 (s : string) : option Z :=
  let digits := default s (strip_prefix "+" s) in
  n ← parse_dec digits; if n <=? u64_max then Some n else None.

(** [parse_env_value]: bool, then u64, then f64, then string. *)
Definition parse_env_value (raw : string) : json :=
  if String.eqb (to_lowercase raw) "true" then JBool true
  else if String.eqb (to_lowercase raw) "false" then JBool false
  else match parse_u64 raw with
       | Some n => JNumber (print_dec n)
       | None => match parse_f64 raw with
                 | Some l => JNumber l
                 | None => JString raw
                 end
       end.

(** [set_nested] *)
Fixpoint set_nested (root : json) (path : list string) (raw : string) : json :=
  match path with
  | [] => root
  | [k] =>
      match root with
      | JObject es => JObject (assoc_insert k (parse_env_value raw) es)
      | _ => root
      end
  | k :: rest =>
      match root with
      | JObject es =>
          let child := default (JObject []) (assoc k es) in
          JObject (assoc_insert k (set_nested child rest raw) es)
      | _ => root
      end
  end.

(** [s.split("__")] *)
Definition is_underscore (c : Ascii.ascii) : bool := Ascii.eqb c (Ascii.ascii_of_N 95).
Fixpoint split_dunder (s : string) : list string :=
  match s with
  | EmptyString => [""]
  | String a s1 =>
      let glue (r : list string) := match r with p :: ps => String a p :: ps | [] => [String a ""] end in
      match s1 with
      | String b s2 =>
          if is_underscore a && is_underscore b then "" :: split_dunder s2 else glue (split_dunder s1)
      | EmptyString => glue (split_dunder s1)
      end
  end.

(** The path an environment variable stands for. *)
Definition override_path (key : string) : option (list string) :=
  match strip_prefix "RINFRA_" key with
  | None | Some "" => None
  | Some stripped => Some (map to_lowercase (split_dunder stripped))
  end.

(** [merge_env_into_value]: the tree and the number of overrides. *)
Fixpoint merge_env_into_value (env : vars) (value : json) (count : nat) : json * nat :=
  match env with
  | [] => (value, count)
  | (key, val) :: env =>
      match override_path key with
      | Some path => merge_env_into_value env (set_nested value path val) (S count)
      | None => merge_env_into_value env value count
      end
  end.

(** [apply_env_overrides] *)
Definition apply_env_overrides (env : vars) (config : RinfraConfig.t) : RinfraConfig.t :=
  let '(value, count) := merge_env_into_value env (RinfraConfig.to_json consumer config) 0 in
  if bool_decide (0 < count)%nat then
    match RinfraConfig.of_json consumer value with Ok updated => updated | Err _ => config end
  else config.

(** [load_with_env] *)
Definition load_with_env (path : string) (content : result string string) (env : vars) :
    Result RinfraConfig.t :=
  text ← map_err (missing path) content;
  value ← map_err parse_error (yaml_value text);
  let '(value, _) := merge_env_into_value env value 0 in
  map_err (fun e => new_error ConfigParseFailed
    ("config deserialization failed after env override: " +:+ e)) (RinfraConfig.of_json consumer value).

(** ** Reading a tree along a path *)
Fixpoint get_path (root : json) (path : list string) : option json :=
  match path with
  | [] => Some root
  | k :: rest => match root with JObject es => assoc k es ≫= fun c => get_path c rest | _ => None end
  end.
(** No scalar or array is in the way: the path can be created. *)
Fixpoint open_path (root : json) (path : list string) : Prop :=
  match path with
  | [] => True
  | k :: rest =>
      match root with
      | JObject es => match rest, assoc k es with
                      | [], _ | _, None => True
                      | _, Some c => open_path c rest
                      end
      | _ => False
      end
  end.
(** Neither path leads into the other. *)
Definition apart (p q : list string) : Prop := ~ p `prefix_of` q /\ ~ q `prefix_of` p.

Lemma set_nested_cons root k k' rest raw :
  set_nested root (k :: k' :: rest) raw =
    match root with
    | JObject es =>
        JObject (assoc_insert k (set_nested (default (JObject []) (assoc k es)) (k' :: rest) raw) es)
    | _ => root
    end.
Proof. done. Qed.

Lemma set_nested_get root path raw :
  path <> [] -> open_path root path ->
  get_path (set_nested root path raw) path = Some (parse_env_value raw).
Proof.
  revert root. induction path as [|k rest IH]; intros root Hne Ho; [done|].
  destruct rest as [|k' rest].
  - destruct root; try done. simpl. by rewrite assoc_insert_eq.
  - rewrite set_nested_cons. destruct root as [| | | | |es]; try done.
    cbn [get_path]. rewrite assoc_insert_eq. cbn [mbind option_bind]. apply IH; [done|].
    cbn [open_path] in Ho. destruct (assoc k es); [done|]. by destruct rest.
Qed.

Lemma set_nested_frame root path path' raw :
  apart path path' -> get_path (set_nested root path raw) path' = get_path root path'.
Proof.
  revert root path'. induction path as [|k rest IH]; intros root path' [Hp Hq];
    [by destruct Hp; apply prefix_nil|].
  destruct path' as [|k2 rest2]; [by destruct Hq; apply prefix_nil|].
  destruct root as [| | | | |es]; try (by destruct rest).
  destruct (decide (k2 = k)) as [->|Hne].
  - destruct rest as [|k' rest]; [destruct Hp; by apply prefix_cons, prefix_nil|].
    rewrite set_nested_cons. cbn [get_path]. rewrite assoc_insert_eq. cbn [mbind option_bind].
    rewrite IH.
    + destruct (assoc k es); [done|]. destruct rest2 as [|k3 rest2]; [|reflexivity].
      destruct Hq. apply prefix_cons, prefix_nil.
    + split; intros H; [apply Hp|apply Hq]; by apply prefix_cons.
  - destruct rest as [|k' rest]; [|rewrite set_nested_cons]; cbn [set_nested get_path];
      by rewrite assoc_insert_ne.
Qed.

Lemma open_path_cons es k k' rest :
  open_path (JObject es) (k :: k' :: rest) =
    match assoc k es with Some c => open_path c (k' :: rest) | None => True end.
Proof. done. Qed.

Lemma set_nested_open root path path' raw :
  apart path path' -> open_path root path' -> open_path (set_nested root path raw) path'.
Proof.
  revert root path'. induction path as [|k rest IH]; intros root path' [Hp Hq] Ho;
    [by destruct Hp; apply prefix_nil|].
  destruct path' as [|k2 rest2]; [done|].
  destruct root as [| | | | |es]; try done.
  destruct rest2 as [|k3 rest2]; [destruct rest; [done|]; by rewrite set_nested_cons|].
  rewrite open_path_cons in Ho.
  destruct (decide (k2 = k)) as [->|Hne].
  - destruct rest as [|k' rest]; [destruct Hp; by apply prefix_cons, prefix_nil|].
    rewrite set_nested_cons, open_path_cons, assoc_insert_eq. apply IH.
    + split; intros H; [apply Hp|apply Hq]; by apply prefix_cons.
    + destruct (assoc k es); [done|]. simpl. by destruct rest2.
  - destruct rest as [|k' rest]; [cbn [set_nested]|rewrite set_nested_cons];
      by rewrite open_path_cons, assoc_insert_ne.
Qed.

(** The variables of an environment that lead neither to [p] nor through it
    nor below it. *)
Definition elsewhere (p : list string) (env : vars) : Prop :=
  Forall (fun kv => forall q, override_path kv.1 = Some q -> apart q p) env.

Lemma merge_frame env value n p :
  elsewhere p env ->
  get_path (merge_env_into_value env value n).1 p = get_path value p /\
  (open_path value p -> open_path (merge_env_into_value env value n).1 p).
Proof.
  intros H. revert value n. induction H as [|[key val] env Hkv _ IH]; intros value n; [done|].
  simpl. destruct (override_path key) as [q|] eqn:Eq; [|apply IH].
  destruct (IH (set_nested value q val) (S n)) as [-> Ho]. split.
  - apply set_nested_frame. by apply Hkv.
  - intros Hv. apply Ho, set_nested_open; [by apply Hkv|done].
Qed.

Lemma merge_app env1 env2 value n :
  merge_env_into_value (env1 ++ env2) value n =
    let '(v, m) := merge_env_into_value env1 value n in merge_env_into_value env2 v m.
Proof.
  revert value n. induction env1 as [|[key val] env1 IH]; intros value n; [done|].
  simpl. destruct (override_path key); apply IH.
Qed.

Lemma split_dunder_ne s : split_dunder s <> [].
Proof.
  destruct s as [|a s1]; [done|]. cbn [split_dunder]. set (r := split_dunder s1).
  destruct s1 as [|b s2]; [by destruct r|].
  destruct (is_underscore a && is_underscore b); [done|]. by destruct r.
Qed.

Lemma override_path_ne key p : override_path key = Some p -> p <> [].
Proof.
  unfold override_path. destruct (strip_prefix "RINFRA_" key) as [[|a s]|]; try done.
  intros [= <-].
  assert (forall l, l <> [] -> map to_lowercase l <> []) as Hm by by intros [].
  apply Hm, (split_dunder_ne (String a s)).
Qed.

(** An override reaches its field and only its field: whatever else the
    environment holds, in whatever order, as long as no other variable leads
    to, through or below the same path and no scalar is in the way, the merged
    tree has the variable's parsed value at that path, and every path that no
    variable touches reads as before. *)
Theorem override_reaches_its_field (env1 env2 : vars) (key val : string) (value : json)
    (p q : list string) :
  override_path key = Some p -> elsewhere p (env1 ++ env2) -> open_path value p ->
  elsewhere q (env1 ++ (key, val) :: env2) ->
  let merged := (merge_env_into_value (env1 ++ (key, val) :: env2) value 0).1 in
  get_path merged p = Some (parse_env_value val) /\ get_path merged q = get_path value q.
Proof.
  intros Hk [He1 He2]%Forall_app Ho Hq merged. split; [|by apply merge_frame].
  unfold merged. rewrite merge_app.
  destruct (merge_env_into_value env1 value 0) as [v n] eqn:E1. simpl. rewrite Hk.
  destruct (merge_frame env2 (set_nested v p val) (S n) p He2) as [-> _].
  apply set_nested_get; [by eapply override_path_ne|].
  destruct (merge_frame env1 value 0 p He1) as [_ Ho1]. rewrite E1 in Ho1. by apply Ho1.
Qed.

(** ** Numbers where text is wanted *)

Lemma field_read {A} (c : codec A) es i name d a j :
  field_or (Named es) i name c d = Ok a -> assoc name es = Some j -> dec c j = Ok a.
Proof. intros H He. unfold field_or in H. simpl in H. by rewrite He in H. Qed.

(** From a section that was read ([H]) and the tree of one of its fields
    ([E]): the field was read from that tree. *)
Ltac read_section codec of_json H name E :=
  unfold codec in H; cbn [dec] in H; unfold of_json in H; cbn [struct_source] in H;
  section_fields H; simplify_eq;
  match goal with
  | F : field_or _ _ name _ _ = Ok _ |- _ =>
      let R := fresh in pose proof (field_read _ _ _ _ _ _ _ F E) as R; clear E; rename R into E
  end.

Lemma cluster_token_is_text j c lit :
  RinfraConfig.of_json consumer j = Ok c ->
  get_path j ["plugins"; "cluster"; "cluster_token"] <> Some (JNumber lit).
Proof.
  intros H Hg. destruct j as [| | | | |es]; try done. cbn [get_path] in Hg.
  destruct (assoc "plugins" es) as [jp|] eqn:Ep; [|done]. cbn [mbind option_bind] in Hg.
  destruct jp as [| | | | |es2]; try done.
  destruct (assoc "cluster" es2) as [jc|] eqn:Ec; [|done]. cbn [mbind option_bind] in Hg.
  destruct jc as [| | | | |es3]; try done.
  destruct (assoc "cluster_token" es3) as [jt|] eqn:Et; [|done]. injection Hg as ->.
  read_section RinfraConfig.serde RinfraConfig.of_json H "plugins" Ep.
  read_section PluginConfigs.serde PluginConfigs.of_json Ep "cluster" Ec.
  read_section ClusterPluginConfigs.serde ClusterPluginConfigs.of_json Ec "cluster_token" Et.
  discriminate Et.
Qed.

Definition token_var : string := "RINFRA_PLUGINS__CLUSTER__CLUSTER_TOKEN".
Definition token_path : list string := ["plugins"; "cluster"; "cluster_token"].

(** A text setting cannot be overridden by a value that reads as a number:
    with a cluster token made of digits in the environment, loading the file
    fails whatever it contains, and applying the environment to a
    configuration in memory drops every override. *)
Theorem numeric_text_override_rejected (path text digits : string) (n : Z) (value : json)
    (env1 env2 : vars) (c : RinfraConfig.t) :
  to_lowercase digits <> "true" -> to_lowercase digits <> "false" ->
  parse_u64 digits = Some n ->
  elsewhere token_path (env1 ++ env2) ->
  let env := env1 ++ (token_var, digits) :: env2 in
  (yaml_value text = Ok value -> open_path value token_path ->
   exists e, load_with_env path (Ok text) env = Err e /\ err_code e = ConfigParseFailed) /\
  (open_path (RinfraConfig.to_json consumer c) token_path -> apply_env_overrides env c = c).
Proof.
  intros Ht Hf Hn He env.
  assert (forall v, open_path v token_path ->
    forall c', RinfraConfig.of_json consumer (merge_env_into_value env v 0).1 <> Ok c') as Hbad.
  { intros v Ho c' Hc. apply (cluster_token_is_text _ _ (print_dec n)) in Hc. apply Hc. fold token_path.
    apply Forall_app in He as [He1 He2]. unfold env. rewrite merge_app.
    destruct (merge_env_into_value env1 v 0) as [v1 n1] eqn:E1.
    change (merge_env_into_value ((token_var, digits) :: env2) v1 n1) with
      (merge_env_into_value env2 (set_nested v1 token_path digits) (S n1)).
    destruct (merge_frame env2 (set_nested v1 token_path digits) (S n1) token_path He2) as [-> _].
    rewrite set_nested_get; [|done|].
    - unfold parse_env_value. apply String.eqb_neq in Ht as ->, Hf as ->. by rewrite Hn.
    - destruct (merge_frame env1 v 0 token_path He1) as [_ Ho1]. rewrite E1 in Ho1. by apply Ho1. }
  split.
  - intros Hy Ho. unfold load_with_env. cbn [map_err mbind result_bind]. rewrite Hy.
    cbn [map_err mbind result_bind]. specialize (Hbad value Ho).
    destruct (merge_env_into_value env value 0) as [v m]. cbn [fst] in Hbad.
    destruct (RinfraConfig.of_json consumer v) as [c'|e]; [by destruct (Hbad c')|].
    cbn [map_err]. by eexists.
  - intros Ho. unfold apply_env_overrides. specialize (Hbad _ Ho).
    destruct (merge_env_into_value env _ 0) as [v m]. cbn [fst] in Hbad.
    case_bool_decide; [|done]. destruct (RinfraConfig.of_json consumer v) as [c'|e]; [|done].
    by destruct (Hbad c').
Qed.

(** A configuration read from a tree does not know its file. *)
Lemma of_json_no_path j c : RinfraConfig.of_json consumer j = Ok c -> RinfraConfig.config_path c = "".
Proof.
  unfold RinfraConfig.of_json. intros H. section_fields H. by injection H as <-.
Qed.

Lemma load_with_env_no_path path content env c :
  load_with_env path content env = Ok c -> RinfraConfig.config_path c = "".
Proof.
  unfold load_with_env. intros (text & _ & (value & _ & H)%result_bind_ok)%result_bind_ok.
  destruct (merge_env_into_value env value 0) as [v m].
  destruct (RinfraConfig.of_json consumer v) as [c'|e] eqn:E; [|done].
  injection H as <-. by apply of_json_no_path in E.
Qed.

(** C38: a configuration is well typed wherever it comes from: what is loaded
    from a file under any environment has every number within its Rust type
    and every name of an enum among its variants, overrides applied to a well
    typed configuration leave it so, and either can be saved and read back
    unchanged. *)
Theorem loaded_config_well_typed path content env c :
  (load_with_env path content env = Ok c \/
   exists c0, RinfraConfig.valid consumer c0 /\ c = apply_env_overrides env c0) ->
  RinfraConfig.valid consumer c /\ RinfraConfig.of_json consumer (RinfraConfig.to_json consumer c) = Ok c.
Proof.
  intros H. assert (RinfraConfig.valid consumer c) as Hv.
  2: { split; [done|]. exact (dec_enc _ (RinfraConfig.rinfra_config_law consumer) c Hv). }
  pose proof (RinfraConfig.rinfra_config_sound consumer) as Hs. destruct H as [H|(c0 & Hc0 & ->)].
  - unfold load_with_env in H. apply result_bind_ok in H as (text & _ & H). apply result_bind_ok in H as (value & _ & H).
    destruct (merge_env_into_value env value 0) as [v m].
    destruct (RinfraConfig.of_json consumer v) as [c'|e] eqn:E; [|done]. injection H as <-. exact (Hs v c' E).
  - unfold apply_env_overrides. destruct (merge_env_into_value env _ 0) as [v m]. case_bool_decide; [|done].
    destruct (RinfraConfig.of_json consumer v) as [c'|e] eqn:E; [|done]. exact (Hs v c' E).
Qed.
End load.
End Load.

(** * Watching *)
Module Watch.
Section watch.
(** [W] is the system and whatever the handlers act on: modification times,
    the file's content, and [serde_yaml] into a configuration. *)
Context {W : Type} (read_mtime : string -> W -> option Z).
Context (read_to_string : string -> W -> result string string).
Context (from_yaml : string -> result string RinfraConfig.t).

(** [trait OnConfigReload] *)
Definition on_config_reload : Type := RinfraConfig.t -> M W unit.

(** [struct FileConfigWatcher]; the token is its cancelled flag. *)
Record watcher : Type := Watcher {
  config_path : string;
  poll_interval : Z;  (* Duration *)
  handlers : list on_config_reload;
  running : bool;
  cancelled : bool;
}.
(** [FileConfigWatcher::new], [watcher_name] and [add_handler] *)
Definition new (path : string) (poll_interval_secs : Z) : watcher :=
  Watcher path (from_secs (Z.max poll_interval_secs 1)) [] false false.
Definition watcher_name : string := "file".
Definition add_handler (w : watcher) (h : on_config_reload) : watcher :=
  Watcher (config_path w) (poll_interval w) (handlers w ++ [h]) (running w) (cancelled w).

(** [parse_config] *)
Definition parse_config (path : string) (s : W) : Result RinfraConfig.t :=
  match read_to_string path s with
  | Err e => fail ConfigReloadFailed ("failed to read config file: " +:+ e)
  | Ok content =>
      map_err (fun e => new_error ConfigReloadFailed ("failed to parse config: " +:+ e))
        (from_yaml content)
  end.

(** Calling a snapshot of the handlers, one after the other. *)
Fixpoint notify (hs : list on_config_reload) (c : RinfraConfig.t) : M W unit :=
  match hs with
  | [] => mret tt
  | h :: hs => _ ← h c; notify hs c
  end.

(** The timer branch of the loop: the new [last_mtime]. *)
Definition tick (w : watcher) (last : option Z) : M W (option Z) := fun s =>
  let current := read_mtime (config_path w) s in
  if bool_decide (current = last) then Ret (last, s)
  else
    match parse_config (config_path w) s with
    | Ok c => (_ ← notify (handlers w) c; mret current) s
    | Err _ => Ret (current, s)
    end.

(** A spawned task: not yet polled, in its loop with [last_mtime], or over. *)
Inductive loop : Type := Spawned | Polling (last : option Z) | Ended.

(** [start]: a task is spawned unless one is believed to run. *)
Definition start (w : watcher) : watcher * list loop :=
  if running w then (w, [])
  else (Watcher (config_path w) (poll_interval w) (handlers w) true (cancelled w), [Spawned]).
(** [stop] *)
Definition stop (w : watcher) : watcher :=
  Watcher (config_path w) (poll_interval w) (handlers w) false true.

(** The watcher, its tasks and the world. *)
Record machine : Type := Machine { state : watcher; loops : list loop; world : W }.

(** What can happen next: calls on the watcher; the first poll of task [i],
    which reads the modification time and finds its sleep of at least a second
    pending; a later poll on which the sleep is over; one on which the
    cancellation is seen; anything in the world. *)
Inductive event : Type :=
| EvStart
| EvStop
| EvAddHandler (h : on_config_reload)
| EvFirstPoll (i : nat)
| EvTick (i : nat)
| EvCancelled (i : nat)
| EvWorld (f : W -> W).

Definition with_loop (m : machine) (i : nat) (l : loop) : machine :=
  Machine (state m) (<[i := l]> (loops m)) (world m).

Definition step (e : event) (m : machine) : outcome machine :=
  match e with
  | EvStart => let '(w, l) := start (state m) in Ret (Machine w (loops m ++ l) (world m))
  | EvStop => Ret (Machine (stop (state m)) (loops m) (world m))
  | EvAddHandler h => Ret (Machine (add_handler (state m) h) (loops m) (world m))
  | EvFirstPoll i =>
      match loops m !! i with
      | Some Spawned =>
          Ret (with_loop m i (if cancelled (state m) then Ended
                              else Polling (read_mtime (config_path (state m)) (world m))))
      | _ => Ret m
      end
  | EvTick i =>
      match loops m !! i with
      | Some (Polling last) =>
          match tick (state m) last (world m) with
          | Ret (last, s) => Ret (Machine (state m) (<[i := Polling last]> (loops m)) s)
          | Panic why => Panic why
          end
      | _ => Ret m
      end
  | EvCancelled i =>
      match loops m !! i with
      | Some (Polling _) => if cancelled (state m) then Ret (with_loop m i Ended) else Ret m
      | _ => Ret m
      end
  | EvWorld f => Ret (Machine (state m) (loops m) (f (world m)))
  end.
Fixpoint run (es : list event) (m : machine) : outcome machine :=
  match es with
  | [] => Ret m
  | e :: es => m ← step e m; run es m
  end.

(** What the rest of the world does by itself. *)
Definition outside (es : list event) (s : W) : W :=
  foldl (fun s e => match e with EvWorld f => f s | _ => s end) s es.

(** ** Machines whose tasks are all over or not begun *)

Definition idle (l : loop) : Prop := match l with Polling _ => False | _ => True end.
(** A cancelled watcher without a polling task. *)
Definition dead (m : machine) : Prop := cancelled (state m) = true /\ Forall idle (loops m).

Lemma dead_step e m :
  dead m -> exists m', step e m = Ret m' /\ dead m' /\ world m' = outside [e] (world m).
Proof.
  intros [Hc Hl]. destruct e as [| |h|i|i|i|f]; simpl.
  - unfold start. destruct (running (state m)); eexists; (split; [done|]); (split; [|done]); split; simpl;
      try done; apply Forall_app; split; try done; by repeat constructor.
  - eexists. split; [done|]. split; [|done]. by split.
  - eexists. split; [done|]. split; [|done]. by split.
  - destruct (loops m !! i) as [[|l|]|] eqn:El; try (by eexists; repeat split).
    eexists. split; [done|]. split; [|done]. rewrite Hc. split; [done|]. simpl. by apply Forall_insert.
  - destruct (loops m !! i) as [[|l|]|] eqn:El; try (by eexists; repeat split).
    by apply (Forall_lookup_1 _ _ _ _ Hl) in El.
  - destruct (loops m !! i) as [[|l|]|] eqn:El; try (by eexists; repeat split).
    by apply (Forall_lookup_1 _ _ _ _ Hl) in El.
  - eexists. split; [done|]. by split.
Qed.

(** A stopped watcher cannot be started again: once it was stopped and its
    task has ended, every later call returns, [start] reports success and the
    watcher counts as running, but whatever happens to the file no handler is
    ever called: the world changes only by itself. *)
Theorem stopped_watcher_stays_dead (es : list event) (m : machine) :
  dead m ->
  exists m', run es m = Ret m' /\ dead m' /\ world m' = outside es (world m).
Proof.
  revert m. induction es as [|e es IH]; intros m Hm; simpl; [by exists m|].
  destruct (dead_step e m Hm) as (m1 & -> & Hm1 & Hw). simpl.
  destruct (IH m1 Hm1) as (m' & -> & Hm' & Hw'). exists m'. split; [done|]. split; [done|].
  by rewrite Hw', Hw.
Qed.

(** ** A file that is never there *)

(** Every polling task has found no modification time. *)
Definition blind (path : string) (m : machine) : Prop :=
  config_path (state m) = path /\
  Forall (fun l => match l with Polling last => last = None | _ => True end) (loops m).

Lemma blind_step path e m :
  (forall s, read_mtime path s = None) -> blind path m ->
  exists m', step e m = Ret m' /\ blind path m' /\ world m' = outside [e] (world m).
Proof.
  intros Hp [Hc Hl]. destruct e as [| |h|i|i|i|f]; simpl.
  - unfold start. destruct (running (state m)); eexists; (split; [done|]); (split; [|done]); split; simpl;
      try done; apply Forall_app; split; try done; by repeat constructor.
  - eexists. split; [done|]. split; [|done]. by split.
  - eexists. split; [done|]. split; [|done]. by split.
  - destruct (loops m !! i) as [[|l|]|] eqn:El; try (by eexists; repeat split).
    eexists. split; [done|]. split; [|done]. split; [done|]. simpl. rewrite Hc, Hp.
    apply Forall_insert; [done|]. by destruct (cancelled (state m)).
  - destruct (loops m !! i) as [[|l|]|] eqn:El; try (by eexists; repeat split).
    pose proof (Forall_lookup_1 _ _ _ _ Hl El) as ->. unfold tick. rewrite Hc, Hp.
    rewrite bool_decide_eq_true_2 by done. eexists. split; [done|]. split; [|done].
    split; [done|]. simpl. by apply Forall_insert.
  - destruct (loops m !! i) as [[|l|]|] eqn:El; try (by eexists; repeat split).
    destruct (cancelled (state m)); [|by eexists; repeat split].
    eexists. split; [done|]. split; [|done]. split; [done|]. by apply Forall_insert.
  - eexists. split; [done|]. by split.
Qed.

Lemma blind_run path es m :
  (forall s, read_mtime path s = None) -> blind path m ->
  exists m', run es m = Ret m' /\ blind path m' /\ world m' = outside es (world m).
Proof.
  intros Hp. revert m. induction es as [|e es IH]; intros m Hm; simpl; [by exists m|].
  destruct (blind_step path e m Hp Hm) as (m1 & -> & Hm1 & Hw). simpl.
  destruct (IH m1 Hm1) as (m' & -> & Hm' & Hw'). exists m'. split; [done|]. split; [done|].
  by rewrite Hw', Hw.
Qed.

(** The watcher of an application watches nothing: a configuration that
    was loaded from a file does not carry the file's path, and a watcher made
    from it, as the built-in plugin makes it, polls the empty path, which has
    no modification time; whatever happens, no handler is ever called. *)
Theorem loaded_config_is_never_watched (yaml_value : string -> result string json)
    (parse_f64 : string -> option string) (consumer path : string) (content : result string string)
    (env : list (string * string)) (c : RinfraConfig.t) (secs : Z) (es : list event) (s : W) :
  (forall s, read_mtime "" s = None) ->
  Load.load_with_env yaml_value parse_f64 consumer path content env = Ok c ->
  exists m', run es (Machine (new (RinfraConfig.config_path c) secs) [] s) = Ret m' /\
    world m' = outside es s.
Proof.
  intros Hp Hc%Load.load_with_env_no_path. rewrite Hc.
  destruct (blind_run "" es (Machine (new "" secs) [] s) Hp) as (m' & Hr & _ & Hw); [by split|].
  by exists m'.
Qed.

(** A change of a readable, well-formed file is reported to every handler
    in the order of their registration, with the file's configuration, and is
    reported once: a second poll without a change in between calls nobody.
    A file that cannot be read or parsed calls nobody and counts as seen. *)
Theorem change_is_reported_once (w : watcher) (last last' : option Z) (s s' : W) :
  (forall h, h ∈ handlers w -> forall c s s' u, h c s = Ret (u, s') ->
     read_mtime (config_path w) s' = read_mtime (config_path w) s) ->
  read_mtime (config_path w) s <> last ->
  tick w last s = Ret (last', s') ->
  match parse_config (config_path w) s with
  | Ok c => notify (handlers w) c s = Ret (tt, s')
  | Err _ => s' = s
  end /\
  tick w last' s' = Ret (last', s').
Proof.
  intros Hh Hne Ht. unfold tick in Ht. rewrite bool_decide_eq_false_2 in Ht by done.
  destruct (parse_config (config_path w) s) as [c|e].
  - apply M_bind_inv in Ht as ([] & s1 & Hn & [= <- <-]). split; [done|].
    assert (read_mtime (config_path w) s1 = read_mtime (config_path w) s) as Hm.
    { clear Hne. revert s Hn. induction (handlers w) as [|h hs IH]; intros s Hn; [by injection Hn as <-|].
      apply M_bind_inv in Hn as (u & s2 & H1 & H2).
      rewrite (IH (fun h' Hin => Hh h' (list_elem_of_further _ _ _ Hin)) s2 H2).
      eapply Hh; [left|exact H1]. }
    unfold tick. by rewrite Hm, bool_decide_eq_true_2.
  - injection Ht as <- <-. split; [done|]. unfold tick. by rewrite bool_decide_eq_true_2.
Qed.
End watch.

(** ** The built-in handlers ([handlers.rs]) *)

(** [AuditConfigReloadHandler::on_reload]: a failure to log is only logged. *)
Definition audit_config_reload_handler {W} (uuid : W -> string) (now : W -> Z)
    (log : audit_event -> M W (Result unit)) : @on_config_reload W := fun _ s =>
  (_ ← log (new_event (uuid s) (now s) "system" "config.reload" "config" Success); mret tt) s.
(** [LogConfigReloadHandler::on_reload] only writes to the log. *)
Definition log_config_reload_handler {W} : @on_config_reload W := fun _ => mret tt.
End Watch.

(** * Examples *)
Module LoadExamples.
Import Load Watch.

Definition no_floats (s : string) : option string := None.
Definition yaml (text : string) : result string json :=
  if String.eqb text "app" then Ok (JObject [("app", JObject [("name", JString "demo")])]) else Err "bad".

Example split_example : override_path "RINFRA_APP__NAME" = Some ["app"; "name"].
Proof. vm_compute. reflexivity. Qed.
Example name_override :
  (RinfraConfig.app <$> result_to_option (load_with_env yaml no_floats "c" "f" (Ok "app")
    [("PATH", "/bin"); ("RINFRA_APP__NAME", "prod")])) = Some (AppConfig.Make "prod" "0.1.0").
Proof. vm_compute. reflexivity. Qed.

Definition app_name : list string := ["app"; "name"].
Definition mq : list string := ["plugins"; "mq"].
Definition env1 : list (string * string) := [("PATH", "/bin")].
Definition env2 : list (string * string) := [("RINFRA_APP__VERSION", "7")].
Definition tree : json := JObject [("app", JObject [("name", JString "demo")])].

(** Deciding [apart]. *)
Lemma apart_dec_true p q :
  bool_decide (~ p `prefix_of` q) && bool_decide (~ q `prefix_of` p) = true -> apart p q.
Proof. intros [H1%bool_decide_eq_true H2%bool_decide_eq_true]%andb_true_iff. by split. Qed.
Ltac is_elsewhere :=
  repeat apply Forall_cons_2; try apply Forall_nil_2;
  intros ? [= <-]; apply apart_dec_true; vm_compute; reflexivity.

Lemma override_reaches_its_field_witness :
  get_path (merge_env_into_value no_floats (env1 ++ ("RINFRA_APP__NAME", "prod") :: env2) tree 0).1 app_name =
    Some (JString "prod") /\
  get_path (merge_env_into_value no_floats (env1 ++ ("RINFRA_APP__NAME", "prod") :: env2) tree 0).1 mq =
    get_path tree mq.
Proof.
  apply (override_reaches_its_field no_floats env1 env2 "RINFRA_APP__NAME" "prod" tree app_name mq).
  - vm_compute. reflexivity.
  - is_elsewhere.
  - exact I.
  - is_elsewhere.
Defined.

Lemma numeric_text_override_rejected_witness :
  (yaml "app" = Ok tree -> open_path tree token_path ->
   exists e, load_with_env yaml no_floats "c" "f" (Ok "app") (env1 ++ (token_var, "12345") :: env2) = Err e /\
     err_code e = ConfigParseFailed) /\
  (open_path (RinfraConfig.to_json "c" (RinfraConfig.default "c")) token_path ->
   apply_env_overrides no_floats "c" (env1 ++ (token_var, "12345") :: env2) (RinfraConfig.default "c") =
     RinfraConfig.default "c").
Proof.
  apply (numeric_text_override_rejected yaml no_floats "c" "f" "app" "12345" 12345 tree env1 env2).
  - vm_compute. discriminate.
  - vm_compute. discriminate.
  - vm_compute. reflexivity.
  - is_elsewhere.
Defined.

(** A world with one file and a log of the names handlers saw. *)
Record disk : Type := Disk { mtime : Z; text : string; log : list string }.
Definition disk_mtime (p : string) (d : disk) : option Z := if String.eqb p "f" then Some (mtime d) else None.
Definition disk_read (p : string) (d : disk) : result string string := Ok (text d).
Definition disk_yaml (t : string) : result string RinfraConfig.t :=
  if String.eqb t "" then Err "empty" else Ok (RinfraConfig.default t).
Definition remember : @on_config_reload disk := fun c d =>
  Ret (tt, Disk (mtime d) (text d)
    (log d ++ [RedisStreamMqConfig.consumer_name (MqPluginConfigs.redis_streams (PluginConfigs.mq (RinfraConfig.plugins c)))])).
Definition touch (t : Z) (x : string) (d : disk) : disk := Disk t x (log d).

Definition watching : @watcher disk := add_handler (new "f" 0) remember.
Example watches : exists m,
  run disk_mtime disk_read disk_yaml
    [EvStart; EvFirstPoll 0; EvTick 0; EvWorld (touch 2 "x"); EvTick 0; EvTick 0; EvWorld (touch 3 "");
     EvTick 0; EvWorld (touch 4 "y"); EvTick 0] (Machine watching [] (Disk 1 "a" [])) = Ret m /\
  log (world m) = ["x"; "y"].
Proof. eexists. split; vm_compute; reflexivity. Qed.

Lemma stopped_watcher_stays_dead_witness :
  exists m', run disk_mtime disk_read disk_yaml [EvStart; EvFirstPoll 1; EvWorld (touch 9 "z"); EvTick 1]
      (Machine (stop watching) [Ended] (Disk 1 "a" [])) = Ret m' /\ dead m' /\
    world m' = outside [EvStart; EvFirstPoll 1; EvWorld (touch 9 "z"); EvTick 1] (Disk 1 "a" []).
Proof.
  apply (stopped_watcher_stays_dead disk_mtime disk_read disk_yaml).
  split; [reflexivity|]. by repeat constructor.
Defined.

Definition loaded : RinfraConfig.t :=
  RinfraConfig.Make "" (AppConfig.Make "demo" "0.1.0") RuntimeConfig.default (PluginConfigs.default "c") JNull.
Lemma loaded_config_is_never_watched_witness :
  exists m', run disk_mtime disk_read disk_yaml [EvStart; EvFirstPoll 0; EvWorld (touch 9 "z"); EvTick 0]
      (Machine (new (RinfraConfig.config_path loaded) 5) [] (Disk 1 "a" [])) = Ret m' /\
    world m' = outside [EvStart; EvFirstPoll 0; EvWorld (touch 9 "z"); EvTick 0] (Disk 1 "a" []).
Proof.
  apply (loaded_config_is_never_watched disk_mtime disk_read disk_yaml yaml no_floats "c" "f" (Ok "app") [] loaded).
  - reflexivity.
  - vm_compute. reflexivity.
Defined.

Definition seen : disk := Disk 2 "x" ["x"].
Lemma change_is_reported_once_witness :
  match parse_config disk_read disk_yaml (config_path watching) (Disk 2 "x" []) with
  | Ok c => notify (handlers watching) c (Disk 2 "x" []) = Ret (tt, seen)
  | Err _ => seen = Disk 2 "x" []
  end /\
  tick disk_mtime disk_read disk_yaml watching (Some 2) seen = Ret (Some 2, seen).
Proof.
  apply (change_is_reported_once disk_mtime disk_read disk_yaml watching (Some 1) (Some 2)).
  - intros h Hh%list_elem_of_singleton c s s' u Hr. subst h. by injection Hr as _ <-.
  - vm_compute. discriminate.
  - vm_compute. reflexivity.
Defined.

(** A number that fits no u64 is refused, the largest that does is kept. *)
Definition grace (digits : string) : list (string * string) :=
  [("RINFRA_RUNTIME__SHUTDOWN__GRACE_PERIOD_SECS", digits)].
Lemma loaded_config_well_typed_witness :
  (exists c, load_with_env yaml no_floats "c" "f" (Ok "app") (grace "18446744073709551615") = Ok c /\
     ShutdownConfig.grace_period_secs (RuntimeConfig.shutdown (RinfraConfig.runtime c)) = u64_max /\
     RinfraConfig.valid "c" c) /\
  is_ok (load_with_env yaml no_floats "c" "f" (Ok "app") (grace "18446744073709551616")) = false.
Proof.
  split; [|vm_compute; reflexivity]. eexists. split; [vm_compute; reflexivity|].
  split; [vm_compute; reflexivity|].
  refine (proj1 (loaded_config_well_typed yaml no_floats "c" "f" (Ok "app") (grace "18446744073709551615") _ (or_introl _))).
  vm_compute. reflexivity.
Defined.
End LoadExamples.
