(* ===== verification/RedisStreams.v ===== *)
(** The message bus on Redis Streams ([rinfra-plugins/src/mq/redis_streams.rs]):
    the calls as tasks over the shared connection, one consumer loop per
    subscription, and what becomes of messages and groups.

    The Redis server is a parameter, of which the bus uses the documented
    behaviour of the stream commands; every command may also fail, with or
    without having been applied. *)

From S2P Require Import Prelude Errors Serde Config Tcp Tasks Trpc Mq.

(** * The server *)
Record entry : Type := Entry { entry_id : string; fields : list (string * bytes) }.
Definition ids (es : list entry) : list string := map entry_id es.

(** What a stream and one of its groups look like: the entries the group has
    not been given yet ([None] without the group), those the stream holds,
    the identifiers it has ever used, and those given to the group and not
    acknowledged. *)
Record stream_view : Type := StreamView {
  unread : option (list entry);
  stored : list entry;
  used : list string;
  pending : gset string;
}.
Definition view_ok (v : stream_view) : Prop :=
  NoDup (ids (stored v)) /\ (ids (stored v) ⊆ used v) /\
  match unread v with
  | Some u => NoDup (ids u) /\ (ids u ⊆ used v) /\
      forall id, id ∈ pending v -> id ∈ used v /\ id ∉ ids u
  | None => pending v = ∅
  end.

(** The effects of [XGROUP CREATE .. 0], [XADD], [XREADGROUP .. >] and [XACK]. *)
Definition created (v v' : stream_view) : Prop :=
  unread v = None /\ v' = StreamView (Some (stored v)) (stored v) (used v) ∅.
Definition added (e : entry) (max_len : option Z) (v v' : stream_view) : Prop :=
  (entry_id e ∉ used v) /\ used v' = entry_id e :: used v /\ pending v' = pending v /\
  exists n, stored v' = drop n (stored v ++ [e]) /\ (max_len = None -> n = 0%nat) /\
    match unread v with
    | Some u => exists m, (m <= n)%nat /\ unread v' = Some (drop m (u ++ [e]))
    | None => unread v' = None
    end.
Definition taken (es : list entry) (v v' : stream_view) : Prop :=
  exists rest, unread v = Some (es ++ rest) /\
    v' = StreamView (Some rest) (stored v) (used v) (pending v ∪ list_to_set (ids es)).
Definition acked (id : string) (v v' : stream_view) : Prop :=
  v' = StreamView (unread v) (stored v) (used v) (pending v ∖ {[id]}).

Class RedisStreams (R : Type) : Type := {
  view : R -> string -> string -> stream_view;
  xgroup_create : string -> string -> R -> result string string * R;
  xadd : string -> option Z -> list (string * bytes) -> R -> result string string * R;
  xreadgroup : string -> string -> Z -> Z -> string -> R -> result string (list (string * list entry)) * R;
  xack : string -> string -> string -> R -> result string Z * R;
  ping : R -> result string string * R;
  view_is_ok r k g : view_ok (view r k g);
  xgroup_create_spec k g r a r' : xgroup_create k g r = (a, r') ->
    (forall k' g', (k', g') <> (k, g) -> view r' k' g' = view r k' g') /\
    match a with
    | Ok _ => created (view r k g) (view r' k g)
    | Err e => if contains "BUSYGROUP" e then unread (view r k g) <> None /\ view r' k g = view r k g
               else view r' k g = view r k g \/ created (view r k g) (view r' k g)
    end;
  xadd_spec k ml fs r a r' : xadd k ml fs r = (a, r') ->
    (forall k' g, k' <> k -> view r' k' g = view r k' g) /\
    match a with
    | Ok id => forall g, added (Entry id fs) ml (view r k g) (view r' k g)
    | Err _ => (forall g, view r' k g = view r k g) \/
               exists id, forall g, added (Entry id fs) ml (view r k g) (view r' k g)
    end;
  xreadgroup_spec g c n ms k r a r' : xreadgroup g c n ms k r = (a, r') ->
    (forall k' g', (k', g') <> (k, g) -> view r' k' g' = view r k' g') /\
    match a with
    | Ok reply => taken (concat (map snd reply)) (view r k g) (view r' k g)
    | Err _ => view r' k g = view r k g \/ exists es, taken es (view r k g) (view r' k g)
    end;
  xack_spec k g id r a r' : xack k g id r = (a, r') ->
    (forall k' g', (k', g') <> (k, g) -> view r' k' g' = view r k' g') /\
    (view r' k g = view r k g \/ acked id (view r k g) (view r' k g));
  ping_spec r a r' : ping r = (a, r') -> r' = r;
}.

Lemma submseteq_NoDup {A} (l k : list A) : l ⊆+ k -> NoDup k -> NoDup l.
Proof. intros [k' ->]%submseteq_Permutation. by intros [? _]%NoDup_app. Qed.
Lemma ids_app a b : ids (a ++ b) = ids a ++ ids b.
Proof. apply map_app. Qed.
Lemma ids_drop n es : ids (drop n es) = drop n (ids es).
Proof. unfold ids. by rewrite skipn_map. Qed.

Module RedisStreamBus.
Section bus.
Context {R : Type} `{!RedisStreams R} (cfg : RedisStreamMqConfig.t).
(** [serde_json] on a map of strings *)
Context (headers_to_string : gmap string string -> string) (headers_from_str : string -> option (gmap string string)).
Abbreviation group := (RedisStreamMqConfig.group_name cfg).

(** A consumer loop: at the top of its loop (or asleep before it), sending the
    entries it has read, or ended; with the channel between it and its
    receiver. *)
Inductive loop_state : Type := Reading | Sending (es : list entry) | Stopped.
Record subscriber : Type := Subscriber {
  sub_key : string;
  loop : loop_state;
  queue : list message;
  receiver_open : bool;
}.

(** [struct RedisStreamBus] with the server behind its connection and the
    loops that were spawned. *)
Record bus : Type := Bus { server : R; created_groups : gset string; subs : list subscriber }.
Definition connect (open manager : string -> result string unit) (r : R) : Result bus :=
  _ ← map_err (fun e => new_error Internal ("redis client open failed: " +:+ e)) (open (RedisStreamMqConfig.url cfg));
  _ ← map_err (fun e => new_error Internal ("redis connection manager failed: " +:+ e))
        (manager (RedisStreamMqConfig.url cfg));
  Ok (Bus r ∅ []).

Definition stream_key (topic : string) : string := "rinfra:mq:" +:+ topic.
Definition with_server (r : R) (b : bus) : bus := Bus r (created_groups b) (subs b).
Definition on_server {A} (m : R -> A * R) : task bus A :=
  await (fun b => let '(a, r) := m (server b) in Ret (a, with_server r b)).

(** [ensure_group] *)
Definition ensure_group (key : string) : task bus (Result unit) :=
  there ← await (fun b => Ret (bool_decide (key ∈ created_groups b), b));
  if there : bool then mret (Ok tt)
  else
    r ← on_server (xgroup_create key group);
    let insert := _ ← await (fun b => Ret (tt, Bus (server b) ({[key]} ∪ created_groups b) (subs b))); mret (Ok tt) in
    match r with
    | Ok _ => insert
    | Err e =>
        if negb (contains "BUSYGROUP" e) then mret (fail Internal ("xgroup create failed: " +:+ e)) else insert
    end.

(** [publish] and [publish_with_headers] *)
Definition body (topic : string) (payload : bytes) : list (string * bytes) :=
  [("topic", bytes_of_string topic); ("payload", payload)].
Definition add_entry (key : string) (fs : list (string * bytes)) : task bus (Result unit) :=
  r ← on_server (xadd key (RedisStreamMqConfig.max_len cfg) fs);
  mret (map_err (fun e => new_error MqPublishFailed ("redis xadd failed: " +:+ e)) (_ ← r; Ok tt)).
Definition publish (topic : string) (payload : bytes) : task bus (Result unit) :=
  try_await (ensure_group (stream_key topic)) (fun _ => add_entry (stream_key topic) (body topic payload)).
Definition publish_with_headers (topic : string) (payload : bytes) (hs : gmap string string) :
    task bus (Result unit) :=
  try_await (ensure_group (stream_key topic)) (fun _ =>
  add_entry (stream_key topic) (body topic payload ++ [("headers", bytes_of_string (headers_to_string hs))])).

(** [subscribe]: the receiver is the position of its loop. *)
Definition subscribe (topic : string) : task bus (Result nat) :=
  try_await (ensure_group (stream_key topic)) (fun _ =>
  await (fun b => Ret (Ok (length (subs b)),
    Bus (server b) (created_groups b) (subs b ++ [Subscriber (stream_key topic) Reading [] true])))).

(** [ack], [health_check] and [close] *)
Definition ack (topic id : string) : task bus (Result unit) :=
  r ← on_server (xack (stream_key topic) group id);
  mret (map_err (fun e => new_error Internal ("redis xack failed: " +:+ e)) (_ ← r; Ok tt)).
Definition health_check : task bus (Result bool) :=
  r ← on_server ping; mret (Ok match r with Ok _ => true | Err _ => false end).
Definition close : task bus (Result unit) := mret (Ok tt).

(** [parse_stream_entry].  [StreamId::get] looks a field up and converts it:
    bytes are taken as they are, text has to be UTF-8 ([from_utf8]). *)
Context (from_utf8 : bytes -> option string).
Definition entry_get (name : string) (e : entry) : option bytes := assoc name (fields e).
Definition parse_stream_entry (now : Z) (e : entry) : message :=
  Message (entry_id e)
    (default "" (b ← entry_get "topic" e; from_utf8 b))
    (default [] (entry_get "payload" e))
    (default ∅ (b ← entry_get "headers" e; text ← from_utf8 b; headers_from_str text))
    (as_u64 (as_millis now)).

(** ** The consumer loop *)
Definition set_sub (i : nat) (s : subscriber) (b : bus) : bus := Bus (server b) (created_groups b) (<[i := s]> (subs b)).
Definition with_loop (l : loop_state) (s : subscriber) : subscriber := Subscriber (sub_key s) l (queue s) (receiver_open s).
Definition after (es : list entry) : loop_state := match es with [] => Reading | _ => Sending es end.

(** The top of the loop: the closed check and [XREADGROUP]; a failure sleeps
    and starts again. *)
Definition read_batch (i : nat) (s : subscriber) (b : bus) : bus :=
  if negb (receiver_open s) then set_sub i (with_loop Stopped s) b
  else
    let '(a, r) := xreadgroup group (RedisStreamMqConfig.consumer_name cfg) (RedisStreamMqConfig.batch_size cfg)
                     (RedisStreamMqConfig.block_ms cfg) (sub_key s) (server b) in
    let b := with_server r b in
    match a with
    | Ok reply => set_sub i (with_loop (after (concat (map snd reply))) s) b
    | Err _ => b
    end.
(** [tx.send(msg)] with room for 256 messages; a closed channel ends the task.
    The entry that was put into the channel is returned. *)
Definition send_next (i : nat) (s : subscriber) (e : entry) (es : list entry) (now : Z) (b : bus) :
    bus * list (string * string) :=
  if negb (receiver_open s) then (set_sub i (with_loop Stopped s) b, [])
  else if (length (queue s) <? 256)%nat
  then (set_sub i (Subscriber (sub_key s) (after es) (queue s ++ [parse_stream_entry now e]) true) b,
        [(sub_key s, entry_id e)])
  else (b, []).
Definition loop_step (i : nat) (now : Z) (b : bus) : bus * list (string * string) :=
  match subs b !! i with
  | Some s =>
      match loop s with
      | Reading => (read_batch i s b, [])
      | Sending (e :: es) => send_next i s e es now b
      | Sending [] | Stopped => (b, [])
      end
  | None => (b, [])
  end.
(** [recv], and dropping the receiver *)
Definition recv (i : nat) (b : bus) : option message * bus :=
  match subs b !! i with
  | Some (Subscriber k l (m :: q) o) => (Some m, set_sub i (Subscriber k l q o) b)
  | _ => (None, b)
  end.
Definition drop_receiver (i : nat) (b : bus) : bus :=
  match subs b !! i with
  | Some s => set_sub i (Subscriber (sub_key s) (loop s) [] false) b
  | None => b
  end.

(** ** The bus at work: calls in flight, loops, receivers and other processes
    that add to and read from the same streams, in any order. *)
Inductive call : Type :=
| Publish (topic : string) (payload : bytes)
| PublishWithHeaders (topic : string) (payload : bytes) (hs : gmap string string)
| Subscribe (topic : string)
| Ack (topic id : string).
Definition call_task (c : call) : task bus (Result unit) :=
  match c with
  | Publish t p => publish t p
  | PublishWithHeaders t p hs => publish_with_headers t p hs
  | Subscribe t => try_await (subscribe t) (fun _ => mret (Ok tt))
  | Ack t id => ack t id
  end.
Inductive event : Type :=
| Invoke (c : call)
| Advance (j : nat)
| Loop (i : nat) (now : Z)
| Recv (i : nat)
| DropReceiver (i : nat)
| OtherAdd (key : string) (max_len : option Z) (fs : list (string * bytes))
| OtherRead (key consumer : string) (count : Z).
Abbreviation machine := (list (task bus (Result unit)) * bus)%type.
(** The state after an event, and what was put into a channel. *)
Definition on_bus (m : machine) (b : bus) : machine := (m.1, b).
Definition step (e : event) (m : machine) : outcome (machine * list (string * string)) :=
  match e with
  | Invoke c => Ret ((m.1 ++ [call_task c], m.2), [])
  | Advance j => m' ← advance j m; Ret (m', [])
  | Loop i now => Ret (let '(b, d) := loop_step i now m.2 in (on_bus m b, d))
  | Recv i => Ret (on_bus m (recv i m.2).2, [])
  | DropReceiver i => Ret (on_bus m (drop_receiver i m.2), [])
  | OtherAdd k ml fs => Ret (on_bus m (with_server (xadd k ml fs (server m.2)).2 m.2), [])
  | OtherRead k c n => Ret (on_bus m (with_server (xreadgroup group c n 0 k (server m.2)).2 m.2), [])
  end.
Fixpoint run_events (es : list event) (m : machine) : outcome (machine * list (string * string)) :=
  match es with
  | [] => Ret (m, [])
  | e :: es =>
      x ← step e m;
      y ← run_events es x.1;
      Ret (y.1, x.2 ++ y.2)
  end.

(** ** Every entry is in one place *)
Definition hand (s : subscriber) : list entry := match loop s with Sending es => es | _ => [] end.
Definition hand_of (k : string) (s : subscriber) : list string :=
  if decide (sub_key s = k) then ids (hand s) else [].
Definition hands (k : string) (ss : list subscriber) : list string := concat (map (hand_of k) ss).
Definition gone (k : string) (D : list (string * string)) : list string :=
  concat (map (fun p => if decide (p.1 = k) then [p.2] else []) D).
(** The entries [out] have left the stream for good, the unread ones have not:
    no entry is twice among them. *)
Definition accounted (out : list string) (v : stream_view) : Prop :=
  match unread v with
  | Some u => NoDup (out ++ ids u) /\ (out ++ ids u ⊆ used v)
  | None => out = []
  end.
Definition inv (D : list (string * string)) (b : bus) : Prop :=
  forall k, accounted (gone k D ++ hands k (subs b)) (view (server b) k group).

Lemma accounted_submseteq out out' v : out' ⊆+ out -> accounted out v -> accounted out' v.
Proof.
  unfold accounted. intros Hs. destruct (unread v) as [u|].
  - intros [Hn Hu]. assert (out' ++ ids u ⊆+ out ++ ids u) as H by by apply submseteq_skips_r.
    split; [by eapply submseteq_NoDup|]. intros x Hx. apply Hu. by eapply elem_of_submseteq.
  - intros ->. by apply submseteq_nil_r in Hs.
Qed.
Lemma accounted_created out v v' : view_ok v -> created v v' -> accounted out v -> accounted out v'.
Proof.
  unfold accounted. intros (Hn & Hu & _) [-> ->] ->. simpl. by split.
Qed.
Lemma accounted_added out e ml v v' : added e ml v v' -> accounted out v -> accounted out v'.
Proof.
  unfold accounted. intros (Hf & Hu & _ & n & _ & _ & Hr). destruct (unread v) as [u|]; [|by rewrite Hr].
  destruct Hr as (m & _ & ->). intros [Hn Hs]. rewrite ids_drop, ids_app. rewrite Hu.
  assert (drop m (ids u ++ ids [e]) ⊆+ ids u ++ ids [e]) as Hd by (apply sublist_submseteq, sublist_drop).
  assert (out ++ (ids u ++ ids [e]) ≡ₚ entry_id e :: (out ++ ids u)) as Hp by (simpl; solve_Permutation).
  assert (out ++ drop m (ids u ++ ids [e]) ⊆+ entry_id e :: (out ++ ids u)) as Hd'.
  { rewrite <- Hp. by apply submseteq_skips_l. }
  split.
  - eapply submseteq_NoDup; [exact Hd'|]. constructor; [|done]. intros Hin. by apply Hf, Hs.
  - intros x Hx. eapply elem_of_submseteq in Hx; [|exact Hd']. apply elem_of_cons in Hx as [->|Hx]; [by left|].
    right. by apply Hs.
Qed.
Lemma accounted_taken out es v v' : taken es v v' -> accounted out v -> accounted (out ++ ids es) v'.
Proof.
  unfold accounted. intros (rest & -> & ->). simpl. rewrite ids_app, app_assoc. done.
Qed.
Lemma accounted_acked out id v v' : acked id v v' -> accounted out v -> accounted out v'.
Proof. unfold accounted. by intros ->. Qed.

Lemma hands_insert k i (s s' : subscriber) ss : ss !! i = Some s ->
  exists rest, hands k ss ≡ₚ hand_of k s ++ rest /\ hands k (<[i := s']> ss) ≡ₚ hand_of k s' ++ rest.
Proof.
  intros Hi. exists (hands k (take i ss ++ drop (S i) ss)). unfold hands.
  assert (forall x, concat (map (hand_of k) (take i ss ++ x :: drop (S i) ss)) ≡ₚ
    hand_of k x ++ concat (map (hand_of k) (take i ss ++ drop (S i) ss))) as H.
  { intros x. rewrite <- Permutation_middle. done. }
  split; [rewrite <- (take_drop_middle ss i s Hi) at 1; apply H|].
  rewrite insert_take_drop; [apply H|by eapply lookup_lt_Some].
Qed.

(** What a step may do to the account: nothing but moving entries on. *)
Definition moves (b b' : bus) : Prop := forall D, inv D b -> inv D b'.
Lemma moves_server r b :
  (forall k out, accounted out (view (server b) k group) -> accounted out (view r k group)) ->
  moves b (with_server r b).
Proof. intros H D Hi k. by apply H, Hi. Qed.
Lemma moves_create key b : moves b (with_server (xgroup_create key group (server b)).2 b).
Proof.
  apply moves_server. intros k out Ha. destruct (xgroup_create key group (server b)) as [a r] eqn:E. simpl.
  apply xgroup_create_spec in E as [Hf Ha']. destruct (decide (k = key)) as [->|Hne]; [|rewrite Hf; congruence].
  pose proof (view_is_ok (server b) key group) as Hok. destruct a as [x|e]; [by eapply accounted_created|].
  destruct (contains _ e); [by destruct Ha' as [_ ->]|]. destruct Ha' as [->|Hc]; [done|]. by eapply accounted_created.
Qed.
Lemma moves_add key ml fs b : moves b (with_server (xadd key ml fs (server b)).2 b).
Proof.
  apply moves_server. intros k out Ha. destruct (xadd key ml fs (server b)) as [a r] eqn:E. simpl.
  apply xadd_spec in E as [Hf Ha']. destruct (decide (k = key)) as [->|Hne]; [|by rewrite Hf].
  destruct a as [x|e]; [by eapply accounted_added|]. destruct Ha' as [->|[id Hid]]; [done|].
  by eapply accounted_added.
Qed.
Lemma moves_ack key id b : moves b (with_server (xack key group id (server b)).2 b).
Proof.
  apply moves_server. intros k out Ha. destruct (xack key group id (server b)) as [a r] eqn:E. simpl.
  apply xack_spec in E as [Hf Ha']. destruct (decide (k = key)) as [->|Hne]; [|rewrite Hf; congruence].
  destruct Ha' as [->|Hid]; [done|]. by eapply accounted_acked.
Qed.
(** A read, whose reply [es] the loop takes over or nobody gets. *)
Lemma read_spec c n ms key r a r' : xreadgroup group c n ms key r = (a, r') -> forall k out,
  accounted out (view r k group) ->
  accounted (out ++ match a with Ok reply => if decide (key = k) then ids (concat (map snd reply)) else [] | Err _ => [] end)
    (view r' k group).
Proof.
  intros [Hf Ha']%xreadgroup_spec k out Ha. destruct (decide (key = k)) as [->|Hne].
  2: { rewrite Hf by congruence. destruct a; by rewrite app_nil_r. }
  destruct a as [reply|e]; [by eapply accounted_taken|]. rewrite app_nil_r. destruct Ha' as [->|[es Hes]]; [done|].
  eapply accounted_submseteq; [|by eapply accounted_taken]. by apply submseteq_inserts_r.
Qed.
Lemma moves_read c n ms key b : moves b (with_server (xreadgroup group c n ms key (server b)).2 b).
Proof.
  apply moves_server. intros k out Ha. destruct (xreadgroup _ _ _ _ _ _) as [a r] eqn:E. simpl.
  eapply read_spec in Ha; [|exact E]. eapply accounted_submseteq; [|exact Ha]. by apply submseteq_inserts_r.
Qed.

(** ** What a call may do: move entries on *)
Definition always (_ : bus) : Prop := True.
Lemma on_server_stays {A} (m : R -> A * R) :
  (forall b, moves b (with_server (m (server b)).2 b)) -> stays always moves (on_server m).
Proof.
  intros H. apply stays_await. intros b x b' _ Hb. specialize (H b).
  destruct (m (server b)) as [a r]. injection Hb as <- <-. by split.
Qed.
Lemma quiet_stays {A} (f : bus -> A * bus) :
  (forall b, server (f b).2 = server b /\ forall k, hands k (subs (f b).2) = hands k (subs b)) ->
  stays always moves (await (fun b => Ret (f b))).
Proof.
  intros H. apply stays_await. intros b x b' _ Hb. split; [done|]. intros D Hi k.
  destruct (H b) as [H1 H2]. injection Hb as Hb. rewrite Hb in *. simpl in *. rewrite H1, H2. apply Hi.
Qed.
Lemma ensure_group_stays key : stays always moves (ensure_group key).
Proof.
  apply stays_bind; [by apply (quiet_stays (fun b => (bool_decide (key ∈ created_groups b), b)))|].
  intros [|]; [done|]. apply stays_bind; [apply on_server_stays, moves_create|]. intros r.
  assert (stays always moves (_ ← await (fun b => Ret (tt, Bus (server b) ({[key]} ∪ created_groups b) (subs b)));
    mret (Ok tt : Result unit))) as H.
  { apply stays_bind; [|done]. by apply (quiet_stays (fun b => (tt, Bus (server b) ({[key]} ∪ created_groups b) (subs b)))). }
  destruct r as [x|e]; [exact H|]. by destruct (negb _).
Qed.
Lemma add_entry_stays key fs : stays always moves (add_entry key fs).
Proof. apply stays_bind; [apply on_server_stays, moves_add|done]. Qed.
Lemma call_task_stays c : stays always moves (call_task c).
Proof.
  destruct c as [t p|t p hs|t|t id]; cbn [call_task]; unfold publish, publish_with_headers, subscribe, ack.
  - apply stays_try; [apply ensure_group_stays|]. intros _. apply add_entry_stays.
  - apply stays_try; [apply ensure_group_stays|]. intros _. apply add_entry_stays.
  - apply stays_try; [|done]. apply stays_try; [apply ensure_group_stays|]. intros _.
    apply (quiet_stays (fun b => (Ok (length (subs b)), Bus (server b) (created_groups b)
      (subs b ++ [Subscriber (stream_key t) Reading [] true])))). intros b. split; [done|]. intros k. simpl.
    unfold hands. rewrite map_app, concat_app. simpl. unfold hand_of. simpl. destruct (decide _); by rewrite app_nil_r.
  - apply stays_bind; [apply on_server_stays, moves_ack|done].
Qed.

(** ** What an event does to the account *)
Lemma gone_app k D D' : gone k (D ++ D') = gone k D ++ gone k D'.
Proof. unfold gone. by rewrite map_app, concat_app. Qed.
(** A subscriber replaced by one with a smaller hand, and what left it. *)
Lemma inv_set_sub D d i s s' b :
  subs b !! i = Some s -> (forall k, gone k d ++ hand_of k s' ⊆+ hand_of k s) ->
  inv D b -> inv (D ++ d) (set_sub i s' b).
Proof.
  intros Hi Hs H k. specialize (H k). simpl. eapply accounted_submseteq; [|exact H].
  destruct (hands_insert k i s s' (subs b) Hi) as (rest & -> & ->). rewrite gone_app, <- app_assoc.
  apply submseteq_skips_l. rewrite app_assoc. by apply submseteq_skips_r.
Qed.
Lemma inv_set_same D i s s' b :
  subs b !! i = Some s -> (forall k, hand_of k s' ⊆+ hand_of k s) -> inv D b -> inv D (set_sub i s' b).
Proof. intros Hi Hs H. rewrite <- (app_nil_r D). eapply inv_set_sub; [exact Hi|exact Hs|exact H]. Qed.
Lemma hand_after k s es q o : hand_of k (Subscriber (sub_key s) (after es) q o) = if decide (sub_key s = k) then ids es else [].
Proof. unfold hand_of. simpl. destruct (decide _); [|done]. by destruct es. Qed.

Lemma read_batch_inv D i s b : subs b !! i = Some s -> loop s = Reading -> inv D b -> inv D (read_batch i s b).
Proof.
  intros Hi Hl H. assert (forall k, hand_of k s = []) as Hs.
  { intros k. unfold hand_of, hand. rewrite Hl. by destruct (decide _). }
  unfold read_batch. destruct (negb (receiver_open s)).
  { eapply inv_set_same; [exact Hi| |done]. intros k. unfold hand_of. simpl. destruct (decide _); apply submseteq_nil_l. }
  destruct (xreadgroup _ _ _ _ _ _) as [a r] eqn:E. assert (inv D (with_server r b)) as Hr.
  { pose proof (moves_read (RedisStreamMqConfig.consumer_name cfg) (RedisStreamMqConfig.batch_size cfg)
      (RedisStreamMqConfig.block_ms cfg) (sub_key s) b D H) as Hm. by rewrite E in Hm. }
  destruct a as [reply|e]; [|done]. intros k. pose proof (read_spec _ _ _ _ _ _ _ E k _ (H k)) as Hk.
  eapply accounted_submseteq; [|exact Hk].
  destruct (hands_insert k i s (with_loop (after (concat (map snd reply))) s) (subs b) Hi) as (rest & H1 & H2).
  simpl. rewrite H2, H1, Hs. unfold with_loop. rewrite hand_after. apply Permutation_submseteq. simpl. solve_Permutation.
Qed.
Lemma loop_step_inv D i now b : inv D b -> inv (D ++ (loop_step i now b).2) (loop_step i now b).1.
Proof.
  intros H. unfold loop_step. destruct (subs b !! i) as [s|] eqn:Hi; [|by rewrite app_nil_r].
  destruct (loop s) as [|[|e es]|] eqn:Hl; [rewrite app_nil_r; by apply read_batch_inv|by rewrite app_nil_r| |by rewrite app_nil_r].
  unfold send_next. destruct (negb _).
  { rewrite app_nil_r. eapply inv_set_same; [exact Hi| |done]. intros k. unfold hand_of. simpl.
    destruct (decide _); apply submseteq_nil_l. }
  destruct (_ <? _)%nat; [|by rewrite app_nil_r]. eapply inv_set_sub; [exact Hi| |done].
  intros k. rewrite hand_after. unfold gone, hand_of, hand. simpl. rewrite Hl. by destruct (decide _).
Qed.
Lemma step_inv e m m' d D : Forall (stays always moves) m.1 -> inv D m.2 -> step e m = Ret (m', d) ->
  Forall (stays always moves) m'.1 /\ inv (D ++ d) m'.2.
Proof.
  intros Hc Hi. destruct e as [c|j|i now|i|i|k ml fs|k c n]; simpl.
  - intros [= <- <-]. rewrite app_nil_r. split; [|done]. apply Forall_app. split; [done|].
    constructor; [apply call_task_stays|done].
  - destruct (advance j m) as [p|w] eqn:E; [|done]. intros [= <- <-]. rewrite app_nil_r.
    apply (advance_stays always moves) in E as (? & _ & Hm); [|done..]. split; [done|].
    destruct Hm as [->|Hm]; [done|by apply Hm].
  - destruct (loop_step i now m.2) as [b d'] eqn:E. intros [= <- <-]. split; [done|].
    pose proof (loop_step_inv D i now m.2 Hi) as H. by rewrite E in H.
  - intros [= <- <-]. rewrite app_nil_r. split; [done|]. unfold recv.
    destruct (subs m.2 !! i) as [[k l [|x q] o]|] eqn:E; [done| |done]. simpl. by eapply inv_set_same.
  - intros [= <- <-]. rewrite app_nil_r. split; [done|]. unfold drop_receiver.
    destruct (subs m.2 !! i) as [s|] eqn:E; [|done]. simpl. by eapply inv_set_same.
  - intros [= <- <-]. rewrite app_nil_r. split; [done|]. by apply moves_add.
  - intros [= <- <-]. rewrite app_nil_r. split; [done|]. by apply moves_read.
Qed.
Lemma run_events_inv es m m' ds D : Forall (stays always moves) m.1 -> inv D m.2 -> run_events es m = Ret (m', ds) ->
  Forall (stays always moves) m'.1 /\ inv (D ++ ds) m'.2.
Proof.
  revert m D ds. induction es as [|e es IH]; intros m D ds Hc Hi; simpl.
  { intros [= <- <-]. by rewrite app_nil_r. }
  destruct (step e m) as [[m1 d]|w] eqn:E; [|done]. simpl.
  destruct (run_events es m1) as [[m2 ds']|w] eqn:E2; [|done]. simpl. intros [= <- <-].
  destruct (step_inv _ _ _ _ _ Hc Hi E) as [Hc1 Hi1]. rewrite app_assoc. by eapply IH.
Qed.

(** ** Delivery *)
Lemma gone_NoDup D : (forall k, NoDup (gone k D)) -> NoDup D.
Proof.
  induction D as [|[k id] D IH]; intros H; [apply NoDup_nil_2|]. apply NoDup_cons. split.
  - intros Hin. specialize (H k). unfold gone in H. simpl in H. rewrite decide_True in H by done.
    apply NoDup_cons in H as [H _]. apply H. apply list_elem_of_In, in_concat. exists [id].
    split; [|by left]. apply in_map_iff. exists (k, id). simpl. rewrite decide_True by done.
    split; [done|]. by apply list_elem_of_In.
  - apply IH. intros k'. specialize (H k'). unfold gone in H. simpl in H.
    destruct (decide (k = k')); [by apply NoDup_cons in H as [_ H]|done].
Qed.
Lemma gone_elem k id D : (k, id) ∈ D -> id ∈ gone k D.
Proof.
  intros H. apply list_elem_of_In, in_concat. exists [id]. split; [|by left].
  apply in_map_iff. exists (k, id). simpl. rewrite decide_True by done. split; [done|]. by apply list_elem_of_In.
Qed.
Lemma idle_inv D r gs ss :
  Forall (fun s => hand s = []) ss ->
  (forall k, match unread (view r k group) with
             | Some u => NoDup (gone k D) /\ forall id, id ∈ gone k D -> id ∈ used (view r k group) /\ id ∉ ids u
             | None => gone k D = []
             end) -> inv D (Bus r gs ss).
Proof.
  intros Hs HD k. specialize (HD k). simpl. assert (hands k ss = []) as ->.
  { induction Hs as [|s ss Hh _ IH]; [done|]. unfold hands in *. simpl. rewrite IH. unfold hand_of. rewrite Hh.
    by destruct (decide _). }
  rewrite app_nil_r. unfold accounted. pose proof (view_is_ok r k group) as (_ & _ & Hv).
  destruct (unread (view r k group)) as [u|]; [|done]. destruct Hv as (Hn & Hu & _), HD as [Hg Hd]. split.
  - apply NoDup_app. split_and!; [done| |done]. intros id Hid. by apply Hd.
  - intros id [Hid|Hid]%elem_of_app; [by apply Hd|by apply Hu].
Qed.

(** C32: a message goes to one subscriber: however publishers, consumer loops,
    receivers and other processes interleave, and whatever commands fail, no
    entry of a stream is put into a channel twice, and one that was put into a
    channel is neither in the hands of a loop nor still to be read. *)
Theorem stream_delivers_at_most_once (r : R) (gs : gset string) (es : list event) m ds :
  run_events es ([], Bus r gs []) = Ret (m, ds) ->
  NoDup ds /\
  forall k id, (k, id) ∈ ds ->
    (id ∉ hands k (subs m.2)) /\
    exists u, unread (view (server m.2) k group) = Some u /\ (id ∉ ids u).
Proof.
  intros H. apply (run_events_inv _ _ _ _ []) in H as [_ H]; [|constructor|].
  2: { apply idle_inv; [constructor|]. intros k. destruct (unread _); [|done]. split; [constructor|].
       intros id Hid. by apply elem_of_nil in Hid. }
  simpl in H. split.
  - apply gone_NoDup. intros k. specialize (H k). unfold accounted in H. destruct (unread _).
    + destruct H as [H _]. rewrite <- app_assoc in H. by apply NoDup_app in H as [? _].
    + apply app_eq_nil in H as [-> _]. constructor.
  - intros k id Hid%gone_elem. specialize (H k). unfold accounted in H. destruct (unread _) as [u|].
    + destruct H as [H _]. rewrite <- app_assoc in H. apply NoDup_app in H as (_ & H & _). specialize (H id Hid).
      rewrite elem_of_app in H. split; [tauto|]. exists u. tauto.
    + apply app_eq_nil in H as [H _]. rewrite H in Hid. by apply elem_of_nil in Hid.
Qed.

(** But a message that was read and not acknowledged is not delivered
    again, to anybody, ever: not after its subscriber went away and not after
    a restart of the process, since the loops only ever ask for entries the
    group has not been given yet. *)
Theorem unacknowledged_is_never_redelivered (r : R) (gs : gset string) (ss : list subscriber) (k id : string)
    (es : list event) m ds :
  Forall (fun s => hand s = []) ss -> id ∈ pending (view r k group) ->
  run_events es ([], Bus r gs ss) = Ret (m, ds) -> (k, id) ∉ ds.
Proof.
  intros Hs Hp H Hin. apply (run_events_inv _ _ _ _ [(k, id)]) in H as [_ H]; [|constructor|].
  - specialize (H k). apply gone_elem in Hin. unfold accounted in H. rewrite gone_app in H.
    assert (gone k [(k, id)] = [id]) as Hg by (unfold gone; simpl; by rewrite decide_True).
    rewrite Hg in H. destruct (unread _); [|done]. destruct H as [H _]. simpl in H. apply NoDup_cons in H as [H _].
    apply H. rewrite !elem_of_app. tauto.
  - apply idle_inv; [done|]. intros k'. unfold gone. simpl. pose proof (view_is_ok r k' group) as (_ & _ & Hv).
    destruct (decide (k = k')) as [<-|Hne].
    + destruct (unread _) as [u|]; [|rewrite Hv in Hp; set_solver]. destruct Hv as (_ & _ & Hv).
      split; [apply NoDup_singleton|]. intros x Hx%list_elem_of_singleton. subst x. by apply Hv.
    + destruct (unread _) as [u|]; [|done]. split; [constructor|]. intros x Hx. by apply elem_of_nil in Hx.
Qed.

(** ** A group that disappears *)
Definition lost (k : string) (b : bus) : Prop :=
  k ∈ created_groups b /\ unread (view (server b) k group) = None /\ hands k (subs b) = [].
Definition anything (_ _ : bus) : Prop := True.
Lemma lost_server k r b : lost k b -> unread (view r k group) = None -> lost k (with_server r b).
Proof. by intros (? & _ & ?) ?. Qed.
Lemma lost_create k key b : lost k b -> key <> k -> lost k (with_server (xgroup_create key group (server b)).2 b).
Proof.
  intros H Hne. apply lost_server; [done|]. destruct (xgroup_create key group (server b)) as [a r] eqn:E. simpl.
  apply xgroup_create_spec in E as [Hf _]. rewrite Hf by congruence. apply H.
Qed.
Lemma lost_add k key ml fs b : lost k b -> lost k (with_server (xadd key ml fs (server b)).2 b).
Proof.
  intros H. apply lost_server; [done|]. destruct (xadd key ml fs (server b)) as [a r] eqn:E. simpl.
  apply xadd_spec in E as [Hf Ha]. destruct H as (_ & H & _).
  destruct (decide (k = key)) as [->|Hne]; [|by rewrite Hf].
  assert (forall e, added e ml (view (server b) key group) (view r key group) -> unread (view r key group) = None) as Hadd.
  { intros e (_ & _ & _ & n & _ & _ & Hu). by rewrite H in Hu. }
  destruct a as [id|e]; [by eapply Hadd|]. destruct Ha as [->|[id Hid]]; [done|by eapply Hadd].
Qed.
Lemma lost_ack k key id b : lost k b -> lost k (with_server (xack key group id (server b)).2 b).
Proof.
  intros H. apply lost_server; [done|]. destruct (xack key group id (server b)) as [a r] eqn:E. simpl.
  apply xack_spec in E as [Hf Ha]. destruct H as (_ & H & _). destruct (decide (k = key)) as [->|Hne]; [|rewrite Hf; congruence].
  by destruct Ha as [->| ->].
Qed.
(** Reading from a group that is not there fails, whatever the error. *)
Lemma lost_read k c n ms key b a r : lost k b -> xreadgroup group c n ms key (server b) = (a, r) ->
  lost k (with_server r b) /\ (key = k -> exists e, a = Err e).
Proof.
  intros H [Hf Ha]%xreadgroup_spec. destruct (decide (key = k)) as [->|Hne].
  2: { split; [|done]. apply lost_server; [done|]. rewrite Hf by congruence. apply H. }
  assert (forall es, ~ taken es (view (server b) k group) (view r k group)) as Hno.
  { intros es (rest & Hr & _). destruct H as (_ & H & _). congruence. }
  destruct a as [reply|e]; [by destruct (Hno _ Ha)|]. split; [|by eexists].
  destruct Ha as [Ha|[es Hes]]; [|by destruct (Hno es)]. apply lost_server; [done|]. rewrite Ha. apply H.
Qed.
Lemma on_server_lost {A} k (m : R -> A * R) :
  (forall b, lost k b -> lost k (with_server (m (server b)).2 b)) -> stays (lost k) anything (on_server m).
Proof.
  intros H. apply stays_await. intros b x b' Hb Hm. specialize (H b Hb).
  destruct (m (server b)) as [a r]. injection Hm as <- <-. by split.
Qed.
Lemma ensure_group_lost k key : stays (lost k) anything (ensure_group key).
Proof.
  intros b x b' Hb [= <- <-]. split; [done|]. split; [done|]. case_bool_decide as Hin; [done|].
  assert (key <> k) as Hne by (intros ->; by destruct Hb).
  apply stays_bind; [apply on_server_lost; intros; by apply lost_create|]. intros r.
  assert (stays (lost k) anything (_ ← await (fun b => Ret (tt, Bus (server b) ({[key]} ∪ created_groups b) (subs b)));
    mret (Ok tt : Result unit))) as H.
  { apply stays_bind; [|done]. apply stays_await. intros b1 [] b1' (? & ? & ?) [= <-]. split; [|done].
    split_and!; [simpl; set_solver|done..]. }
  destruct r as [y|e]; [exact H|]. by destruct (negb _).
Qed.
Lemma call_task_lost k c : stays (lost k) anything (call_task c).
Proof.
  destruct c as [t p|t p hs|t|t id]; cbn [call_task]; unfold publish, publish_with_headers, subscribe, ack.
  - apply stays_try; [apply ensure_group_lost|]. intros _. apply stays_bind; [apply on_server_lost; intros; by apply lost_add|done].
  - apply stays_try; [apply ensure_group_lost|]. intros _. apply stays_bind; [apply on_server_lost; intros; by apply lost_add|done].
  - apply stays_try; [|done]. apply stays_try; [apply ensure_group_lost|]. intros _. apply stays_await.
    intros b x b' (? & ? & Hh) [= _ <-]. split; [|done]. split_and!; [done..|]. simpl. unfold hands in *.
    rewrite map_app, concat_app, Hh. simpl. unfold hand_of. simpl. by destruct (decide _).
  - apply stays_bind; [apply on_server_lost; intros; by apply lost_ack|done].
Qed.
Lemma lost_set_sub k i s s' b : lost k b -> subs b !! i = Some s -> hand_of k s' ⊆+ hand_of k s -> lost k (set_sub i s' b).
Proof.
  intros (? & ? & Hh) Hi Hs. split_and!; [done..|]. simpl.
  destruct (hands_insert k i s s' (subs b) Hi) as (rest & H1 & H2). rewrite Hh in H1.
  apply Permutation_nil_l in H1. symmetry in H1. apply app_eq_nil in H1 as [H1 ->]. rewrite H1 in Hs.
  apply submseteq_nil_r in Hs. rewrite Hs in H2. by apply Permutation_nil_r in H2.
Qed.
Lemma hand_of_elem k i s b : subs b !! i = Some s -> forall x, x ∈ hand_of k s -> x ∈ hands k (subs b).
Proof.
  intros Hi x Hx. destruct (hands_insert k i s s (subs b) Hi) as (rest & -> & _). apply elem_of_app. by left.
Qed.
Lemma other_hand k s : sub_key s <> k -> hand_of k s = [].
Proof. intros H. unfold hand_of. by rewrite decide_False. Qed.
Lemma read_batch_lost k i s b : lost k b -> subs b !! i = Some s -> loop s = Reading -> lost k (read_batch i s b).
Proof.
  intros Hb Hi Hl. unfold read_batch. destruct (negb (receiver_open s)).
  { eapply lost_set_sub; [done..|]. unfold hand_of, with_loop. simpl. destruct (decide _); apply submseteq_nil_l. }
  destruct (xreadgroup _ _ _ _ _ _) as [a r] eqn:E. destruct (lost_read k _ _ _ _ _ _ _ Hb E) as [Hr He].
  destruct a as [reply|e]; [|done]. destruct (decide (sub_key s = k)) as [Hk|Hne]; [by destruct (He Hk)|].
  eapply lost_set_sub; [exact Hr|exact Hi|]. by rewrite !other_hand.
Qed.
Lemma loop_step_lost k i now b : lost k b ->
  lost k (loop_step i now b).1 /\ k ∉ map fst (loop_step i now b).2.
Proof.
  intros Hb. unfold loop_step. destruct (subs b !! i) as [s|] eqn:Hi; [|by split; [|apply not_elem_of_nil]].
  destruct (loop s) as [|[|e es]|] eqn:Hl; [split; [by apply read_batch_lost|apply not_elem_of_nil]|by split; [|apply not_elem_of_nil]| |by split; [|apply not_elem_of_nil]].
  assert (sub_key s <> k) as Hne.
  { intros Hk. destruct Hb as (_ & _ & Hh). pose proof (hand_of_elem k i s b Hi (entry_id e)) as H. rewrite Hh in H.
    apply (not_elem_of_nil (entry_id e)), H. unfold hand_of, hand. rewrite decide_True, Hl by done. by left. }
  unfold send_next. destruct (negb _); [split; [|apply not_elem_of_nil]|].
  { eapply lost_set_sub; [done..|]. by rewrite !other_hand. }
  destruct (_ <? _)%nat; [|by split; [|apply not_elem_of_nil]]. split; [|by apply not_elem_of_cons; split; [|apply not_elem_of_nil]].
  eapply lost_set_sub; [done..|]. by rewrite !other_hand.
Qed.
Lemma step_lost k e m m' d : Forall (stays (lost k) anything) m.1 -> lost k m.2 -> step e m = Ret (m', d) ->
  Forall (stays (lost k) anything) m'.1 /\ lost k m'.2 /\ k ∉ map fst d.
Proof.
  intros Hc Hb. destruct e as [c|j|i now|i|i|key ml fs|key c n]; simpl.
  - intros [= <- <-]. split_and!; [|done|apply not_elem_of_nil]. apply Forall_app. split; [done|].
    constructor; [apply call_task_lost|done].
  - destruct (advance j m) as [p|w] eqn:E; [|done]. intros [= <- <-].
    apply (advance_stays (lost k) anything) in E as (? & ? & _); [|done..]. split_and!; [done..|apply not_elem_of_nil].
  - pose proof (loop_step_lost k i now m.2 Hb) as H. destruct (loop_step i now m.2) as [b d'].
    intros [= <- <-]. split; [done|exact H].
  - intros [= <- <-]. split_and!; [done| |apply not_elem_of_nil]. unfold recv.
    destruct (subs m.2 !! i) as [[k' l [|x q] o]|] eqn:E; [done| |done]. by eapply lost_set_sub.
  - intros [= <- <-]. split_and!; [done| |apply not_elem_of_nil]. unfold drop_receiver.
    destruct (subs m.2 !! i) as [s|] eqn:E; [|done]. by eapply lost_set_sub.
  - intros [= <- <-]. split_and!; [done|by apply lost_add|apply not_elem_of_nil].
  - intros [= <- <-]. split_and!; [done| |apply not_elem_of_nil].
    destruct (xreadgroup _ _ _ _ _ _) as [a r] eqn:E. by destruct (lost_read k _ _ _ _ _ _ _ Hb E).
Qed.

Lemma ensure_group_known key b : key ∈ created_groups b -> run (ensure_group key) b = Ret (Ok tt, b).
Proof.
  intros H. unfold ensure_group. simpl. unfold mbind, M_bind. by rewrite bool_decide_eq_true_2.
Qed.

(** A consumer group that disappears (its stream is deleted, or the server
    restarts empty) is not created again, although the loop logs that it will
    retry: the bus remembers having created it.  From then on publishing on
    the topic succeeds whenever [XADD] does, and nothing is ever delivered. *)
Theorem lost_group_never_returns (topic : string) (b : bus) (es : list event) m ds :
  lost (stream_key topic) b -> run_events es ([], b) = Ret (m, ds) ->
  (stream_key topic ∉ map fst ds) /\
  forall payload, exists b',
    run (publish topic payload) m.2 = Ret
      (map_err (fun e => new_error MqPublishFailed ("redis xadd failed: " +:+ e))
         (_ ← (xadd (stream_key topic) (RedisStreamMqConfig.max_len cfg) (body topic payload) (server m.2)).1; Ok tt), b').
Proof.
  intros Hb H. assert (lost (stream_key topic) m.2 /\ stream_key topic ∉ map fst ds) as [Hm Hd].
  { assert (Forall (stays (lost (stream_key topic)) anything) (([] : list (task bus (Result unit))), b).1) as Hc by constructor.
    change b with (([] : list (task bus (Result unit))), b).2 in Hb. revert Hc Hb H.
    generalize (([] : list (task bus (Result unit))), b). revert ds. induction es as [|e es IH]; intros ds m0 Hc Hb; simpl.
    { intros [= <- <-]. split; [done|apply not_elem_of_nil]. }
    destruct (step e m0) as [[m1 d]|w] eqn:E; [|done]. simpl.
    destruct (run_events es m1) as [[m2 ds']|w] eqn:E2; [|done]. simpl. intros [= <- <-].
    destruct (step_lost _ _ _ _ _ Hc Hb E) as (Hc1 & Hb1 & Hd1). destruct (IH _ _ Hc1 Hb1 E2) as [? ?].
    split; [done|]. rewrite map_app, not_elem_of_app. by split. }
  split; [done|]. intros payload. unfold publish.
  rewrite (run_try_await _ _ _ _ _ (ensure_group_known _ _ (proj1 Hm))).
  unfold add_entry, on_server. simpl. unfold mbind, M_bind, result_bind. destruct (xadd _ _ _ _) as [a r]. by eexists.
Qed.

(** What is published is what is received: the entry that [publish] and
    [publish_with_headers] add is read back as a message with the same topic,
    payload and headers, and with the entry's identifier, which is the one to
    acknowledge; only the time is the reader's. *)
Theorem stream_message_roundtrip (id topic : string) (payload : bytes) (hs : gmap string string) (now : Z) :
  from_utf8 (bytes_of_string topic) = Some topic ->
  from_utf8 (bytes_of_string (headers_to_string hs)) = Some (headers_to_string hs) ->
  headers_from_str (headers_to_string hs) = Some hs ->
  parse_stream_entry now (Entry id (body topic payload)) = Message id topic payload ∅ (as_u64 (as_millis now)) /\
  parse_stream_entry now (Entry id (body topic payload ++ [("headers", bytes_of_string (headers_to_string hs))])) =
    Message id topic payload hs (as_u64 (as_millis now)).
Proof.
  intros Ht Hh Hs. unfold parse_stream_entry, entry_get, body. cbn -[bytes_of_string as_u64 as_millis].
  by rewrite Ht, Hh; cbn -[bytes_of_string as_u64 as_millis]; rewrite Hs.
Qed.
End bus.
End RedisStreamBus.

(** * A concrete server

    Streams in memory, their entries numbered from zero; a group knows how many
    entries it has not been given and which it has pending.  Nothing is
    trimmed. *)
Module MemoryStreams.
Record stream : Type := Stream { contents : list (list (string * bytes)); groups : gmap string (nat * gset string) }.
Definition empty : stream := Stream [] ∅.
Definition entries (s : stream) : list entry := imap (fun i fs => Entry (pretty i) fs) (contents s).
Definition given (u : nat) (s : stream) : nat := length (contents s) - u.
Definition view_of (s : stream) (g : string) : stream_view :=
  match groups s !! g with
  | None => StreamView None (entries s) (reverse (ids (entries s))) ∅
  | Some (u, p) =>
      StreamView (Some (drop (given u s) (entries s))) (entries s) (reverse (ids (entries s)))
        (p ∩ list_to_set (ids (take (given u s) (entries s))))
  end.
Abbreviation server := (gmap string stream).
Definition at_key (r : server) (k : string) : stream := default empty (r !! k).
Definition view (r : server) (k g : string) : stream_view := view_of (at_key r k) g.

Definition xgroup_create (k g : string) (r : server) : result string string * server :=
  let s := at_key r k in
  match groups s !! g with
  | Some _ => (Err "BUSYGROUP Consumer Group name already exists", r)
  | None => (Ok "OK", <[k := Stream (contents s) (<[g := (length (contents s), ∅)]> (groups s))]> r)
  end.
Definition add_to (fs : list (string * bytes)) (s : stream) : stream :=
  Stream (contents s ++ [fs]) ((fun p => (S p.1, p.2)) <$> groups s).
Definition xadd (k : string) (ml : option Z) (fs : list (string * bytes)) (r : server) : result string string * server :=
  let s := at_key r k in (Ok (pretty (length (contents s))), <[k := add_to fs s]> r).
Definition read_from (g : string) (u : nat) (p : gset string) (n : nat) (s : stream) : list entry * stream :=
  let batch := take n (drop (given u s) (entries s)) in
  (batch, Stream (contents s) (<[g := (u `min` length (contents s) - length batch, p ∪ list_to_set (ids batch))%nat]> (groups s))).
Definition xreadgroup (g c : string) (n ms : Z) (k : string) (r : server) :
    result string (list (string * list entry)) * server :=
  let s := at_key r k in
  match groups s !! g with
  | None => (Err "NOGROUP No such consumer group", r)
  | Some (u, p) => let '(batch, s) := read_from g u p (Z.to_nat n) s in (Ok [(k, batch)], <[k := s]> r)
  end.
Definition xack (k g id : string) (r : server) : result string Z * server :=
  let s := at_key r k in
  match groups s !! g with
  | None => (Ok 0, r)
  | Some (u, p) => (Ok 1, <[k := Stream (contents s) (<[g := (u, p ∖ {[id]})]> (groups s))]> r)
  end.

Lemma ids_entries s : ids (entries s) = pretty <$> seq 0 (length (contents s)).
Proof.
  unfold ids, entries. apply list_eq. intros i. change (map entry_id ?l) with (entry_id <$> l). rewrite !list_lookup_fmap, list_lookup_imap.
  destruct (contents s !! i) as [fs|] eqn:E.
  - rewrite lookup_seq_lt by (by eapply lookup_lt_Some). done.
  - rewrite lookup_seq_ge by (by apply lookup_ge_None). done.
Qed.
Lemma entries_NoDup s : NoDup (ids (entries s)).
Proof. rewrite ids_entries. apply NoDup_fmap_2; [apply _|apply NoDup_seq]. Qed.
Lemma length_entries s : length (entries s) = length (contents s).
Proof. apply length_imap. Qed.
Lemma entries_add fs s : entries (add_to fs s) = entries s ++ [Entry (pretty (length (contents s))) fs].
Proof. unfold entries, add_to. simpl. rewrite imap_app. simpl. by rewrite Nat.add_0_r. Qed.
Lemma view_insert (r : server) k s k' g : view (<[k := s]> r) k' g = if decide (k' = k) then view_of s g else view r k' g.
Proof.
  unfold view, at_key. destruct (decide (k' = k)) as [->|Hne]; [by rewrite lookup_insert_eq|by rewrite lookup_insert_ne].
Qed.
Lemma view_of_ok s g : view_ok (view_of s g).
Proof.
  pose proof (entries_NoDup s) as Hn. unfold view_ok, view_of. destruct (groups s !! g) as [[u p]|]; simpl.
  - rewrite <- (take_drop (given u s) (entries s)) in Hn at 1. rewrite ids_app in Hn. apply NoDup_app in Hn as (_ & Hd & Hn).
    split_and!; [apply entries_NoDup|intros x; by rewrite elem_of_reverse|done| |].
    + intros x Hx. rewrite elem_of_reverse, <- (take_drop (given u s) (entries s)), ids_app, elem_of_app. by right.
    + intros id [_ Hid%elem_of_list_to_set]%elem_of_intersection. split; [|by apply Hd].
      rewrite elem_of_reverse, <- (take_drop (given u s) (entries s)), ids_app, elem_of_app. by left.
  - split_and!; [apply entries_NoDup|intros x; by rewrite elem_of_reverse|done].
Qed.
Lemma view_of_group s g g' x : g <> g' -> view_of (Stream (contents s) (<[g := x]> (groups s))) g' = view_of s g'.
Proof. intros H. unfold view_of. simpl. rewrite lookup_insert_ne by done. done. Qed.

Lemma created_view s g : groups s !! g = None ->
  created (view_of s g) (view_of (Stream (contents s) (<[g := (length (contents s), ∅)]> (groups s))) g).
Proof.
  intros Hg. unfold created, view_of. simpl. rewrite Hg, lookup_insert_eq. split; [done|]. unfold given. simpl.
  rewrite Nat.sub_diag. by rewrite intersection_empty_l_L.
Qed.
Lemma added_view fs s g : added (Entry (pretty (length (contents s))) fs) None (view_of s g) (view_of (add_to fs s) g).
Proof.
  assert (pretty (length (contents s)) ∉ ids (entries s)) as Hf.
  { rewrite ids_entries. intros (i & Hi%pretty_nat_inj & Hin)%list_elem_of_fmap. apply elem_of_seq in Hin. lia. }
  unfold added, view_of. cbn [groups add_to]. rewrite lookup_fmap. pose proof (entries_add fs s) as He.
  assert (forall u, given (S u) (add_to fs s) = given u s) as Hgv.
  { intros u. unfold given, add_to. simpl. rewrite length_app. simpl. lia. }
  assert (forall u, given u s <= length (entries s))%nat as Hle.
  { intros u. rewrite length_entries. unfold given. lia. }
  destruct (groups s !! g) as [[u p]|]; cbn [fmap option_fmap option_map fst snd unread stored used pending];
    rewrite He, ids_app, reverse_app; (split; [by rewrite elem_of_reverse|]); (split; [done|]).
  - rewrite Hgv. split; [by rewrite take_app_le by apply Hle|]. exists 0%nat. split; [done|]. split; [done|].
    exists 0%nat. split; [done|]. by rewrite drop_app_le by apply Hle.
  - split; [done|]. exists 0%nat. by split_and!.
Qed.
Lemma taken_view g u p n s : groups s !! g = Some (u, p) ->
  taken (read_from g u p n s).1 (view_of s g) (view_of (read_from g u p n s).2 g).
Proof.
  intros Hg. unfold taken, view_of, read_from. cbn [fst snd groups contents]. rewrite Hg, lookup_insert_eq. cbn [unread].
  set (rest := drop (given u s) (entries s)). exists (drop n rest). split; [by rewrite take_drop|].
  change (entries (Stream (contents s) ?x)) with (entries s).
  assert (forall x, given (u `min` length (contents s) - length (take n rest))%nat (Stream (contents s) x) =
    given u s + length (take n rest))%nat as Hgv.
  { intros x. pose proof (length_entries s). unfold rest. rewrite length_take, length_drop. unfold given. simpl. lia. }
  rewrite !Hgv.
  f_equal.
  - rewrite <- drop_drop. fold rest. rewrite length_take. f_equal.
    destruct (decide (n <= length rest)%nat); [by rewrite Nat.min_l|]. rewrite Nat.min_r, !drop_ge by lia. done.
  - assert (take (given u s + length (take n rest)) (entries s) = take (given u s) (entries s) ++ take n rest) as ->.
    { rewrite <- take_take_drop. f_equal. fold rest. rewrite length_take.
      destruct (decide (n <= length rest)%nat); [by rewrite Nat.min_l|]. by rewrite Nat.min_r, !take_ge by lia. }
    rewrite ids_app, list_to_set_app_L. set_solver.
Qed.
Lemma acked_view g u p id s : groups s !! g = Some (u, p) ->
  acked id (view_of s g) (view_of (Stream (contents s) (<[g := (u, p ∖ {[id]})]> (groups s))) g).
Proof.
  intros Hg. unfold acked, view_of. simpl. rewrite Hg, lookup_insert_eq. unfold given. simpl. f_equal. set_solver.
Qed.

#[export] Program Instance memory_streams : RedisStreams server := {|
  RedisStreams.view := view;
  RedisStreams.xgroup_create := xgroup_create;
  RedisStreams.xadd := xadd;
  RedisStreams.xreadgroup := xreadgroup;
  RedisStreams.xack := xack;
  RedisStreams.ping r := (Ok "PONG", r);
|}.
Next Obligation. intros r k g. apply view_of_ok. Qed.
Next Obligation.
  intros k g r a r'. unfold xgroup_create. destruct (groups (at_key r k) !! g) as [x|] eqn:E; intros [= <- <-].
  - split; [done|]. simpl. split; [|done]. unfold view, view_of. rewrite E. by destruct x.
  - split.
    + intros k' g' Hne. rewrite view_insert. destruct (decide (k' = k)) as [->|]; [|done].
      apply view_of_group. congruence.
    + rewrite view_insert, decide_True by done. by apply created_view.
Qed.
Next Obligation.
  intros k ml fs r a r' [= <- <-]. split; [intros k' g Hne; by rewrite view_insert, decide_False|].
  intros g. rewrite view_insert, decide_True by done. destruct (added_view fs (at_key r k) g) as (? & ? & ? & n & ? & Hn & ?).
  rewrite Hn in * by done. split_and!; [done..|]. by exists 0%nat.
Qed.
Next Obligation.
  intros g c n ms k r a r'. unfold xreadgroup. destruct (groups (at_key r k) !! g) as [[u p]|] eqn:E.
  - pose proof (taken_view g u p (Z.to_nat n) _ E) as H. destruct (read_from g u p (Z.to_nat n) (at_key r k)) as [batch s] eqn:Er.
    intros [= <- <-]. split.
    + intros k' g' Hne. rewrite view_insert. destruct (decide (k' = k)) as [->|]; [|done].
      unfold read_from in Er. injection Er as _ <-. apply view_of_group. congruence.
    + rewrite view_insert, decide_True by done. simpl. by rewrite app_nil_r.
  - intros [= <- <-]. split; [done|]. by left.
Qed.
Next Obligation.
  intros k g id r a r'. unfold xack. destruct (groups (at_key r k) !! g) as [[u p]|] eqn:E; intros [= <- <-].
  - split.
    + intros k' g' Hne. rewrite view_insert. destruct (decide (k' = k)) as [->|]; [|done]. apply view_of_group. congruence.
    + right. rewrite view_insert, decide_True by done. by apply acked_view.
  - split; [done|]. by left.
Qed.
Next Obligation. by intros r a r' [= _ <-]. Qed.
End MemoryStreams.

(** * A bus at work *)
Module RedisStreamsExamples.
Import RedisStreamBus MemoryStreams.

Definition config : RedisStreamMqConfig.t := RedisStreamMqConfig.default "c1".
Definition one_header (hs : gmap string string) : string := default "" (hs !! "traceparent").
Definition header_of (s : string) : option (gmap string string) := Some {["traceparent" := s]}.
Definition text (b : bytes) : option string := Some (String.string_of_list_byte b).
Definition trace : gmap string string := {["traceparent" := "00-a-b-01"]}.

Abbreviation run_memory := (run_events (R := server) config one_header header_of text).
(** Two messages, both read by the first of two subscribers, which goes away
    before the second message is in its channel. *)
Definition advances : list event := [Advance 0; Advance 0; Advance 0; Advance 0;
  Advance 1; Advance 1; Advance 2; Advance 2; Advance 3; Advance 3].
Definition work : list event :=
  [Invoke (Publish "jobs" []); Invoke (PublishWithHeaders "jobs" [] trace); Invoke (Subscribe "jobs");
   Invoke (Subscribe "jobs")] ++ advances ++
  [Loop 0 5; Loop 1 5; Loop 0 6; DropReceiver 0; Loop 0 7].
Definition after_work : list (task (bus (R := server)) (Result unit)) * bus (R := server) :=
  match run_memory work ([], Bus ∅ ∅ []) with
  | Ret (m, _) => m
  | Panic _ => ([], Bus ∅ ∅ [])
  end.
Definition jobs : string := stream_key "jobs".

Lemma stream_delivers_at_most_once_witness :
  run_memory work ([], Bus ∅ ∅ []) = Ret (after_work, [(jobs, "0")]) /\
    exists u, unread (RedisStreams.view (RedisStreamBus.server after_work.2) jobs (RedisStreamMqConfig.group_name config)) = Some u /\
      ("0" ∉ ids u).
Proof.
  assert (run_memory work ([], Bus ∅ ∅ []) = Ret (after_work, [(jobs, "0")])) as H by (vm_compute; reflexivity).
  split; [exact H|].
  refine (proj2 (proj2 (stream_delivers_at_most_once config one_header header_of text ∅ ∅ work after_work [(jobs, "0")] H) jobs "0" _)).
  left.
Defined.

(** After a restart the second message is pending and no loop gets it. *)
Definition restart : list event := [Invoke (Subscribe "jobs"); Advance 0; Advance 0; Advance 0; Advance 0;
  Loop 0 9; Loop 0 10; Loop 0 11].
Lemma unacknowledged_is_never_redelivered_witness :
  let r := RedisStreamBus.server after_work.2 in
  "1" ∈ pending (RedisStreams.view r jobs (RedisStreamMqConfig.group_name config)) /\
  exists m, run_memory restart ([], Bus r ∅ []) = Ret (m, []) /\ (jobs, "1") ∉ ([] : list (string * string)).
Proof.
  intros r. assert ("1" ∈ pending (RedisStreams.view r jobs (RedisStreamMqConfig.group_name config))) as Hp.
  { apply (bool_decide_unpack _). vm_compute. exact I. }
  split; [exact Hp|]. eexists. split; [vm_compute; reflexivity|].
  refine (unacknowledged_is_never_redelivered config one_header header_of text r ∅ [] jobs "1" restart _ [] _ Hp _).
  - constructor.
  - vm_compute. reflexivity.
Defined.

(** The bus after the server came back empty. *)
Definition emptied : RedisStreamBus.bus (R := server) := Bus ∅ {[jobs]} (subs after_work.2).
Lemma lost_group_never_returns_witness :
  exists m, run_memory restart ([], emptied) = Ret (m, []) /\
  forall payload, exists b, run (publish config "jobs" payload) m.2 = Ret (Ok tt, b).
Proof.
  eexists. split; [vm_compute; reflexivity|].
  refine (proj2 (lost_group_never_returns config one_header header_of text "jobs" emptied restart _ [] _ _)).
  - split; [apply (bool_decide_unpack _); vm_compute; exact I|]. split; vm_compute; reflexivity.
  - vm_compute. reflexivity.
Defined.

Lemma stream_message_roundtrip_witness :
  parse_stream_entry header_of text 0
    (Entry "1" (body "jobs" [] ++ [("headers", bytes_of_string (one_header trace))])) = Message "1" "jobs" [] trace 0.
Proof.
  refine (proj2 (stream_message_roundtrip one_header header_of text "1" "jobs" [] trace 0 _ _ _)); vm_compute; reflexivity.
Defined.
End RedisStreamsExamples.
