(* ===== verification/Nats.v ===== *)
(** The message bus on NATS JetStream ([rinfra-plugins/src/mq/nats.rs]):
    publishing, one consumer loop per subscription, and the map from message
    identifiers to the deliveries that an acknowledgement settles.

    The JetStream client is a parameter.  A consumer loop and its receiver are a
    machine: what the client yields, sends into the channel, receives and
    acknowledgements, in any order. *)

From S2P Require Import Prelude Errors Tcp Serde Config Mq.

(** A message as the client delivers it: subject, payload, headers with all
    their values, and the handle that is acknowledged. *)
Record delivery : Type := Delivery {
  subject : string;
  payload : bytes;
  header_map : option (list (string * list string));
  handle : nat;
}.

(** The calls of [async_nats].  [get_or_create_consumer] gives the consumer of
    that name if the stream has one, whatever it filters; its answer is the
    filter of the consumer. *)
Class JetStream (J : Type) : Type := {
  js_publish : string -> bytes -> list (string * string) -> M J (result string (result string unit));
  js_get_stream : string -> M J (result string unit);
  js_consumer : string -> string -> M J (result string string);
  js_ack : nat -> M J (result string unit);
  js_drain : M J (result string unit);
  filter_of : J -> string -> option string;
  js_get_stream_spec s j r j' : js_get_stream s j = Ret (r, j') -> filter_of j' = filter_of j;
  js_consumer_spec name f j r j' : js_consumer name f j = Ret (r, j') ->
    match r with
    | Ok g => filter_of j' name = Some g /\ (forall n, n <> name -> filter_of j' n = filter_of j n) /\
              g = default f (filter_of j name)
    | Err _ => True
    end;
}.

Module NatsBus.
Section bus.
Context {J : Type} `{!JetStream J} (cfg : NatsConfig.t).

(** A consumer loop: waiting for the client, sending the message it made, or
    ended; with the channel between it and its receiver. *)
Inductive loop_state : Type := Reading | Sending (m : message) | Stopped.
Record subscriber : Type := Subscriber {
  consumer_filter : string;
  loop : loop_state;
  queue : list message;
  receiver_open : bool;
}.
(** [struct NatsBus] with the loops it spawned. *)
Record bus : Type := Bus {
  jetstream : J;
  ack_map : gmap string delivery;
  subs : list subscriber;
}.
Definition in_jetstream {A} (m : M J A) : M bus A := fun b =>
  '(a, j) ← m (jetstream b); Ret (a, Bus j (ack_map b) (subs b)).

(** [connect]; [open] and [create_stream] are what the client answers. *)
Definition connect (open create_stream : result string unit) (j : J) : Result bus :=
  _ ← map_err (fun e => new_error Internal ("nats connect failed: " +:+ e)) open;
  _ ← map_err (fun e => new_error Internal ("nats stream create failed: " +:+ e)) create_stream;
  Ok (Bus j ∅ []).

Definition nats_subject (topic : string) : string := "rinfra." +:+ topic.

(** [publish] and [publish_with_headers]: sent, then acknowledged by the
    server; [is_header_name] is [str::parse::<HeaderName>]. *)
Definition publish_result (r : result string (result string unit)) : Result unit :=
  match r with
  | Err e => fail MqPublishFailed ("nats publish failed: " +:+ e)
  | Ok (Err e) => fail MqPublishFailed ("nats publish ack failed: " +:+ e)
  | Ok (Ok _) => Ok tt
  end.
Definition publish (topic : string) (payload : bytes) : M bus (Result unit) :=
  r ← in_jetstream (js_publish (nats_subject topic) payload []); mret (publish_result r).
Definition nats_headers (is_header_name : string -> bool) (hs : gmap string string) : list (string * string) :=
  filter (fun kv => is_header_name kv.1 = true) (map_to_list hs).
Definition publish_with_headers (is_header_name : string -> bool) (topic : string) (payload : bytes)
    (hs : gmap string string) : M bus (Result unit) :=
  r ← in_jetstream (js_publish (nats_subject topic) payload (nats_headers is_header_name hs)); mret (publish_result r).

(** [subscribe]; the receiver is the position of its loop. *)
Definition dot : Ascii.ascii := Ascii.ascii_of_N 46.
Definition dash : Ascii.ascii := Ascii.ascii_of_N 45.
Definition consumer_name (topic : string) : string :=
  NatsConfig.consumer_group cfg +:+ "-" +:+ replace_char dot dash topic.
Definition add_subscriber (f : string) : M bus (Result nat) := fun b =>
  Ret (Ok (length (subs b)), Bus (jetstream b) (ack_map b) (subs b ++ [Subscriber f Reading [] true])).
Definition subscribe (topic : string) : M bus (Result nat) :=
  stream ← in_jetstream (js_get_stream (NatsConfig.stream_name cfg));
  match stream with
  | Err e => mret (fail MqSubscribeFailed ("nats get stream failed: " +:+ e))
  | Ok _ =>
      consumer ← in_jetstream (js_consumer (consumer_name topic) (nats_subject topic));
      match consumer with
      | Err e => mret (fail MqSubscribeFailed ("nats consumer create failed: " +:+ e))
      | Ok f => add_subscriber f
      end
  end.

(** [ack]: the delivery is taken out of the map before it is acknowledged. *)
Definition take_delivery (id : string) (b : bus) : option delivery * bus :=
  (ack_map b !! id, Bus (jetstream b) (delete id (ack_map b)) (subs b)).
Definition ack (topic id : string) : M bus (Result unit) := fun b =>
  let '(d, b) := take_delivery id b in
  match d with
  | Some d =>
      (r ← in_jetstream (js_ack (handle d));
       mret (map_err (fun e => new_error Internal ("nats ack failed: " +:+ e)) r)) b
  | None => Ret (Ok tt, b)
  end.
(** [health_check] and [close] *)
Definition health_check : M bus (Result bool) := mret (Ok true).
Definition close : M bus (Result unit) :=
  r ← in_jetstream js_drain; mret (map_err (fun e => new_error Internal ("nats drain failed: " +:+ e)) r).

(** ** The consumer loop *)

(** The message made from a delivery: every header with its first value. *)
Definition insert_first (acc : gmap string string) (kv : string * list string) : gmap string string :=
  match kv.2 with v :: _ => <[kv.1 := v]> acc | [] => acc end.
Definition headers_of (h : option (list (string * list string))) : gmap string string :=
  match h with None => ∅ | Some entries => foldl insert_first ∅ entries end.
Definition message_of (uuid : string) (now : Z) (d : delivery) : message :=
  Mq.with_headers uuid now (subject d) (payload d) (headers_of (header_map d)).

Definition set_sub (i : nat) (s : subscriber) (b : bus) : bus := Bus (jetstream b) (ack_map b) (<[i := s]> (subs b)).
Definition with_loop (l : loop_state) (s : subscriber) : subscriber :=
  Subscriber (consumer_filter s) l (queue s) (receiver_open s).
Inductive event : Type :=
| Yield (i : nat) (item : result string delivery) (uuid : string) (now : Z)
| Send (i : nat)
| Receive (i : nat)
| DropReceiver (i : nat)
| Ack (id : string).
(** What is seen from outside: a message received, a delivery acknowledged. *)
Inductive observation : Type := Received (m : message) | Acked (id : string) (d : delivery).

(** The client yields an item: [take_while] ends the stream when the channel
    is closed, an error is logged. *)
Definition on_yield (i : nat) (item : result string delivery) (uuid : string) (now : Z) (b : bus) : bus :=
  match subs b !! i with
  | Some s =>
      match loop s with
      | Reading =>
          if negb (receiver_open s) then set_sub i (with_loop Stopped s) b
          else match item with
               | Ok d =>
                   set_sub i (with_loop (Sending (message_of uuid now d)) s)
                     (Bus (jetstream b) (<[uuid := d]> (ack_map b)) (subs b))
               | Err _ => b
               end
      | _ => b
      end
  | None => b
  end.
(** [tx.send(msg)] with room for 256 messages *)
Definition on_send (i : nat) (b : bus) : bus :=
  match subs b !! i with
  | Some s =>
      match loop s with
      | Sending m =>
          if negb (receiver_open s) then set_sub i (with_loop Stopped s) b
          else if (length (queue s) <? 256)%nat
          then set_sub i (Subscriber (consumer_filter s) Reading (queue s ++ [m]) true) b
          else b
      | _ => b
      end
  | None => b
  end.
Definition on_receive (i : nat) (b : bus) : bus * list observation :=
  match subs b !! i with
  | Some (Subscriber f l (m :: q) o) => (set_sub i (Subscriber f l q o) b, [Received m])
  | _ => (b, [])
  end.
Definition on_drop (i : nat) (b : bus) : bus :=
  match subs b !! i with
  | Some s => set_sub i (Subscriber (consumer_filter s) (loop s) [] false) b
  | None => b
  end.
Definition on_ack (id : string) (b : bus) : bus * list observation :=
  let '(d, b) := take_delivery id b in
  (b, match d with Some d => [Acked id d] | None => [] end).
Definition step (ev : event) (b : bus) : bus * list observation :=
  match ev with
  | Yield i item uuid now => (on_yield i item uuid now b, [])
  | Send i => (on_send i b, [])
  | Receive i => on_receive i b
  | DropReceiver i => (on_drop i b, [])
  | Ack id => on_ack id b
  end.
Fixpoint run (es : list event) (b : bus) : bus * list observation :=
  match es with
  | [] => (b, [])
  | ev :: es => let '(b, t) := step ev b in let '(b, t') := run es b in (b, t ++ t')
  end.

(** ** Subscribing *)

Lemma in_jetstream_inv {A} (m : M J A) b a b' :
  in_jetstream m b = Ret (a, b') -> exists j, m (jetstream b) = Ret (a, j) /\ b' = Bus j (ack_map b) (subs b).
Proof. unfold in_jetstream. destruct (m (jetstream b)) as [[x j]|why]; [|done]. intros [= <- <-]. by exists j. Qed.
(** A successful subscription reads from the consumer of its name. *)
Lemma subscribe_inv topic b i b' : subscribe topic b = Ret (Ok i, b') ->
  let f := default (nats_subject topic) (filter_of (jetstream b) (consumer_name topic)) in
  subs b' !! i = Some (Subscriber f Reading [] true) /\ filter_of (jetstream b') (consumer_name topic) = Some f.
Proof.
  unfold subscribe. intros (r & b1 & H1 & H)%M_bind_inv. apply in_jetstream_inv in H1 as (j1 & H1 & ->).
  apply js_get_stream_spec in H1. destruct r as [u|e]; [|discriminate].
  apply M_bind_inv in H as (g & b2 & H2 & H). apply in_jetstream_inv in H2 as (j2 & H2 & ->).
  destruct g as [g|e]; [|discriminate]. apply js_consumer_spec in H2 as (Hf & _ & Hg). simpl in Hg. rewrite H1 in Hg.
  injection H as <- <-. simpl. rewrite <- Hg. split; [|done]. by rewrite lookup_app_r, Nat.sub_diag by lia.
Qed.

(** Topics that differ only in dots and dashes share a consumer: the
    consumer's name writes every dot of the topic as a dash, and the first
    subscription decides what it filters.  Who subscribes to [a-b] after
    somebody subscribed to [a.b] is told that it worked, is given the messages
    of [a.b] and never one of its own topic. *)
Theorem topics_share_a_consumer (first second : string) b i b1 k b2 :
  replace_char dot dash first = replace_char dot dash second ->
  filter_of (jetstream b) (consumer_name first) = None ->
  subscribe first b = Ret (Ok i, b1) -> subscribe second b1 = Ret (Ok k, b2) ->
  exists s, subs b2 !! k = Some s /\ consumer_filter s = nats_subject first /\
    (first <> second -> consumer_filter s <> nats_subject second).
Proof.
  intros Hn Hf H1 H2. apply subscribe_inv in H1 as [_ H1]. apply subscribe_inv in H2 as [H2 _].
  rewrite Hf in H1. simpl in H1.
  assert (consumer_name second = consumer_name first) as Hc by (unfold consumer_name; by rewrite Hn).
  rewrite Hc, H1 in H2. simpl in H2. eexists. split_and!; [done|done|]. intros Hne [= E]. by apply Hne.
Qed.

(** ** What a message carries *)
Definition arrived (hs : list (string * string)) : list (string * list string) := map (fun kv => (kv.1, [kv.2])) hs.
Lemma headers_of_arrived_acc (hs : list (string * string)) acc : NoDup hs.*1 ->
  foldl insert_first acc (arrived hs) = list_to_map hs ∪ acc.
Proof.
  revert acc. induction hs as [|[k v] hs IH]; intros acc; simpl; [by rewrite (left_id_L ∅ (∪))|].
  intros [Hk Hn]%NoDup_cons. rewrite IH by done.
  assert ((list_to_map hs : gmap string string) !! k = None) as E by by apply not_elem_of_list_to_map.
  unfold insert_first. simpl. rewrite <- (insert_union_r _ _ _ _ E). by rewrite insert_union_l.
Qed.

(** A message published with headers arrives with its payload and with
    exactly those headers whose names are header names of NATS - the others
    are dropped without an error - but not under its topic: what the
    subscriber sees carries the subject, which is never the topic it
    subscribed to. *)
Theorem nats_message_roundtrip (is_header_name : string -> bool) (uuid : string) (now : Z) (topic : string) (b : bytes)
    (hs : gmap string string) (h : nat) :
  let m := message_of uuid now (Delivery (nats_subject topic) b (Some (arrived (nats_headers is_header_name hs))) h) in
  msg_payload m = b /\ headers m = filter (fun kv => is_header_name kv.1 = true) hs /\
  Mq.topic m = "rinfra." +:+ topic /\ Mq.topic m <> topic.
Proof.
  split_and!; [done| |done|].
  - cbn -[filter]. unfold headers_of, nats_headers. rewrite headers_of_arrived_acc.
    + by rewrite (right_id_L ∅ (∪)), map_filter_alt.
    + eapply sublist_NoDup; [apply (NoDup_fst_map_to_list hs)|]. apply fmap_sublist, sublist_filter.
  - intros H. change ("rinfra." +:+ topic = topic) in H. apply (f_equal String.length) in H.
    change (String.length ("rinfra." +:+ topic)) with (7 + String.length topic)%nat in H. lia.
Qed.

(** ** Acknowledgements *)
Definition acked_ids (T : list observation) : list string :=
  omap (fun o => match o with Acked id _ => Some id | Received _ => None end) T.
Definition uuids (es : list event) : list string :=
  omap (fun ev => match ev with Yield _ (Ok _) uuid _ => Some uuid | _ => None end) es.
Lemma acked_ids_app T T' : acked_ids (T ++ T') = acked_ids T ++ acked_ids T'.
Proof. apply omap_app. Qed.
Lemma elem_of_acked_ids id T : id ∈ acked_ids T <-> exists d, Acked id d ∈ T.
Proof.
  unfold acked_ids. rewrite list_elem_of_omap. split.
  - intros ([m|id' d] & Ho & [=]); subst. by exists d.
  - intros [d Hd]. by exists (Acked id d).
Qed.

(** A message made from a delivery that can be acknowledged, or was. *)
Definition settles (T : list observation) (b : bus) (m : message) : Prop :=
  exists d now, m = message_of (msg_id m) now d /\ (ack_map b !! msg_id m = Some d \/ Acked (msg_id m) d ∈ T).
Definition held (s : subscriber) : list message :=
  (match loop s with Sending m => [m] | _ => [] end) ++ queue s.
Record inv (T : list observation) (b : bus) : Prop := Inv {
  inv_held i s : subs b !! i = Some s -> Forall (settles T b) (held s);
  inv_received m : Received m ∈ T -> settles T b m;
  inv_acked id : id ∈ acked_ids T -> ack_map b !! id = None;
  inv_once : NoDup (acked_ids T);
  inv_same id d d' : Acked id d ∈ T -> Acked id d' ∈ T -> d = d';
}.
Definition unknown (T : list observation) (b : bus) (id : string) : Prop :=
  ack_map b !! id = None /\ id ∉ acked_ids T.

Lemma nats_inv_set_sub T b i s s' : inv T b -> subs b !! i = Some s -> held s' ⊆ held s -> inv T (set_sub i s' b).
Proof.
  intros [H1 H2 H3 H4 H5] Hi Hs. split; try done. intros j s1 [(<- & <- & _)|[_ Hj]]%list_lookup_insert_Some; [|by eapply H1].
  apply Forall_forall. intros m Hm. apply (proj1 (Forall_forall _ _) (H1 _ _ Hi)). by apply Hs.
Qed.
Lemma settles_insert T b uuid d m : unknown T b uuid -> settles T b m ->
  settles T (Bus (jetstream b) (<[uuid := d]> (ack_map b)) (subs b)) m.
Proof.
  intros [Hu Ha] (d' & now & Hm & Hs). exists d', now. split; [done|]. simpl. destruct Hs as [Hs|Hs]; [left|by right].
  rewrite lookup_insert_ne; [done|]. intros ->. congruence.
Qed.
Lemma inv_yield T b i item uuid now : (forall d, item = Ok d -> unknown T b uuid) -> inv T b ->
  inv T (on_yield i item uuid now b).
Proof.
  intros Hu H. unfold on_yield. destruct (subs b !! i) as [s|] eqn:Hi; [|done]. destruct (loop s) eqn:Hl; try done.
  destruct (receiver_open s); simpl.
  2: { eapply nats_inv_set_sub; [done..|]. unfold held. simpl. apply list_subseteq_app_r. done. }
  destruct item as [d|e]; [|done]. specialize (Hu d eq_refl). destruct H as [H1 H2 H3 H4 H5]. split; simpl; try done.
  - intros j s' [(<- & <- & _)|[_ Hj]]%list_lookup_insert_Some.
    + unfold held. simpl. constructor.
      * exists d, now. split; [done|]. left. simpl. by rewrite lookup_insert_eq.
      * eapply Forall_impl; [|intros m; by apply settles_insert]. specialize (H1 _ _ Hi). unfold held in H1.
        by rewrite Hl in H1.
    + eapply Forall_impl; [by eapply H1|intros m; by apply settles_insert].
  - intros m Hm. by apply settles_insert, H2.
  - intros id Hid. destruct Hu as [_ Hu]. rewrite lookup_insert_ne; [by apply H3|]. by intros ->.
Qed.
Lemma inv_send T b i : inv T b -> inv T (on_send i b).
Proof.
  intros H. unfold on_send. destruct (subs b !! i) as [s|] eqn:Hi; [|done]. destruct (loop s) eqn:Hl; try done.
  destruct (receiver_open s); [destruct (_ <? _)%nat; [|done]|]; (eapply nats_inv_set_sub; [done..|]); unfold held; simpl;
    rewrite Hl; simpl; intros x; rewrite ?elem_of_cons, ?elem_of_app; set_solver.
Qed.
Lemma settles_mono T T' b m : T ⊆ T' -> settles T b m -> settles T' b m.
Proof. intros HT (d & now & Hm & Hs). exists d, now. split; [done|]. destruct Hs; [by left|right; by apply HT]. Qed.
Lemma inv_receive T b i : inv T b -> inv (T ++ (on_receive i b).2) (on_receive i b).1.
Proof.
  intros H. unfold on_receive.
  assert (inv (T ++ []) b) as H0 by by rewrite app_nil_r.
  destruct (subs b !! i) as [[f l [|m q] o]|] eqn:Hi; try exact H0. simpl.
  assert (settles T b m) as Hm.
  { pose proof (inv_held _ _ H _ _ Hi) as Hh. apply (proj1 (Forall_forall _ _) Hh). unfold held. simpl.
    apply elem_of_app. right. by left. }
  assert (inv T (set_sub i (Subscriber f l q o) b)) as [H1 H2 H3 H4 H5].
  { eapply nats_inv_set_sub; [done..|]. unfold held. simpl. set_solver. }
  assert (acked_ids (T ++ [Received m]) = acked_ids T) as E by (rewrite acked_ids_app; simpl; by rewrite app_nil_r).
  assert (forall id d, Acked id d ∈ T ++ [Received m] -> Acked id d ∈ T) as Hin.
  { intros id d [?|Hx]%elem_of_app; [done|]. by apply list_elem_of_singleton in Hx. }
  split; rewrite ?E; try done.
  - intros j s Hj. eapply Forall_impl; [by eapply H1|]. intros x. apply settles_mono. set_solver.
  - intros x [Hx|Hx]%elem_of_app; [eapply settles_mono; [|by apply H2]; set_solver|].
    apply list_elem_of_singleton in Hx as [= ->]. eapply settles_mono; [|exact Hm]. set_solver.
  - intros id d d' Hd Hd'. by eapply H5; apply Hin.
Qed.
Lemma inv_drop T b i : inv T b -> inv T (on_drop i b).
Proof.
  intros H. unfold on_drop. destruct (subs b !! i) as [s|] eqn:Hi; [|done]. eapply nats_inv_set_sub; [done..|].
  unfold held. simpl. destruct (loop s); set_solver.
Qed.
Lemma inv_ack T b id : inv T b -> inv (T ++ (on_ack id b).2) (on_ack id b).1.
Proof.
  intros [H1 H2 H3 H4 H5]. unfold on_ack, take_delivery. destruct (ack_map b !! id) as [d|] eqn:Hd; simpl.
  - assert (forall m, settles T b m -> settles (T ++ [Acked id d]) (Bus (jetstream b) (delete id (ack_map b)) (subs b)) m) as Hs.
    { intros m (d' & now & Hm & Hs). exists d', now. split; [done|]. simpl.
      destruct (decide (msg_id m = id)) as [E|Hne].
      - right. rewrite E in *. destruct Hs as [Hs|Hs]; [|set_solver]. rewrite Hd in Hs. injection Hs as <-. set_solver.
      - destruct Hs as [Hs|Hs]; [left; by rewrite lookup_delete_ne|right; set_solver]. }
    assert (id ∉ acked_ids T) as Hn by (intros Hx; by rewrite (H3 _ Hx) in Hd).
    assert (forall i x, Acked i x ∈ T ++ [Acked id d] -> Acked i x ∈ T \/ (i = id /\ x = d)) as Hin.
    { intros i x [?|Hx]%elem_of_app; [by left|right]. by apply list_elem_of_singleton in Hx as [= -> ->]. }
    split; simpl.
    + intros i s Hi. eapply Forall_impl; [by eapply H1|done].
    + intros m [Hm|Hm]%elem_of_app; [by apply Hs, H2|]. by apply list_elem_of_singleton in Hm.
    + intros x Hx. rewrite acked_ids_app in Hx. apply elem_of_app in Hx as [Hx|Hx].
      * apply H3 in Hx. destruct (decide (x = id)) as [->|?]; [apply lookup_delete_eq|by rewrite lookup_delete_ne].
      * simpl in Hx. apply list_elem_of_singleton in Hx as ->. apply lookup_delete_eq.
    + rewrite acked_ids_app. simpl. apply NoDup_app. split_and!; [done| |apply NoDup_singleton].
      intros x Hx ->%list_elem_of_singleton. done.
    + intros i x y [Hx|[-> ->]]%Hin [Hy|[E ->]]%Hin; [by eapply H5|subst|..|done];
        destruct Hn; apply elem_of_acked_ids; by eexists.
  - rewrite app_nil_r. assert (delete id (ack_map b) = ack_map b) as -> by by apply delete_id. by destruct b.
Qed.

Lemma unknown_step T b ev id : unknown T b id -> id ∉ uuids [ev] ->
  unknown (T ++ (step ev b).2) (step ev b).1 id.
Proof.
  intros [Hm Ha] Hne. unfold unknown. rewrite acked_ids_app.
  destruct ev as [i item uuid now|i|i|i|id']; simpl; rewrite ?app_nil_r.
  - split; [|done]. unfold on_yield. destruct (subs b !! i) as [s|]; [|done]. destruct (loop s); try done.
    destruct (receiver_open s); [|done]. destruct item as [d|e]; [|done]. simpl in *.
    rewrite lookup_insert_ne; [done|]. intros ->. apply Hne. by left.
  - split; [|done]. unfold on_send. destruct (subs b !! i) as [s|]; [|done]. destruct (loop s); try done.
    destruct (receiver_open s); [by destruct (_ <? _)%nat|done].
  - unfold on_receive. destruct (subs b !! i) as [[f l [|m q] o]|]; simpl; by rewrite app_nil_r.
  - split; [|done]. unfold on_drop. by destruct (subs b !! i).
  - unfold on_ack, take_delivery. destruct (ack_map b !! id') as [d|] eqn:Hd; simpl; rewrite ?app_nil_r.
    + assert (id <> id') as Hx by (intros ->; congruence). rewrite lookup_delete_ne by done. split; [done|].
      intros [?|?%list_elem_of_singleton]%elem_of_app; done.
    + split; [|done]. rewrite delete_id by done. done.
Qed.
Lemma nats_inv_step T b ev : (forall id, id ∈ uuids [ev] -> unknown T b id) -> inv T b ->
  inv (T ++ (step ev b).2) (step ev b).1.
Proof.
  intros Hu H. destruct ev as [i item uuid now|i|i|i|id]; simpl; rewrite ?app_nil_r.
  - apply inv_yield; [|done]. intros d ->. apply Hu. by left.
  - by apply inv_send.
  - by apply inv_receive.
  - by apply inv_drop.
  - by apply inv_ack.
Qed.
Lemma nats_run_cons ev es b : run (ev :: es) b = ((run es (step ev b).1).1, (step ev b).2 ++ (run es (step ev b).1).2).
Proof. simpl. destruct (step ev b) as [b1 t]. simpl. by destruct (run es b1). Qed.
Lemma nats_inv_run es T b : NoDup (uuids es) -> (forall id, id ∈ uuids es -> unknown T b id) -> inv T b ->
  inv (T ++ (run es b).2) (run es b).1.
Proof.
  revert T b. induction es as [|ev es IH]; intros T b Hn Hu H; [by rewrite app_nil_r|].
  change (uuids (ev :: es)) with (uuids ([ev] ++ es)) in *. unfold uuids in Hn, Hu. rewrite omap_app in Hn, Hu.
  fold (uuids [ev]) (uuids es) in *. apply NoDup_app in Hn as (_ & Hd & Hn).
  rewrite nats_run_cons. cbn [fst snd]. rewrite app_assoc. apply IH; [done| |].
  - intros id Hid. apply unknown_step; [apply Hu; set_solver|]. intros Hx. by apply (Hd id).
  - apply nats_inv_step; [|done]. intros id Hid. apply Hu. set_solver.
Qed.

(** However the consumer loops, the receivers and acknowledgements
    interleave, from a bus without messages: every message that is received
    was made from one delivery of the client, and acknowledging it settles that
    delivery - it can still be acknowledged, or it was, once; no identifier is
    ever acknowledged twice. *)
Theorem acknowledgements_settle_their_messages (es : list event) (b b' : bus) (T : list observation) :
  ack_map b = ∅ -> Forall (fun s => held s = []) (subs b) ->
  NoDup (uuids es) -> run es b = (b', T) ->
  NoDup (acked_ids T) /\
  forall m, Received m ∈ T ->
    exists d now, m = message_of (msg_id m) now d /\
      (((msg_id m ∉ acked_ids T) /\ (on_ack (msg_id m) b').2 = [Acked (msg_id m) d]) \/
       (Acked (msg_id m) d ∈ T /\ (forall d', Acked (msg_id m) d' ∈ T -> d' = d) /\ (on_ack (msg_id m) b').2 = [])).
Proof.
  intros Hb Hs Hn Hr.
  assert (inv [] b) as H0.
  { split; try done; [|by intros m ?%elem_of_nil|by intros id ?%elem_of_nil|constructor|by intros id d d' ?%elem_of_nil].
    intros i s Hi. by rewrite (proj1 (Forall_lookup _ _) Hs _ _ Hi). }
  assert (forall id, id ∈ uuids es -> unknown [] b id) as Hu.
  { intros id _. unfold unknown. rewrite Hb, lookup_empty. split; [done|]. simpl. by intros ?%elem_of_nil. }
  pose proof (nats_inv_run es [] b Hn Hu H0) as H. rewrite Hr in H. destruct H as [_ H2 H3 H4 H5]. simpl in *.
  split; [done|]. intros m Hm. destruct (H2 m Hm) as (d & now & Em & Hd). exists d, now. split; [done|].
  unfold on_ack, take_delivery. destruct Hd as [Hd|Hd].
  - left. rewrite Hd. split; [|done]. intros Hx. by rewrite (H3 _ Hx) in Hd.
  - right. split; [done|]. split; [intros d' Hd'; by eapply H5|]. rewrite H3; [done|]. apply elem_of_acked_ids. by exists d.
Qed.

(** ** Deliveries that nobody acknowledges *)
Definition redelivered (d : delivery) (i : nat) (id : string) : list event := [Yield i (Ok d) id 0; Send i; Receive i].
Definition idle (i : nat) (b : bus) : Prop := exists f, subs b !! i = Some (Subscriber f Reading [] true).
Lemma redelivered_once d i id b : idle i b ->
  run (redelivered d i id) b = (Bus (jetstream b) (<[id := d]> (ack_map b)) (subs b), [Received (message_of id 0 d)]).
Proof.
  intros [f Hi]. destruct b as [j am ss]. simpl in *. assert (i < length ss)%nat by by eapply lookup_lt_Some.
  unfold redelivered. simpl. unfold on_yield. simpl. rewrite Hi. simpl.
  unfold on_send. simpl. rewrite list_lookup_insert_eq by done. simpl.
  unfold on_receive. simpl. rewrite list_lookup_insert_eq by by rewrite length_insert.
  unfold set_sub. simpl. rewrite !list_insert_insert_eq, list_insert_id by done. done.
Qed.

(** The map of deliveries forgets only what is acknowledged.  A message
    that its subscriber does not acknowledge is redelivered under a fresh
    identifier each time, and every identifier keeps its copy of the delivery
    for as long as the bus lives. *)
Theorem unacknowledged_deliveries_accumulate (d : delivery) (i : nat) (ids : list string) (b : bus) :
  idle i b -> NoDup ids -> (forall id, id ∈ ids -> ack_map b !! id = None) ->
  let r := run (concat (map (redelivered d i) ids)) b in
  size (ack_map r.1) = (size (ack_map b) + length ids)%nat /\
  r.2 = map (fun id => Received (message_of id 0 d)) ids.
Proof.
  revert b. induction ids as [|id ids IH]; intros b Hi Hn Hu; [split; [|done]; simpl; lia|].
  apply NoDup_cons in Hn as [Hid Hn]. cbn [map concat].
  assert (forall es es' b, run (es ++ es') b = ((run es' (run es b).1).1, (run es b).2 ++ (run es' (run es b).1).2)) as run_app.
  { clear. intros es es' b. revert b. induction es as [|ev es IH]; intros b; [simpl; by destruct (run es' b)|].
    rewrite <- app_comm_cons, !nats_run_cons, IH. simpl. by rewrite app_assoc. }
  rewrite run_app, redelivered_once by done. cbn [fst snd].
  destruct (IH (Bus (jetstream b) (<[id := d]> (ack_map b)) (subs b))) as [Hs Ht]; [done|done| |].
  - intros x Hx. simpl. rewrite lookup_insert_ne; [apply Hu; by right|]. by intros ->.
  - rewrite Hs, Ht. simpl. rewrite map_size_insert_None by (apply Hu; by left). split; [lia|done].
Qed.
End bus.
End NatsBus.

(** * Examples

    A JetStream that knows its consumers. *)
Module NatsExamples.
Import NatsBus.
#[export] Instance memory_stream : JetStream (gmap string string).
Proof.
  refine {|
    js_publish _ _ _ := fun j => Ret (Ok (Ok tt), j);
    js_get_stream _ := fun j => Ret (Ok tt, j);
    js_consumer name f := fun j => Ret (Ok (default f (j !! name)), <[name := default f (j !! name)]> j);
    js_ack _ := fun j => Ret (Ok tt, j);
    js_drain := fun j => Ret (Ok tt, j);
    filter_of j name := j !! name;
  |}.
  - by intros s j r j' [= _ <-].
  - intros name f j r j' [= <- <-]. split_and!; [apply lookup_insert_eq| |done]. intros n Hn. by rewrite lookup_insert_ne.
Defined.
Abbreviation js := (gmap string string).

Definition nats : NatsConfig.t := NatsConfig.default.
Definition started : bus (J := js) := Bus ∅ ∅ [].
Definition subscribed (topic : string) (b : bus (J := js)) : bus :=
  match subscribe nats topic b with Ret (_, b) => b | Panic _ => b end.

Lemma topics_share_a_consumer_witness :
  let b2 := subscribed "orders-eu" (subscribed "orders.eu" started) in
  exists s, subs b2 !! 1%nat = Some s /\ consumer_filter s = nats_subject "orders.eu" /\
    ("orders.eu" <> "orders-eu" -> consumer_filter s <> nats_subject "orders-eu").
Proof.
  intros b2. refine (topics_share_a_consumer nats "orders.eu" "orders-eu" started 0 (subscribed "orders.eu" started) 1 b2 _ _ _ _);
    vm_compute; reflexivity.
Defined.

Definition a_delivery (h : nat) : delivery := Delivery "rinfra.jobs" [] None h.
Definition traffic : list event :=
  [Yield 0 (Ok (a_delivery 1)) "u1" 5; Send 0; Yield 0 (Ok (a_delivery 2)) "u2" 6; Receive 0; Ack "u1"; Ack "u1"; Send 0; Receive 0].
Definition two : observation := Received (message_of "u2" 6 (a_delivery 2)).
Definition after_traffic : bus (J := js) * list observation := run traffic (subscribed "jobs" started).
Lemma acknowledgements_settle_their_messages_witness :
  NoDup (acked_ids after_traffic.2) /\ acked_ids after_traffic.2 = ["u1"].
Proof.
  split; [|vm_compute; reflexivity].
  refine (proj1 (acknowledgements_settle_their_messages traffic (subscribed "jobs" started) after_traffic.1 after_traffic.2 _ _ _ _)).
  - vm_compute. reflexivity.
  - repeat constructor.
  - apply (bool_decide_unpack _). vm_compute. exact I.
  - unfold after_traffic. destruct (run traffic _). reflexivity.
Defined.

Lemma unacknowledged_deliveries_accumulate_witness :
  size (ack_map (run (concat (map (redelivered (a_delivery 1) 0) ["u1"; "u2"; "u3"])) (subscribed "jobs" started)).1) = 3%nat.
Proof.
  refine (proj1 (unacknowledged_deliveries_accumulate (a_delivery 1) 0 ["u1"; "u2"; "u3"] (subscribed "jobs" started) _ _ _)).
  - eexists. vm_compute. reflexivity.
  - apply (bool_decide_unpack _). vm_compute. exact I.
  - intros id _. reflexivity.
Defined.
End NatsExamples.
