(* ===== verification/SqlStores.v ===== *)
(** The SQL stores ([rinfra-plugins/src/store/{mod,executor,transaction}.rs]
    for PostgreSQL, [mysql.rs], [sqlite.rs]): the life of the connection pool,
    the executor, transactions, and how values are bound and rows are read.

    The three drivers are the same code with other labels and another table of
    column types; what they have in common is written once, over a [driver].
    The database and its client library are the class [Sqlx].  Slow queries are
    only logged and pool gauges only recorded, so neither appears. *)

From Stdlib Require Import SpecFloat.
From S2P Require Import Prelude Errors Tcp Config Store.

(** * The client library *)

(** A column of a row: its name, the name of its SQL type, and what decoding
    it as each Rust type gives ([None] for a null and for a type the library
    does not decode to that Rust type). *)
Record cell : Type := Cell {
  col_name : string;
  type_name : string;
  get_bool : option bool;
  get_i64 : option Z;
  get_f64 : option spec_float;
  get_bytes : option bytes;
  get_text : option string;
}.
(** A bound parameter; a null is bound as a null text. *)
Inductive arg : Type :=
| BindNullText | BindBool (b : bool) | BindI64 (n : Z) | BindF64 (f : spec_float) | BindStr (s : string)
| BindBytes (b : bytes).

Class Sqlx (W pool tx : Type) : Type := {
  pool_open : string -> Z -> option Z -> M W (result string pool);
  pool_close : pool -> M W unit;
  pool_begin : pool -> M W (result string tx);
  sql_execute : pool + tx -> string -> list arg -> M W (result string Z);
  fetch_all : pool + tx -> string -> list arg -> M W (result string (list (list cell)));
  fetch_optional : pool + tx -> string -> list arg -> M W (result string (option (list cell)));
  tx_commit : tx -> M W (result string unit);
  tx_rollback : tx -> M W (result string unit);
  load_migrations : string -> M W (result string unit);
  run_migrations : string -> pool -> M W (result string unit);
}.

(** * Values *)

(** [bind_param], [sqlite_bind] and [mysql_bind] *)
Definition bind_param (v : db_value) : arg :=
  match v with
  | Null => BindNullText
  | Bool b => BindBool b
  | Int n => BindI64 n
  | Float f => BindF64 f
  | Text s => BindStr s
  | Bytes b => BindBytes b
  end.
(** The Rust type a column is decoded as. *)
Inductive column_kind : Type := KBool | KInt | KFloat | KBytes | KText.
Definition decode (k : column_kind) (c : cell) : db_value :=
  match k with
  | KBool => from_option Bool Null (get_bool c)
  | KInt => from_option Int Null (get_i64 c)
  | KFloat => from_option Float Null (get_f64 c)
  | KBytes => from_option Bytes Null (get_bytes c)
  | KText => from_option Text Null (get_text c)
  end.
Definition row_to_db_row (kind : string -> column_kind) (row : list cell) : db_row :=
  DbRow (map col_name row) (map (fun c => decode (kind (type_name c)) c) row).

Definition one_of (names : list string) (t : string) : bool := existsb (String.eqb t) names.
(** The tables of [pg_row_to_db_row], [mysql_row_to_db_row] and
    [sqlite_row_to_db_row] *)
Definition pg_kind (t : string) : column_kind :=
  if one_of ["BOOL"] t then KBool
  else if one_of ["INT2"; "INT4"; "INT8"] t then KInt
  else if one_of ["FLOAT4"; "FLOAT8"; "NUMERIC"] t then KFloat
  else if one_of ["BYTEA"] t then KBytes
  else KText.
Definition mysql_kind (t : string) : column_kind :=
  if one_of ["BOOLEAN"; "TINYINT(1)"] t then KBool
  else if one_of ["TINYINT"; "SMALLINT"; "INT"; "BIGINT"] t then KInt
  else if one_of ["FLOAT"; "DOUBLE"; "DECIMAL"] t then KFloat
  else if one_of ["BLOB"; "BINARY"; "VARBINARY"] t then KBytes
  else KText.
Definition sqlite_kind (t : string) : column_kind :=
  if one_of ["BOOLEAN"] t then KBool
  else if one_of ["INTEGER"] t then KInt
  else if one_of ["REAL"] t then KFloat
  else if one_of ["BLOB"] t then KBytes
  else KText.
Definition pg_row_to_db_row : list cell -> db_row := row_to_db_row pg_kind.
Definition mysql_row_to_db_row : list cell -> db_row := row_to_db_row mysql_kind.
Definition sqlite_row_to_db_row : list cell -> db_row := row_to_db_row sqlite_kind.

(** What a driver's messages and tables are. *)
Record driver : Type := Driver {
  store_name : string;
  label : string;
  begin_failed : string;
  kind_of : string -> column_kind;
}.
Definition postgres : driver := Driver "postgres" "" "failed to begin transaction: " pg_kind.
Definition mysql : driver := Driver "mysql" "mysql " "mysql begin failed: " mysql_kind.
Definition sqlite : driver := Driver "sqlite" "sqlite " "sqlite begin failed: " sqlite_kind.

Section stores.
Context {W pool tx : Type} `{!Sqlx W pool tx} (d : driver).

(** A call of the library, its failure a [StoreQueryFailed] with a prefix. *)
Definition call {A B} (m : M W (result string A)) (what : string) (f : A -> B) : M W (Result B) :=
  r ← m; mret (map_err (fun e => new_error StoreQueryFailed (label d +:+ what +:+ e)) (a ← r; Ok (f a))).

(** * The executor *)
Definition args (params : list db_value) : list arg := map bind_param params.
Definition on_execute (c : pool + tx) (what sql : string) (params : list db_value) : M W (Result Z) :=
  call (sql_execute c sql (args params)) what id.
Definition on_query (c : pool + tx) (what sql : string) (params : list db_value) : M W (Result (list db_row)) :=
  call (fetch_all c sql (args params)) what (map (row_to_db_row (kind_of d))).
Definition on_query_one (c : pool + tx) (what sql : string) (params : list db_value) :
    M W (Result (option db_row)) :=
  call (fetch_optional c sql (args params)) what (fmap (row_to_db_row (kind_of d))).
Definition execute (p : pool) : string -> list db_value -> M W (Result Z) := on_execute (inl p) "execute failed: ".
Definition query (p : pool) : string -> list db_value -> M W (Result (list db_row)) := on_query (inl p) "query failed: ".
Definition query_one (p : pool) : string -> list db_value -> M W (Result (option db_row)) :=
  on_query_one (inl p) "query_one failed: ".

(** * Transactions: the library's transaction until it is consumed. *)
Abbreviation T := (option tx * W)%type.
Definition consumed {A} : Result A := fail StoreQueryFailed (label d +:+ "transaction already consumed").
Definition in_world {S A} (m : M W A) : M (S * W) A := fun s => '(a, w) ← m s.2; Ret (a, (s.1, w)).
Definition with_tx {A} (f : tx -> M W (Result A)) : M T (Result A) := fun s =>
  match s.1 with
  | Some t => in_world (f t) s
  | None => Ret (consumed, s)
  end.
Definition tx_execute (sql : string) (params : list db_value) : M T (Result Z) :=
  with_tx (fun t => on_execute (inr t) "tx execute failed: " sql params).
Definition tx_query (sql : string) (params : list db_value) : M T (Result (list db_row)) :=
  with_tx (fun t => on_query (inr t) "tx query failed: " sql params).
Definition tx_query_one (sql : string) (params : list db_value) : M T (Result (option db_row)) :=
  with_tx (fun t => on_query_one (inr t) "tx query_one failed: " sql params).
(** [guard.take()] *)
Definition taking {A} (f : tx -> M W (Result A)) : M T (Result A) := fun s =>
  match s.1 with
  | Some t => in_world (f t) (None, s.2)
  | None => Ret (consumed, s)
  end.
Definition commit : M T (Result unit) := taking (fun t => call (tx_commit t) "commit failed: " id).
Definition rollback : M T (Result unit) := taking (fun t => call (tx_rollback t) "rollback failed: " id).

(** * The store: its pool, once connected. *)
Abbreviation St := (option pool * W)%type.
Definition connection_failed {A} (what e : string) : Result A := fail StoreConnectionFailed (what +:+ e).
Definition set_pool (p : pool) : M St (Result unit) := fun s => Ret (Ok tt, (Some p, s.2)).
(** [connect] of MySQL and SQLite; without migrations *)
Definition connect_to (enabled : bool) (url : string) (max : Z) (idle : option Z) : M St (Result unit) :=
  if negb enabled then mret (Ok tt)
  else
    r ← in_world (pool_open url max idle);
    match r with
    | Err e => mret (connection_failed (store_name d +:+ " connect failed: ") e)
    | Ok p => set_pool p
    end.
(** [connect] of PostgreSQL *)
Definition internal {A} (what e : string) : Result A := fail Internal (what +:+ e).
Definition connect_postgres (c : PostgresConfig.t) : M St (Result unit) :=
  if negb (PostgresConfig.enabled c) then mret (Ok tt)
  else
    r ← in_world (pool_open (PostgresConfig.url c) (PostgresConfig.max_connections c)
                    (Some (from_secs (PostgresConfig.idle_timeout_secs c))));
    match r with
    | Err e => mret (connection_failed "postgres connect failed: " e)
    | Ok p =>
        match PostgresConfig.migrations_path c with
        | None => set_pool p
        | Some path =>
            r ← in_world (load_migrations path);
            match r with
            | Err e => mret (internal ("failed to load migrations from '" +:+ path +:+ "': ") e)
            | Ok _ =>
                r ← in_world (run_migrations path p);
                match r with
                | Err e => mret (internal "migration failed: " e)
                | Ok _ => set_pool p
                end
            end
        end
    end.
Definition connect_mysql (c : MysqlConfig.t) : M St (Result unit) :=
  connect_to (MysqlConfig.enabled c) (MysqlConfig.url c) (MysqlConfig.max_connections c)
    (Some (from_secs (MysqlConfig.idle_timeout_secs c))).
Definition connect_sqlite (c : SqliteConfig.t) : M St (Result unit) :=
  connect_to (SqliteConfig.enabled c) ("sqlite:" +:+ SqliteConfig.path c) (SqliteConfig.max_connections c) None.
(** [disconnect], [health_check], [pool], [executor] and [begin] *)
Definition disconnect : M St (Result unit) := fun s =>
  match s.1 with
  | Some p => in_world (_ ← pool_close p; mret (Ok tt)) (None, s.2)
  | None => Ret (Ok tt, s)
  end.
Definition health_check (enabled : bool) : M St (Result bool) := fun s =>
  match s.1 with
  | None => Ret (Ok (negb enabled), s)
  | Some p => in_world (r ← sql_execute (inl p) "SELECT 1" []; mret (Ok match r with Ok _ => true | Err _ => false end)) s
  end.
Definition get_pool : M St (Result pool) := fun s =>
  Ret (match s.1 with
       | Some p => Ok p
       | None => fail StoreConnectionFailed (store_name d +:+ " store not connected")
       end, s).
Definition begin : M St (Result tx) :=
  r ← get_pool;
  match r with
  | Err e => mret (Err e)
  | Ok p => in_world (r ← pool_begin p; mret (map_err (fun e => new_error StoreQueryFailed (begin_failed d +:+ e)) r))
  end.
End stores.

(** * The other two drivers *)

(** [mysql.rs]: [MysqlStore], [MysqlExecutor] and [MysqlTransaction] *)
Module Mysql.
Section mysql.
Context {W pool tx : Type} `{!Sqlx W pool tx}.
Abbreviation St := (option pool * W)%type.
Abbreviation T := (option tx * W)%type.
Definition store_pool : M St (Result pool) := get_pool mysql.
Definition connect : MysqlConfig.t -> M St (Result unit) := connect_mysql (tx := tx) mysql.
Definition disconnect : M St (Result unit) := disconnect (tx := tx).
Definition health_check (c : MysqlConfig.t) : M St (Result bool) := health_check (tx := tx) (MysqlConfig.enabled c).
Definition begin : M St (Result tx) := begin (tx := tx) mysql.
Definition execute : pool -> string -> list db_value -> M W (Result Z) := execute (tx := tx) mysql.
Definition query : pool -> string -> list db_value -> M W (Result (list db_row)) := query (tx := tx) mysql.
Definition query_one : pool -> string -> list db_value -> M W (Result (option db_row)) :=
  query_one (tx := tx) mysql.
Definition tx_execute : string -> list db_value -> M T (Result Z) := tx_execute (pool := pool) mysql.
Definition tx_query : string -> list db_value -> M T (Result (list db_row)) := tx_query (pool := pool) mysql.
Definition tx_query_one : string -> list db_value -> M T (Result (option db_row)) :=
  tx_query_one (pool := pool) mysql.
Definition commit : M T (Result unit) := commit (pool := pool) mysql.
Definition rollback : M T (Result unit) := rollback (pool := pool) mysql.
End mysql.
End Mysql.
(** [sqlite.rs]: [SqliteStore], [SqliteExecutor] and [SqliteTransaction] *)
Module Sqlite.
Section sqlite.
Context {W pool tx : Type} `{!Sqlx W pool tx}.
Abbreviation St := (option pool * W)%type.
Abbreviation T := (option tx * W)%type.
Definition store_pool : M St (Result pool) := get_pool sqlite.
Definition connect : SqliteConfig.t -> M St (Result unit) := connect_sqlite (tx := tx) sqlite.
Definition disconnect : M St (Result unit) := disconnect (tx := tx).
Definition health_check (c : SqliteConfig.t) : M St (Result bool) := health_check (tx := tx) (SqliteConfig.enabled c).
Definition begin : M St (Result tx) := begin sqlite.
Definition execute : pool -> string -> list db_value -> M W (Result Z) := execute (tx := tx) sqlite.
Definition query : pool -> string -> list db_value -> M W (Result (list db_row)) := query (tx := tx) sqlite.
Definition query_one : pool -> string -> list db_value -> M W (Result (option db_row)) :=
  query_one (tx := tx) sqlite.
Definition tx_execute : string -> list db_value -> M T (Result Z) := tx_execute (pool := pool) sqlite.
Definition tx_query : string -> list db_value -> M T (Result (list db_row)) := tx_query (pool := pool) sqlite.
Definition tx_query_one : string -> list db_value -> M T (Result (option db_row)) :=
  tx_query_one (pool := pool) sqlite.
Definition commit : M T (Result unit) := commit (pool := pool) sqlite.
Definition rollback : M T (Result unit) := rollback (pool := pool) sqlite.
End sqlite.
End Sqlite.

(** * Reading rows *)

Lemma list_find_map {A B} (f : A -> B) (P : B -> Prop) `{forall b, Decision (P b)} (l : list A) :
  list_find P (map f l) = prod_map id f <$> list_find (fun a => P (f a)) l.
Proof. by rewrite list_find_fmap. Qed.
Lemma get_cell {T} `{FromDbValue T} kind (column : string) (row : list cell) :
  get (T := T) column (row_to_db_row kind row) = Ret
    match list_find (fun c => col_name c = column) row with
    | Some (_, c) => from_db_value (decode (kind (type_name c)) c)
    | None => fail StoreQueryFailed ("column '" +:+ column +:+ "' not found in row")
    end.
Proof.
  unfold get, row_to_db_row. cbn [columns row_values]. rewrite list_find_map.
  destruct (list_find (fun c => col_name c = column) row) as [[i c]|] eqn:E; [|done]. simpl.
  apply list_find_Some in E as (Hi & _). rewrite list_lookup_fmap, Hi. done.
Qed.

(** A row that a driver read never makes a repository panic: reading a
    column gives what its first cell of that name decodes to, or an error that
    names the column, for every driver and every type. *)
Theorem driver_rows_never_panic (d : driver) (T : Type) `{FromDbValue T} (column : string) (row : list cell) :
  exists r, get (T := T) column (row_to_db_row (kind_of d) row) = Ret r /\
    ((exists e, r = Err e) \/
     exists i c x, row !! i = Some c /\ col_name c = column /\ r = Ok x /\
       from_db_value (decode (kind_of d (type_name c)) c) = Ok x).
Proof.
  rewrite get_cell. eexists. split; [done|].
  destruct (list_find _ row) as [[i c]|] eqn:E; [|left; by eexists].
  apply list_find_Some in E as (Hi & Hc & _).
  destruct (from_db_value _) as [x|e] eqn:Ev; [right|left; by eexists]. by exists i, c, x.
Qed.

(** But a column narrower than its Rust type is read as a null.  The
    library decodes an [i64] only from an 8-byte integer and an [f64] only from
    an 8-byte float, and the driver takes a failed decoding for a null: so the
    PostgreSQL driver reads every [INT2], [INT4], [FLOAT4] and [NUMERIC] value
    as null, an optional field silently as [None], any other as a type
    error. *)
Theorem narrow_columns_read_as_null (column : string) (row : list cell) (i : nat) (c : cell) :
  (forall c n, c ∈ row -> get_i64 c = Some n -> type_name c = "INT8") ->
  (forall c f, c ∈ row -> get_f64 c = Some f -> type_name c = "FLOAT8") ->
  list_find (fun c => col_name c = column) row = Some (i, c) ->
  type_name c ∈ ["INT2"; "INT4"; "FLOAT4"; "NUMERIC"] ->
  get (T := option i64) column (pg_row_to_db_row row) = Ret (Ok None) /\
  get (T := option spec_float) column (pg_row_to_db_row row) = Ret (Ok None) /\
  get (T := i64) column (pg_row_to_db_row row) = Ret (type_error "i64").
Proof.
  intros Hi Hf Hc Ht. unfold pg_row_to_db_row. rewrite !get_cell, Hc.
  apply list_find_Some in Hc as (Hrow & _). apply list_elem_of_lookup_2 in Hrow.
  assert (decode (pg_kind (type_name c)) c = Null) as ->; [|done].
  specialize (Hi c). specialize (Hf c).
  destruct (get_i64 c) as [n|] eqn:En.
  - rewrite (Hi n Hrow eq_refl) in Ht. by repeat (apply elem_of_cons in Ht as [Ht|Ht]; [discriminate|]); apply elem_of_nil in Ht.
  - destruct (get_f64 c) as [f|] eqn:Ef.
    + rewrite (Hf f Hrow eq_refl) in Ht. by repeat (apply elem_of_cons in Ht as [Ht|Ht]; [discriminate|]); apply elem_of_nil in Ht.
    + repeat (apply elem_of_cons in Ht as [Ht|Ht]; [rewrite Ht; cbn; by rewrite ?En, ?Ef|]). by apply elem_of_nil in Ht.
Qed.

(** * The life of a store *)
Section life.
Context {W pool tx : Type} `{!Sqlx W pool tx} (d : driver).
Abbreviation St := (option pool * W)%type.

(** What a store's [connect] does to its pool. *)
Class Connects (connect : M St (Result unit)) (enabled : bool) : Prop := connects s r s' :
  connect s = Ret (r, s') ->
  match r with
  | Ok _ => if enabled then is_Some s'.1 else s' = s
  | Err _ => enabled = true /\ s'.1 = s.1
  end.
Lemma in_world_inv {S A} (m : M W A) (s : S * W) a s' : in_world m s = Ret (a, s') -> s'.1 = s.1.
Proof. unfold in_world. destruct (m s.2) as [[x w]|]; [|done]. by intros [= _ <-]. Qed.
#[export] Instance connect_to_connects enabled url max idle :
  Connects (connect_to (tx := tx) d enabled url max idle) enabled.
Proof.
  intros s r s'. unfold connect_to. destruct enabled; simpl; [|by intros [= <- <-]].
  intros (o & s1 & H1 & H2)%M_bind_inv. apply in_world_inv in H1. destruct o as [p|e]; injection H2 as <- <-; by rewrite ?H1.
Qed.
#[export] Instance connect_postgres_connects c :
  Connects (connect_postgres (tx := tx) c) (PostgresConfig.enabled c).
Proof.
  intros s r s'. unfold connect_postgres. destruct (PostgresConfig.enabled c); simpl; [|by intros [= <- <-]].
  intros (o & s1 & H1 & H2)%M_bind_inv. apply in_world_inv in H1. destruct o as [p|e]; [|injection H2 as <- <-; by rewrite H1].
  destruct (PostgresConfig.migrations_path c) as [path|]; [|by injection H2 as <- <-].
  apply M_bind_inv in H2 as (o & s2 & H3 & H2). apply in_world_inv in H3. destruct o as [u|e].
  2: { injection H2 as <- <-. by rewrite H3, H1. }
  apply M_bind_inv in H2 as (o & s3 & H4 & H2). apply in_world_inv in H4.
  destruct o as [u'|e]; injection H2 as <- <-; [done|]. by rewrite H4, H3, H1.
Qed.

Inductive life_op : Type := Connect | Disconnect | Health | Executor.
Inductive life_reply : Type := RUnit (r : Result unit) | RHealth (r : Result bool) | RPool (r : Result pool).
Definition life_step (connect : M St (Result unit)) (enabled : bool) (o : life_op) : M St life_reply :=
  match o with
  | Connect => r ← connect; mret (RUnit r)
  | Disconnect => r ← disconnect (tx := tx); mret (RUnit r)
  | Health => r ← health_check (tx := tx) enabled; mret (RHealth r)
  | Executor => r ← get_pool d; mret (RPool r)
  end.
Fixpoint life (connect : M St (Result unit)) (enabled : bool) (os : list life_op) : M St (list life_reply) :=
  match os with
  | [] => mret []
  | o :: os => r ← life_step connect enabled o; rs ← life connect enabled os; mret (r :: rs)
  end.
(** Whether the store should be connected, from what its operations answered. *)
Definition connected_after (enabled : bool) (now : bool) (o : life_op) (r : life_reply) : bool :=
  match o, r with
  | Connect, RUnit (Ok _) => enabled || now
  | Disconnect, _ => false
  | _, _ => now
  end.
(** What an answer has to be in a store that is connected, or not. *)
Definition reply_fits (enabled now : bool) (o : life_op) (r : life_reply) : Prop :=
  match o, r with
  | Executor, RPool (Ok _) => now = true
  | Executor, RPool (Err e) => now = false /\ err_code e = StoreConnectionFailed
  | Health, RHealth (Ok b) => now = false -> b = negb enabled
  | Connect, RUnit (Err _) => enabled = true
  | Connect, RUnit (Ok _) | Disconnect, RUnit (Ok _) => True
  | _, _ => False
  end.
Fixpoint replies_fit (enabled now : bool) (os : list life_op) (rs : list life_reply) : Prop :=
  match os, rs with
  | [], [] => True
  | o :: os, r :: rs => reply_fits enabled now o r /\ replies_fit enabled (connected_after enabled now o r) os rs
  | _, _ => False
  end.
Definition is_connected (s : St) : bool := match s.1 with Some _ => true | None => false end.

Lemma life_step_spec connect enabled `{!Connects connect enabled} o s r s' :
  life_step connect enabled o s = Ret (r, s') ->
  reply_fits enabled (is_connected s) o r /\ is_connected s' = connected_after enabled (is_connected s) o r.
Proof.
  destruct o; simpl; intros (x & s1 & H1 & [= <- <-])%M_bind_inv.
  - apply connects in H1. destruct x as [u|e]; simpl.
    + split; [done|]. destruct enabled; simpl; [|by rewrite H1]. unfold is_connected. by destruct H1 as [p ->].
    + destruct H1 as [-> H1]. unfold is_connected. by rewrite H1.
  - unfold disconnect in H1. destruct s as [[p|] w]; simpl in *.
    + unfold in_world in H1. simpl in H1. unfold mbind, M_bind in H1. destruct (pool_close p w) as [[[] w']|why]; [|done].
      by injection H1 as <- <-.
    + by injection H1 as <- <-.
  - unfold health_check in H1. unfold is_connected. destruct s as [[p|] w]; simpl in *.
    + pose proof (in_world_inv _ _ _ _ H1) as Hs. simpl in Hs. rewrite Hs. unfold in_world in H1. simpl in H1.
      unfold mbind, M_bind in H1. destruct (sql_execute _ _ _ w) as [[q w']|why]; [|done].
      injection H1 as <- <-. by split.
    + injection H1 as <- <-. by split.
  - injection H1 as <- <-. unfold is_connected. destruct s as [[p|] w]; simpl; by repeat split.
Qed.

(** A store hands out an executor exactly from a successful [connect] of an
    enabled store to the next [disconnect], whatever its operations are and
    however the database answers (a [connect] that fails, migrations included,
    leaves the store as it was); without a connection an executor is refused
    with the store's error, and the health check is true exactly when the
    store is disabled. *)
Theorem store_lifecycle connect enabled `{!Connects connect enabled} os s rs s' :
  life connect enabled os s = Ret (rs, s') -> replies_fit enabled (is_connected s) os rs.
Proof.
  revert s rs. induction os as [|o os IH]; intros s rs; simpl; [by intros [= <- <-]|].
  intros (r & s1 & H1 & H2)%M_bind_inv. apply M_bind_inv in H2 as (rs' & s2 & H2 & [= <- <-]).
  apply life_step_spec in H1 as [Hr Hs]; [|done]. split; [done|]. rewrite <- Hs. by apply IH.
Qed.
End life.

(** * Examples

    A database whose world is the SQL it was sent: a statement is refused when
    it is empty. *)
Module SqlStoresExamples.
#[export] Instance log : Sqlx (list string) nat nat := {
  pool_open url max idle := fun w => Ret (if decide (url = "") then Err "no url" else Ok 1%nat, w);
  pool_close _ := fun w => Ret (tt, w);
  pool_begin p := fun w => Ret (Ok 7%nat, w);
  sql_execute _ sql _ := fun w => Ret (if decide (sql = "") then Err "empty" else Ok 1, w ++ [sql]);
  fetch_all _ sql _ := fun w => Ret (Ok [], w ++ [sql]);
  fetch_optional _ sql _ := fun w => Ret (Ok None, w ++ [sql]);
  tx_commit _ := fun w => Ret (Ok tt, w ++ ["COMMIT"]);
  tx_rollback _ := fun w => Ret (Ok tt, w ++ ["ROLLBACK"]);
  load_migrations path := fun w => Ret (Ok tt, w);
  run_migrations path _ := fun w => Ret (Ok tt, w ++ [path]);
}.

Definition age : cell := Cell "age" "INT4" None None None None None.
Lemma narrow_columns_read_as_null_witness :
  get (T := option i64) "age" (pg_row_to_db_row [age]) = Ret (Ok None) /\
  get (T := option spec_float) "age" (pg_row_to_db_row [age]) = Ret (Ok None) /\
  get (T := i64) "age" (pg_row_to_db_row [age]) = Ret (type_error "i64").
Proof.
  apply (narrow_columns_read_as_null "age" [age] 0 age).
  - intros c n ->%list_elem_of_singleton. discriminate.
  - intros c f ->%list_elem_of_singleton. discriminate.
  - reflexivity.
  - right. left.
Defined.

Definition a_life : list life_op := [Executor; Connect; Health; Executor; Disconnect; Health].
Definition replies : list life_reply :=
  [RPool (fail StoreConnectionFailed "sqlite store not connected"); RUnit (Ok tt); RHealth (Ok true);
   RPool (Ok 1%nat); RUnit (Ok tt); RHealth (Ok false)].
Example a_life_runs : life sqlite (connect_to sqlite true "sqlite:rinfra.db" 10 None) true a_life (None, []) =
  Ret (replies, (None, ["SELECT 1"])).
Proof. reflexivity. Qed.
Lemma store_lifecycle_witness : replies_fit true false a_life replies.
Proof.
  apply (store_lifecycle sqlite (connect_to sqlite true "sqlite:rinfra.db" 10 None) true a_life (None, []) replies
           (None, ["SELECT 1"])).
  reflexivity.
Defined.
End SqlStoresExamples.
