(* ===== verification/Scripts.v ===== *)
(** The script engines ([rinfra-core/src/script/mod.rs],
    [rinfra-plugins/src/script/{python,js,wasm,subprocess}.rs]).

    The Python and JavaScript engines keep one interpreter process behind a
    mutex and speak line-delimited JSON with it.  [ScriptWorker] is the process
    as the engine sees it and what is said to it, [ScriptEngine] the calls of
    [execute] that compete for it, as a machine whose steps are the code
    between two awaits, what the process does, and the cancellation of a call:
    a future that is dropped where it waits.  [Subprocess] is the one-shot
    variant.  Base64, [serde_json] and the operating system are parameters. *)

From S2P Require Import Prelude Errors Tcp Serde Config.

(** [struct ScriptOutput]; the exit code is an [i32] *)
Record script_output : Type := ScriptOutput { stdout : string; output : bytes; exit_code : Z }.

Definition exec_failed {A} (why : string) : Result A := fail ScriptExecFailed why.
Definition load_failed {A} (why : string) : Result A := fail ScriptLoadFailed why.

(** [Value::as_i64] on a number as it is written; [-0] is a float. *)
Definition number_as_i64 (l : string) : option Z :=
  match strip_prefix "-" l with
  | Some d => n ← parse_dec d; if (1 <=? n) && (n <=? 2 ^ 63) then Some (- n) else None
  | None => n ← parse_dec l; if n <=? i64_max then Some n else None
  end.
Definition print_signed (n : Z) : string := if n <? 0 then "-" +:+ print_dec (- n) else print_dec n.

(** [resp[key]], which is null on anything without that key *)
Definition index (key : string) (j : json) : json :=
  match j with JObject es => default JNull (assoc key es) | _ => JNull end.
Definition as_string (j : json) : option string := match j with JString s => Some s | _ => None end.
Definition as_integer (j : json) : option Z := match j with JNumber l => number_as_i64 l | _ => None end.

(** * What is said to a worker *)
Module ScriptWorker.
Section protocol.
Context (b64_encode : bytes -> string) (b64_decode : string -> result string bytes).
Context (to_string : json -> string) (from_str : string -> result string json).

(** The line [execute] writes, with its newline. *)
Definition newline : string := String (Ascii.ascii_of_N 10) "".
Definition request_line (script input : bytes) : string :=
  to_string (JObject [("s", JString (b64_encode script)); ("i", JString (b64_encode input))]) +:+ newline.
Definition parse_worker_response (line : string) : Result script_output :=
  resp ← map_err (fun e => new_error ScriptExecFailed ("parse worker response: " +:+ e)) (from_str line);
  let result_b64 := default "" (as_string (index "r" resp)) in
  let stderr_text := default "" (as_string (index "o" resp)) in
  let code := as_i32 (default (-1) (as_integer (index "c" resp))) in
  result ← map_err (fun e => new_error ScriptExecFailed ("decode result payload: " +:+ e)) (b64_decode result_b64);
  Ok (ScriptOutput stderr_text result code).

(** What the worker scripts write ([workers/python_worker.py],
    [workers/node_worker.js]). *)
Definition response_json (result : bytes) (err : string) (code : Z) : json :=
  JObject [("r", JString (b64_encode result)); ("o", JString err); ("c", JNumber (print_signed code))].

Lemma print_dec_unsigned n : strip_prefix "-" (print_dec n) = None.
Proof. unfold print_dec. by destruct (N.to_uint (Z.to_N n)). Qed.
Lemma number_print_signed n : in_i64 n -> number_as_i64 (print_signed n) = Some n.
Proof.
  unfold in_i64, i64_min, i64_max, number_as_i64, print_signed. intros Hn. destruct (Z.ltb_spec n 0).
  - rewrite strip_prefix_app, parse_print_dec by lia. simpl.
    rewrite (proj2 (Z.leb_le 1 (- n))), (proj2 (Z.leb_le (- n) _)) by lia. simpl. f_equal. lia.
  - rewrite print_dec_unsigned, parse_print_dec by lia. simpl. unfold i64_max. by rewrite (proj2 (Z.leb_le n _)) by lia.
Qed.

(** What a script produced arrives as it was: reading the line a worker
    writes gives back its output and its diagnostics, and its exit code as far
    as it is an [i32] - a code that is not wraps, so [sys.exit(2 ** 32)] is
    reported as a success. *)
Theorem worker_response_roundtrip (result : bytes) (err : string) (code : Z) (line : string) :
  b64_decode (b64_encode result) = Ok result ->
  from_str line = Ok (response_json result err code) ->
  in_i64 code ->
  parse_worker_response line = Ok (ScriptOutput err result (as_i32 code)) /\
  (- 2 ^ 31 <= code < 2 ^ 31 -> as_i32 code = code) /\ as_i32 (2 ^ 32) = 0.
Proof.
  intros Hb Hl Hc. split_and!; [| |done].
  - unfold parse_worker_response, mbind, result_bind. rewrite Hl. simpl. rewrite Hb. simpl.
    by rewrite number_print_signed.
  - intros ?. unfold as_i32. rewrite Z.mod_small; lia.
Qed.
End protocol.
End ScriptWorker.

(** * The engines *)

(** What the two engines with a worker differ in. *)
Record engine : Type := Engine {
  engine_name : string;
  enabled : bool;
  timeout_secs : Z;
  disabled_message : string;
  empty_message : string;
  command : string;
  extra_args : list string;
  harness_ext : string;
}.
(** [PythonEngine::resolve_command], on Unix *)
Definition resolve_command (c : PythonScriptConfig.t) : string :=
  if negb (String.eqb (PythonScriptConfig.venv_path c) "") then PythonScriptConfig.venv_path c +:+ "/bin/python"
  else "python3".
Definition PythonEngine (c : PythonScriptConfig.t) : engine :=
  Engine "python" (PythonScriptConfig.enabled c) (PythonScriptConfig.timeout_secs c)
    "Python script engine is disabled" "empty Python script" (resolve_command c) [] "_worker.py".
Definition JsEngine (c : JsScriptConfig.t) : engine :=
  Engine "js" (JsScriptConfig.enabled c) (JsScriptConfig.timeout_secs c)
    "JavaScript script engine is disabled" "empty JavaScript script" "node"
    ["--max-old-space-size=" +:+ print_dec (JsScriptConfig.max_heap_mb c)] "_worker.js".

(** The checks [execute] starts with. *)
Definition admission (e : engine) (script : bytes) : Result unit :=
  if negb (enabled e) then exec_failed (disabled_message e)
  else if bool_decide (script = []) then load_failed (empty_message e)
  else Ok tt.

(** [WasmEngine::execute], which only echoes its input *)
Definition wasm_execute (c : WasmScriptConfig.t) (script input : bytes) : Result script_output :=
  if negb (WasmScriptConfig.enabled c) then exec_failed "WASM script engine is disabled"
  else if bool_decide (script = []) then load_failed "empty script module"
  else Ok (ScriptOutput "" input 0).
Definition wasm_engine_name : string := "wasm".

Module ScriptEngine.
Section machine.
Context (b64_encode : bytes -> string) (b64_decode : string -> result string bytes).
Context (to_string : json -> string) (from_str : string -> result string json) (e : engine).
Abbreviation request_line := (ScriptWorker.request_line b64_encode to_string).
Abbreviation parse_worker_response := (ScriptWorker.parse_worker_response b64_decode from_str).

(** [struct ScriptWorker]: the file of its harness and the process: whether it
    has exited, the lines on their way to it and from it, and the beginning of
    a line whose writing was cancelled.  A line is tagged with the call that
    wrote it, or that it answers; the tags are not read. *)
Record worker : Type := Worker {
  harness_path : string;
  exited : bool;
  stdin : list (nat * string);
  stdout_lines : list (nat * string);
  fragment : string;
}.
Definition is_alive (w : worker) : bool := negb (exited w).
Definition new_worker (path : string) : worker := Worker path false [] [] "".
Definition exit (w : worker) : worker := Worker (harness_path w) true (stdin w) (stdout_lines w) (fragment w).

(** A call of [execute]: waiting for the mutex, starting a worker, writing its
    request, reading the answer, returned, or dropped. *)
Inductive call : Type :=
| Waiting (script input : bytes)
| Starting (script input : bytes)
| Writing (script input : bytes)
| Reading
| Returned (r : Result script_output)
| Dropped.

(** [Mutex<Option<ScriptWorker>>] with the call that holds it, the calls in
    the order they were made, and the temporary files. *)
Record machine : Type := Machine {
  slot : option worker;
  holder : option nat;
  calls : list call;
  files : gset string;
}.
Definition init : machine := Machine None None [] ∅.
Definition set_call (i : nat) (c : call) (m : machine) : machine :=
  Machine (slot m) (holder m) (<[i := c]> (calls m)) (files m).
(** [*guard = o]: the worker that was there is dropped, its process killed and
    its file removed. *)
Definition put (o : option worker) (m : machine) : machine :=
  Machine o (holder m) (calls m)
    (match slot m with Some w => files m ∖ {[harness_path w]} | None => files m end).
Definition update (w : worker) (m : machine) : machine := Machine (Some w) (holder m) (calls m) (files m).
(** The call returns and the mutex is free again. *)
Definition return_ (i : nat) (r : Result script_output) (m : machine) : machine :=
  Machine (slot m) None (<[i := Returned r]> (calls m)) (files m).
(** [Err(e) => { *guard = None; Err(e) }] *)
Definition finish (i : nat) (r : Result script_output) (m : machine) : machine :=
  match r with Ok _ => return_ i r m | Err _ => return_ i r (put None m) end.

(** ** What happens *)
Inductive write_result : Type := Written | WriteFailed (why : string) | FlushFailed (why : string).
Inductive read_result : Type := Line | Eof | ReadFailed (why : string) | TimedOut.
Inductive event : Type :=
| Execute (script input : bytes)
| Acquire (i : nat)
| Spawn (i : nat) (path : string) (write : result (bool * string) unit) (spawn : result string unit)
| Write (i : nat) (r : write_result)
| Read (i : nat) (r : read_result)
| Cancel (i sent : nat) (leftover : option string)
| Answer (line : string)
| Stray (i : nat) (line : string)
| Exit.

(** [execute] up to the mutex *)
Definition on_execute (script input : bytes) (m : machine) : machine :=
  Machine (slot m) (holder m)
    (calls m ++ [match admission e script with Err x => Returned (Err x) | Ok _ => Waiting script input end])
    (files m).
(** The mutex is taken and the worker looked at. *)
Definition on_acquire (i : nat) (m : machine) : machine :=
  match holder m, calls m !! i with
  | None, Some (Waiting script input) =>
      let alive := match slot m with Some w => is_alive w | None => false end in
      Machine (slot m) (Some i) (<[i := if alive then Writing script input else Starting script input]> (calls m)) (files m)
  | _, _ => m
  end.
(** [ScriptWorker::spawn]: the harness is written to a fresh file (a failed
    write may leave one), then the interpreter started. *)
Definition spawn_failed (why : string) : Result script_output :=
  exec_failed ("failed to start '" +:+ command e +:+ "': " +:+ why +:+ " — is it installed and in PATH?").
Definition add_file (path : string) (m : machine) : machine :=
  Machine (slot m) (holder m) (calls m) ({[path]} ∪ files m).
Definition on_spawn (i : nat) (path : string) (write : result (bool * string) unit) (spawn : result string unit)
    (m : machine) : machine :=
  match calls m !! i with
  | Some (Starting script input) =>
      match write, spawn with
      | Err (partial, why), _ =>
          return_ i (load_failed ("failed to write temp file: " +:+ why)) (if partial : bool then add_file path m else m)
      | Ok _, Err why => return_ i (spawn_failed why) (add_file path m)
      | Ok _, Ok _ => set_call i (Writing script input) (put (Some (new_worker path)) (add_file path m))
      end
  | _ => m
  end.
(** The request is written and flushed. *)
Definition push_line (i : nat) (line : string) (w : worker) : worker :=
  Worker (harness_path w) (exited w) (stdin w ++ [(i, fragment w +:+ line)]) (stdout_lines w) "".
Definition on_write (i : nat) (r : write_result) (m : machine) : machine :=
  match calls m !! i, slot m with
  | Some (Writing script input), Some w =>
      match r with
      | Written => set_call i Reading (update (push_line i (request_line script input) w) m)
      | WriteFailed why => finish i (exec_failed ("write to worker stdin: " +:+ why)) m
      | FlushFailed why => finish i (exec_failed ("flush worker stdin: " +:+ why)) m
      end
  | _, _ => m
  end.
(** [read_line] under the timeout: a line, the end of the pipe once the
    process has gone, an error, or the timeout. *)
Definition timed_out : Result script_output := exec_failed ("script timed out after " +:+ print_dec (timeout_secs e) +:+ "s").
Definition terminated : Result script_output := exec_failed "worker process terminated unexpectedly".
Definition on_read (i : nat) (r : read_result) (m : machine) : machine :=
  match calls m !! i, slot m with
  | Some Reading, Some w =>
      match r, stdout_lines w with
      | Line, (_, line) :: rest =>
          finish i (parse_worker_response line) (update (Worker (harness_path w) (exited w) (stdin w) rest (fragment w)) m)
      | Eof, [] => if exited w then finish i terminated m else m
      | ReadFailed why, _ => finish i (exec_failed ("read from worker stdout: " +:+ why)) m
      | TimedOut, _ => finish i timed_out (update (exit w) m)
      | _, _ => m
      end
  | _, _ => m
  end.
(** The future of a call is dropped where it waits; of a request that was being
    written, [sent] characters are on their way, and a worker that was being
    started may leave its file. *)
Definition send_part (i sent : nat) (line : string) (w : worker) : worker :=
  if (String.length line <=? sent)%nat then push_line i line w
  else Worker (harness_path w) (exited w) (stdin w) (stdout_lines w) (fragment w +:+ String.substring 0 sent line).
Definition release (i : nat) (m : machine) : machine := Machine (slot m) None (<[i := Dropped]> (calls m)) (files m).
Definition on_cancel (i sent : nat) (leftover : option string) (m : machine) : machine :=
  match calls m !! i, slot m with
  | Some (Waiting _ _), _ => set_call i Dropped m
  | Some (Starting _ _), _ => release i (match leftover with Some path => add_file path m | None => m end)
  | Some (Writing script input), Some w => release i (update (send_part i sent (request_line script input) w) m)
  | Some (Reading | Writing _ _), _ => release i m
  | _, _ => m
  end.
(** The process answers the line it was sent first; a script writes a line of
    its own to the pipe; the process exits. *)
Definition on_answer (line : string) (m : machine) : machine * list (nat * string) :=
  match slot m with
  | Some (Worker path false ((i, _) :: rest) out f) =>
      (update (Worker path false rest (out ++ [(i, line)]) f) m, [(i, line)])
  | _ => (m, [])
  end.
Definition on_stray (i : nat) (line : string) (m : machine) : machine :=
  match slot m with
  | Some (Worker path false requests out f) => update (Worker path false requests (out ++ [(i, line)]) f) m
  | _ => m
  end.
Definition on_exit (m : machine) : machine :=
  match slot m with Some w => update (exit w) m | None => m end.

(** The state after an event, and the answer the process gave in it. *)
Definition step (ev : event) (m : machine) : machine * list (nat * string) :=
  match ev with
  | Execute script input => (on_execute script input m, [])
  | Acquire i => (on_acquire i m, [])
  | Spawn i path w s => (on_spawn i path w s m, [])
  | Write i r => (on_write i r m, [])
  | Read i r => (on_read i r m, [])
  | Cancel i sent leftover => (on_cancel i sent leftover m, [])
  | Answer line => on_answer line m
  | Stray i line => (on_stray i line m, [])
  | Exit => (on_exit m, [])
  end.
Fixpoint run (es : list event) (m : machine) : machine * list (nat * string) :=
  match es with
  | [] => (m, [])
  | ev :: es => let '(m, a) := step ev m in let '(m, b) := run es m in (m, a ++ b)
  end.

(** ** An answer belongs to its call *)

(** A call that holds the mutex is not cancelled, and no script writes lines of
    its own to the pipe. *)
Definition orderly (ev : event) (m : machine) : Prop :=
  match ev with
  | Cancel i _ _ => holder m <> Some i
  | Stray _ _ => False
  | _ => True
  end.
Fixpoint all_orderly (es : list event) (m : machine) : Prop :=
  match es with
  | [] => True
  | ev :: es => orderly ev m /\ all_orderly es (step ev m).1
  end.

Definition active (c : call) : bool := match c with Starting _ _ | Writing _ _ | Reading => true | _ => false end.
Definition actives (h : option nat) (cs : list call) : Prop :=
  forall i c, cs !! i = Some c -> active c = true -> h = Some i.
Definition answers (L : list (nat * string)) (cs : list call) : Prop :=
  forall i out, cs !! i = Some (Returned (Ok out)) -> exists line, (i, line) ∈ L /\ parse_worker_response line = Ok out.
Definition quiet (w : worker) : Prop := stdin w = [] /\ stdout_lines w = [] /\ fragment w = "".
Definition in_flight (L : list (nat * string)) (i : nat) (w : worker) : Prop :=
  fragment w = "" /\ exists l, (stdin w = [(i, l)] /\ stdout_lines w = []) \/
    (stdin w = [] /\ stdout_lines w = [(i, l)] /\ (i, l) ∈ L).
Definition phase (L : list (nat * string)) (m : machine) : Prop :=
  match holder m with
  | None => forall w, slot m = Some w -> quiet w
  | Some i =>
      match calls m !! i with
      | Some (Starting _ _) => forall w, slot m = Some w -> quiet w
      | Some (Writing _ _) => exists w, slot m = Some w /\ quiet w
      | Some Reading => exists w, slot m = Some w /\ in_flight L i w
      | _ => False
      end
  end.
Record inv (L : list (nat * string)) (m : machine) : Prop := Inv {
  inv_phase : phase L m;
  inv_actives : actives (holder m) (calls m);
  inv_answers : answers L (calls m);
}.

Lemma actives_insert h h' i c cs :
  actives h cs -> (h = h' \/ h = None \/ h = Some i) -> (active c = true -> h' = Some i) ->
  (h = Some i -> h' = Some i \/ active c = false) -> actives h' (<[i := c]> cs).
Proof.
  intros Ha Hh Hc Hr j c' [(<- & <- & _)|[Hne Hj]]%list_lookup_insert_Some Hact; [by apply Hc|].
  specialize (Ha j c' Hj Hact). destruct Hh as [<-|[Hh|Hh]]; [done|congruence..].
Qed.
Lemma answers_insert L i c cs :
  answers L cs -> (forall out, c = Returned (Ok out) -> exists l, (i, l) ∈ L /\ parse_worker_response l = Ok out) ->
  answers L (<[i := c]> cs).
Proof. intros Ha Hc j out [(<- & Heq & _)|[Hne Hj]]%list_lookup_insert_Some; [by apply Hc|by apply Ha]. Qed.
Lemma holds L m i c : inv L m -> calls m !! i = Some c -> active c = true -> holder m = Some i.
Proof. intros H. apply (inv_actives _ _ H). Qed.

(** The holder moves on to another state, or returns. *)
Lemma inv_move L m s i c c' fs :
  inv L m -> calls m !! i = Some c -> active c = true -> active c' = true ->
  phase L (Machine s (Some i) (<[i := c']> (calls m)) fs) -> inv L (Machine s (Some i) (<[i := c']> (calls m)) fs).
Proof.
  intros H Hi Hc Hc' Hp. pose proof (holds _ _ _ _ H Hi Hc) as Hh. split; [done| |]; simpl.
  - eapply actives_insert; [apply H|rewrite Hh; by left|done|by left].
  - apply answers_insert; [apply H|]. intros out ->. discriminate.
Qed.
Lemma inv_return L m s i c r fs :
  inv L m -> calls m !! i = Some c -> active c = true -> (forall w, s = Some w -> quiet w) ->
  (forall out, r = Ok out -> exists l, (i, l) ∈ L /\ parse_worker_response l = Ok out) ->
  inv L (return_ i r (Machine s (holder m) (calls m) fs)).
Proof.
  intros H Hi Hc Hs Hr. pose proof (holds _ _ _ _ H Hi Hc) as Hh. split; [done| |]; simpl.
  - eapply actives_insert; [apply H|rewrite Hh; auto|done|by right].
  - apply answers_insert; [apply H|]. intros out [= ->]. by apply Hr.
Qed.
Lemma inv_return_err L m i c x s fs :
  inv L m -> calls m !! i = Some c -> active c = true -> (forall w, s = Some w -> quiet w) ->
  inv L (return_ i (Err x) (Machine s (holder m) (calls m) fs)).
Proof. intros. by eapply inv_return. Qed.
Lemma phase_of L m i c : inv L m -> calls m !! i = Some c -> active c = true ->
  match c with
  | Starting _ _ => forall w, slot m = Some w -> quiet w
  | Writing _ _ => exists w, slot m = Some w /\ quiet w
  | Reading => exists w, slot m = Some w /\ in_flight L i w
  | _ => False
  end.
Proof.
  intros H Hi Hc. pose proof (inv_phase _ _ H) as Hp. unfold phase in Hp. by rewrite (holds _ _ _ _ H Hi Hc), Hi in Hp.
Qed.

(** What the process does leaves a phase a phase. *)
Lemma inv_update L L' m w w' :
  inv L m -> slot m = Some w -> L ⊆ L' -> (quiet w -> quiet w') ->
  (forall i, in_flight L i w -> in_flight L' i w') -> inv L' (update w' m).
Proof.
  intros H Hw HL Hq Hf. destruct H as [Hp Ha Hn]. split; [|done|].
  - unfold phase in *. simpl. destruct (holder m) as [i|]; [|intros w1 [= <-]; by apply Hq, Hp].
    destruct (calls m !! i) as [[]|]; try done.
    + intros w1 [= <-]. by apply Hq, Hp.
    + exists w'. split; [done|]. destruct Hp as (w1 & Hw1 & Hq1). rewrite Hw in Hw1. injection Hw1 as <-. by apply Hq.
    + exists w'. split; [done|]. destruct Hp as (w1 & Hw1 & Hq1). rewrite Hw in Hw1. injection Hw1 as <-. by apply Hf.
  - intros i out Hi. destruct (Hn i out Hi) as (l & Hl & Hpl). exists l. split; [by apply HL|done].
Qed.

Lemma inv_execute L m script input : inv L m -> inv L (on_execute script input m).
Proof.
  intros [Hp Ha Hn]. set (c := match admission e script with Err x => Returned (Err x) | Ok _ => Waiting script input end).
  assert (active c = false /\ forall out, c <> Returned (Ok out)) as [Hc Ho] by (subst c; by destruct (admission e script)).
  split; unfold on_execute; simpl; fold c.
  - unfold phase in *. simpl. destruct (holder m) as [i|]; [|done].
    destruct (calls m !! i) as [c'|] eqn:Hi; [|done]. by rewrite (lookup_app_l_Some _ _ _ _ Hi).
  - intros i c' [Hi|[Hl Hi]]%lookup_app_Some Hact; [by eapply Ha|].
    apply list_lookup_singleton_Some in Hi as [_ <-]. congruence.
  - intros i out [Hi|[Hl Hi]]%lookup_app_Some; [by apply Hn|].
    apply list_lookup_singleton_Some in Hi as [_ Hi]. by destruct (Ho out).
Qed.
Lemma inv_acquire L m i : inv L m -> inv L (on_acquire i m).
Proof.
  intros H. unfold on_acquire. destruct (holder m) eqn:Hh; [done|].
  destruct (calls m !! i) as [[script input| | | | |]|] eqn:Hi; try done.
  pose proof (inv_phase _ _ H) as Hp. unfold phase in Hp. rewrite Hh in Hp.
  set (c := if match slot m with Some w => is_alive w | None => false end then Writing script input else Starting script input).
  split; simpl.
  - unfold phase. simpl. rewrite list_lookup_insert_eq by by eapply lookup_lt_Some. subst c.
    destruct (slot m) as [w|] eqn:Hs; [|done]. destruct (is_alive w); [|done]. exists w. split; [done|by apply Hp].
  - eapply actives_insert; [apply H|by right; left|done|by left].
  - apply answers_insert; [apply H|]. intros out. subst c. destruct (slot m) as [w|]; [destruct (is_alive w)|]; discriminate.
Qed.
Lemma inv_spawn L m i path wr sp : inv L m -> inv L (on_spawn i path wr sp m).
Proof.
  intros H. unfold on_spawn. destruct (calls m !! i) as [[|script input| | | |]|] eqn:Hi; try done.
  pose proof (phase_of _ _ _ _ H Hi eq_refl) as Hp. simpl in Hp.
  destruct wr as [[]|[b why]]; [destruct sp as [[]|why]|].
  - unfold set_call, put, add_file. simpl. rewrite (holds _ _ _ _ H Hi eq_refl). eapply inv_move; [done..|].
    unfold phase. simpl. rewrite list_lookup_insert_eq by by eapply lookup_lt_Some. by exists (new_worker path).
  - unfold add_file. by eapply inv_return_err.
  - destruct b; [by eapply inv_return_err|]. destruct m as [s h cs fs]. by eapply (inv_return_err L (Machine s h cs fs)).
Qed.
Lemma inv_fail L m i c x w : inv L m -> calls m !! i = Some c -> active c = true -> inv L (finish i (Err x) (update w m)).
Proof. intros H Hi Hc. unfold finish, put, update. simpl. by eapply inv_return_err. Qed.
Lemma inv_write L m i r : inv L m -> inv L (on_write i r m).
Proof.
  intros H. unfold on_write. destruct (calls m !! i) as [[| |script input| | |]|] eqn:Hi; try done.
  destruct (slot m) as [w|] eqn:Hs; [|done]. pose proof (phase_of _ _ _ _ H Hi eq_refl) as (w1 & Hw1 & Hq).
  rewrite Hs in Hw1. injection Hw1 as <-. destruct r as [|why|why].
  - unfold set_call, update. simpl. rewrite (holds _ _ _ _ H Hi eq_refl). eapply inv_move; [done..|].
    unfold phase. simpl. rewrite list_lookup_insert_eq by by eapply lookup_lt_Some.
    eexists. split; [done|]. destruct Hq as (Hq1 & Hq2 & Hq3). unfold in_flight, push_line. simpl.
    rewrite Hq1, Hq2, Hq3. split; [done|]. eexists. by left.
  - unfold finish, put. by eapply inv_return_err.
  - unfold finish, put. by eapply inv_return_err.
Qed.
Lemma inv_read L m i r : inv L m -> inv L (on_read i r m).
Proof.
  intros H. unfold on_read. destruct (calls m !! i) as [[| | | | |]|] eqn:Hi; try done.
  destruct (slot m) as [w|] eqn:Hs; [|done]. pose proof (phase_of _ _ _ _ H Hi eq_refl) as (w1 & Hw1 & Hf & l & Hq).
  rewrite Hs in Hw1. injection Hw1 as <-.
  destruct r; destruct (stdout_lines w) as [|[j line] rest] eqn:Ho; try done;
    try (destruct (exited w); [|done]); first [by eapply inv_fail|by eapply inv_return_err|idtac].
  destruct Hq as [[_ ?]|(Hin & [= -> -> ->] & HL)]; [discriminate|].
  destruct (parse_worker_response l) as [out|x] eqn:Hl; [|by eapply inv_fail]. unfold finish.
  unfold update. eapply inv_return; [done..| |].
  - intros w1 [= <-]. by split_and!.
  - intros out' [= <-]. by exists l.
Qed.
Lemma inv_exit L m : inv L m -> inv L (on_exit m).
Proof. intros H. unfold on_exit. destruct (slot m) as [w|] eqn:Hs; [|done]. by eapply inv_update. Qed.
Lemma inv_answer L m line : inv L m -> inv (L ++ (on_answer line m).2) (on_answer line m).1.
Proof.
  intros H. unfold on_answer.
  assert (inv (L ++ []) m) as H0 by by rewrite app_nil_r.
  destruct (slot m) as [[path [] [|[i l] rest] out f]|] eqn:Hs; try exact H0.
  eapply inv_update; [done|done|set_solver| |].
  - by intros (? & _).
  - intros i' (Hf & l' & [[[= -> -> ->] Ho]|(? & _)]); [|discriminate]. split; [done|].
    exists line. right. simpl in *. subst out. split_and!; [done|done|]. apply elem_of_app. right. by left.
Qed.
Lemma inv_cancel L m i sent leftover : holder m <> Some i -> inv L m -> inv L (on_cancel i sent leftover m).
Proof.
  intros Hne H. unfold on_cancel. destruct (calls m !! i) as [c|] eqn:Hi; [|done].
  assert (active c = false) as Hc.
  { destruct (active c) eqn:Hc; [|done]. by destruct (Hne (holds _ _ _ _ H Hi Hc)). }
  destruct c; try done. split.
  - pose proof (inv_phase _ _ H) as Hp. unfold phase in *. simpl. destruct (holder m) as [j|] eqn:Hh; [|done].
    rewrite list_lookup_insert_ne by congruence. done.
  - eapply actives_insert; [apply H|by left|done|by right].
  - apply answers_insert; [apply H|discriminate].
Qed.
Lemma inv_step L m ev : orderly ev m -> inv L m -> inv (L ++ (step ev m).2) (step ev m).1.
Proof.
  intros Ho H. destruct ev; try apply inv_answer; simpl in *; rewrite ?app_nil_r;
    auto using inv_execute, inv_acquire, inv_spawn, inv_write, inv_read, inv_exit, inv_cancel. done.
Qed.
Lemma run_cons ev es m : run (ev :: es) m = ((run es (step ev m).1).1, (step ev m).2 ++ (run es (step ev m).1).2).
Proof. simpl. destruct (step ev m) as [m1 a]. simpl. by destruct (run es m1). Qed.
Lemma inv_run es L m : all_orderly es m -> inv L m -> inv (L ++ (run es m).2) (run es m).1.
Proof.
  revert L m. induction es as [|ev es IH]; intros L m; [by rewrite app_nil_r|].
  intros [Ho Hos] H. rewrite run_cons. simpl. rewrite app_assoc. apply IH; [done|]. by apply inv_step.
Qed.

(** C31: however calls of an engine overlap, whatever the worker does - answer
    late, exit, answer garbage - and whichever starts, writes and reads fail or
    time out, a call that returns an output returns what the worker answered to
    its own request, provided no call is cancelled while it holds the worker
    and no script writes a line of its own to the worker's standard output
    (as [os.write(1, ..)] or a child process would: the next read takes that
    line for an answer). *)
Theorem script_answers_match (es : list event) (m : machine) (L : list (nat * string)) :
  run es init = (m, L) -> all_orderly es init ->
  forall i out, calls m !! i = Some (Returned (Ok out)) ->
    exists line, (i, line) ∈ L /\ parse_worker_response line = Ok out.
Proof.
  intros Hr Ho. assert (inv [] init) as H0 by by split.
  pose proof (inv_run es [] init Ho H0) as H. rewrite Hr in H. apply (inv_answers _ _ H).
Qed.

(** ** Cancelled calls *)
Lemma run_app es es' m :
  run (es ++ es') m = ((run es' (run es m).1).1, (run es m).2 ++ (run es' (run es m).1).2).
Proof.
  revert m. induction es as [|ev es IH]; intros m; [simpl; by destruct (run es' m)|].
  rewrite <- app_comm_cons, !run_cons, IH. simpl. by rewrite app_assoc.
Qed.

(** The worker still has the request of the last call to answer. *)
Definition behind (k : nat) (m : machine) : Prop :=
  holder m = None /\ length (calls m) = S k /\
  exists path l, slot m = Some (Worker path false [(k, l)] [] "").
(** A call that is made, sent and answered by the next line of the worker. *)
Record exchange : Type := Exchange { script : bytes; input : bytes; answer : string }.
Definition exchange_events (i : nat) (x : exchange) : list event :=
  [Execute (script x) (input x); Acquire i; Write i Written; Answer (answer x); Read i Line].
Fixpoint exchanges (i : nat) (xs : list exchange) : list event :=
  match xs with
  | [] => []
  | x :: xs => exchange_events i x ++ exchanges (S i) xs
  end.
Definition accepted (x : exchange) : Prop := admission e (script x) = Ok tt /\ is_ok (parse_worker_response (answer x)) = true.

Lemma behind_exchange k x m : behind k m -> accepted x ->
  let r := run (exchange_events (S k) x) m in
  behind (S k) r.1 /\ r.2 = [(k, answer x)] /\ calls r.1 = calls m ++ [Returned (parse_worker_response (answer x))].
Proof.
  intros (Hh & Hl & path & l & Hs) [Ha Hp]. destruct m as [s h cs fs]. simpl in *. subst s h.
  assert (forall c, (cs ++ [c]) !! S k = Some c) as Hat by (intros c; by rewrite lookup_app_r, Hl, Nat.sub_diag by lia).
  assert (forall c c', <[S k := c']> (cs ++ [c]) = cs ++ [c']) as Hset.
  { intros c c'. rewrite insert_app_r_alt, Hl, Nat.sub_diag by lia. done. }
  unfold exchange_events. simpl. unfold on_execute. rewrite Ha. simpl.
  unfold on_acquire. simpl. rewrite Hat. simpl. rewrite Hset.
  unfold on_write. simpl. rewrite Hat. unfold set_call, update. simpl. rewrite Hset.
  unfold on_answer. simpl. unfold on_read. simpl. rewrite Hat. unfold finish.
  destruct (parse_worker_response (answer x)) as [out|]; [|done]. simpl. rewrite Hset. split; [|done].
  split; [done|]. split; [simpl; rewrite length_insert, length_app, Hl; simpl; lia|]. by eexists _, _.
Qed.
Lemma behind_exchanges xs : forall k m, behind k m -> Forall accepted xs ->
  let r := run (exchanges (S k) xs) m in
  r.2 = imap (fun j x => ((k + j)%nat, answer x)) xs /\
  calls r.1 = calls m ++ map (fun x => Returned (parse_worker_response (answer x))) xs.
Proof.
  induction xs as [|x xs IH]; intros k m Hb Hx; [by rewrite app_nil_r|].
  apply Forall_cons in Hx as [Hx Hxs]. destruct (behind_exchange k x m Hb Hx) as (Hb' & HL & Hc).
  destruct (IH _ _ Hb' Hxs) as [HL' Hc']. cbn [exchanges]. rewrite run_app. cbn [fst snd].
  rewrite HL, HL', Hc', Hc. split; [|by rewrite <- app_assoc]. simpl. rewrite Nat.add_0_r. f_equal.
  apply imap_ext. intros j y _. simpl. f_equal. lia.
Qed.

(** And a cancelled call shifts the answers of all calls after it.  When a
    caller goes away while its script runs (a request that times out, say),
    the worker stays in its place with the answer still to come: the next call
    returns the output of the cancelled script as its own, the one after it
    the output of that call, and so on as long as nothing fails. *)
Theorem cancelled_call_shifts_answers (path : string) (first last : bytes) (xs : list exchange) :
  admission e first = Ok tt -> Forall accepted xs ->
  let r := run ([Execute first last; Acquire 0; Spawn 0 path (Ok tt) (Ok tt); Write 0 Written; Cancel 0 0 None] ++
                exchanges 1 xs) init in
  r.2 = imap (fun j x => (j, answer x)) xs /\
  forall j x, xs !! j = Some x -> calls r.1 !! S j = Some (Returned (parse_worker_response (answer x))).
Proof.
  intros Ha Hx r. set (m := (run [Execute first last; Acquire 0; Spawn 0 path (Ok tt) (Ok tt); Write 0 Written; Cancel 0 0 None] init).1).
  assert (behind 0 m /\ calls m = [Dropped] /\
    (run [Execute first last; Acquire 0; Spawn 0 path (Ok tt) (Ok tt); Write 0 Written; Cancel 0 0 None] init).2 = [])
    as (Hb & Hc & H2).
  { subst m. simpl. unfold on_execute. rewrite Ha. simpl. split; [|done]. split; [done|]. split; [done|]. by eexists _, _. }
  destruct (behind_exchanges xs 0 m Hb Hx) as [HL HC]. subst r. rewrite run_app. fold m. cbn [fst snd].
  rewrite H2, HL, HC, Hc. split; [done|]. intros j x Hj. simpl. by rewrite list_lookup_fmap, Hj.
Qed.

(** ** Temporary files *)

(** The file that a start leaves behind when it fails or is cancelled. *)
Definition leak (ev : event) (m : machine) : gset string :=
  match ev with
  | Spawn i path write spawn =>
      match calls m !! i with
      | Some (Starting _ _) =>
          match write, spawn with
          | Err (partial, _), _ => if partial : bool then {[path]} else ∅
          | Ok _, Err _ => {[path]}
          | Ok _, Ok _ => ∅
          end
      | _ => ∅
      end
  | Cancel i _ (Some path) => match calls m !! i with Some (Starting _ _) => {[path]} | _ => ∅ end
  | _ => ∅
  end.
Fixpoint leaks (es : list event) (m : machine) : gset string :=
  match es with [] => ∅ | ev :: es => leak ev m ∪ leaks es (step ev m).1 end.
(** Files are new when they are made: their names hold a fresh UUID. *)
Definition fresh (ev : event) (m : machine) : Prop :=
  match ev with Spawn _ path _ _ | Cancel _ _ (Some path) => path ∉ files m | _ => True end.
Fixpoint all_fresh (es : list event) (m : machine) : Prop :=
  match es with [] => True | ev :: es => fresh ev m /\ all_fresh es (step ev m).1 end.
Definition worker_file (m : machine) : gset string := match slot m with Some w => {[harness_path w]} | None => ∅ end.
Definition holds_files (G : gset string) (m : machine) : Prop := files m = worker_file m ∪ G /\ worker_file m ## G.

Lemma holds_update G w w' m :
  slot m = Some w -> harness_path w' = harness_path w -> holds_files G m -> holds_files G (update w' m).
Proof. unfold holds_files, worker_file. intros -> Hp. simpl. by rewrite Hp. Qed.
Lemma holds_put_none G m : holds_files G m -> holds_files G (put None m).
Proof. unfold holds_files, worker_file, put. simpl. destruct (slot m); set_solver. Qed.
Lemma holds_finish G i r m : holds_files G m -> holds_files G (finish i r m).
Proof. intros H. destruct r; [done|]. by apply (holds_put_none G m). Qed.
Lemma holds_leak G path m : path ∉ files m -> holds_files G m -> holds_files (G ∪ {[path]}) (add_file path m).
Proof. unfold holds_files, worker_file, add_file. simpl. destruct (slot m); set_solver. Qed.
Lemma holds_replace G path m : path ∉ files m -> holds_files G m ->
  holds_files G (put (Some (new_worker path)) (add_file path m)).
Proof. unfold holds_files, worker_file, put, add_file. simpl. destruct (slot m) as [w|]; set_solver. Qed.
Lemma holds_spawn G i path wr sp m : path ∉ files m -> holds_files G m ->
  holds_files (G ∪ leak (Spawn i path wr sp) m) (on_spawn i path wr sp m).
Proof.
  intros Hf H. unfold on_spawn. simpl. destruct (calls m !! i) as [[| | | | |]|]; rewrite ?union_empty_r_L; try done.
  destruct wr as [[]|[[] why]]; [destruct sp as [[]|why]| |]; rewrite ?union_empty_r_L; try done.
  - by apply (holds_replace G path m).
  - by apply (holds_leak G path m).
  - by apply (holds_leak G path m).
Qed.
Lemma holds_cancel G i sent leftover m : fresh (Cancel i sent leftover) m -> holds_files G m ->
  holds_files (G ∪ leak (Cancel i sent leftover) m) (on_cancel i sent leftover m).
Proof.
  intros Hf H. unfold on_cancel. simpl in *.
  destruct leftover as [path|]; destruct (calls m !! i) as [[| | | | |]|]; rewrite ?union_empty_r_L; try done.
  - by apply (holds_leak G path m).
  - destruct (slot m) as [w|] eqn:Hs; [|done]. eapply (holds_update G w); [done| |done].
    unfold send_part. by destruct (_ <=? _)%nat.
  - destruct (slot m) as [w|] eqn:Hs; [|done]. eapply (holds_update G w); [done| |done].
    unfold send_part. by destruct (_ <=? _)%nat.
Qed.
Lemma holds_step G ev m : fresh ev m -> holds_files G m -> holds_files (G ∪ leak ev m) (step ev m).1.
Proof.
  intros Hf H. destruct ev as [script input|i|i path wr sp|i r|i r|i sent leftover|line|i line|];
    [..|by apply holds_cancel| | |]; simpl; rewrite ?union_empty_r_L; [done| |by apply holds_spawn| | | | |].
  - unfold on_acquire. by destruct (holder m), (calls m !! i) as [[]|].
  - unfold on_write. destruct (calls m !! i) as [[]|]; try done. destruct (slot m) as [w|] eqn:Hs; [|done].
    destruct r; [by eapply (holds_update G w)|by apply holds_finish..].
  - unfold on_read. destruct (calls m !! i) as [[]|]; try done. destruct (slot m) as [w|] eqn:Hs; [|done].
    destruct r; destruct (stdout_lines w) as [|[]]; try done; try (destruct (exited w); [|done]);
      apply holds_finish; try done; by eapply holds_update.
  - unfold on_answer. by destruct (slot m) as [[? [] [|[]]]|] eqn:Hs; [..|eapply holds_update|].
  - unfold on_stray. by destruct (slot m) as [[? []]|] eqn:Hs; [|eapply holds_update|].
  - unfold on_exit. by destruct (slot m) as [w|] eqn:Hs; [eapply holds_update|].
Qed.

(** The temporary files are those of failed and cancelled starts and that
    of the worker in place: a worker takes its harness file with it, whatever
    ended it, but the file of an interpreter that could not be started, or of a
    call that was cancelled while starting one, is never removed - with no
    interpreter installed every call leaves one more. *)
Theorem failed_starts_leave_files (es : list event) :
  all_fresh es init -> files (run es init).1 = worker_file (run es init).1 ∪ leaks es init.
Proof.
  assert (forall es G m, all_fresh es m -> holds_files G m -> holds_files (G ∪ leaks es m) (run es m).1) as Hall.
  { clear es. induction es as [|ev es IH]; intros G m; simpl leaks; [by rewrite union_empty_r_L|].
    intros [Hf Hfs] H. rewrite run_cons. cbn [fst]. rewrite union_assoc_L. apply IH; [done|]. by apply holds_step. }
  intros Hf. destruct (Hall es ∅ init Hf) as [H _]; [by split|]. by rewrite union_empty_l_L in H.
Qed.
End machine.
End ScriptEngine.

(** * One process per script *)
Record process_output : Type := ProcessOutput { status_code : option Z; proc_stdout : bytes; proc_stderr : bytes }.

(** What [tokio::fs] and [tokio::process] offer; [wait_with_output] under a
    timeout. *)
Class Processes (W P : Type) : Type := {
  temp_files : W -> gset string;
  fs_write : string -> bytes -> M W (result string unit);
  fs_remove : string -> M W (result string unit);
  proc_spawn : string -> list string -> M W (result string P);
  write_stdin : P -> bytes -> M W (result string unit);
  wait_with_output : P -> Z -> M W (option (result string process_output));
  fs_write_spec path b w r w' : fs_write path b w = Ret (r, w') -> temp_files w' ⊆ {[path]} ∪ temp_files w;
  fs_remove_spec path w r w' : fs_remove path w = Ret (r, w') -> temp_files w' ⊆ temp_files w /\
    (r = Ok tt -> path ∉ temp_files w');
  proc_spawn_spec c a w r w' : proc_spawn c a w = Ret (r, w') -> temp_files w' = temp_files w;
  write_stdin_spec p b w r w' : write_stdin p b w = Ret (r, w') -> temp_files w' = temp_files w;
  wait_spec p t w r w' : wait_with_output p t w = Ret (r, w') -> temp_files w' = temp_files w;
}.

Module Subprocess.
Section oneshot.
Context {W P : Type} `{!Processes W P} (from_utf8_lossy : bytes -> string) (temp_dir : string).

(** [write_temp_file], with the UUID it draws *)
Definition temp_path (id ext : string) : string := temp_dir +:+ "/rinfra_" +:+ id +:+ ext.
Definition write_temp_file (id : string) (content : bytes) (ext : string) : M W (Result string) :=
  r ← fs_write (temp_path id ext) content;
  mret (map_err (fun e => new_error ScriptLoadFailed ("failed to write temp file: " +:+ e))
          (_ ← r; Ok (temp_path id ext))).
Definition spawn_oneshot (command : string) (extra_args : list string) (script_path : string) (input : bytes)
    (timeout_secs : Z) : M W (Result script_output) :=
  child ← proc_spawn command (extra_args ++ [script_path]);
  match child with
  | Err e => mret (exec_failed ("failed to start '" +:+ command +:+ "': " +:+ e +:+ " — is it installed and in PATH?"))
  | Ok child =>
      _ ← (if bool_decide (input = []) then mret (Ok tt) else write_stdin child input);
      r ← wait_with_output child (from_secs timeout_secs);
      mret match r with
           | Some (Ok o) => Ok (ScriptOutput (from_utf8_lossy (proc_stderr o)) (proc_stdout o) (default (-1) (status_code o)))
           | Some (Err e) => exec_failed ("process I/O error: " +:+ e)
           | None => exec_failed ("script timed out after " +:+ print_dec timeout_secs +:+ "s")
           end
  end.
Definition run_script (id command : string) (extra_args : list string) (script input : bytes) (file_ext : string)
    (timeout_secs : Z) : M W (Result script_output) :=
  path ← write_temp_file id script file_ext;
  match path with
  | Err e => mret (Err e)
  | Ok script_path =>
      r ← spawn_oneshot command extra_args script_path input timeout_secs;
      _ ← fs_remove script_path;
      mret r
  end.

Lemma spawn_oneshot_files command extra path input t w r w' :
  spawn_oneshot command extra path input t w = Ret (r, w') -> temp_files w' = temp_files w.
Proof.
  unfold spawn_oneshot. intros (child & w1 & H1 & H)%M_bind_inv. apply proc_spawn_spec in H1 as <-.
  destruct child as [child|e]; [|by injection H as _ <-].
  apply M_bind_inv in H as (u & w2 & H2 & H). apply M_bind_inv in H as (o & w3 & H3 & H). injection H as _ <-.
  apply wait_spec in H3 as ->. destruct (bool_decide (input = [])); [by injection H2 as _ <-|by apply write_stdin_spec in H2].
Qed.
(** A script that ran, timed out or could not be started leaves no file, when
    files can be removed; only a write that failed may have left one. *)
Lemma run_script_cleans_up id command extra script input ext t w r w' :
  (forall path w r w', fs_remove path w = Ret (r, w') -> r = Ok tt) ->
  run_script id command extra script input ext t w = Ret (r, w') ->
  temp_files w' ⊆ {[temp_path id ext]} ∪ temp_files w /\
  ((exists e, r = Err e /\ err_code e = ScriptLoadFailed) \/ temp_path id ext ∉ temp_files w').
Proof.
  unfold run_script, write_temp_file. intros Hrm (path & w1 & H1 & H)%M_bind_inv.
  apply M_bind_inv in H1 as (x & w0 & H0 & [= <- <-]). apply fs_write_spec in H0.
  destruct x as [[]|e]; simpl in H; [|injection H as <- <-; split; [done|left; by eexists]].
  apply M_bind_inv in H as (o & w2 & H2 & H). apply M_bind_inv in H as (u & w3 & H3 & [= <- <-]).
  apply spawn_oneshot_files in H2. pose proof (Hrm _ _ _ _ H3) as Hu. apply fs_remove_spec in H3 as [H3 Hn].
  split; [set_solver|right; by apply Hn].
Qed.
End oneshot.
End Subprocess.

(** * Examples *)
Module ScriptsExamples.
Import ScriptEngine.

(** Lines are their own output here, and so are payloads. *)
Definition text (s : string) : string := s.
Definition plain_encode (b : bytes) : string := String.string_of_list_byte b.
Definition plain_decode (s : string) : result string bytes := Ok (String.list_byte_of_string s).
Definition written (j : json) : string := default "" (as_string (index "s" j)).
Definition read (line : string) : result string json :=
  if decide (line = "") then Err "EOF while parsing a value"
  else Ok (JObject [("r", JString line); ("o", JString ""); ("c", JNumber "0")]).
Definition python : engine := PythonEngine (PythonScriptConfig.Make true 30 "").
Definition of_text (s : string) : bytes := String.list_byte_of_string s.
Definition hello (line : string) : script_output := ScriptOutput "" (of_text line) 0.
Abbreviation run_python := (run plain_encode plain_decode written read python).
Abbreviation parse_python := (ScriptWorker.parse_worker_response plain_decode read).

(** Two calls at once, the second of which times out; a third gets a new
    worker. *)
Definition busy : list event :=
  [Execute (of_text "a") []; Execute (of_text "b") []; Execute [] []; Acquire 1; Acquire 0;
   Spawn 1 "/tmp/1" (Ok tt) (Ok tt); Write 1 Written; Answer "B"; Read 1 Line;
   Acquire 0; Write 0 Written; Read 0 TimedOut;
   Execute (of_text "c") []; Acquire 3; Spawn 3 "/tmp/2" (Ok tt) (Ok tt); Write 3 Written; Answer "C"; Read 3 Line].
Lemma script_answers_match_witness :
  calls (run_python busy init).1 !! 3%nat = Some (Returned (Ok (hello "C"))) /\
  exists line, (3%nat, line) ∈ (run_python busy init).2 /\ parse_python line = Ok (hello "C").
Proof.
  assert (calls (run_python busy init).1 !! 3%nat = Some (Returned (Ok (hello "C")))) as H by (vm_compute; reflexivity).
  split; [exact H|].
  refine (script_answers_match plain_encode plain_decode written read python busy
    (run_python busy init).1 (run_python busy init).2 _ _ 3%nat (hello "C") H).
  - destruct (run_python busy init). reflexivity.
  - repeat split; simpl; discriminate.
Defined.

(** The caller of [a] goes away; [b] gets the output of [a], [c] that of [b]. *)
Definition after_a : list exchange :=
  [Exchange (of_text "b") [] "output of a"; Exchange (of_text "c") [] "output of b"].
Lemma cancelled_call_shifts_answers_witness :
  let r := run_python ([Execute (of_text "a") []; Acquire 0; Spawn 0 "/tmp/1" (Ok tt) (Ok tt); Write 0 Written;
                        Cancel 0 0 None] ++ exchanges 1 after_a) init in
  calls r.1 !! 1%nat = Some (Returned (Ok (hello "output of a"))).
Proof.
  refine (proj2 (cancelled_call_shifts_answers plain_encode plain_decode written read python "/tmp/1" (of_text "a") []
    after_a _ _) 0%nat (Exchange (of_text "b") [] "output of a") _).
  - reflexivity.
  - repeat constructor.
  - reflexivity.
Defined.

(** No interpreter: two calls, two files. *)
Definition no_python : list event :=
  [Execute (of_text "a") []; Acquire 0; Spawn 0 "/tmp/1" (Ok tt) (Err "not found");
   Execute (of_text "b") []; Acquire 1; Spawn 1 "/tmp/2" (Ok tt) (Err "not found")].
Lemma failed_starts_leave_files_witness : files (run_python no_python init).1 = {["/tmp/1"; "/tmp/2"]}.
Proof.
  rewrite (failed_starts_leave_files plain_encode plain_decode written read python no_python).
  - apply (bool_decide_unpack _). vm_compute. exact I.
  - split; [done|]. split; [done|]. split; [apply not_elem_of_empty|]. split; [done|]. split; [done|].
    split; [|done]. apply (bool_decide_unpack _). vm_compute. exact I.
Defined.

Definition response : json := ScriptWorker.response_json plain_encode (of_text "x") "warning" (-3).
Lemma worker_response_roundtrip_witness :
  ScriptWorker.parse_worker_response plain_decode (fun _ => Ok response) "line" =
    Ok (ScriptOutput "warning" (of_text "x") (-3)).
Proof.
  refine (proj1 (ScriptWorker.worker_response_roundtrip plain_encode plain_decode (fun _ => Ok response)
    (of_text "x") "warning" (-3) "line" _ _ _)).
  - reflexivity.
  - reflexivity.
  - split; vm_compute; discriminate.
Defined.
End ScriptsExamples.
