(* ===== verification/Plugins.v ===== *)
(** Plugins and health: the build-phase context and the plugin registry
    ([rinfra-core/src/plugin/*.rs]), the application state made from it
    ([rinfra-core/src/appstate.rs]), the health checkers and the readiness
    endpoint ([rinfra-plugins/src/health/*.rs]). *)

From S2P Require Import Prelude Errors Registries.

(** * Health checks *)
Module Health.

(** [enum HealthStatus] and [struct HealthCheckResult] *)
Inductive health_status : Type := Healthy | Degraded | Unhealthy.
#[export] Instance health_status_eq_dec : EqDecision health_status.
Proof. solve_decision. Defined.
Record health_check_result : Type := HealthCheckResult {
  status : health_status;
  error : option string;
}.

(** [HealthCheckResult::healthy], [unhealthy], [degraded] and [is_healthy] *)
Definition healthy : health_check_result := HealthCheckResult Healthy None.
Definition unhealthy (reason : string) : health_check_result := HealthCheckResult Unhealthy (Some reason).
Definition degraded (reason : string) : health_check_result := HealthCheckResult Degraded (Some reason).
Definition is_healthy (r : health_check_result) : bool := bool_decide (status r = Healthy).

(** [struct CheckResult] and [struct ReadinessResponse] with its HTTP status *)
Record check_result : Type := CheckResult {
  cr_name : string;
  cr_status : string;
  cr_error : option string;
}.
Record readiness_response : Type := ReadinessResponse {
  http_code : Z;
  ready : string;
  checks : list check_result;
}.

(** [trait HealthCheckable]: a name and a probe of the world it lives in. *)
Record checker (W : Type) : Type := HealthChecker {
  name : string;
  check : W -> health_check_result * W;
}.
Arguments HealthChecker {W} _ _.
Arguments name {W} _.
Arguments check {W} _ _.

Section health.
Context {W : Type}.

(** [StoreHealthChecker] and [MessageBusHealthChecker]: the same three cases
    of the component's [health_check]; [CacheHealthChecker] only looks whether
    its probe key could be read. *)
Definition health_check_outcome (r : Result bool) : health_check_result :=
  match r with
  | Ok true => healthy
  | Ok false => unhealthy "health check returned false"
  | Err e => unhealthy (error_to_string e)
  end.
Definition StoreHealthChecker (n : string) (health_check : W -> Result bool * W) : checker W :=
  HealthChecker n (fun w => let '(r, w) := health_check w in (health_check_outcome r, w)).
Definition MessageBusHealthChecker (n : string) (health_check : W -> Result bool * W) : checker W :=
  HealthChecker n (fun w => let '(r, w) := health_check w in (health_check_outcome r, w)).
Definition CacheHealthChecker (n : string) (exists_ : string -> W -> Result bool * W) : checker W :=
  HealthChecker n (fun w =>
    let '(r, w) := exists_ "__health_probe__" w in
    (match r with Ok _ => healthy | Err e => unhealthy (error_to_string e) end, w)).

Definition status_str (s : health_status) : string :=
  match s with Healthy => "ok" | Degraded => "degraded" | Unhealthy => "fail" end.

(** The loop of [readyz_handler] with its variables [all_ok] and [checks]. *)
Fixpoint run_checks (cs : list (checker W)) (all_ok : bool) (rows : list check_result) (w : W) :
  bool * list check_result * W :=
  match cs with
  | [] => (all_ok, rows, w)
  | c :: cs =>
      let '(result, w) := check c w in
      let all_ok := if negb (is_healthy result) then false else all_ok in
      run_checks cs all_ok
        (rows ++ [CheckResult (name c) (status_str (status result)) (error result)]) w
  end.

(** [readyz_handler] *)
Definition readyz_handler (registry : option (list (checker W))) (w : W) : readiness_response * W :=
  let '(all_ok, rows, w) :=
    match registry with
    | Some cs => run_checks cs true [] w
    | None => (true, [], w)
    end in
  (ReadinessResponse (if all_ok then 200 else 503) (if all_ok then "ready" else "not_ready") rows, w).

(** What each checker answers when they are probed one after the other. *)
Fixpoint probe_all (cs : list (checker W)) (w : W) : list (string * health_check_result) :=
  match cs with
  | [] => []
  | c :: cs => let '(r, w) := check c w in (name c, r) :: probe_all cs w
  end.

Definition row (p : string * health_check_result) : check_result :=
  CheckResult (fst p) (status_str (status (snd p))) (error (snd p)).

Lemma run_checks_spec cs ok rows w :
  fst (run_checks cs ok rows w) =
  (ok && forallb (fun p => is_healthy (snd p)) (probe_all cs w), rows ++ map row (probe_all cs w)).
Proof.
  revert ok rows w. induction cs as [|c cs IH]; intros ok rows w; simpl.
  - by rewrite andb_true_r, app_nil_r.
  - destruct (check c w) as [r w']. rewrite IH. simpl. rewrite <- app_assoc. simpl.
    by destruct (is_healthy r), ok.
Qed.

(** The readiness answer from the probes' answers. *)
Lemma readyz_spec cs w :
  let resp := fst (readyz_handler (Some cs) w) in
  checks resp = map row (probe_all cs w) /\
  (http_code resp = 200 <-> Forall (fun p => is_healthy (snd p) = true) (probe_all cs w)) /\
  (http_code resp = 200 /\ ready resp = "ready" \/ http_code resp = 503 /\ ready resp = "not_ready").
Proof.
  unfold readyz_handler. pose proof (run_checks_spec cs true [] w) as Hs.
  destruct (run_checks _ _ _ _) as [[ok rows] w']. simpl in Hs. injection Hs as -> ->. simpl.
  rewrite <- forallb_Forall. split; [done|]. destruct (forallb _ _); simpl; [split; [done|by left]|].
  split; [done|by right].
Qed.
End health.
End Health.
Import Health.

(** * The build-phase context and the application state *)
Module PluginContext.

(** [TypeId]: the types the framework itself stores, and any other. *)
Inductive type_id : Type := HealthCheckerRegistryT | CodecRegistryT | OtherT (n : string).
#[export] Instance type_id_eq_dec : EqDecision type_id.
Proof. solve_decision. Defined.
#[export] Instance type_id_countable : Countable type_id.
Proof.
  refine (inj_countable' (fun t => match t with
      | HealthCheckerRegistryT => None | CodecRegistryT => Some None | OtherT n => Some (Some n) end)
    (fun o => match o with
      | None => HealthCheckerRegistryT | Some None => CodecRegistryT | Some (Some n) => OtherT n end) _).
  by intros [].
Defined.

(** [struct PluginManifest] *)
Record plugin_manifest : Type := PluginManifest {
  pm_name : string;
  pm_version : string;
  pm_description : string;
}.

(** A shutdown hook: the time its future takes ([None] if it never
    completes) and what it returns. *)
Record hook : Type := Hook { hook_time : option Z; hook_result : Result unit }.

Section context.
Context {config codec component router W : Type}.
Variable codec_name content_type : codec -> string.

(** The values of a type, and [Box<dyn Any>] *)
Definition value (t : type_id) : Type :=
  match t with
  | HealthCheckerRegistryT => list (checker W)
  | CodecRegistryT => Codecs.codec_registry (codec := codec)
  | OtherT _ => component
  end.
Definition any : Type := {t : type_id & value t}.
Definition downcast (t : type_id) (a : any) : option (value t) :=
  match decide (projT1 a = t) with
  | left e => Some (eq_rect (projT1 a) value (projT2 a) t e)
  | right _ => None
  end.
Abbreviation extensions_map := (gmap type_id any).

(** [set] and [get] of the type map, shared by [PluginContext] and [AppState] *)
Definition map_set (t : type_id) (v : value t) (m : extensions_map) : extensions_map :=
  <[t := existT t v]> m.
Definition map_get (t : type_id) (m : extensions_map) : option (value t) :=
  m !! t ≫= downcast t.

(** [struct PluginContext] *)
Record plugin_context : Type := MkContext {
  ctx_config : config;
  manifests : list plugin_manifest;
  shutdown_hooks : list hook;
  codecs : Codecs.codec_registry (codec := codec);
  routers : list router;
  extensions : extensions_map;
}.
Definition new (c : config) : plugin_context := MkContext c [] [] Codecs.new [] ∅.

(** [set] and [get] *)
Definition set (t : type_id) (v : value t) (c : plugin_context) : plugin_context :=
  MkContext (ctx_config c) (manifests c) (shutdown_hooks c) (codecs c) (routers c)
    (map_set t v (extensions c)).
Definition get (t : type_id) (c : plugin_context) : option (value t) := map_get t (extensions c).

(** [add_health_checker] *)
Definition add_health_checker (h : checker W) (c : plugin_context) : plugin_context :=
  match get HealthCheckerRegistryT c with
  | Some r => set HealthCheckerRegistryT (r ++ [h]) c
  | None => set HealthCheckerRegistryT [h] c
  end.
(** [add_codec], [add_router] and [add_shutdown_hook] *)
Definition add_codec (x : codec) (c : plugin_context) : Result unit * plugin_context :=
  let '(r, cs) := Codecs.register codec_name content_type x (codecs c) in
  (r, MkContext (ctx_config c) (manifests c) (shutdown_hooks c) cs (routers c) (extensions c)).
Definition add_router (r : router) (c : plugin_context) : plugin_context :=
  MkContext (ctx_config c) (manifests c) (shutdown_hooks c) (codecs c) (routers c ++ [r]) (extensions c).
Definition add_shutdown_hook (h : hook) (c : plugin_context) : plugin_context :=
  MkContext (ctx_config c) (manifests c) (shutdown_hooks c ++ [h]) (codecs c) (routers c) (extensions c).
(** [ctx.manifests.push] *)
Definition push_manifest (m : plugin_manifest) (c : plugin_context) : plugin_context :=
  MkContext (ctx_config c) (manifests c ++ [m]) (shutdown_hooks c) (codecs c) (routers c) (extensions c).

(** The calls through which a plugin changes the context. *)
Inductive ctx_op : Type :=
| Set_ (t : type_id) (v : value t)
| AddHealthChecker (h : checker W)
| AddCodec (x : codec)
| AddRouter (r : router)
| AddShutdownHook (h : hook).
Definition run_op (c : plugin_context) (o : ctx_op) : plugin_context :=
  match o with
  | Set_ t v => set t v c
  | AddHealthChecker h => add_health_checker h c
  | AddCodec x => snd (add_codec x c)
  | AddRouter r => add_router r c
  | AddShutdownHook h => add_shutdown_hook h c
  end.

(** [struct AppState] and [PluginContext::into_app_parts] *)
Record app_state : Type := AppState { state_config : config; state_extensions : extensions_map }.
Definition state_get (t : type_id) (s : app_state) : option (value t) := map_get t (state_extensions s).
Definition into_app_parts (c : plugin_context) : app_state * list router :=
  let m0 : extensions_map :=
    if negb (bool_decide (Codecs.list_names codec_name (codecs c) = []))
    then map_set CodecRegistryT (codecs c) ∅ else ∅ in
  (AppState (ctx_config c) (map_fold (fun k v m => <[k := v]> m) m0 (extensions c)), routers c).

(** Every entry of the type map is stored at its own type. *)
Definition well_tagged (m : extensions_map) : Prop := forall t a, m !! t = Some a -> projT1 a = t.

Lemma downcast_same t (v : value t) : downcast t (existT t v) = Some v.
Proof.
  unfold downcast; simpl. destruct (decide (t = t)) as [e|]; [|done].
  by rewrite (proof_irrel e eq_refl).
Qed.
Lemma map_get_set t v m : map_get t (map_set t v m) = Some v.
Proof. unfold map_get, map_set. rewrite lookup_insert_eq. apply downcast_same. Qed.
Lemma map_get_set_ne t t' v m : t <> t' -> map_get t (map_set t' v m) = map_get t m.
Proof. intros H. unfold map_get, map_set. by rewrite lookup_insert_ne. Qed.
Lemma map_set_well_tagged t v m : well_tagged m -> well_tagged (map_set t v m).
Proof. unfold map_set. intros Hm t' a [[<- <-]|[? Ha]]%lookup_insert_Some; [done|]. by apply Hm. Qed.

Lemma run_op_well_tagged c o : well_tagged (extensions c) -> well_tagged (extensions (run_op c o)).
Proof.
  intros H. destruct o; simpl; try done; [by apply map_set_well_tagged| |].
  - unfold add_health_checker. case_match; by apply map_set_well_tagged.
  - unfold add_codec. by case_match.
Qed.

Lemma drain_union (m0 ext : extensions_map) : map_fold (fun k v m => <[k := v]> m) m0 ext = ext ∪ m0.
Proof.
  apply (map_fold_weak_ind (fun r m => r = m ∪ m0)).
  - by rewrite map_empty_union.
  - intros k v m r _ ->. by rewrite insert_union_l.
Qed.

(** The state has what the plugins set; the context's own codec registry is
    there when it is not empty, unless a plugin set one itself. *)
Lemma into_app_parts_get c t :
  state_get t (fst (into_app_parts c)) =
  match extensions c !! t with
  | Some a => downcast t a
  | None => match t with
            | CodecRegistryT =>
                if bool_decide (Codecs.list_names codec_name (codecs c) = []) then None else Some (codecs c)
            | _ => None
            end
  end.
Proof.
  unfold into_app_parts, state_get, map_get. simpl. rewrite drain_union.
  set (m0 := if negb _ then _ else _). destruct (extensions c !! t) as [a|] eqn:E.
  - by rewrite (lookup_union_Some_l _ _ _ _ E).
  - rewrite lookup_union_r by done. subst m0.
    destruct (bool_decide _); simpl; [by destruct t|].
    destruct (decide (t = CodecRegistryT)) as [->|Hne].
    + unfold map_set. rewrite lookup_insert_eq. apply downcast_same.
    + unfold map_set. rewrite lookup_insert_ne, lookup_empty by done. by destruct t.
Qed.
End context.
Arguments plugin_context _ _ _ _ _ : clear implicits.
Arguments ctx_op _ _ _ _ : clear implicits.
Arguments app_state _ _ _ _ : clear implicits.
End PluginContext.
Import PluginContext.

(** * The plugin registry *)
Module PluginRegistry.
Section registry.
Context {config codec component router W : Type}.
Variable codec_name content_type : codec -> string.
Abbreviation plugin_context := (plugin_context config codec component router W).
Abbreviation ctx_op := (ctx_op codec component router W).

(** [trait Plugin]: its [build] reads the context and changes it by calls of
    the context's operations, listed in order, before it returns or panics. *)
Record plugin : Type := Plugin {
  manifest : plugin_manifest;
  build : plugin_context -> list ctx_op * outcome (Result unit);
}.

(** [struct PluginRegistry], [list], [get], [len] and [is_empty] *)
Record plugin_registry : Type := MkRegistry {
  reg_manifests : list plugin_manifest;
  reg_hooks : list hook;
}.
Definition new : plugin_registry := MkRegistry [] [].
Definition get (n : string) (r : plugin_registry) : option plugin_manifest :=
  snd <$> list_find (fun m => pm_name m = n) (reg_manifests r).
Definition len (r : plugin_registry) : nat := length (reg_manifests r).
Definition is_empty (r : plugin_registry) : bool := bool_decide (reg_manifests r = []).

(** The loop of [build_all]. *)
Fixpoint build_each (plugins : list plugin) (ctx : plugin_context) :
  outcome (Result unit) * plugin_context :=
  match plugins with
  | [] => (Ret (Ok tt), ctx)
  | p :: plugins =>
      let '(ops, r) := build p ctx in
      let ctx := fold_left (run_op codec_name content_type) ops ctx in
      match r with
      | Panic why => (Panic why, ctx)
      | Ret (Err e) =>
          (Ret (fail PluginInitFailed
             ("plugin '" +:+ pm_name (manifest p) +:+ "' build failed: " +:+ error_to_string e)), ctx)
      | Ret (Ok _) => build_each plugins (push_manifest (manifest p) ctx)
      end
  end.

(** [build_all]: the registry takes the context's manifests and hooks, which
    stay in the context when a plugin fails. *)
Definition build_all (plugins : list plugin) (ctx : plugin_context) (reg : plugin_registry) :
  outcome (Result unit) * plugin_registry * plugin_context :=
  let '(r, ctx) := build_each plugins ctx in
  match r with
  | Panic _ | Ret (Err _) => (r, reg, ctx)
  | Ret (Ok _) =>
      (Ret (Ok tt), MkRegistry (manifests ctx) (shutdown_hooks ctx),
       MkContext (ctx_config ctx) [] [] (codecs ctx) (routers ctx) (extensions ctx))
  end.

(** [tokio::time::timeout(deadline, hook())]: the hook's result and the time
    it took, or [None] when the deadline came first. *)
Definition timeout (deadline : Z) (h : hook) : option (Result unit) * Z :=
  match hook_time h with
  | Some d => if d <=? deadline then (Some (hook_result h), d) else (None, deadline)
  | None => (None, deadline)
  end.

(** The loop of [shutdown_all], with the hooks it started and the time it took. *)
Fixpoint run_hooks (deadline : Z) (hooks : list hook) : Result unit * list hook * Z :=
  match hooks with
  | [] => (Ok tt, [], 0)
  | h :: hooks =>
      match timeout deadline h with
      | (Some (Ok _), d) => let '(r, ran, t) := run_hooks deadline hooks in (r, h :: ran, d + t)
      | (Some (Err e), d) =>
          (fail PluginShutdownFailed ("shutdown hook failed: " +:+ error_to_string e), [h], d)
      | (None, d) => (fail PluginShutdownTimeout "shutdown hook timed out", [h], d)
      end
  end.
(** [shutdown_all]: [drain(..).rev()] empties the registry's list first. *)
Definition shutdown_all (deadline : Z) (reg : plugin_registry) :
  Result unit * list hook * Z * plugin_registry :=
  (run_hooks deadline (reverse (reg_hooks reg)), MkRegistry (reg_manifests reg) []).

(** ** What the plugins asked for *)

(** The operations of the plugins' builds up to the first that fails or
    panics, and that plugin. *)
Fixpoint trace (plugins : list plugin) (ctx : plugin_context) : list ctx_op * option plugin :=
  match plugins with
  | [] => ([], None)
  | p :: ps =>
      let '(ops, r) := build p ctx in
      let ctx := fold_left (run_op codec_name content_type) ops ctx in
      match r with
      | Panic _ | Ret (Err _) => (ops, Some p)
      | Ret (Ok _) => let '(rest, f) := trace ps (push_manifest (manifest p) ctx) in (ops ++ rest, f)
      end
  end.
Definition op_hook (o : ctx_op) : option hook :=
  match o with AddShutdownHook h => Some h | _ => None end.
Definition op_checker (o : ctx_op) : option (checker W) :=
  match o with AddHealthChecker h => Some h | _ => None end.
Definition op_router (o : ctx_op) : option router :=
  match o with AddRouter r => Some r | _ => None end.
(** A plugin that replaces the whole health checker registry. *)
Definition replaces_checkers (o : ctx_op) : bool :=
  match o with Set_ HealthCheckerRegistryT _ => true | _ => false end.
Definition hook_ok (deadline : Z) (h : hook) : bool :=
  match timeout deadline h with (Some (Ok _), _) => true | _ => false end.
Definition hook_err (deadline : Z) (h : hook) : Result unit :=
  match timeout deadline h with
  | (Some (Err e), _) => fail PluginShutdownFailed ("shutdown hook failed: " +:+ error_to_string e)
  | _ => fail PluginShutdownTimeout "shutdown hook timed out"
  end.
Definition registered_checkers (c : plugin_context) : list (checker W) :=
  default [] (PluginContext.get HealthCheckerRegistryT c).

(** ** Lemmas *)
Lemma run_op_hooks (c : plugin_context) (o : ctx_op) :
  shutdown_hooks (run_op codec_name content_type c o) = shutdown_hooks c ++ option_list (op_hook o).
Proof.
  destruct o; simpl; rewrite ?app_nil_r; try done.
  - unfold add_health_checker. by case_match.
  - unfold add_codec. by case_match.
Qed.
Lemma run_op_manifests (c : plugin_context) (o : ctx_op) : manifests (run_op codec_name content_type c o) = manifests c.
Proof.
  destruct o; simpl; try done; [unfold add_health_checker|unfold add_codec]; by case_match.
Qed.
Lemma run_ops_manifests (ops : list ctx_op) (c : plugin_context) :
  manifests (fold_left (run_op codec_name content_type) ops c) = manifests c.
Proof.
  revert c. induction ops as [|o ops IH]; intros c; simpl; [done|]. by rewrite IH, run_op_manifests.
Qed.
Lemma run_op_checkers (c : plugin_context) (o : ctx_op) : replaces_checkers o = false ->
  registered_checkers (run_op codec_name content_type c o) =
  registered_checkers c ++ option_list (op_checker o).
Proof.
  unfold registered_checkers. destruct o; simpl; rewrite ?app_nil_r; try done.
  - intros Ht. unfold PluginContext.get, set; simpl. rewrite map_get_set_ne; [done|]. by intros <-.
  - intros _. unfold add_health_checker, PluginContext.get.
    destruct (map_get HealthCheckerRegistryT (extensions c)) eqn:E;
      unfold set; simpl; by rewrite map_get_set.
  - intros _. unfold add_codec. by case_match.
Qed.

(** A quantity of the context that each operation extends is extended by the
    whole trace, whatever the plugins read in between. *)
Lemma trace_extends {A} (obs : plugin_context -> list A) (f : ctx_op -> option A) (P : ctx_op -> Prop) :
  (forall c o, P o -> obs (run_op codec_name content_type c o) = obs c ++ option_list (f o)) ->
  (forall m c, obs (push_manifest m c) = obs c) ->
  forall ps c, Forall P (fst (trace ps c)) ->
  obs (snd (build_each ps c)) = obs c ++ omap f (fst (trace ps c)).
Proof.
  intros Hop Hm.
  assert (forall ops c, Forall P ops ->
    obs (fold_left (run_op codec_name content_type) ops c) = obs c ++ omap f ops) as Hops.
  { induction ops as [|o ops IH]; intros c HP; simpl; [by rewrite app_nil_r|].
    inversion HP; subst. rewrite IH, Hop, <- app_assoc by done. by destruct (f o). }
  induction ps as [|p ps IH]; intros c; simpl; [by rewrite app_nil_r|].
  destruct (build p c) as [ops r]. destruct r as [[[]|e]|why]; simpl; [|apply Hops..].
  - specialize (IH (push_manifest (manifest p) (fold_left (run_op codec_name content_type) ops c))).
    destruct (trace ps _) as [rest g]; simpl in *. rewrite Forall_app. intros [H1 H2].
    rewrite IH, Hm, Hops, omap_app, app_assoc by done. done.
Qed.

(** How building ends at [p]. *)
Definition build_ends_at (p : plugin) (r : outcome (Result unit)) : Prop :=
  (exists e, r = Ret (fail PluginInitFailed
     ("plugin '" +:+ pm_name (manifest p) +:+ "' build failed: " +:+ error_to_string e))) \/
  exists why, r = Panic why.
Lemma build_each_result (ps : list plugin) (c : plugin_context) :
  match snd (trace ps c) with
  | None => fst (build_each ps c) = Ret (Ok tt) /\ manifests (snd (build_each ps c)) = manifests c ++ map manifest ps
  | Some p => p ∈ ps /\ build_ends_at p (fst (build_each ps c))
  end.
Proof.
  revert c. induction ps as [|p ps IH]; intros c; simpl; [by rewrite app_nil_r|].
  destruct (build p c) as [ops [[[]|e]|why]]; simpl; [|split; [left|left; by exists e]|split; [left|right; by exists why]].
  set (c' := push_manifest _ _). specialize (IH c').
  assert (manifests c' = manifests c ++ [manifest p]) as Hc.
  { subst c'. simpl. by rewrite run_ops_manifests. }
  destruct (trace ps c') as [rest [q|]]; simpl in *.
  - destruct IH as [Hq He]. split; [by right|done].
  - destruct IH as [-> ->]. split; [done|]. by rewrite Hc, <- app_assoc.
Qed.

Lemma timeout_time d h : 0 <= d -> snd (timeout d h) <= d.
Proof. intros. unfold timeout. repeat case_match; simpl; lia. Qed.

Lemma run_hooks_spec d hooks :
  0 <= d ->
  let '(r, ran, t) := run_hooks d hooks in
  t <= Z.of_nat (length ran) * d /\
  ((Forall (fun h => hook_ok d h = true) hooks /\ ran = hooks /\ r = Ok tt) \/
   exists pre h post, hooks = pre ++ h :: post /\ Forall (fun h => hook_ok d h = true) pre /\
     hook_ok d h = false /\ ran = pre ++ [h] /\ r = hook_err d h).
Proof.
  intros Hd. induction hooks as [|h hooks IH]; simpl.
  { split; [lia|]. left. by split. }
  pose proof (timeout_time d h Hd) as Ht.
  destruct (timeout d h) as [[[[]|e]|] t0] eqn:E; simpl in Ht.
  - destruct (run_hooks d hooks) as [[r ran] t]. destruct IH as [IHt IH]. split; [simpl length; lia|].
    assert (hook_ok d h = true) as Hh by (unfold hook_ok; by rewrite E).
    destruct IH as [(Ha & -> & ->)|(pre & g & post & -> & Hpre & Hg & -> & ->)].
    + left. split; [by constructor|done].
    + right. exists (h :: pre), g, post. split_and!; [done|by constructor|done|done|done].
  - split; [simpl length; lia|]. right. exists [], h, hooks. unfold hook_ok, hook_err. rewrite E. by split_and!.
  - split; [simpl length; lia|]. right. exists [], h, hooks. unfold hook_ok, hook_err. rewrite E. by split_and!.
Qed.
End registry.
Arguments plugin _ _ _ _ _ : clear implicits.

(** C34: startup and shutdown fit together: when every plugin builds, the
    registry lists their manifests in order, and shutdown starts the hooks
    they added in exactly the reverse order, each at most once: all of them if
    all succeed, and otherwise those up to and including the first that fails
    or outlives the deadline, whose error is returned; it takes no more than
    the deadline per started hook, and a second shutdown runs nothing. *)
Theorem hooks_run_in_reverse {config codec component router W : Type} (cn ct : codec -> string)
  (ps : list (plugin config codec component router W)) (cfg : config) (d d' : Z)
  r reg ctx sr ran t reg' hooks :
  build_all cn ct ps (PluginContext.new cfg) new = (r, reg, ctx) ->
  shutdown_all d reg = (sr, ran, t, reg') ->
  omap op_hook (fst (trace cn ct ps (PluginContext.new cfg))) = hooks ->
  snd (trace cn ct ps (PluginContext.new cfg)) = None -> 0 <= d ->
  r = Ret (Ok tt) /\ reg_manifests reg = map manifest ps /\ t <= Z.of_nat (length ran) * d /\
  ((Forall (fun h => hook_ok d h = true) hooks /\ ran = reverse hooks /\ sr = Ok tt) \/
   exists later h earlier, hooks = earlier ++ h :: reverse later /\
     Forall (fun h => hook_ok d h = true) later /\ hook_ok d h = false /\
     ran = later ++ [h] /\ sr = hook_err d h) /\
  shutdown_all d' reg' = (Ok tt, [], 0, reg').
Proof.
  pose proof (build_each_result cn ct ps (PluginContext.new cfg)) as Hr.
  pose proof (trace_extends cn ct shutdown_hooks op_hook (fun _ => True) (fun c o _ => run_op_hooks cn ct c o)
    (fun _ _ => eq_refl) ps (PluginContext.new cfg)) as Hh.
  unfold build_all. intros Hb Hsd <- Hf Hd. rewrite Hf in Hr. destruct Hr as [Hr Hm].
  set (tr := trace cn ct ps (PluginContext.new cfg)) in *.
  destruct (build_each cn ct ps (PluginContext.new cfg)) as [r0 ctx0]. simpl in Hr, Hm, Hh. subst r0.
  specialize (Hh ltac:(by apply Forall_true)). injection Hb as <- <- <-.
  unfold shutdown_all in Hsd; simpl reg_hooks in Hsd. rewrite Hh in Hsd.
  pose proof (run_hooks_spec d (reverse (omap op_hook tr.1)) Hd) as Hs.
  destruct (run_hooks d _) as [[sr0 ran0] t0]. injection Hsd as -> -> -> <-. destruct Hs as [Ht Hs].
  split_and!; [done|done|done| |done].
  destruct Hs as [(Hall & -> & ->)|(pre & h & post & Hpp & Hpre & Hh' & -> & ->)]; [left|right].
  - split; [|done]. by rewrite <- (reverse_involutive (omap op_hook tr.1)), Forall_reverse.
  - exists pre, h, (reverse post). split_and!; try done.
    rewrite <- (reverse_involutive (omap op_hook tr.1)), Hpp.
    by rewrite reverse_app, reverse_cons, <- app_assoc.
Qed.

(** When a plugin fails to build, startup stops with an error naming it
    or with the plugin's panic, the plugin registry is left as it was, and the hooks that it and the
    plugins before it added stay in the context: a shutdown of the registry
    runs none of them, so what those plugins opened is not closed by their
    hooks. *)
Theorem failed_build_runs_no_hook {config codec component router W : Type} (cn ct : codec -> string)
  (ps : list (plugin config codec component router W)) (cfg : config) (d : Z) (p : plugin config codec component router W)
  r reg ctx :
  build_all cn ct ps (PluginContext.new cfg) new = (r, reg, ctx) ->
  snd (trace cn ct ps (PluginContext.new cfg)) = Some p ->
  (p ∈ ps) /\ build_ends_at p r /\ reg = new /\
  shutdown_hooks ctx = omap op_hook (fst (trace cn ct ps (PluginContext.new cfg))) /\
  shutdown_all d reg = (Ok tt, [], 0, new).
Proof.
  pose proof (build_each_result cn ct ps (PluginContext.new cfg)) as Hr.
  pose proof (trace_extends cn ct shutdown_hooks op_hook (fun _ => True) (fun c o _ => run_op_hooks cn ct c o)
    (fun _ _ => eq_refl) ps (PluginContext.new cfg)) as Hh.
  unfold build_all. intros Hb Hf. rewrite Hf in Hr. destruct Hr as [Hp He].
  set (tr := trace cn ct ps (PluginContext.new cfg)) in *.
  destruct (build_each cn ct ps (PluginContext.new cfg)) as [r0 ctx0]. simpl in He, Hh.
  specialize (Hh ltac:(by apply Forall_true)).
  assert ((r0, new, ctx0) = (r, reg, ctx)) as [= <- <- <-] by by destruct He as [[e ->] | [why ->]].
  by split_and!.
Qed.

(** The readiness endpoint answers for every health checker any plugin
    added: once the plugins are built (none of them replacing the checker
    registry wholesale), a readiness request probes the added checkers in
    order, reports one row per checker, and answers 200 "ready" exactly when
    every probe is healthy and 503 "not_ready" otherwise. *)
Theorem readiness_reports_every_checker {config codec component router W : Type} (cn ct : codec -> string)
  (ps : list (plugin config codec component router W)) (cfg : config) (w : W)
  r reg ctx state routers ops resp :
  build_all cn ct ps (PluginContext.new cfg) new = (r, reg, ctx) ->
  into_app_parts cn ctx = (state, routers) ->
  trace cn ct ps (PluginContext.new cfg) = (ops, None) ->
  Forall (fun o => replaces_checkers o = false) ops ->
  fst (readyz_handler (state_get HealthCheckerRegistryT state) w) = resp ->
  let probes := probe_all (omap op_checker ops) w in
  checks resp = map row probes /\
  (http_code resp = 200 <-> Forall (fun p => is_healthy (snd p) = true) probes) /\
  (http_code resp = 200 /\ ready resp = "ready" \/ http_code resp = 503 /\ ready resp = "not_ready").
Proof.
  pose proof (build_each_result cn ct ps (PluginContext.new cfg)) as Hr.
  pose proof (trace_extends cn ct registered_checkers op_checker (fun o => replaces_checkers o = false)
    (run_op_checkers cn ct) (fun _ _ => eq_refl) ps (PluginContext.new cfg)) as Hh.
  unfold build_all. intros Hb Hp Hf Hno <-. cbv zeta. rewrite Hf in Hr, Hh. specialize (Hh Hno).
  destruct (build_each cn ct ps (PluginContext.new cfg)) as [r0 ctx0]. simpl in Hr, Hh.
  destruct Hr as [-> _]. injection Hb as <- <- <-.
   apply (f_equal fst) in Hp. simpl in Hp. subst state.
  pose proof (into_app_parts_get cn (MkContext (ctx_config ctx0) [] [] (codecs ctx0) (PluginContext.routers ctx0) (extensions ctx0))
    HealthCheckerRegistryT) as Hg.
  unfold into_app_parts in Hg. simpl in Hg. simpl. rewrite Hg. clear Hg.
  change (registered_checkers (PluginContext.new cfg)) with (@nil (checker W)) in Hh. simpl app in Hh.
  unfold registered_checkers, PluginContext.get, map_get in Hh.
  set (o := match extensions ctx0 !! HealthCheckerRegistryT with Some a => _ | None => _ end).
  assert (default [] o = omap op_checker ops) as Ho.
  { subst o. rewrite <- Hh. by destruct (extensions ctx0 !! HealthCheckerRegistryT). }
  clearbody o. assert (readyz_handler o w = readyz_handler (Some (default [] o)) w) as -> by by destruct o.
  rewrite Ho. apply readyz_spec.
Qed.

(** ** Witnesses: a cache plugin and a store plugin, with and without a
    plugin that fails after them. *)
Definition db_down : app_error := new_error StoreConnectionFailed "refused".
Definition cache_plugin : plugin unit string nat string unit :=
  Plugin (PluginManifest "cache" "0.1.0" "") (fun _ =>
    ([Set_ (OtherT "Cache") 1%nat;
      AddHealthChecker (CacheHealthChecker "cache" (fun _ w => (Ok false, w)));
      AddShutdownHook (Hook (Some 3) (Ok tt))], Ret (Ok tt))).
Definition store_plugin : plugin unit string nat string unit :=
  Plugin (PluginManifest "store" "0.1.0" "") (fun c =>
    (match PluginContext.get (OtherT "Cache") c with
     | Some _ => [AddRouter "/store"]
     | None => []
     end ++
     [AddHealthChecker (StoreHealthChecker "store" (fun w => (Err db_down, w)));
      AddShutdownHook (Hook None (Ok tt))], Ret (Ok tt))).
Definition failing_plugin : plugin unit string nat string unit :=
  Plugin (PluginManifest "mq" "0.1.0" "") (fun _ =>
    ([AddShutdownHook (Hook (Some 1) (Ok tt))], Ret (fail Internal "no broker"))).

Definition started : outcome (Result unit) * plugin_registry * plugin_context unit string nat string unit :=
  build_all id id [cache_plugin; store_plugin] (PluginContext.new tt) new.
Definition failed_start : outcome (Result unit) * plugin_registry * plugin_context unit string nat string unit :=
  build_all id id [cache_plugin; failing_plugin; store_plugin] (PluginContext.new tt) new.

Lemma hooks_run_in_reverse_witness :
  fst (fst started) = Ret (Ok tt) /\
  reg_manifests (snd (fst started)) =
    [PluginManifest "cache" "0.1.0" ""; PluginManifest "store" "0.1.0" ""].
Proof.
  destruct (hooks_run_in_reverse id id [cache_plugin; store_plugin] tt 10 20
    (fst (fst started)) (snd (fst started)) (snd started)
    (fail PluginShutdownTimeout "shutdown hook timed out") [Hook None (Ok tt)] 10
    (MkRegistry [PluginManifest "cache" "0.1.0" ""; PluginManifest "store" "0.1.0" ""] [])
    [Hook (Some 3) (Ok tt); Hook None (Ok tt)]) as (Hr & Hm & _);
    [vm_compute; reflexivity..|lia|exact (conj Hr Hm)].
Defined.

Lemma failed_build_runs_no_hook_witness :
  snd (fst failed_start) = new /\
  shutdown_all 10 (snd (fst failed_start)) = (Ok tt, [], 0, new).
Proof.
  destruct (failed_build_runs_no_hook id id [cache_plugin; failing_plugin; store_plugin] tt 10
    failing_plugin (fst (fst failed_start)) (snd (fst failed_start)) (snd failed_start))
    as (_ & _ & Hreg & _ & Hs); [vm_compute; reflexivity..|exact (conj Hreg Hs)].
Defined.

Definition answer : readiness_response :=
  fst (readyz_handler (state_get HealthCheckerRegistryT (fst (into_app_parts id (snd started)))) tt).
Lemma readiness_reports_every_checker_witness :
  checks answer = [CheckResult "cache" "ok" None; CheckResult "store" "fail" (Some (error_to_string db_down))].
Proof.
  refine (proj1 (readiness_reports_every_checker id id [cache_plugin; store_plugin] tt tt
    (fst (fst started)) (snd (fst started)) (snd started) (fst (into_app_parts id (snd started)))
    (snd (into_app_parts id (snd started)))
    (fst (trace id id [cache_plugin; store_plugin] (PluginContext.new tt))) answer _ _ _ _ _)).
  1,2,3,5: vm_compute; reflexivity.
  repeat (apply Forall_cons_2; [reflexivity|]). apply Forall_nil_2.
Defined.
End PluginRegistry.
