(* ===== verification/Builtin.v ===== *)
(** The built-in plugins ([rinfra-plugins/src/plugin/builtin.rs]): what each
    one builds from its configuration section, which of them the compiled
    features put into the list, and in which order.

    A component is described by what it was constructed from.  What the rest
    of the system answers while the plugins build (connections, environment
    variables, the translation directory), and where a library panics instead,
    is the record [platform]. *)

From S2P Require Import Prelude Errors Resilience Registries Lock Timer Tcp Crypto Mq.
From S2P Require Import I18n RateLimit HttpClient FileStore Tasks Cache AuditTrail Config ConfigLoad Plugins.
Import Health PluginContext PluginRegistry.

(** * Components *)
Module Components.

(** The Cargo features the list depends on. *)
Inductive feature : Type :=
| FPostgres | FMysql | FSqlite | FRedis | FMemoryCache | FNats | FRedisMq | FGrpc | FHttpClient
| FCrypto | FTimer | FCodecMsgpack | FCodecProtobuf.

(** The three codecs with their [name] and [content_type]. *)
Inductive builtin_codec : Type := JsonCodec | MsgpackCodec | ProtobufCodec.
Definition codec_name (c : builtin_codec) : string :=
  match c with JsonCodec => "json" | MsgpackCodec => "msgpack" | ProtobufCodec => "protobuf" end.
Definition codec_content_type (c : builtin_codec) : string :=
  match c with
  | JsonCodec => "application/json"
  | MsgpackCodec => "application/msgpack"
  | ProtobufCodec => "application/x-protobuf"
  end.

Inductive cache_component : Type :=
| MemoryCache (c : MemoryCacheConfig.t)
| RedisCache (c : RedisCacheConfig.t)
| MultilevelCache (l1 : MemoryCacheConfig.t) (l2 : RedisCacheConfig.t).
Inductive sql_store : Type :=
| PostgresStore (c : PostgresConfig.t)
| MysqlStore (c : MysqlConfig.t)
| SqliteStore (c : SqliteConfig.t).
Inductive message_bus : Type :=
| MemoryBus (b : InMemoryBus.bus)
| NatsBus (c : NatsConfig.t)
| RedisStreamBus (c : RedisStreamMqConfig.t).
Inductive rate_limiter : Type :=
| MemoryLimiter (l : MemoryRateLimiter.memory_rate_limiter)
| RedisLimiter (c : RedisRateLimitConfig.t).
Inductive key_provider : Type := EnvKeyProvider | FileKeyProvider (c : FileKeyConfig.t).
Inductive distributed_lock : Type :=
| MemoryLock (l : InMemoryLock.in_memory_lock)
| RedisLock (c : RedisLockConfig.t).

(** [WasmEngine], [PythonEngine], [JsEngine] and their [engine_name] *)
Inductive script_engine : Type :=
| WasmEngine (c : WasmScriptConfig.t)
| PythonEngine (c : PythonScriptConfig.t)
| JsEngine (c : JsScriptConfig.t).
Definition script_engine_name (e : script_engine) : string :=
  match e with WasmEngine _ => "wasm" | PythonEngine _ => "python" | JsEngine _ => "js" end.

(** [SimpleTimerEngine] with the lock it was given, and its [engine_name]. *)
Inductive timer_engine : Type :=
| SimpleEngine (e : SimpleTimer.engine) (lock : option distributed_lock).
Definition timer_engine_name (_ : timer_engine) : string := "simple".

Section components.
Context {W : Type}.

(** What the type map holds, one constructor per type it is indexed with; the
    watcher is there with the task its [start] spawned. *)
Inductive component : Type :=
| CacheC (c : cache_component)                     (* Arc<dyn Cache> *)
| StoreC (s : sql_store)                           (* Arc<dyn Store> *)
| DbC (s : sql_store)                              (* Arc<dyn DbConnection> *)
| MessageBusC (b : message_bus)                    (* Arc<dyn MessageBus> *)
| RateLimiterC (l : rate_limiter)                  (* Arc<dyn RateLimiter> *)
| KeyProviderC (p : key_provider)                  (* Arc<dyn KeyProvider> *)
| VersionedKeyProviderC (p : Rotating.provider)    (* Arc<dyn VersionedKeyProvider> *)
| CryptoC (key : bytes)                            (* Arc<dyn Crypto> *)
| ScriptEnginesC (r : gmap string script_engine)   (* ScriptEngineRegistry *)
| TimerEnginesC (r : gmap string timer_engine)     (* TimerEngineRegistry *)
| FileStoreC (s : FileStore.local_file_store)      (* Arc<dyn FileStore> *)
| HttpClientC (c : HttpClient.client)              (* Arc<dyn HttpClient> *)
| LockC (l : distributed_lock)                     (* Arc<dyn DistributedLock> *)
| AuditC (path : string)                           (* Arc<dyn AuditLogger> *)
| I18nC (i : FileI18n.file_i18n)                   (* Arc<dyn I18n> *)
| ConfigWatcherC (w : Watch.watcher (W := W)) (tasks : list Watch.loop).  (* Arc<dyn ConfigWatcher> *)

(** The types of the map, by name. *)
Definition cache_name : string := "Arc<dyn Cache>".
Definition store_name : string := "Arc<dyn Store>".
Definition db_name : string := "Arc<dyn DbConnection>".
Definition bus_name : string := "Arc<dyn MessageBus>".
Definition limiter_name : string := "Arc<dyn RateLimiter>".
Definition key_name : string := "Arc<dyn KeyProvider>".
Definition versioned_key_name : string := "Arc<dyn VersionedKeyProvider>".
Definition crypto_name : string := "Arc<dyn Crypto>".
Definition scripts_name : string := "ScriptEngineRegistry".
Definition timers_name : string := "TimerEngineRegistry".
Definition files_name : string := "Arc<dyn FileStore>".
Definition http_name : string := "Arc<dyn HttpClient>".
Definition lock_name : string := "Arc<dyn DistributedLock>".
Definition audit_name : string := "Arc<dyn AuditLogger>".
Definition i18n_name : string := "Arc<dyn I18n>".
Definition watcher_name : string := "Arc<dyn ConfigWatcher>".
Definition T_cache : type_id := OtherT cache_name.
Definition T_store : type_id := OtherT store_name.
Definition T_db : type_id := OtherT db_name.
Definition T_bus : type_id := OtherT bus_name.
Definition T_limiter : type_id := OtherT limiter_name.
Definition T_key : type_id := OtherT key_name.
Definition T_versioned_key : type_id := OtherT versioned_key_name.
Definition T_crypto : type_id := OtherT crypto_name.
Definition T_scripts : type_id := OtherT scripts_name.
Definition T_timers : type_id := OtherT timers_name.
Definition T_files : type_id := OtherT files_name.
Definition T_http : type_id := OtherT http_name.
Definition T_lock : type_id := OtherT lock_name.
Definition T_audit : type_id := OtherT audit_name.
Definition T_i18n : type_id := OtherT i18n_name.
Definition T_watcher : type_id := OtherT watcher_name.

(** What the system answers while the plugins build, and what the health
    checkers and shutdown hooks they install will do.  A library's constructor
    or connection may panic: [moka_build], the [build] of moka's builder with a
    configuration's capacity and time to live, does for a time to live that it
    does not take (above a thousand years, by its documentation). *)
Record platform : Type := Platform {
  has : feature -> bool;
  moka_build : MemoryCacheConfig.t -> outcome unit;
  redis_cache_connect : RedisCacheConfig.t -> outcome (Result unit);
  multilevel_connect : RedisCacheConfig.t -> outcome (Result unit);
  store_connect : sql_store -> outcome (Result unit);
  nats_connect : NatsConfig.t -> outcome (Result unit);
  redis_stream_connect : RedisStreamMqConfig.t -> outcome (Result unit);
  redis_limiter_connect : RedisRateLimitConfig.t -> outcome (Result unit);
  redis_lock_connect : RedisLockConfig.t -> outcome (Result unit);
  env_var : string -> option string;
  reqwest_build : HttpClientConfig.t -> result string unit;
  i18n_dir : string -> option (result string (list FileI18n.dir_entry));
  yaml_debug_key : FileI18n.yaml -> string;
  yaml_from_str : string -> result string FileI18n.yaml;
  cache_exists : cache_component -> string -> W -> Result bool * W;
  store_health : sql_store -> W -> Result bool * W;
  bus_health : message_bus -> W -> Result bool * W;
  close_time : cache_component + rate_limiter -> option Z;
  disconnect : sql_store -> option Z * Result unit;
  audit_log : string -> audit_event -> M W (Result unit);
  fresh_uuid : W -> string;
  utc_now : W -> Z;
}.
End components.
Arguments component : clear implicits.
Arguments platform : clear implicits.
End Components.
Import Components.

(** * The plugins *)
Module BuiltinPlugins.
#[local] Existing Instance MqBackend.mq_backend_eq_dec.
Section plugins.
Context {router W : Type} (os : platform W).
Abbreviation component := (component W).
Abbreviation context := (plugin_context RinfraConfig.t builtin_codec component router W).
Abbreviation op := (ctx_op builtin_codec component router W).
Abbreviation plugin := (plugin RinfraConfig.t builtin_codec component router W).
Abbreviation built := (list op * outcome (Result unit))%type.

Definition run_ops (ops : list op) (ctx : context) : context :=
  fold_left (run_op codec_name codec_content_type) ops ctx.
(** [ctx.config().plugins] *)
Definition plugins_of (ctx : context) : PluginConfigs.t := RinfraConfig.plugins (ctx_config ctx).

(** A build that changes nothing, and one that changes the context once [r]
    has come out well. *)
Definition skip : built := ([], Ret (Ok tt)).
Definition once {A} (r : outcome (Result A)) (f : A -> list op) : built :=
  match r with
  | Ret (Ok a) => (f a, Ret (Ok tt))
  | Ret (Err e) => ([], Ret (Err e))
  | Panic why => ([], Panic why)
  end.
(** A call without an error. *)
Definition infallible {A} (x : outcome A) : outcome (Result A) := a ← x; Ret (Ok a).

(** [if let Err(e) = x.connect().await { if cfg.required { return Err(..) } .. }] *)
Definition connect_or_continue (what : string) (required : bool) (r : outcome (Result unit)) : outcome (Result unit) :=
  match r with
  | Panic why => Panic why
  | Ret (Ok _) => Ret (Ok tt)
  | Ret (Err e) =>
      Ret (if required
           then fail PluginInitFailed (what +:+ " connect failed (required): " +:+ error_to_string e)
           else Ok tt)
  end.

(** ** Caches *)
Definition MemoryCachePlugin : plugin :=
  Plugin (PluginManifest "cache.memory" "0.1.0" "In-memory cache (moka)") (fun ctx =>
    let cfg := CachePluginConfigs.memory (PluginConfigs.cache (plugins_of ctx)) in
    if negb (MemoryCacheConfig.enabled cfg) then skip
    else once (infallible (moka_build os cfg)) (fun _ => [Set_ T_cache (CacheC (MemoryCache cfg))])).

(** A cache with its checker, and the cache its hook closes. *)
Definition install_cache (n : string) (c closed : cache_component) : list op :=
  [AddHealthChecker (CacheHealthChecker n (cache_exists os c));
   Set_ T_cache (CacheC c);
   AddShutdownHook (Hook (close_time os (inl closed)) (Ok tt))].
Definition RedisCachePlugin : plugin :=
  Plugin (PluginManifest "cache.redis" "0.1.0" "Redis cache") (fun ctx =>
    let cfg := CachePluginConfigs.redis (PluginConfigs.cache (plugins_of ctx)) in
    if negb (RedisCacheConfig.enabled cfg) then skip
    else
      let cache := RedisCache cfg in
      once (connect_or_continue "redis cache" (RedisCacheConfig.required cfg) (redis_cache_connect os cfg))
        (fun _ => install_cache "cache.redis" cache cache)).

(** The two levels, and the connection of the second, whose failure is only logged. *)
Definition multilevel_check (mem_cfg : MemoryCacheConfig.t) (redis_cfg : RedisCacheConfig.t) : outcome (Result unit) :=
  _ ← moka_build os mem_cfg; connect_or_continue "" false (multilevel_connect os redis_cfg).
Definition MultilevelCachePlugin : plugin :=
  Plugin (PluginManifest "cache.multilevel" "0.1.0" "Multi-level cache (L1+L2)") (fun ctx =>
    let cfg := PluginConfigs.cache (plugins_of ctx) in
    if negb (MultilevelCacheConfig.enabled (CachePluginConfigs.multilevel cfg)) then skip
    else
      let mem_cfg := CachePluginConfigs.memory cfg in
      let redis_cfg := CachePluginConfigs.redis cfg in
      if negb (MemoryCacheConfig.enabled mem_cfg) || negb (RedisCacheConfig.enabled redis_cfg) then skip
      else
        let l2 := RedisCache redis_cfg in
        let ml := MultilevelCache mem_cfg redis_cfg in
        once (multilevel_check mem_cfg redis_cfg)
          (fun _ => install_cache "cache.multilevel" ml l2)).

(** ** Stores *)
Definition install_store (n : string) (store : sql_store) : list op :=
  [Set_ T_store (StoreC store);
   Set_ T_db (DbC store);
   AddHealthChecker (StoreHealthChecker n (store_health os store));
   AddShutdownHook (Hook (fst (disconnect os store)) (snd (disconnect os store)))].

Definition PostgresStorePlugin : plugin :=
  Plugin (PluginManifest "store.postgres" "0.1.0" "PostgreSQL store") (fun ctx =>
    let cfg := StorePluginConfigs.postgres (PluginConfigs.store (plugins_of ctx)) in
    if negb (PostgresConfig.enabled cfg) then skip
    else
      let store := PostgresStore cfg in
      once (connect_or_continue "postgres store" (PostgresConfig.required cfg) (store_connect os store))
        (fun _ => install_store "store.postgres" store)).
Definition MysqlStorePlugin : plugin :=
  Plugin (PluginManifest "store.mysql" "0.1.0" "MySQL store") (fun ctx =>
    let cfg := StorePluginConfigs.mysql (PluginConfigs.store (plugins_of ctx)) in
    if negb (MysqlConfig.enabled cfg) then skip
    else
      let store := MysqlStore cfg in
      once (connect_or_continue "mysql store" (MysqlConfig.required cfg) (store_connect os store))
        (fun _ => install_store "store.mysql" store)).
Definition SqliteStorePlugin : plugin :=
  Plugin (PluginManifest "store.sqlite" "0.1.0" "SQLite store") (fun ctx =>
    let cfg := StorePluginConfigs.sqlite (PluginConfigs.store (plugins_of ctx)) in
    if negb (SqliteConfig.enabled cfg) then skip
    else
      let store := SqliteStore cfg in
      once (connect_or_continue "sqlite store" (SqliteConfig.required cfg) (store_connect os store))
        (fun _ => install_store "store.sqlite" store)).

(** ** Message buses *)
Definition install_bus (n : string) (bus : message_bus) : list op :=
  [AddHealthChecker (MessageBusHealthChecker n (bus_health os bus)); Set_ T_bus (MessageBusC bus)].

Definition InMemoryBusPlugin : plugin :=
  Plugin (PluginManifest "mq.memory" "0.1.0" "In-memory message bus") (fun ctx =>
    let cfg := PluginConfigs.mq (plugins_of ctx) in
    if negb (bool_decide (MqPluginConfigs.backend cfg = MqBackend.Memory)) then skip
    else
      let capacity := MemoryMqConfig.channel_capacity (MqPluginConfigs.memory cfg) in
      (install_bus "mq.memory" (MemoryBus (InMemoryBus.new (Z.to_nat capacity))), Ret (Ok tt))).
Definition NatsBusPlugin : plugin :=
  Plugin (PluginManifest "mq.nats" "0.1.0" "NATS JetStream message bus") (fun ctx =>
    let cfg := PluginConfigs.mq (plugins_of ctx) in
    if negb (bool_decide (MqPluginConfigs.backend cfg = MqBackend.Nats)) then skip
    else
      let nats_cfg := MqPluginConfigs.nats cfg in
      once (nats_connect os nats_cfg) (fun _ => install_bus "mq.nats" (NatsBus nats_cfg))).
Definition RedisStreamBusPlugin : plugin :=
  Plugin (PluginManifest "mq.redis_streams" "0.1.0" "Redis Streams message bus") (fun ctx =>
    let cfg := PluginConfigs.mq (plugins_of ctx) in
    if negb (bool_decide (MqPluginConfigs.backend cfg = MqBackend.RedisStreams)) then skip
    else
      let rs_cfg := MqPluginConfigs.redis_streams cfg in
      once (redis_stream_connect os rs_cfg)
        (fun _ => install_bus "mq.redis_streams" (RedisStreamBus rs_cfg))).

(** ** Rate limiters *)
Definition MemoryRateLimiterPlugin : plugin :=
  Plugin (PluginManifest "ratelimit.memory" "0.1.0" "In-memory rate limiter") (fun ctx =>
    let cfg := RateLimitPluginConfigs.memory (PluginConfigs.ratelimit (plugins_of ctx)) in
    if negb (MemoryRateLimitConfig.enabled cfg) then skip
    else
      let limiter := MemoryRateLimiter.new (MemoryRateLimitConfig.burst_size cfg)
                       (MemoryRateLimitConfig.requests_per_second cfg) in
      ([Set_ T_limiter (RateLimiterC (MemoryLimiter limiter))], Ret (Ok tt))).
Definition RedisRateLimiterPlugin : plugin :=
  Plugin (PluginManifest "ratelimit.redis" "0.1.0" "Redis-backed distributed rate limiter") (fun ctx =>
    let cfg := RateLimitPluginConfigs.redis (PluginConfigs.ratelimit (plugins_of ctx)) in
    if negb (RedisRateLimitConfig.enabled cfg) then skip
    else
      let limiter := RedisLimiter cfg in
      once (connect_or_continue "redis rate limiter" (RedisRateLimitConfig.required cfg)
              (redis_limiter_connect os cfg))
        (fun _ =>
          [Set_ T_limiter (RateLimiterC limiter);
           AddShutdownHook (Hook (close_time os (inr limiter)) (Ok tt))])).

(** ** Codecs *)
Definition codec_build (c : builtin_codec) (ctx : context) : built :=
  ([AddCodec c], Ret (fst (add_codec codec_name codec_content_type c ctx))).
Definition JsonCodecPlugin : plugin :=
  Plugin (PluginManifest "codec.json" "0.1.0" "JSON codec") (codec_build JsonCodec).
Definition MsgpackCodecPlugin : plugin :=
  Plugin (PluginManifest "codec.msgpack" "0.1.0" "MessagePack codec") (codec_build MsgpackCodec).
Definition ProtobufCodecPlugin : plugin :=
  Plugin (PluginManifest "codec.protobuf" "0.1.0" "Protobuf codec (prost)") (codec_build ProtobufCodec).

(** ** The servers' placeholders *)
Definition GrpcPlugin : plugin :=
  Plugin (PluginManifest "net.rpc" "0.1.0" "gRPC server (tonic)") (fun _ => skip).
Definition TrpcPlugin : plugin :=
  Plugin (PluginManifest "net.trpc" "0.1.0" "Lightweight TCP RPC server") (fun _ => skip).

(** ** Key providers and encryption *)
Definition EnvKeyProviderPlugin : plugin :=
  Plugin (PluginManifest "crypto.env_key" "0.1.0" "Environment variable key provider") (fun _ =>
    ([Set_ T_key (KeyProviderC EnvKeyProvider)], Ret (Ok tt))).
Definition FileKeyProviderPlugin : plugin :=
  Plugin (PluginManifest "crypto.file_key" "0.1.0" "File-based key provider") (fun ctx =>
    let cfg := CryptoPluginConfigs.file (PluginConfigs.crypto (plugins_of ctx)) in
    if negb (FileKeyConfig.enabled cfg) then skip
    else ([Set_ T_key (KeyProviderC (FileKeyProvider cfg))], Ret (Ok tt))).
Definition RotatingKeyProviderPlugin : plugin :=
  Plugin (PluginManifest "crypto.rotating_key" "0.1.0" "Rotating versioned key provider") (fun ctx =>
    let cfg := CryptoPluginConfigs.rotating (PluginConfigs.crypto (plugins_of ctx)) in
    if negb (RotatingKeyConfig.enabled cfg) then skip
    else
      let provider := Rotating.new (RotatingKeyConfig.max_key_versions cfg) in
      ([Set_ T_versioned_key (VersionedKeyProviderC provider)], Ret (Ok tt))).

(** [key_provider.get_key(..)] of either provider *)
Definition get_key (p : key_provider) (key_id : string) : Result bytes :=
  match p with
  | EnvKeyProvider => Providers.env_get_key (env_var os) key_id
  | FileKeyProvider c => Providers.file_get_key (FileKeyConfig.enabled c) (FileKeyConfig.path c) key_id
  end.
(** [ctx.get::<Arc<dyn KeyProvider>>()] *)
Definition key_provider_of (ctx : context) : option key_provider :=
  match PluginContext.get T_key ctx with Some (KeyProviderC p) => Some p | _ => None end.
Definition key_error (name : string) (e : app_error) : app_error :=
  new_error PluginInitFailed
    ("crypto.aesgcm: failed to read key from '" +:+ name +:+ "': " +:+ error_to_string e).
Definition aesgcm_key (provider : option key_provider) (cfg : AesGcmConfig.t) : Result bytes :=
  match provider with
  | None => fail PluginInitFailed "crypto.aesgcm requires a KeyProvider plugin (e.g. crypto.env_key)"
  | Some p =>
      key ← map_err (key_error (AesGcmConfig.key_env_var cfg)) (get_key p (AesGcmConfig.key_env_var cfg));
      AesGcm.new key
  end.
Definition AesGcmCryptoPlugin : plugin :=
  Plugin (PluginManifest "crypto.aesgcm" "0.1.0" "AES-256-GCM encryption") (fun ctx =>
    let cfg := CryptoPluginConfigs.aesgcm (PluginConfigs.crypto (plugins_of ctx)) in
    if negb (AesGcmConfig.enabled cfg) then skip
    else once (Ret (aesgcm_key (key_provider_of ctx) cfg)) (fun key => [Set_ T_crypto (CryptoC key)])).

(** ** Script engines *)
Definition scripts_of (ctx : context) : option (gmap string script_engine) :=
  match PluginContext.get T_scripts ctx with Some (ScriptEnginesC r) => Some r | _ => None end.
Definition ensure_script_registry (ctx : context) : list op :=
  match scripts_of ctx with None => [Set_ T_scripts (ScriptEnginesC ∅)] | Some _ => [] end.
(** [get_mut().unwrap().register(engine)?], after the registry was ensured *)
Definition register_script_engine (e : script_engine) (ctx : context) : built :=
  let ops := ensure_script_registry ctx in
  let engines := default ∅ (scripts_of (run_ops ops ctx)) in
  let r := Engines.register_script script_engine_name e engines in
  (ops ++ [Set_ T_scripts (ScriptEnginesC (snd r))], Ret (fst r)).

Definition WasmScriptPlugin : plugin :=
  Plugin (PluginManifest "script.wasm" "0.1.0" "WASM script engine") (fun ctx =>
    let cfg := ScriptPluginConfigs.wasm (PluginConfigs.script (plugins_of ctx)) in
    if negb (WasmScriptConfig.enabled cfg) then skip
    else register_script_engine (WasmEngine cfg) ctx).
Definition PythonScriptPlugin : plugin :=
  Plugin (PluginManifest "script.python" "0.1.0" "Python script engine") (fun ctx =>
    let cfg := ScriptPluginConfigs.python (PluginConfigs.script (plugins_of ctx)) in
    if negb (PythonScriptConfig.enabled cfg) then skip
    else register_script_engine (PythonEngine cfg) ctx).
Definition JsScriptPlugin : plugin :=
  Plugin (PluginManifest "script.js" "0.1.0" "JavaScript script engine") (fun ctx =>
    let cfg := ScriptPluginConfigs.js (PluginConfigs.script (plugins_of ctx)) in
    if negb (JsScriptConfig.enabled cfg) then skip
    else register_script_engine (JsEngine cfg) ctx).

(** ** Lock and timer *)
Definition lock_backend (cfg : LockPluginConfigs.t) : outcome (Result distributed_lock) :=
  if String.eqb (LockPluginConfigs.backend cfg) "redis" && has os FRedis
  then r ← redis_lock_connect os (LockPluginConfigs.redis cfg);
       Ret (_ ← r; Ok (RedisLock (LockPluginConfigs.redis cfg)))
  else Ret (Ok (MemoryLock InMemoryLock.new)).
Definition LockPlugin : plugin :=
  Plugin (PluginManifest "lock" "0.1.0" "Distributed lock (memory / redis)") (fun ctx =>
    let cfg := PluginConfigs.lock (plugins_of ctx) in
    if negb (LockPluginConfigs.enabled cfg) then skip
    else once (lock_backend cfg) (fun lock => [Set_ T_lock (LockC lock)])).

Definition lock_of (ctx : context) : option distributed_lock :=
  match PluginContext.get T_lock ctx with Some (LockC l) => Some l | _ => None end.
Definition timers_of (ctx : context) : option (gmap string timer_engine) :=
  match PluginContext.get T_timers ctx with Some (TimerEnginesC r) => Some r | _ => None end.
Definition ensure_timer_registry (ctx : context) : list op :=
  match timers_of ctx with None => [Set_ T_timers (TimerEnginesC ∅)] | Some _ => [] end.
(** [Semaphore::MAX_PERMITS], above which [Semaphore::new] panics *)
Definition max_permits : Z := Z.shiftr (2 ^ 64 - 1) 3.
Definition simple_engine (cfg : SimpleTimerConfig.t) (lock : option distributed_lock) : outcome timer_engine :=
  if max_permits <? SimpleTimerConfig.max_concurrent cfg
  then Panic "a semaphore may not have more than MAX_PERMITS permits"
  else
    let engine := SimpleTimer.new (Z.to_nat (SimpleTimerConfig.max_concurrent cfg)) in
    Ret match lock with
        | Some l => SimpleEngine (SimpleTimer.with_lock engine) (Some l)
        | None => SimpleEngine engine None
        end.
Definition SimpleTimerPlugin : plugin :=
  Plugin (PluginManifest "timer.simple" "0.1.0" "Simple in-process timer engine") (fun ctx =>
    let cfg := PluginConfigs.timer (plugins_of ctx) in
    if negb (TimerPluginConfigs.enabled cfg) then skip
    else
      let ops := ensure_timer_registry ctx in
      let ctx := run_ops ops ctx in
      match simple_engine (TimerPluginConfigs.simple cfg) (lock_of ctx) with
      | Panic why => (ops, Panic why)
      | Ret engine =>
          let r := Engines.register_timer timer_engine_name engine (default ∅ (timers_of ctx)) in
          (ops ++ [Set_ T_timers (TimerEnginesC (snd r))], Ret (fst r))
      end).

(** ** Files, HTTP client, audit, translations, configuration watcher *)
Definition LocalFileStorePlugin : plugin :=
  Plugin (PluginManifest "file_store.local" "0.1.0" "Local filesystem file store") (fun ctx =>
    let cfg := PluginConfigs.file_store (plugins_of ctx) in
    if negb (FileStorePluginConfigs.enabled cfg) then skip
    else
      let root := LocalFileStoreConfig.root_dir (FileStorePluginConfigs.local cfg) in
      ([Set_ T_files (FileStoreC (FileStore.LocalFileStore root))], Ret (Ok tt))).

Definition http_client (cfg : HttpClientConfig.t) : Result HttpClient.client :=
  reqwest_client ← HttpClient.new (reqwest_build os cfg) (HttpClientConfig.max_retries cfg)
                     (HttpClientConfig.retry_delay_ms cfg);
  Ok (HttpClient.with_circuit_breaker reqwest_client "http_client" CircuitBreaker.default_config).
Definition HttpClientPlugin : plugin :=
  Plugin (PluginManifest "http_client" "0.1.0" "HTTP client (reqwest)") (fun ctx =>
    let cfg := PluginConfigs.http_client (plugins_of ctx) in
    if negb (HttpClientConfig.enabled cfg) then skip
    else once (Ret (http_client cfg)) (fun client => [Set_ T_http (HttpClientC client)])).

Definition FileAuditPlugin : plugin :=
  Plugin (PluginManifest "audit.file" "0.1.0" "File-based audit logger") (fun ctx =>
    let cfg := PluginConfigs.audit (plugins_of ctx) in
    if negb (AuditPluginConfigs.enabled cfg) then skip
    else ([Set_ T_audit (AuditC (AuditFileConfig.path (AuditPluginConfigs.file cfg)))], Ret (Ok tt))).

Definition load_i18n (cfg : I18nConfig.t) : Result FileI18n.file_i18n :=
  FileI18n.load (yaml_debug_key os) (yaml_from_str os) (I18nConfig.dir cfg)
    (i18n_dir os (I18nConfig.dir cfg)) (I18nConfig.default_locale cfg).
Definition I18nPlugin : plugin :=
  Plugin (PluginManifest "i18n" "0.1.0" "File-based i18n") (fun ctx =>
    let cfg := PluginConfigs.i18n (plugins_of ctx) in
    if negb (I18nConfig.enabled cfg) then skip
    else once (Ret (load_i18n cfg)) (fun i18n => [Set_ T_i18n (I18nC i18n)])).

Definition audit_of (ctx : context) : option string :=
  match PluginContext.get T_audit ctx with Some (AuditC path) => Some path | _ => None end.
Definition config_watcher (config_path : string) (cfg : ConfigWatchConfig.t) (audit : option string) :
  Watch.watcher (W := W) * list Watch.loop :=
  let watcher := Watch.new config_path (ConfigWatchConfig.poll_interval_secs cfg) in
  let watcher := Watch.add_handler watcher Watch.log_config_reload_handler in
  let watcher :=
    match audit with
    | Some path =>
        Watch.add_handler watcher
          (Watch.audit_config_reload_handler (fresh_uuid os) (utc_now os) (audit_log os path))
    | None => watcher
    end in
  Watch.start watcher.
Definition ConfigWatchPlugin : plugin :=
  Plugin (PluginManifest "config_watch" "0.1.0" "Config file hot-reload") (fun ctx =>
    let cfg := PluginConfigs.config_watch (plugins_of ctx) in
    if negb (ConfigWatchConfig.enabled cfg) then skip
    else
      let w := config_watcher (RinfraConfig.config_path (ctx_config ctx)) cfg (audit_of ctx) in
      ([Set_ T_watcher (ConfigWatcherC (fst w) (snd w))], Ret (Ok tt))).

(** ** The list *)
Definition cfg_if (b : bool) (p : plugin) : list plugin := if b then [p] else [].
Definition any_sql : bool := has os FPostgres || has os FMysql || has os FSqlite.
Definition codec_plugins : list plugin :=
  [JsonCodecPlugin]
  ++ cfg_if (has os FCodecMsgpack) MsgpackCodecPlugin
  ++ cfg_if (has os FCodecProtobuf) ProtobufCodecPlugin.
Definition component_plugins : list plugin :=
  cfg_if (has os FMemoryCache) MemoryCachePlugin
  ++ cfg_if (has os FRedis) RedisCachePlugin
  ++ cfg_if (has os FMemoryCache && has os FRedis) MultilevelCachePlugin
  ++ [InMemoryBusPlugin]
  ++ cfg_if (has os FNats) NatsBusPlugin
  ++ cfg_if (has os FRedisMq) RedisStreamBusPlugin
  ++ cfg_if any_sql PostgresStorePlugin
  ++ cfg_if (has os FMysql) MysqlStorePlugin
  ++ cfg_if (has os FSqlite) SqliteStorePlugin
  ++ [MemoryRateLimiterPlugin]
  ++ cfg_if (has os FRedis) RedisRateLimiterPlugin
  ++ [EnvKeyProviderPlugin; FileKeyProviderPlugin; RotatingKeyProviderPlugin]
  ++ cfg_if (has os FCrypto) AesGcmCryptoPlugin
  ++ [WasmScriptPlugin; PythonScriptPlugin; JsScriptPlugin]
  ++ cfg_if (has os FGrpc) GrpcPlugin
  ++ [TrpcPlugin; LocalFileStorePlugin]
  ++ cfg_if (has os FHttpClient) HttpClientPlugin
  ++ [LockPlugin]
  ++ cfg_if (has os FTimer) SimpleTimerPlugin
  ++ [FileAuditPlugin; I18nPlugin; ConfigWatchPlugin].
Definition builtin_plugins : list plugin := codec_plugins ++ component_plugins.

(** ** The startup script

    What the list comes to, without contexts: the plugins that can do
    something, in order, each with the check its build stands or falls with
    and the components it then leaves in the type map. *)
Record entry : Type := Entry {
  e_name : string;
  e_check : outcome (Result unit);
  e_sets : list (string * component);
}.
Definition tested {A} (r : outcome (Result A)) : outcome (Result unit) :=
  r ← r; Ret match r with Ok _ => Ok tt | Err e => Err e end.
Definition entry_if {A} (b : bool) (n : string) (r : outcome (Result A)) (f : A -> list (string * component)) :
  list entry :=
  if b then [Entry n (tested r) (match r with Ret (Ok a) => f a | _ => [] end)] else [].

Section script.
Context (cfg : RinfraConfig.t).
Let p := RinfraConfig.plugins cfg.
Let caches := PluginConfigs.cache p.
Let stores := PluginConfigs.store p.
Let mq := PluginConfigs.mq p.
Let limits := PluginConfigs.ratelimit p.
Let crypto := PluginConfigs.crypto p.
Let scripts := PluginConfigs.script p.

Definition memory_cache_on : bool := has os FMemoryCache && MemoryCacheConfig.enabled (CachePluginConfigs.memory caches).
Definition redis_cache_on : bool := has os FRedis && RedisCacheConfig.enabled (CachePluginConfigs.redis caches).
Definition multilevel_on : bool :=
  memory_cache_on && redis_cache_on && MultilevelCacheConfig.enabled (CachePluginConfigs.multilevel caches).
Definition postgres_on : bool := any_sql && PostgresConfig.enabled (StorePluginConfigs.postgres stores).
Definition mysql_on : bool := has os FMysql && MysqlConfig.enabled (StorePluginConfigs.mysql stores).
Definition sqlite_on : bool := has os FSqlite && SqliteConfig.enabled (StorePluginConfigs.sqlite stores).
Definition memory_limiter_on : bool := MemoryRateLimitConfig.enabled (RateLimitPluginConfigs.memory limits).
Definition redis_limiter_on : bool := has os FRedis && RedisRateLimitConfig.enabled (RateLimitPluginConfigs.redis limits).
Definition backend_is (b : MqBackend.t) : bool := bool_decide (MqPluginConfigs.backend mq = b).
Definition aesgcm_on : bool := has os FCrypto && AesGcmConfig.enabled (CryptoPluginConfigs.aesgcm crypto).
Definition timer_on : bool := has os FTimer && TimerPluginConfigs.enabled (PluginConfigs.timer p).
Definition lock_on : bool := LockPluginConfigs.enabled (PluginConfigs.lock p).
Definition audit_on : bool := AuditPluginConfigs.enabled (PluginConfigs.audit p).

Definition redis_cache_check : outcome (Result unit) :=
  connect_or_continue "redis cache" (RedisCacheConfig.required (CachePluginConfigs.redis caches))
    (redis_cache_connect os (CachePluginConfigs.redis caches)).
Definition store_check (what : string) (required : bool) (s : sql_store) : outcome (Result unit) :=
  connect_or_continue what required (store_connect os s).
Definition store_entry (b : bool) (n what : string) (required : bool) (s : sql_store) : list entry :=
  entry_if b n (store_check what required s) (fun _ => [(store_name, StoreC s); (db_name, DbC s)]).
Definition redis_limiter_check : outcome (Result unit) :=
  connect_or_continue "redis rate limiter" (RedisRateLimitConfig.required (RateLimitPluginConfigs.redis limits))
    (redis_limiter_connect os (RateLimitPluginConfigs.redis limits)).

(** The slots that a later plugin reads. *)
Definition chosen_key_provider : key_provider :=
  let file := CryptoPluginConfigs.file crypto in
  if FileKeyConfig.enabled file then FileKeyProvider file else EnvKeyProvider.
Definition wasm_engines : list script_engine :=
  if WasmScriptConfig.enabled (ScriptPluginConfigs.wasm scripts) then [WasmEngine (ScriptPluginConfigs.wasm scripts)] else [].
Definition python_engines : list script_engine :=
  if PythonScriptConfig.enabled (ScriptPluginConfigs.python scripts) then [PythonEngine (ScriptPluginConfigs.python scripts)] else [].
Definition js_engines : list script_engine :=
  if JsScriptConfig.enabled (ScriptPluginConfigs.js scripts) then [JsEngine (ScriptPluginConfigs.js scripts)] else [].
Definition enabled_engines : list script_engine := wasm_engines ++ python_engines ++ js_engines.
Definition engine_map (l : list script_engine) : gmap string script_engine :=
  fold_left (fun m e => <[script_engine_name e := e]> m) l ∅.
Definition chosen_lock : option distributed_lock :=
  if lock_on then match lock_backend (PluginConfigs.lock p) with Ret (Ok l) => Some l | _ => None end else None.
Definition chosen_audit : option string :=
  if audit_on then Some (AuditFileConfig.path (AuditPluginConfigs.file (PluginConfigs.audit p))) else None.

Definition script : list entry :=
  entry_if memory_cache_on "cache.memory" (infallible (moka_build os (CachePluginConfigs.memory caches))) (fun _ =>
    [(cache_name, CacheC (MemoryCache (CachePluginConfigs.memory caches)))])
  ++ entry_if redis_cache_on "cache.redis" redis_cache_check (fun _ =>
    [(cache_name, CacheC (RedisCache (CachePluginConfigs.redis caches)))])
  ++ entry_if multilevel_on "cache.multilevel"
       (multilevel_check (CachePluginConfigs.memory caches) (CachePluginConfigs.redis caches)) (fun _ =>
    [(cache_name, CacheC (MultilevelCache (CachePluginConfigs.memory caches) (CachePluginConfigs.redis caches)))])
  ++ entry_if (backend_is MqBackend.Memory) "mq.memory" (Ret (Ok tt)) (fun _ =>
    [(bus_name, MessageBusC (MemoryBus (InMemoryBus.new
       (Z.to_nat (MemoryMqConfig.channel_capacity (MqPluginConfigs.memory mq))))))])
  ++ entry_if (has os FNats && backend_is MqBackend.Nats) "mq.nats" (nats_connect os (MqPluginConfigs.nats mq))
       (fun _ => [(bus_name, MessageBusC (NatsBus (MqPluginConfigs.nats mq)))])
  ++ entry_if (has os FRedisMq && backend_is MqBackend.RedisStreams) "mq.redis_streams"
       (redis_stream_connect os (MqPluginConfigs.redis_streams mq))
       (fun _ => [(bus_name, MessageBusC (RedisStreamBus (MqPluginConfigs.redis_streams mq)))])
  ++ store_entry postgres_on "store.postgres" "postgres store"
       (PostgresConfig.required (StorePluginConfigs.postgres stores)) (PostgresStore (StorePluginConfigs.postgres stores))
  ++ store_entry mysql_on "store.mysql" "mysql store"
       (MysqlConfig.required (StorePluginConfigs.mysql stores)) (MysqlStore (StorePluginConfigs.mysql stores))
  ++ store_entry sqlite_on "store.sqlite" "sqlite store"
       (SqliteConfig.required (StorePluginConfigs.sqlite stores)) (SqliteStore (StorePluginConfigs.sqlite stores))
  ++ entry_if memory_limiter_on "ratelimit.memory" (Ret (Ok tt)) (fun _ =>
    [(limiter_name, RateLimiterC (MemoryLimiter (MemoryRateLimiter.new
       (MemoryRateLimitConfig.burst_size (RateLimitPluginConfigs.memory limits))
       (MemoryRateLimitConfig.requests_per_second (RateLimitPluginConfigs.memory limits)))))])
  ++ entry_if redis_limiter_on "ratelimit.redis" redis_limiter_check (fun _ =>
    [(limiter_name, RateLimiterC (RedisLimiter (RateLimitPluginConfigs.redis limits)))])
  ++ entry_if true "crypto.key" (Ret (Ok tt)) (fun _ => [(key_name, KeyProviderC chosen_key_provider)])
  ++ entry_if (RotatingKeyConfig.enabled (CryptoPluginConfigs.rotating crypto)) "crypto.rotating_key" (Ret (Ok tt))
       (fun _ => [(versioned_key_name, VersionedKeyProviderC (Rotating.new
          (RotatingKeyConfig.max_key_versions (CryptoPluginConfigs.rotating crypto))))])
  ++ entry_if aesgcm_on "crypto.aesgcm"
       (Ret (aesgcm_key (Some chosen_key_provider) (CryptoPluginConfigs.aesgcm crypto)))
       (fun key => [(crypto_name, CryptoC key)])
  ++ entry_if (negb (bool_decide (enabled_engines = []))) "script" (Ret (Ok tt))
       (fun _ => [(scripts_name, ScriptEnginesC (engine_map enabled_engines))])
  ++ entry_if (FileStorePluginConfigs.enabled (PluginConfigs.file_store p)) "file_store.local" (Ret (Ok tt))
       (fun _ => [(files_name, FileStoreC (FileStore.LocalFileStore
          (LocalFileStoreConfig.root_dir (FileStorePluginConfigs.local (PluginConfigs.file_store p)))))])
  ++ entry_if (has os FHttpClient && HttpClientConfig.enabled (PluginConfigs.http_client p)) "http_client"
       (Ret (http_client (PluginConfigs.http_client p))) (fun c => [(http_name, HttpClientC c)])
  ++ entry_if lock_on "lock" (lock_backend (PluginConfigs.lock p)) (fun l => [(lock_name, LockC l)])
  ++ entry_if timer_on "timer.simple"
       (infallible (simple_engine (TimerPluginConfigs.simple (PluginConfigs.timer p)) chosen_lock))
       (fun e => [(timers_name, TimerEnginesC {["simple" := e]})])
  ++ entry_if audit_on "audit.file" (Ret (Ok tt)) (fun _ =>
    [(audit_name, AuditC (AuditFileConfig.path (AuditPluginConfigs.file (PluginConfigs.audit p))))])
  ++ entry_if (I18nConfig.enabled (PluginConfigs.i18n p)) "i18n" (Ret (load_i18n (PluginConfigs.i18n p)))
       (fun i => [(i18n_name, I18nC i)])
  ++ entry_if (ConfigWatchConfig.enabled (PluginConfigs.config_watch p)) "config_watch" (Ret (Ok tt)) (fun _ =>
    let w := config_watcher (RinfraConfig.config_path cfg) (PluginConfigs.config_watch p) chosen_audit in
    [(watcher_name, ConfigWatcherC (fst w) (snd w))]).
End script.

(** Running a script: the first check that fails or panics ends the startup;
    the map has the last component set in each slot. *)
Fixpoint first_failure (es : list entry) : outcome (Result unit) :=
  match es with
  | [] => Ret (Ok tt)
  | e :: es =>
      match e_check e with
      | Ret (Ok _) => first_failure es
      | Ret (Err x) => Ret (fail PluginInitFailed
                         ("plugin '" +:+ e_name e +:+ "' build failed: " +:+ error_to_string x))
      | Panic why => Panic why
      end
  end.
Fixpoint last_set (n : string) (l : list (string * component)) : option component :=
  match l with
  | [] => None
  | (m, v) :: l =>
      match last_set n l with
      | Some w => Some w
      | None => if String.eqb n m then Some v else None
      end
  end.
Definition sets (es : list entry) : list (string * component) := concat (map e_sets es).
Definition overlay (l : list (string * component)) (g : string -> option component) (n : string) :
  option component := match last_set n l with Some v => Some v | None => g n end.

Lemma last_set_app n l l' :
  last_set n (l ++ l') = match last_set n l' with Some v => Some v | None => last_set n l end.
Proof.
  induction l as [|[m v] l IH]; simpl; [by destruct (last_set n l')|]. rewrite IH. by destruct (last_set n l').
Qed.
Lemma sets_app es es' : sets (es ++ es') = sets es ++ sets es'.
Proof. unfold sets. by rewrite map_app, concat_app. Qed.
Lemma first_failure_app es es' :
  first_failure (es ++ es') = match first_failure es with Ret (Ok _) => first_failure es' | r => r end.
Proof. induction es as [|e es IH]; simpl; [done|]. by destruct (e_check e) as [[]|]. Qed.
Lemma last_set_entry_if {A} n b m (r : outcome (Result A)) f :
  last_set n (sets (entry_if b m r f)) =
  if b then match r with Ret (Ok a) => last_set n (f a) | _ => None end else None.
Proof. unfold entry_if, sets. destruct b; simpl; [|done]. rewrite app_nil_r. by destruct r as [[]|]. Qed.

(** ** What a context is known to hold while the list is built *)
Definition op_set (o : op) : option (string * component) :=
  match o with
  | Set_ t v =>
      match t return value (codec := builtin_codec) (component := component) (W := W) t -> option (string * component) with
      | OtherT n => fun v => Some (n, v)
      | _ => fun _ => None
      end v
  | _ => None
  end.
Definition quiet (o : op) : Prop :=
  match o with AddCodec _ | Set_ CodecRegistryT _ => False | _ => True end.

Section known.
Context (cfg : RinfraConfig.t) (cs : list builtin_codec).

Definition known (g : string -> option component) (ctx : context) : Prop :=
  ctx_config ctx = cfg /\
  codecs ctx = Codecs.register_codecs codec_name codec_content_type cs /\
  extensions ctx !! CodecRegistryT = None /\
  forall n, PluginContext.get (OtherT n) ctx = g n.

Lemma known_set g ctx t v : known g ctx -> t <> CodecRegistryT ->
  known (overlay (option_list (op_set (Set_ t v))) g) (PluginContext.set t v ctx).
Proof.
  intros (Hc & Hcs & He & Hg) Ht. split_and!; [done|done|simpl; unfold map_set; by rewrite lookup_insert_ne|].
  intros m. unfold overlay, PluginContext.get, PluginContext.set; simpl.
  destruct (decide (t = OtherT m)) as [->|Hm].
  - simpl. by rewrite map_get_set, String.eqb_refl.
  - rewrite map_get_set_ne by done. rewrite <- Hg. destruct t as [| |n]; [done..|]. simpl.
    destruct (String.eqb_spec m n); [by subst|done].
Qed.
Lemma known_op g ctx o : known g ctx -> quiet o ->
  known (overlay (option_list (op_set o)) g) (run_op codec_name codec_content_type ctx o).
Proof.
  intros Hk Hq. destruct o as [t v|h|x|r|h]; simpl run_op; [|..|done|exact Hk|exact Hk].
  - apply known_set; [done|]. by intros ->.
  - unfold add_health_checker. case_match; by apply (known_set _ _ HealthCheckerRegistryT).
Qed.
Lemma known_ext g g' ctx : known g ctx -> (forall n, g n = g' n) -> known g' ctx.
Proof. intros (Hc & Hcs & Hx & Hg) He. split_and!; [done..|]. intros n. by rewrite Hg. Qed.
Lemma known_ops g ctx ops : known g ctx -> Forall quiet ops ->
  known (overlay (omap op_set ops) g) (run_ops ops ctx).
Proof.
  revert g ctx. induction ops as [|o ops IH]; intros g ctx Hk Hq; [done|].
  apply Forall_cons in Hq as [Ho Hq].
  eapply known_ext; [exact (IH _ _ (known_op _ _ _ Hk Ho) Hq)|].
  intros n. unfold overlay. csimpl. destruct (op_set o) as [[m v]|]; simpl; [|done].
  by destruct (last_set n (omap op_set ops)), (String.eqb n m).
Qed.

(** Building the plugins [ps] comes to the script [es]. *)
Definition yields (g : string -> option component) (ps : list plugin) (es : list entry) : Prop :=
  forall ctx, known g ctx ->
  match first_failure es with
  | Ret (Ok _) => fst (build_each codec_name codec_content_type ps ctx) = Ret (Ok tt) /\
            known (overlay (sets es) g) (snd (build_each codec_name codec_content_type ps ctx))
  | r => fst (build_each codec_name codec_content_type ps ctx) = r
  end.

Lemma build_each_app ps qs (ctx : context) :
  build_each codec_name codec_content_type (ps ++ qs) ctx =
  match build_each codec_name codec_content_type ps ctx with
  | (Ret (Ok _), ctx) => build_each codec_name codec_content_type qs ctx
  | r => r
  end.
Proof.
  revert ctx. induction ps as [|p ps IH]; intros ctx; simpl; [done|].
  destruct (build p ctx) as [ops [[u|e]|why]]; [apply IH|done..].
Qed.
Lemma yields_app g ps es qs es' :
  yields g ps es -> yields (overlay (sets es) g) qs es' -> yields g (ps ++ qs) (es ++ es').
Proof.
  intros H1 H2 ctx Hk. specialize (H1 ctx Hk). rewrite first_failure_app, build_each_app, sets_app.
  destruct (build_each _ _ ps ctx) as [r ctx']. simpl in H1. destruct (first_failure es) as [[u|e]|why].
  - destruct H1 as [-> Hk']. specialize (H2 ctx' Hk'). destruct (first_failure es') as [[u'|e']|why']; [|done..].
    destruct H2 as [H2 Hk2]. split; [done|]. eapply known_ext; [done|]. intros n. unfold overlay.
    rewrite last_set_app. by destruct (last_set n (sets es')).
  - by subst r.
  - by subst r.
Qed.
Lemma yields_ext g ps es es' : yields g ps es -> first_failure es = first_failure es' ->
  (forall n, last_set n (sets es) = last_set n (sets es')) -> yields g ps es'.
Proof.
  intros H Hf Hs ctx Hk. specialize (H ctx Hk). rewrite <- Hf. destruct (first_failure es) as [[]|]; [|done..].
  destruct H as [H Hk']. split; [done|]. eapply known_ext; [done|]. intros n. unfold overlay. by rewrite Hs.
Qed.

(** A plugin that tests its section, then a result, then installs. *)
Lemma yields_once {A} g b on n p (r : outcome (Result A)) F f :
  pm_name (manifest p) = n ->
  (forall ctx, known g ctx -> build p ctx = if negb on then skip else once r F) ->
  (forall a, Forall quiet (F a)) ->
  (forall a m, last_set m (omap op_set (F a)) = last_set m (f a)) ->
  yields g (cfg_if b p) (entry_if (b && on) n r f).
Proof.
  intros <- Hb Hq Hs ctx Hk. unfold cfg_if, entry_if. destruct b; simpl; [|done]. rewrite Hb by done.
  destruct on; simpl; [|done]. destruct r as [[a|e]|why]; simpl; [|done..]. split; [done|].
  eapply known_ext; [exact (known_ops g ctx (F a) Hk (Hq a))|].
  intros m. unfold overlay, sets. simpl. by rewrite app_nil_r, Hs.
Qed.
End known.

(** ** Each plugin comes to its entry *)
Section each.
Context (cfg : RinfraConfig.t) (cs : list builtin_codec).
Abbreviation yields := (yields cfg cs).
Let p := RinfraConfig.plugins cfg.

Lemma known_plugins {g ctx} : known cfg cs g ctx -> plugins_of ctx = p.
Proof. intros (Hc & _). unfold plugins_of. by rewrite Hc. Qed.
Lemma known_get {g ctx} n : known cfg cs g ctx -> PluginContext.get (OtherT n) ctx = g n.
Proof. intros (_ & _ & _ & Hg). apply Hg. Qed.

#[local] Ltac quiet_ops := intros; repeat constructor.
#[local] Ltac same_build := intros ctx Hk; simpl; rewrite ?(known_plugins Hk); fold p; reflexivity.

#[local] Ltac entry := eapply yields_once with (F := fun _ => _); [done|same_build|quiet_ops|done].

(** A plugin that is always in the list. *)
Lemma yields_listed g q es : yields g (cfg_if true q) es -> yields g [q] es.
Proof. done. Qed.

Lemma multilevel_yields g :
  yields g (cfg_if (has os FMemoryCache && has os FRedis) MultilevelCachePlugin)
    (entry_if (multilevel_on cfg) "cache.multilevel"
      (multilevel_check (CachePluginConfigs.memory (PluginConfigs.cache p)) (CachePluginConfigs.redis (PluginConfigs.cache p)))
      (fun _ =>
      [(cache_name, CacheC (MultilevelCache (CachePluginConfigs.memory (PluginConfigs.cache p))
          (CachePluginConfigs.redis (PluginConfigs.cache p))))])).
Proof.
  set (caches := PluginConfigs.cache p).
  set (on := MultilevelCacheConfig.enabled (CachePluginConfigs.multilevel caches) &&
             (MemoryCacheConfig.enabled (CachePluginConfigs.memory caches) &&
              RedisCacheConfig.enabled (CachePluginConfigs.redis caches))).
  assert (multilevel_on cfg = has os FMemoryCache && has os FRedis && on) as ->.
  { unfold multilevel_on, memory_cache_on, redis_cache_on, on, caches, p.
    by destruct (has os FMemoryCache), (has os FRedis), (MultilevelCacheConfig.enabled _),
      (MemoryCacheConfig.enabled _), (RedisCacheConfig.enabled _). }
  eapply yields_once with (F := fun _ => install_cache "cache.multilevel" _ _); [done| |quiet_ops|done].
  intros ctx Hk. simpl. rewrite (known_plugins Hk). fold caches. subst on.
  destruct (MultilevelCacheConfig.enabled _); [|done].
  destruct (MemoryCacheConfig.enabled _); [|done]. by destruct (RedisCacheConfig.enabled _).
Qed.

(** Encryption reads the key provider that is installed. *)
Lemma aesgcm_yields g : g key_name = Some (KeyProviderC (chosen_key_provider cfg)) ->
  yields g (cfg_if (has os FCrypto) AesGcmCryptoPlugin)
    (entry_if (aesgcm_on cfg) "crypto.aesgcm"
      (Ret (aesgcm_key (Some (chosen_key_provider cfg)) (CryptoPluginConfigs.aesgcm (PluginConfigs.crypto p))))
      (fun key => [(crypto_name, CryptoC key)])).
Proof.
  intros Hkey. eapply yields_once with (F := fun key => [Set_ T_crypto (CryptoC key)]); [done| |quiet_ops|done].
  intros ctx Hk. simpl. rewrite (known_plugins Hk). unfold key_provider_of, T_key.
  by rewrite (known_get _ Hk), Hkey.
Qed.

Lemma key_providers_yield g :
  yields g [EnvKeyProviderPlugin; FileKeyProviderPlugin]
    (entry_if true "crypto.key" (Ret (Ok tt)) (fun _ => [(key_name, KeyProviderC (chosen_key_provider cfg))])).
Proof.
  set (file := CryptoPluginConfigs.file (PluginConfigs.crypto p)).
  eapply yields_ext with (es := entry_if true "crypto.env_key" (Ret (Ok tt)) (fun _ => [(key_name, KeyProviderC EnvKeyProvider)]) ++
    entry_if (FileKeyConfig.enabled file) "crypto.file_key" (Ret (Ok tt))
      (fun _ => [(key_name, KeyProviderC (FileKeyProvider file))])).
  - eapply (yields_app _ _ _ [_] _ [_]).
    + apply yields_listed. eapply (yields_once _ _ _ true true) with (F := fun _ => _);
        [done|same_build|quiet_ops|done].
    + apply (yields_once _ _ _ true _ _ _ _ (fun _ => [Set_ T_key (KeyProviderC (FileKeyProvider file))]));
        [done| |quiet_ops|done].
      intros ctx Hk. simpl. by rewrite (known_plugins Hk).
  - rewrite first_failure_app. unfold entry_if. by destruct (FileKeyConfig.enabled file).
  - intros n. rewrite sets_app, last_set_app, !last_set_entry_if. simpl. unfold chosen_key_provider.
    fold p file. by destruct (FileKeyConfig.enabled file), (String.eqb n key_name).
Qed.

(** The slot of the script engines after [l] were registered. *)
Definition script_slot (l : list script_engine) : option component :=
  if bool_decide (l = []) then None else Some (ScriptEnginesC (engine_map l)).
Definition script_entry (on : bool) (l : list script_engine) : list entry :=
  entry_if on "script" (Ret (Ok tt)) (fun _ => [(scripts_name, ScriptEnginesC (engine_map l))]).

Lemma engine_map_snoc l e : engine_map (l ++ [e]) = <[script_engine_name e := e]> (engine_map l).
Proof. unfold engine_map. by rewrite fold_left_app. Qed.
Lemma engine_map_fresh l e : script_engine_name e ∉ script_engine_name <$> l ->
  engine_map l !! script_engine_name e = None.
Proof.
  induction l as [|x l IH] using rev_ind; [done|]. rewrite engine_map_snoc, fmap_app, not_elem_of_app.
  intros [Hl Hx]. rewrite lookup_insert_ne; [by apply IH|]. intros Heq. apply Hx. simpl. rewrite Heq. by left.
Qed.
Lemma scripts_of_known h ctx l : known cfg cs h ctx -> h scripts_name = script_slot l ->
  scripts_of ctx = if bool_decide (l = []) then None else Some (engine_map l).
Proof.
  intros (_ & _ & _ & Hh) Hl. unfold scripts_of, T_scripts. rewrite Hh, Hl. unfold script_slot. by case_bool_decide.
Qed.
Lemma register_script_engine_known g ctx e l :
  known cfg cs g ctx -> g scripts_name = script_slot l -> script_engine_name e ∉ script_engine_name <$> l ->
  exists pre, register_script_engine e ctx = (pre ++ [Set_ T_scripts (ScriptEnginesC (engine_map (l ++ [e])))], Ret (Ok tt)) /\
              (pre = [] \/ pre = [Set_ T_scripts (ScriptEnginesC ∅)]).
Proof.
  intros Hk Hg Hf. unfold register_script_engine, ensure_script_registry.
  rewrite (scripts_of_known g ctx l Hk Hg). case_bool_decide as Hl; simpl.
  - subst l. assert (scripts_of (PluginContext.set T_scripts (ScriptEnginesC ∅) ctx) = Some ∅) as ->.
    { unfold scripts_of, PluginContext.get, PluginContext.set. simpl. by rewrite map_get_set. }
    exists [Set_ T_scripts (ScriptEnginesC ∅)]. split; [done|by right].
  - rewrite (scripts_of_known g ctx l Hk Hg), bool_decide_false by done. simpl. exists []. split; [|by left].
    unfold Engines.register_script, register_named. rewrite engine_map_fresh by done. by rewrite engine_map_snoc.
Qed.
Lemma script_yields g q on e l :
  g scripts_name = script_slot l -> script_engine_name e ∉ script_engine_name <$> l ->
  (forall ctx, known cfg cs g ctx -> build q ctx = if negb on then skip else register_script_engine e ctx) ->
  yields g [q] (script_entry on (l ++ [e])).
Proof.
  intros Hg Hf Hb ctx Hk. specialize (Hb ctx Hk). unfold script_entry, entry_if.
  destruct (register_script_engine_known g ctx e l Hk Hg Hf) as (pre & Hr & Hpre).
  destruct on; cbn [negb] in Hb; [|by simpl; rewrite Hb]. simpl. rewrite Hb, Hr. split; [done|].
  eapply known_ext; [apply (known_ops _ _ g ctx _ Hk); destruct Hpre as [-> | ->]; repeat constructor|].
  intros n. unfold overlay, sets. simpl. destruct Hpre as [-> | ->]; simpl; by destruct (String.eqb n _).
Qed.

Lemma scripts_yield g : g scripts_name = None ->
  yields g [WasmScriptPlugin; PythonScriptPlugin; JsScriptPlugin]
    (script_entry (negb (bool_decide (enabled_engines cfg = []))) (enabled_engines cfg)).
Proof.
  set (scripts := PluginConfigs.script p). intros Hg.
  set (w := WasmScriptConfig.enabled (ScriptPluginConfigs.wasm scripts)).
  set (y := PythonScriptConfig.enabled (ScriptPluginConfigs.python scripts)).
  set (j := JsScriptConfig.enabled (ScriptPluginConfigs.js scripts)).
  set (l1 := if w then [WasmEngine (ScriptPluginConfigs.wasm scripts)] else []).
  set (l2 := l1 ++ if y then [PythonEngine (ScriptPluginConfigs.python scripts)] else []).
  apply yields_ext with (es := script_entry w ([] ++ [WasmEngine (ScriptPluginConfigs.wasm scripts)]) ++
    script_entry y (l1 ++ [PythonEngine (ScriptPluginConfigs.python scripts)]) ++
    script_entry j (l2 ++ [JsEngine (ScriptPluginConfigs.js scripts)])).
  - eapply (yields_app _ _ _ [_] _ [_; _]); [|eapply (yields_app _ _ _ [_] _ [_])].
    + apply script_yields; [done|apply not_elem_of_nil|same_build].
    + apply script_yields; [|subst l1; destruct w; apply (bool_decide_unpack _); exact I|same_build].
      unfold overlay, script_entry. rewrite last_set_entry_if. subst l1. by destruct w.
    + apply script_yields; [|subst l2 l1; destruct w, y; apply (bool_decide_unpack _); exact I|same_build].
      unfold overlay, script_entry. rewrite !last_set_entry_if. subst l2 l1. by destruct w, y.
  - unfold enabled_engines, wasm_engines, python_engines, js_engines. fold p scripts w y j.
    by destruct w, y, j.
  - intros n. unfold enabled_engines, wasm_engines, python_engines, js_engines, script_entry.
    fold p scripts w y j. rewrite !sets_app, !last_set_app, !last_set_entry_if. subst l2 l1.
    destruct w, y, j; simpl; by destruct (String.eqb n scripts_name).
Qed.

Lemma timer_yields g : g timers_name = None -> g lock_name = LockC <$> chosen_lock cfg ->
  yields g (cfg_if (has os FTimer) SimpleTimerPlugin)
    (entry_if (timer_on cfg) "timer.simple"
      (infallible (simple_engine (TimerPluginConfigs.simple (PluginConfigs.timer p)) (chosen_lock cfg)))
      (fun e => [(timers_name, TimerEnginesC {["simple" := e]})])).
Proof.
  intros Ht Hl ctx Hk. unfold cfg_if, entry_if, timer_on. fold p.
  destruct (has os FTimer); simpl; [|done]. rewrite (known_plugins Hk). fold p.
  destruct (TimerPluginConfigs.enabled _); simpl; [|done].
  pose proof (known_get timers_name Hk) as Hkt. pose proof (known_get lock_name Hk) as Hkl.
  rewrite Ht in Hkt. rewrite Hl in Hkl.
    assert (ensure_timer_registry ctx = [Set_ T_timers (TimerEnginesC ∅)]) as ->.
    { unfold ensure_timer_registry, timers_of, T_timers at 1. by rewrite Hkt. }
    set (ctx1 := run_ops [_] ctx).
    assert (lock_of ctx1 = chosen_lock cfg) as ->.
    { unfold lock_of, T_lock, ctx1, PluginContext.get. simpl. rewrite map_get_set_ne by done.
      unfold PluginContext.get in Hkl. rewrite Hkl. by destruct (chosen_lock cfg). }
    assert (timers_of ctx1 = Some ∅) as ->.
    { unfold timers_of, ctx1, PluginContext.get. simpl. by rewrite map_get_set. }
  destruct (simple_engine _ _) as [e|why]; simpl; [|done]. split; [done|].
  eapply known_ext; [exact (known_ops _ _ g ctx [Set_ T_timers (TimerEnginesC ∅); Set_ T_timers (TimerEnginesC _)] Hk
    ltac:(repeat constructor))|].
  intros m. unfold overlay, sets. simpl. by destruct (String.eqb m _).
Qed.

Lemma config_watch_yields g : g audit_name = AuditC <$> chosen_audit cfg ->
  yields g [ConfigWatchPlugin]
    (entry_if (ConfigWatchConfig.enabled (PluginConfigs.config_watch p)) "config_watch" (Ret (Ok tt)) (fun _ =>
      let w := config_watcher (RinfraConfig.config_path cfg) (PluginConfigs.config_watch p) (chosen_audit cfg) in
      [(watcher_name, ConfigWatcherC (fst w) (snd w))])).
Proof.
  intros Ha. apply yields_listed.
  eapply (yields_once _ _ _ true (ConfigWatchConfig.enabled (PluginConfigs.config_watch p)))
    with (F := fun _ => [Set_ T_watcher (ConfigWatcherC _ _)]); [done| |quiet_ops|done].
  intros ctx Hk. simpl. rewrite (known_plugins Hk). fold p.
  destruct (ConfigWatchConfig.enabled _); [|done]. simpl.
  assert (audit_of ctx = chosen_audit cfg) as ->.
  { unfold audit_of, T_audit. rewrite (known_get _ Hk), Ha. by destruct (chosen_audit cfg). }
  destruct Hk as (-> & _). reflexivity.
Qed.

(** ** The whole list *)
#[local] Ltac plugin_entry :=
  first [ apply multilevel_yields | apply key_providers_yield | entry | apply yields_listed; entry
        | apply yields_listed; eapply (yields_once _ _ _ true) with (F := fun _ => _);
          [done|same_build|quiet_ops|done] ].
Lemma overlay_skip n es g : last_set n (sets es) = None -> overlay (sets es) g n = g n.
Proof. intros H. unfold overlay. by rewrite H. Qed.
#[local] Ltac skip_entries :=
  repeat (rewrite overlay_skip; [|
    first [reflexivity | unfold script_entry, store_entry; rewrite last_set_entry_if; by repeat case_match]]).

Lemma placeholder_yields g b q : (q = GrpcPlugin \/ q = TrpcPlugin) -> yields g (cfg_if b q) [].
Proof. intros [-> | ->] ctx Hk; by destruct b. Qed.

Lemma components_yield : yields (fun _ => None) component_plugins (script cfg).
Proof.
  unfold component_plugins, script.
  do 11 (apply yields_app; [unfold store_entry; plugin_entry|]).
  apply (yields_app _ _ _ [_; _] _ ([_] ++ _)); [apply key_providers_yield|].
  apply yields_app; [plugin_entry|].
  apply yields_app; [apply aesgcm_yields; skip_entries; done|].
  apply (yields_app _ _ _ [_; _; _]); [apply scripts_yield; skip_entries; done|].
  apply (yields_app _ _ _ _ []); [apply placeholder_yields; by left|].
  apply (yields_app _ _ _ (cfg_if true _) [] ([_] ++ _)); [apply placeholder_yields; by right|].
  do 3 (apply yields_app; [plugin_entry|]).
  apply yields_app; [apply timer_yields; [skip_entries; done|]|].
  { unfold overlay at 1. rewrite last_set_entry_if. unfold chosen_lock. fold p.
    destruct (lock_on cfg); [|skip_entries; done]. destruct (lock_backend _) as [[]|]; [done|skip_entries; done..]. }
  apply (yields_app _ _ _ [_] _ [_; _]); [plugin_entry|].
  apply (yields_app _ _ _ [_] _ [_]); [plugin_entry|].
  apply config_watch_yields. rewrite overlay_skip by (rewrite last_set_entry_if; by repeat case_match).
  unfold overlay at 1. rewrite last_set_entry_if. unfold chosen_audit. fold p.
  destruct (audit_on cfg); [done|skip_entries; done].
Qed.
End each.

(** The codecs the features put into the registry. *)
Definition builtin_codecs : list builtin_codec :=
  [JsonCodec] ++ (if has os FCodecMsgpack then [MsgpackCodec] else [])
    ++ (if has os FCodecProtobuf then [ProtobufCodec] else []).
Lemma codecs_known cfg :
  fst (build_each codec_name codec_content_type codec_plugins (PluginContext.new cfg)) = Ret (Ok tt) /\
  known cfg builtin_codecs (fun _ => None)
    (snd (build_each codec_name codec_content_type codec_plugins (PluginContext.new cfg))).
Proof.
  unfold codec_plugins, builtin_codecs, cfg_if.
  destruct (has os FCodecMsgpack), (has os FCodecProtobuf); (split; [reflexivity|]); split_and!;
    first [reflexivity | intros n; reflexivity].
Qed.

(** The application state made from a context of which everything is known. *)
Lemma known_state cfg g (ctx : context) ms hs : known cfg builtin_codecs g ctx ->
  let ctx := MkContext (ctx_config ctx) ms hs (codecs ctx) (routers ctx) (extensions ctx) in
  (forall n, state_get (OtherT n) (fst (into_app_parts codec_name ctx)) = g n) /\
  state_get CodecRegistryT (fst (into_app_parts codec_name ctx)) =
    Some (Codecs.register_codecs codec_name codec_content_type builtin_codecs).
Proof.
  intros (Hc & Hcs & Hx & Hg) ctx1. split.
  - intros n. rewrite into_app_parts_get, <- Hg. subst ctx1; simpl. unfold PluginContext.get, map_get.
    by destruct (extensions ctx !! OtherT n).
  - rewrite into_app_parts_get. subst ctx1; simpl. rewrite Hx, Hcs. unfold builtin_codecs.
    by destruct (has os FCodecMsgpack), (has os FCodecProtobuf).
Qed.

(** The application state and the result of starting with the built-in plugins. *)
Definition startup (cfg : RinfraConfig.t) : outcome (Result unit) * plugin_registry * context :=
  build_all codec_name codec_content_type builtin_plugins (PluginContext.new cfg) PluginRegistry.new.
Definition startup_result (cfg : RinfraConfig.t) : outcome (Result unit) := fst (fst (startup cfg)).
Definition startup_state (cfg : RinfraConfig.t) : app_state RinfraConfig.t builtin_codec component W :=
  fst (into_app_parts codec_name (snd (startup cfg))).

Lemma startup_spec cfg :
  startup_result cfg = first_failure (script cfg) /\
  (startup_result cfg = Ret (Ok tt) ->
   (forall n, state_get (OtherT n) (startup_state cfg) = last_set n (sets (script cfg))) /\
   state_get CodecRegistryT (startup_state cfg) =
     Some (Codecs.register_codecs codec_name codec_content_type builtin_codecs)).
Proof.
  destruct (codecs_known cfg) as [Hr Hk]. pose proof (components_yield cfg builtin_codecs _ Hk) as Hy.
  unfold startup_result, startup_state, startup, build_all, builtin_plugins. rewrite build_each_app.
  destruct (build_each _ _ codec_plugins _) as [r ctx]. simpl in *. subst r.
  destruct (build_each _ _ component_plugins ctx) as [r ctx']. simpl in Hy.
  destruct (first_failure (script cfg)) as [[[]|e]|why].
  - destruct Hy as [-> Hk']. split; [done|]. intros _.
    apply (known_state cfg _ ctx'). eapply known_ext; [done|]. intros n. unfold overlay. by case_match.
  - by subst r.
  - by subst r.
Qed.


Abbreviation passes := (fun e : entry => e_check e = Ret (Ok tt)).
Lemma first_failure_spec es :
  match first_failure es with
  | Ret (Ok _) => Forall passes es
  | Ret (Err x) => exists pre e err post, es = pre ++ e :: post /\ Forall passes pre /\
      e_check e = Ret (Err err) /\
      x = new_error PluginInitFailed
            ("plugin '" +:+ e_name e +:+ "' build failed: " +:+ error_to_string err)
  | Panic why => exists pre e post, es = pre ++ e :: post /\ Forall passes pre /\ e_check e = Panic why
  end.
Proof.
  induction es as [|e es IH]; simpl; [constructor|]. destruct (e_check e) as [[[]|err]|why] eqn:E.
  - destruct (first_failure es) as [[u|x]|why]; [by constructor|..].
    + destruct IH as (pre & e' & err & post & -> & Hpre & He & Hx). exists (e :: pre), e', err, post.
      split_and!; [done|by constructor|done|done].
    + destruct IH as (pre & e' & post & -> & Hpre & He). exists (e :: pre), e', post.
      split_and!; [done|by constructor|done].
  - by exists [], e, err, es.
  - by exists [], e, es.
Qed.

(** C33: starting with the built-in plugins runs a fixed script, whatever the
    configuration, the compiled features and the outside world: it succeeds
    exactly when every check of the script does, and otherwise ends as the
    first that does not - with its error, naming the plugin, or with its panic,
    as a memory cache whose time to live moka refuses or a timer with more
    permits than a semaphore takes; after a success every slot of the
    application state holds the last component the script sets there, the key
    provider, lock and audit logger having been found by the plugins that use
    them, and the codec registry holds the features' codecs. *)
Theorem builtin_startup_runs_script cfg :
  match startup_result cfg with
  | Ret (Ok _) =>
      Forall (fun e => e_check e = Ret (Ok tt)) (script cfg) /\
      (forall n, state_get (OtherT n) (startup_state cfg) = last_set n (sets (script cfg))) /\
      state_get CodecRegistryT (startup_state cfg) =
        Some (Codecs.register_codecs codec_name codec_content_type builtin_codecs)
  | Ret (Err x) =>
      exists pre e err post, script cfg = pre ++ e :: post /\
        Forall (fun e => e_check e = Ret (Ok tt)) pre /\ e_check e = Ret (Err err) /\
        x = new_error PluginInitFailed
              ("plugin '" +:+ e_name e +:+ "' build failed: " +:+ error_to_string err)
  | Panic why =>
      exists pre e post, script cfg = pre ++ e :: post /\
        Forall (fun e => e_check e = Ret (Ok tt)) pre /\ e_check e = Panic why
  end /\
  (timer_on cfg = true ->
   max_permits < SimpleTimerConfig.max_concurrent (TimerPluginConfigs.simple (PluginConfigs.timer (RinfraConfig.plugins cfg))) ->
   startup_result cfg <> Ret (Ok tt)) /\
  forall why, memory_cache_on cfg = true ->
    moka_build os (CachePluginConfigs.memory (PluginConfigs.cache (RinfraConfig.plugins cfg))) = Panic why ->
    startup_result cfg = Panic why.
Proof.
  destruct (startup_spec cfg) as [Hr Hs]. pose proof (first_failure_spec (script cfg)) as Hf.
  rewrite Hr in *. split; [|split].
  - destruct (first_failure (script cfg)) as [[[]|x]|why]; [|done..]. split; [done|]. by apply Hs.
  - intros Hon Hmax Hok. rewrite Hok in Hf. unfold script, store_entry in Hf. rewrite !Forall_app in Hf.
    decompose [and] Hf. rewrite Hon in *. unfold simple_engine in *. apply Z.ltb_lt in Hmax. rewrite Hmax in *.
    repeat match goal with H : Forall _ (entry_if true "timer.simple" _ _) |- _ => by apply Forall_inv in H end.
  - intros why Hon Hp. unfold script. by rewrite Hon, Hp.
Qed.

(** ** Reading the script *)
Lemma last_set_skip {A} n b m (r : outcome (Result A)) f :
  (forall a, last_set n (f a) = None) -> last_set n (sets (entry_if b m r f)) = None.
Proof. intros H. rewrite last_set_entry_if. destruct b, r as [[]|]; auto. Qed.
Lemma entry_passed {A} b n (r : outcome (Result A)) f :
  Forall (fun e => e_check e = Ret (Ok tt)) (entry_if b n r f) -> b = true -> exists a, r = Ret (Ok a).
Proof. intros H ->. apply Forall_inv in H. simpl in H. destruct r as [[]|]; [eauto|done..]. Qed.
#[local] Ltac read_slot :=
  unfold script, store_entry; rewrite !sets_app, !last_set_app;
  repeat match goal with
  | |- context [last_set ?n (sets (entry_if ?b ?m ?r ?f))] =>
      rewrite (last_set_skip n b m r f) by (intros; reflexivity)
  end; rewrite !last_set_entry_if.

(** What the passed checks say. *)
Lemma checks_passed cfg : startup_result cfg = Ret (Ok tt) ->
  let p := RinfraConfig.plugins cfg in
  (redis_cache_on cfg = true -> exists a, redis_cache_check cfg = Ret (Ok a)) /\
  (postgres_on cfg = true -> exists a, store_check "postgres store"
     (PostgresConfig.required (StorePluginConfigs.postgres (PluginConfigs.store p)))
     (PostgresStore (StorePluginConfigs.postgres (PluginConfigs.store p))) = Ret (Ok a)) /\
  (mysql_on cfg = true -> exists a, store_check "mysql store"
     (MysqlConfig.required (StorePluginConfigs.mysql (PluginConfigs.store p)))
     (MysqlStore (StorePluginConfigs.mysql (PluginConfigs.store p))) = Ret (Ok a)) /\
  (sqlite_on cfg = true -> exists a, store_check "sqlite store"
     (SqliteConfig.required (StorePluginConfigs.sqlite (PluginConfigs.store p)))
     (SqliteStore (StorePluginConfigs.sqlite (PluginConfigs.store p))) = Ret (Ok a)) /\
  (redis_limiter_on cfg = true -> exists a, redis_limiter_check cfg = Ret (Ok a)) /\
  (aesgcm_on cfg = true -> exists key, aesgcm_key (Some (chosen_key_provider cfg))
     (CryptoPluginConfigs.aesgcm (PluginConfigs.crypto p)) = Ok key) /\
  (lock_on cfg = true -> exists l, lock_backend (PluginConfigs.lock p) = Ret (Ok l)) /\
  (timer_on cfg = true -> exists e, simple_engine (TimerPluginConfigs.simple (PluginConfigs.timer p)) (chosen_lock cfg) = Ret e) /\
  (memory_cache_on cfg = true -> moka_build os (CachePluginConfigs.memory (PluginConfigs.cache p)) = Ret tt) /\
  (multilevel_on cfg = true -> exists a, multilevel_check (CachePluginConfigs.memory (PluginConfigs.cache p))
     (CachePluginConfigs.redis (PluginConfigs.cache p)) = Ret (Ok a)).
Proof.
  intros Hok p. pose proof (first_failure_spec (script cfg)) as Hf.
  rewrite <- (proj1 (startup_spec cfg)), Hok in Hf. unfold script, store_entry in Hf.
  rewrite !Forall_app in Hf. decompose [and] Hf. split_and!; try (eapply entry_passed; eassumption).
  - intros Hon. match goal with H : Forall _ (entry_if (aesgcm_on cfg) _ _ _) |- _ => destruct (entry_passed _ _ _ _ H Hon) as [key Hk] end. exists key. by injection Hk.
  - intros Hon. match goal with H : Forall _ (entry_if (timer_on cfg) _ _ _) |- _ => destruct (entry_passed _ _ _ _ H Hon) as [e He] end. exists e.
    by destruct (simple_engine _ _); simplify_eq/=.
  - intros Hon. match goal with H : Forall _ (entry_if (memory_cache_on cfg) _ _ _) |- _ => destruct (entry_passed _ _ _ _ H Hon) as [e He] end.
    fold p in He. by destruct (moka_build _ _) as [[]|]; simplify_eq/=.
Qed.
#[local] Ltac passed_check :=
  repeat match goal with H : true = true -> exists _, _ = Ret (Ok _) |- _ => destruct (H eq_refl) as [? ->]; clear H end.
Lemma slot_set cfg n : startup_result cfg = Ret (Ok tt) ->
  state_get (OtherT n) (startup_state cfg) = last_set n (sets (script cfg)).
Proof. intros Hok. by apply (proj2 (startup_spec cfg) Hok). Qed.

Lemma cache_slot cfg : startup_result cfg = Ret (Ok tt) ->
  let caches := PluginConfigs.cache (RinfraConfig.plugins cfg) in
  state_get T_cache (startup_state cfg) =
    if multilevel_on cfg
    then Some (CacheC (MultilevelCache (CachePluginConfigs.memory caches) (CachePluginConfigs.redis caches)))
    else if redis_cache_on cfg then Some (CacheC (RedisCache (CachePluginConfigs.redis caches)))
    else if memory_cache_on cfg then Some (CacheC (MemoryCache (CachePluginConfigs.memory caches)))
    else None.
Proof.
  intros Hok caches. destruct (checks_passed cfg Hok) as (Hrc & _ & _ & _ & _ & _ & _ & _ & Hmc & Hml).
  etransitivity; [by apply slot_set|]. read_slot. fold caches in Hmc, Hml |- *. simpl.
  destruct (multilevel_on cfg); [by destruct (Hml eq_refl) as [a ->]|].
  destruct (redis_cache_on cfg); [by destruct (Hrc eq_refl) as [a ->]|].
  destruct (memory_cache_on cfg); [|done]. by rewrite Hmc.
Qed.

(** When several plugins offer a component of one type, the application
    gets the one that is built last, silently: the two-level cache over the
    Redis cache over the memory cache, the SQLite store over MySQL's over
    PostgreSQL's (for the store and the database connection alike), the Redis
    rate limiter over the memory one, and the file key provider over the
    environment's. *)
Theorem later_plugin_wins cfg :
  let caches := PluginConfigs.cache (RinfraConfig.plugins cfg) in
  let stores := PluginConfigs.store (RinfraConfig.plugins cfg) in
  let limits := PluginConfigs.ratelimit (RinfraConfig.plugins cfg) in
  let store :=
    if sqlite_on cfg then Some (SqliteStore (StorePluginConfigs.sqlite stores))
    else if mysql_on cfg then Some (MysqlStore (StorePluginConfigs.mysql stores))
    else if postgres_on cfg then Some (PostgresStore (StorePluginConfigs.postgres stores))
    else None in
  startup_result cfg = Ret (Ok tt) ->
  state_get T_cache (startup_state cfg) =
    (if multilevel_on cfg
     then Some (CacheC (MultilevelCache (CachePluginConfigs.memory caches) (CachePluginConfigs.redis caches)))
     else if redis_cache_on cfg then Some (CacheC (RedisCache (CachePluginConfigs.redis caches)))
     else if memory_cache_on cfg then Some (CacheC (MemoryCache (CachePluginConfigs.memory caches)))
     else None) /\
  state_get T_store (startup_state cfg) = StoreC <$> store /\
  state_get T_db (startup_state cfg) = DbC <$> store /\
  state_get T_limiter (startup_state cfg) =
    (if redis_limiter_on cfg then Some (RateLimiterC (RedisLimiter (RateLimitPluginConfigs.redis limits)))
     else if memory_limiter_on cfg
     then Some (RateLimiterC (MemoryLimiter (MemoryRateLimiter.new
            (MemoryRateLimitConfig.burst_size (RateLimitPluginConfigs.memory limits))
            (MemoryRateLimitConfig.requests_per_second (RateLimitPluginConfigs.memory limits)))))
     else None) /\
  state_get T_key (startup_state cfg) = Some (KeyProviderC (chosen_key_provider cfg)).
Proof.
  intros caches stores limits store Hok.
  destruct (checks_passed cfg Hok) as (_ & Hpg & Hmy & Hsq & Hrl & _).
  split; [by apply cache_slot|].
  split_and!; (etransitivity; [by apply slot_set|]); read_slot; simpl.
  - subst store stores. destruct (sqlite_on cfg), (mysql_on cfg), (postgres_on cfg); try done;
      by passed_check.
  - subst store stores. destruct (sqlite_on cfg), (mysql_on cfg), (postgres_on cfg); try done;
      by passed_check.
  - destruct (redis_limiter_on cfg), (memory_limiter_on cfg); try done; by destruct (Hrl eq_refl) as [a ->].
  - done.
Qed.

(** A command leaves the connection as it is. *)
Lemma command_conn {R A} (m : M R (result string A)) code what (st : bool * R) a st' :
  run (Cache.RedisCache.command m code what) st = Ret (a, st') -> st'.1 = st.1.
Proof.
  unfold Cache.RedisCache.command. destruct st as [b r]. simpl. unfold mbind, M_bind. simpl.
  destruct (m r) as [[x r']|w]; simpl; [by intros [= _ <-]|done].
Qed.

(** With Redis optional and unreachable, starting up goes on as its
    warning says, but not without Redis: the cache the application is given is
    the Redis cache, also when a working memory cache had been installed, and
    since its connection failed every operation on it is an error. *)
Theorem unreachable_redis_replaces_memory_cache {R} `{!Cache.RedisCache.RedisCommands R} (cfg : RinfraConfig.t)
  (r : R) (s : bool * R) (e : app_error) :
  let redis := CachePluginConfigs.redis (PluginConfigs.cache (RinfraConfig.plugins cfg)) in
  let c := Cache.RedisCache.Config (RedisCacheConfig.enabled redis) (RedisCacheConfig.url redis) in
  redis_cache_on cfg = true -> multilevel_on cfg = false -> RedisCacheConfig.required redis = false ->
  run (Cache.RedisCache.connect c) (Cache.RedisCache.new r) = Ret (Err e, s) ->
  redis_cache_connect os redis = Ret (Err e) ->
  redis_cache_check cfg = Ret (Ok tt) /\
  (startup_result cfg = Ret (Ok tt) -> state_get T_cache (startup_state cfg) = Some (CacheC (RedisCache redis))) /\
  forall key, run (Cache.RedisCache.redis_cache_get key) s =
              Ret (fail CacheConnectionFailed "redis not connected", s).
Proof.
  intros redis c Hon Hml Hreq Hrun Hconn. split_and!.
  - unfold redis_cache_check. fold redis. by rewrite Hconn, Hreq.
  - intros Hok. by rewrite (cache_slot cfg Hok), Hml, Hon.
  - intros key. assert (s.1 = false) as Hs.
    { unfold Cache.RedisCache.connect in Hrun. destruct (Cache.RedisCache.enabled c); [|by run_inv].
      destruct (Cache.RedisCache.redis_open _); [|by run_inv].
      run_inv. by apply (command_conn _ _ _ _ _ _ Hrun0). }
    destruct s as [b r']. simpl in Hs. subst b. reflexivity.
Qed.

(** Enabling the file key provider makes encryption unavailable: it
    replaces the environment's provider but cannot yield any key, so with
    AES-GCM enabled the application does not start, whatever is in the file
    or in the environment. *)
Theorem file_keys_block_encryption cfg :
  FileKeyConfig.enabled (CryptoPluginConfigs.file (PluginConfigs.crypto (RinfraConfig.plugins cfg))) = true ->
  aesgcm_on cfg = true ->
  startup_result cfg <> Ret (Ok tt).
Proof.
  intros Hf Ha E. destruct (checks_passed cfg E) as (_ & _ & _ & _ & _ & Hk & _). destruct (Hk Ha) as [key Hkey].
  unfold chosen_key_provider in Hkey. rewrite Hf in Hkey. simpl in Hkey. rewrite Hf in Hkey.
  unfold Providers.file_get_key in Hkey. simpl in Hkey. by destruct (String.eqb _ _) in Hkey.
Qed.

(** A timer is made cluster-safe by configuration alone: when both are
    enabled the engine runs its tasks under the very lock the application
    gets.  In a build without the Redis client a lock configured for Redis is
    an in-memory one, which excludes nobody on other nodes. *)
Theorem timer_shares_the_lock cfg :
  let lock := PluginConfigs.lock (RinfraConfig.plugins cfg) in
  startup_result cfg = Ret (Ok tt) -> timer_on cfg = true -> lock_on cfg = true ->
  exists l e, state_get T_lock (startup_state cfg) = Some (LockC l) /\
    state_get T_timers (startup_state cfg) = Some (TimerEnginesC {["simple" := SimpleEngine e (Some l)]}) /\
    SimpleTimer.has_lock e = true /\
    (LockPluginConfigs.backend lock = "redis" -> has os FRedis = true -> l = RedisLock (LockPluginConfigs.redis lock)) /\
    (has os FRedis = false -> l = MemoryLock InMemoryLock.new).
Proof.
  intros lock Hok Ht Hl. destruct (checks_passed cfg Hok) as (_ & _ & _ & _ & _ & _ & Hb & Hte & _).
  destruct (Hb Hl) as [l Hlb]. destruct (Hte Ht) as [te Hse].
  assert (te = SimpleEngine (SimpleTimer.with_lock (SimpleTimer.new (Z.to_nat (SimpleTimerConfig.max_concurrent
    (TimerPluginConfigs.simple (PluginConfigs.timer (RinfraConfig.plugins cfg))))))) (Some l)) as ->.
  { unfold simple_engine, chosen_lock in Hse. rewrite Hl, Hlb in Hse. destruct (max_permits <? _); [done|].
    by injection Hse. }
  exists l, (SimpleTimer.with_lock (SimpleTimer.new (Z.to_nat (SimpleTimerConfig.max_concurrent
    (TimerPluginConfigs.simple (PluginConfigs.timer (RinfraConfig.plugins cfg))))))).
  split_and!; [etransitivity; [by apply slot_set|]; read_slot; by rewrite Hl, Hlb
              |etransitivity; [by apply slot_set|]; read_slot; by rewrite Ht, Hse
              |done|..]; unfold lock_backend in Hlb; fold lock in Hlb.
  - intros Hred Hf. rewrite Hred, Hf in Hlb. simpl in Hlb. by destruct (redis_lock_connect _ _) as [[]|]; simplify_eq/=.
  - intros Hf. rewrite Hf, andb_false_r in Hlb. by simplify_eq.
Qed.
End plugins.
End BuiltinPlugins.

(** * Examples: Redis down, everything else up *)
Module BuiltinExamples.
Import BuiltinPlugins.

Definition section (kvs : list (string * json)) : json := JObject kvs.
Definition on : string * json := ("enabled", JBool true).
Definition config_of (plugins : list (string * json)) : RinfraConfig.t :=
  match RinfraConfig.of_json "c1" (JObject [("plugins", JObject plugins)]) with
  | Ok c => c
  | Err _ => RinfraConfig.default "c1"
  end.
Definition down : app_error := new_error CacheConnectionFailed "redis connect failed: refused".
(** A year of moka's thousand has 365 days. *)
Definition moka_takes (c : MemoryCacheConfig.t) : outcome unit :=
  if 1000 * 365 * 24 * 3600 <? MemoryCacheConfig.ttl_secs c
  then Panic "time_to_live is longer than 1000 years" else Ret tt.
Definition example_platform : platform unit := Platform
  (fun _ => true) moka_takes (fun _ => Ret (Err down)) (fun _ => Ret (Err down)) (fun _ => Ret (Ok tt))
  (fun _ => Ret (Ok tt)) (fun _ => Ret (Ok tt)) (fun _ => Ret (Err down)) (fun _ => Ret (Ok tt)) (fun _ => Some "0123456789abcdef0123456789abcdef") (fun _ => Ok tt)
  (fun _ => None) (fun _ => "") (fun _ => Err "no file") (fun _ _ w => (Ok true, w)) (fun _ w => (Ok true, w))
  (fun _ w => (Ok true, w)) (fun _ => Some 0) (fun _ => (Some 0, Ok tt)) (fun _ _ w => Ret (Ok tt, w))
  (fun _ => "u1") (fun _ => 0).

Definition two_caches : RinfraConfig.t :=
  config_of [("cache", section [("memory", section [on]); ("redis", section [on])]);
             ("store", section [("postgres", section [on]); ("sqlite", section [on])]);
             ("ratelimit", section [("memory", section [on]); ("redis", section [on])])].

Lemma later_plugin_wins_witness :
  state_get T_cache (startup_state (router := unit) example_platform two_caches) =
    Some (CacheC (RedisCache (CachePluginConfigs.redis (PluginConfigs.cache (RinfraConfig.plugins two_caches))))).
Proof.
  refine (proj1 (later_plugin_wins (router := unit) example_platform two_caches _)). vm_compute; reflexivity.
Defined.

(** A server whose every connection is refused. *)
#[local] Instance refused_redis : Cache.RedisCache.RedisCommands unit := {|
  Cache.RedisCache.redis_open _ := Ok tt;
  Cache.RedisCache.redis_connect _ := Ret (Err "refused", tt);
  Cache.RedisCache.redis_get _ _ := Ret (Err "gone", tt);
  Cache.RedisCache.redis_set _ _ _ := Ret (Err "gone", tt);
  Cache.RedisCache.redis_set_ex _ _ _ _ := Ret (Err "gone", tt);
  Cache.RedisCache.redis_del _ _ := Ret (Err "gone", tt);
  Cache.RedisCache.redis_exists _ _ := Ret (Err "gone", tt);
|}.
Lemma unreachable_redis_replaces_memory_cache_witness :
  memory_cache_on example_platform two_caches = true /\
  state_get T_cache (startup_state (router := unit) example_platform two_caches) =
    Some (CacheC (RedisCache (CachePluginConfigs.redis (PluginConfigs.cache (RinfraConfig.plugins two_caches))))) /\
  run (Cache.RedisCache.redis_cache_get "k") (false, tt) =
    Ret (fail CacheConnectionFailed "redis not connected", (false, tt)).
Proof.
  destruct (unreachable_redis_replaces_memory_cache (router := unit) example_platform two_caches tt (false, tt) down)
    as (_ & Hs & Hg); [vm_compute; reflexivity..|].
  split; [vm_compute; reflexivity|]. split; [|exact (Hg "k")]. apply Hs. vm_compute. reflexivity.
Defined.

(** A time to live beyond what moka takes, and a timer with more permits than
    a semaphore has. *)
Definition for_ever : RinfraConfig.t :=
  config_of [("cache", section [("memory", section [on; ("ttl_secs", JNumber "31536000001")])])].
Definition many_tasks : RinfraConfig.t :=
  config_of [("timer", section [on; ("simple", section [("max_concurrent", JNumber "2305843009213693952")])])].
Lemma builtin_startup_runs_script_witness :
  startup_result (router := unit) example_platform for_ever = Panic "time_to_live is longer than 1000 years" /\
  startup_result (router := unit) example_platform many_tasks <> Ret (Ok tt) /\
  startup_result (router := unit) example_platform two_caches = Ret (Ok tt).
Proof.
  split; [|split].
  - apply (builtin_startup_runs_script (router := unit) example_platform for_ever); vm_compute; reflexivity.
  - apply (builtin_startup_runs_script (router := unit) example_platform many_tasks); vm_compute; reflexivity.
  - vm_compute. reflexivity.
Defined.

Definition file_keys : RinfraConfig.t :=
  config_of [("crypto", section [("file", section [on; ("path", JString "/run/key")]); ("aesgcm", section [on])])].
Definition env_keys : RinfraConfig.t := config_of [("crypto", section [("aesgcm", section [on])])].
Lemma file_keys_block_encryption_witness :
  startup_result (router := unit) example_platform file_keys <> Ret (Ok tt) /\
  startup_result (router := unit) example_platform env_keys = Ret (Ok tt).
Proof.
  split; [apply (file_keys_block_encryption (router := unit) example_platform file_keys); vm_compute; reflexivity|].
  vm_compute. reflexivity.
Defined.

Definition clustered_timer : RinfraConfig.t :=
  config_of [("lock", section [on; ("backend", JString "redis")]); ("timer", section [on])].
Lemma timer_shares_the_lock_witness :
  exists l e, state_get T_timers (startup_state (router := unit) example_platform clustered_timer) =
    Some (TimerEnginesC {["simple" := SimpleEngine e (Some l)]}) /\
  l = RedisLock (LockPluginConfigs.redis (PluginConfigs.lock (RinfraConfig.plugins clustered_timer))).
Proof.
  destruct (timer_shares_the_lock (router := unit) example_platform clustered_timer)
    as (l & e & _ & Ht & _ & Hr & _); [vm_compute; reflexivity..|].
  exists l, e. split; [exact Ht|]. apply Hr; vm_compute; reflexivity.
Defined.
End BuiltinExamples.
