(* ===== verification/AppState.v ===== *)
(** The application state's accessors ([rinfra-core/src/appstate.rs]) and what
    they find after a startup with the built-in plugins. *)

From S2P Require Import Prelude Errors Resilience Registries Lock Timer Tcp Crypto Mq.
From S2P Require Import I18n RateLimit HttpClient FileStore Tasks Cache AuditTrail Config ConfigLoad Plugins Builtin.
Import Health PluginContext PluginRegistry Components.

Module AppState.
Section accessors.
Context {W : Type}.
Abbreviation state := (app_state RinfraConfig.t builtin_codec (component W) W).

(** [AppState::has] and [uptime_secs] *)
Definition has (t : type_id) (s : state) : bool := bool_decide (is_Some (state_extensions s !! t)).
Definition uptime_secs (started_at now : Z) : Z := as_secs (duration_since now started_at).

(** The accessors of single components *)
Definition crypto (s : state) : option bytes :=
  match state_get T_crypto s with Some (CryptoC key) => Some key | _ => None end.
Definition script_engines (s : state) : option (gmap string script_engine) :=
  match state_get T_scripts s with Some (ScriptEnginesC r) => Some r | _ => None end.
Definition db (s : state) : option sql_store :=
  match state_get T_db s with Some (DbC x) => Some x | _ => None end.
Definition file_store (s : state) : option FileStore.local_file_store :=
  match state_get T_files s with Some (FileStoreC x) => Some x | _ => None end.
Definition http_client (s : state) : option HttpClient.client :=
  match state_get T_http s with Some (HttpClientC c) => Some c | _ => None end.
Definition distributed_lock (s : state) : option Components.distributed_lock :=
  match state_get T_lock s with Some (LockC l) => Some l | _ => None end.
Definition config_watcher (s : state) : option (Watch.watcher (W := W)) :=
  match state_get T_watcher s with Some (ConfigWatcherC w _) => Some w | _ => None end.
Definition audit_logger (s : state) : option string :=
  match state_get T_audit s with Some (AuditC path) => Some path | _ => None end.
Definition i18n (s : state) : option FileI18n.file_i18n :=
  match state_get T_i18n s with Some (I18nC i) => Some i | _ => None end.
Definition codecs (s : state) : option (Codecs.codec_registry (codec := builtin_codec)) :=
  state_get CodecRegistryT s.
Definition health_checkers (s : state) : option (list (checker W)) := state_get HealthCheckerRegistryT s.
(** [script_engine] and [stores] look for types no built-in component has. *)
Definition T_script_engine : type_id := OtherT "Arc<dyn ScriptEngine>".
Definition T_stores : type_id := OtherT "StoreRegistry".
Definition script_engine (s : state) : option (component W) := state_get T_script_engine s.
Definition stores (s : state) : option (component W) := state_get T_stores s.

(** [HealthCheckerRegistry]: its checkers in the order they were registered *)
Definition new_checkers : list (checker W) := [].
Definition register_checker (c : checker W) (r : list (checker W)) : list (checker W) := r ++ [c].
Definition no_checkers (r : list (checker W)) : bool := bool_decide (length r = 0%nat).

(** ** The types of the map *)

(** The type a component is stored under. *)
Definition slot_of (c : component W) : string :=
  match c with
  | CacheC _ => cache_name
  | StoreC _ => store_name
  | DbC _ => db_name
  | MessageBusC _ => bus_name
  | RateLimiterC _ => limiter_name
  | KeyProviderC _ => key_name
  | VersionedKeyProviderC _ => versioned_key_name
  | CryptoC _ => crypto_name
  | ScriptEnginesC _ => scripts_name
  | TimerEnginesC _ => timers_name
  | FileStoreC _ => files_name
  | HttpClientC _ => http_name
  | LockC _ => lock_name
  | AuditC _ => audit_name
  | I18nC _ => i18n_name
  | ConfigWatcherC _ _ => watcher_name
  end.
Definition in_its_slot (p : string * component W) : Prop := p.1 = slot_of p.2.

Context {router : Type} (os : platform W).
Abbreviation script := (BuiltinPlugins.script os).
Abbreviation startup_result := (BuiltinPlugins.startup_result (router := router) os).
Abbreviation startup_state := (BuiltinPlugins.startup_state (router := router) os).

Lemma entry_in_slots {A} b m (r : outcome (Result A)) f :
  (forall a, Forall in_its_slot (f a)) -> Forall in_its_slot (BuiltinPlugins.sets (BuiltinPlugins.entry_if b m r f)).
Proof.
  intros H. unfold BuiltinPlugins.entry_if, BuiltinPlugins.sets. destruct b; simpl; [|constructor].
  rewrite app_nil_r. destruct r as [[]|]; [apply H|constructor..].
Qed.
Lemma script_in_slots cfg : Forall in_its_slot (BuiltinPlugins.sets (script cfg)).
Proof.
  unfold BuiltinPlugins.script, BuiltinPlugins.store_entry. rewrite !BuiltinPlugins.sets_app, !Forall_app.
  split_and!; apply entry_in_slots; intros; by repeat constructor.
Qed.
Lemma last_set_in n (l : list (string * component W)) c : BuiltinPlugins.last_set n l = Some c -> (n, c) ∈ l.
Proof.
  induction l as [|[m v] l IH]; simpl; [done|]. destruct (BuiltinPlugins.last_set n l) as [w|].
  - intros [= ->]. right. by apply IH.
  - destruct (String.eqb n m) eqn:E; [|done]. apply String.eqb_eq in E as ->. intros [= ->]. left.
Qed.

(** The state a startup leaves is well typed: whatever is found under a
    type is a component of that type, so every accessor finds what is there -
    it answers exactly when its type is in the map.  Two accessors never
    answer: the single script engine and the store registry are stored by
    nobody. *)
Theorem startup_state_well_typed (cfg : RinfraConfig.t) :
  startup_result cfg = Ret (Ok tt) ->
  let s := startup_state cfg in
  (forall n c, state_get (OtherT n) s = Some c -> n = slot_of c) /\
  (is_Some (crypto s) <-> is_Some (state_get T_crypto s)) /\
  (is_Some (script_engines s) <-> is_Some (state_get T_scripts s)) /\
  (is_Some (db s) <-> is_Some (state_get T_db s)) /\
  (is_Some (file_store s) <-> is_Some (state_get T_files s)) /\
  (is_Some (http_client s) <-> is_Some (state_get T_http s)) /\
  (is_Some (distributed_lock s) <-> is_Some (state_get T_lock s)) /\
  (is_Some (config_watcher s) <-> is_Some (state_get T_watcher s)) /\
  (is_Some (audit_logger s) <-> is_Some (state_get T_audit s)) /\
  (is_Some (i18n s) <-> is_Some (state_get T_i18n s)) /\
  codecs s = Some (Codecs.register_codecs codec_name codec_content_type (BuiltinPlugins.builtin_codecs os)) /\
  script_engine s = None /\ stores s = None.
Proof.
  intros Hok s. destruct (BuiltinPlugins.startup_spec (router := router) os cfg) as [_ Hs].
  destruct (Hs Hok) as [Hget Hcodecs]. fold s in Hget, Hcodecs.
  assert (forall n c, state_get (OtherT n) s = Some c -> n = slot_of c) as Htyped.
  { intros n c Hc. rewrite Hget in Hc. apply last_set_in in Hc.
    exact (proj1 (Forall_forall _ _) (script_in_slots cfg) _ Hc). }
  split; [done|]. unfold crypto, script_engines, db, file_store, http_client, distributed_lock, config_watcher,
    audit_logger, i18n.
  split_and!; try (match goal with |- context [state_get (OtherT ?n) s] => idtac | |- context [state_get ?t s] => unfold t end;
    match goal with |- context [state_get (OtherT ?n) s] =>
      pose proof (Htyped n) as Ht; destruct (state_get (OtherT n) s) as [[]|]; [..|done];
      (specialize (Ht _ eq_refl); first [discriminate | by split]) end).
  - exact Hcodecs.
  - unfold script_engine. destruct (state_get T_script_engine s) as [c|] eqn:E; [|done].
    apply Htyped in E. by destruct c.
  - unfold stores. destruct (state_get T_stores s) as [c|] eqn:E; [|done]. apply Htyped in E. by destruct c.
Qed.
End accessors.
End AppState.

(** * Examples *)
Module AppStateExamples.
Import BuiltinExamples AppState.
Lemma startup_state_well_typed_witness :
  let s := BuiltinPlugins.startup_state (router := unit) example_platform clustered_timer in
  is_Some (distributed_lock s) /\ script_engine s = None /\ stores s = None.
Proof.
  intros s. destruct (startup_state_well_typed (router := unit) example_platform clustered_timer)
    as (_ & _ & _ & _ & _ & _ & Hlock & _ & _ & _ & _ & Hnone); [vm_compute; reflexivity|].
  split; [|exact Hnone]. apply (proj2 Hlock). vm_compute. by eexists.
Defined.
End AppStateExamples.
