(* ===== verification/AdminRoutes.v ===== *)
(** The admin backend's read-only routes ([rinfra-admin/backend/src/routes.rs],
    the part before token management) and the builder that puts the routes
    together ([lib.rs], [extensions.rs]): what they report of the application
    state, and the reader of the Prometheus text format. *)

From S2P Require Import Prelude Errors Resilience Registries Tcp Cluster.
From S2P Require Import HttpStack Paths AuditTrail Config Plugins Builtin.
Import Health PluginContext Components.

(** * The Prometheus text *)
Module Metrics.
Section metrics.
(** [str::parse::<f64>] and [0.0] *)
Context {F : Type} (parse_f64 : string -> option F) (zero : F).

Definition open_brace : Ascii.ascii := Ascii.ascii_of_N 123.
Definition close_brace : Ascii.ascii := Ascii.ascii_of_N 125.
Definition equals : Ascii.ascii := Ascii.ascii_of_N 61.
Definition space : Ascii.ascii := Ascii.ascii_of_N 32.

(** [s.find(c)], [&s[a..b]] and [&s[a..]] at ASCII characters: an index past
    the end or a range that ends before it starts panics. *)
Fixpoint find (c : Ascii.ascii) (s : string) : option nat :=
  match s with
  | EmptyString => None
  | String a s => if Ascii.eqb a c then Some 0%nat else S <$> find c s
  end.
Definition slice (a b : nat) (s : string) : outcome string :=
  if ((a <=? b) && (b <=? String.length s))%nat then Ret (String.substring a (b - a) s)
  else Panic "slice index out of range".
Definition slice_from (a : nat) (s : string) : outcome string := slice a (String.length s) s.

(** [split_whitespace] *)
Fixpoint words_from (acc : string) (s : string) : list string :=
  match s with
  | EmptyString => match acc with EmptyString => [] | _ => [acc] end
  | String c s =>
      if is_whitespace c
      then match acc with EmptyString => words_from "" s | _ => acc :: words_from "" s end
      else words_from (acc +:+ String c "") s
  end.
Definition split_whitespace (s : string) : list string := words_from "" s.

(** [s.strip_suffix(p)] *)
Definition strip_suffix (p s : string) : option string :=
  let n := (String.length s - String.length p)%nat in
  if (String.length p <=? String.length s)%nat && String.eqb (String.substring n (String.length p) s) p
  then Some (String.substring 0 n s) else None.

(** The loop over the label pairs. *)
Definition add_pair (labels : gmap string string) (pair : string) : outcome (gmap string string) :=
  let pair := trim pair in
  match find equals pair with
  | None => Ret labels
  | Some eq =>
      k ← slice 0 eq pair;
      v ← slice_from (eq + 1) pair;
      Ret (<[trim k := trim_quotes (trim v)]> labels)
  end.
Fixpoint add_pairs (pairs : list string) (labels : gmap string string) : outcome (gmap string string) :=
  match pairs with
  | [] => Ret labels
  | p :: pairs => labels ← add_pair labels p; add_pairs pairs labels
  end.

(** [parse_metric_line] *)
Definition parse_metric_line (line : string) : outcome (string * gmap string string * F) :=
  match find open_brace line with
  | Some brace_start =>
      name ← slice 0 brace_start line;
      let brace_end := default (String.length line) (find close_brace line) in
      label_str ← slice (brace_start + 1) brace_end line;
      labels ← add_pairs (split_on comma label_str) ∅;
      value_str ← slice_from (brace_end + 1) line;
      Ret (name, labels, default zero (parse_f64 (trim value_str)))
  | None =>
      let parts := split_whitespace line in
      Ret (default "" (parts !! 0%nat), ∅, default zero (parts !! 1%nat ≫= parse_f64))
  end.

(** [struct MetricValue], [struct MetricEntry] *)
Record metric_value : Type := MetricValue { labels : gmap string string; value : F }.
Record metric_entry : Type := MetricEntry {
  me_name : string;
  metric_type : string;
  help : string;
  values : list metric_value;
}.

(** The variables of [parse_prometheus_text]. *)
Record reader : Type := Reader {
  entries : list metric_entry;
  current_help : string;
  current_type : string;
  current_name : string;
}.

Definition base_name (metric_name : string) : string :=
  match strip_suffix "_total" metric_name with
  | Some n => n
  | None =>
      match strip_suffix "_bucket" metric_name with
      | Some n => n
      | None =>
          match strip_suffix "_sum" metric_name with
          | Some n => n
          | None => default metric_name (strip_suffix "_count" metric_name)
          end
      end
  end.
Definition lookup_name (current metric_name : string) : string :=
  if String.eqb (base_name metric_name) current || String.eqb metric_name current then current
  else base_name metric_name.

(** Finding the entry of a name, or pushing a new one, and adding a value. *)
Fixpoint push_value (fresh : metric_entry) (v : metric_value) (es : list metric_entry) : list metric_entry :=
  match es with
  | [] => [MetricEntry (me_name fresh) (metric_type fresh) (help fresh) (values fresh ++ [v])]
  | e :: es =>
      if String.eqb (me_name e) (me_name fresh)
      then MetricEntry (me_name e) (metric_type e) (help e) (values e ++ [v]) :: es
      else e :: push_value fresh v es
  end.

Definition read_sample (line : string) (r : reader) : outcome reader :=
  m ← parse_metric_line line;
  let lookup := lookup_name (current_name r) (fst (fst m)) in
  let known := String.eqb lookup (current_name r) in
  let fresh := MetricEntry lookup (if known then current_type r else "unknown")
                 (if known then current_help r else "") [] in
  Ret (Reader (push_value fresh (MetricValue (snd (fst m)) (snd m)) (entries r))
         (current_help r) (current_type r) (current_name r)).

(** One turn of the loop. *)
Definition read_line (line : string) (r : reader) : outcome reader :=
  let line := trim line in
  if String.eqb line "" then Ret r
  else
    match strip_prefix "# HELP " line with
    | Some rest =>
        match find space rest with
        | Some idx =>
            n ← slice 0 idx rest;
            h ← slice_from (idx + 1) rest;
            Ret (Reader (entries r) h (current_type r) n)
        | None => Ret (Reader (entries r) "" (current_type r) rest)
        end
    | None =>
        match strip_prefix "# TYPE " line with
        | Some rest =>
            match find space rest with
            | Some idx =>
                t ← slice_from (idx + 1) rest;
                Ret (Reader (entries r) (current_help r) t (current_name r))
            | None => Ret r
            end
        | None => if starts_with "#" line then Ret r else read_sample line r
        end
    end.
Fixpoint read_lines (ls : list string) (r : reader) : outcome reader :=
  match ls with
  | [] => Ret r
  | l :: ls => r ← read_line l r; read_lines ls r
  end.

(** [parse_prometheus_text] *)
Definition parse_prometheus_text (text : string) : outcome (list metric_entry) :=
  r ← read_lines (lines text) (Reader [] "" "" "");
  Ret (entries r).

End metrics.
Arguments MetricValue {F} labels value.
Arguments metric_value : clear implicits.
Arguments metric_entry : clear implicits.
Arguments reader : clear implicits.

(** ** Slices of concatenations *)
Lemma str_length_app a b : String.length (a +:+ b) = (String.length a + String.length b)%nat.
Proof. induction a as [|x a IH]; [done|]. unfold String.app in *; simpl. by rewrite IH. Qed.
Lemma find_none c s : has_char c s = false -> find c s = None.
Proof. induction s as [|x s IH]; simpl; [done|]. intros [-> H]%orb_false_iff. by rewrite IH. Qed.
Lemma find_app c a b : has_char c a = false -> find c (a +:+ b) = (fun n => String.length a + n)%nat <$> find c b.
Proof.
  induction a as [|x a IH]; intros H; [change (find c b = (fun n => n) <$> find c b); by destruct (find c b)|].
  apply orb_false_iff in H as [Hx Ha]. change (String x a +:+ b) with (String x (a +:+ b)). simpl.
  rewrite Hx, IH by done. by destruct (find c b).
Qed.
Lemma find_bound c s i : find c s = Some i -> (i < String.length s)%nat.
Proof.
  revert i. induction s as [|x s IH]; intros i; simpl; [done|]. destruct (Ascii.eqb x c); [intros [= <-]; lia|].
  destruct (find c s) as [j|]; [|done]. intros [= <-]. specialize (IH j eq_refl). lia.
Qed.
Lemma substring_skip a b n : String.substring (String.length a) n (a +:+ b) = String.substring 0 n b.
Proof.
  induction a as [|x a IH]; [done|]. change (String x a +:+ b) with (String x (a +:+ b)). simpl. apply IH.
Qed.
Lemma substring_full a b : String.substring 0 (String.length a) (a +:+ b) = a.
Proof.
  induction a as [|x a IH]; [by destruct b|]. change (String x a +:+ b) with (String x (a +:+ b)). simpl. by rewrite IH.
Qed.
Lemma slice_mid a b c n : n = String.length a ->
  slice n (n + String.length b) (a +:+ (b +:+ c)) = Ret b.
Proof.
  intros ->. unfold slice. rewrite !str_length_app.
  replace (_ && _) with true by (symmetry; apply andb_true_intro; split; apply Nat.leb_le; lia).
  replace (String.length a + String.length b - String.length a)%nat with (String.length b) by lia.
  by rewrite substring_skip, substring_full.
Qed.
Lemma slice_to_app a b : slice 0 (String.length a) (a +:+ b) = Ret a.
Proof. exact (slice_mid "" a b 0 eq_refl). Qed.
Lemma slice_from_app a b n : n = String.length a -> slice_from n (a +:+ b) = Ret b.
Proof.
  intros Hn. unfold slice_from. rewrite str_length_app. subst n.
  rewrite <- (str_app_nil b) at 2. by apply slice_mid.
Qed.

(** ** Trimming *)
Lemma trim_start_solid c s : is_whitespace c = false -> trim_start (String c s) = String c s.
Proof. intros H. simpl. by rewrite H. Qed.
Lemma all_chars_app p a b : all_chars p (a +:+ b) = all_chars p a && all_chars p b.
Proof. induction a as [|x a IH]; [done|]. unfold String.app in *; simpl. by rewrite IH, andb_assoc. Qed.
Lemma trim_end_solid c s : is_whitespace c = false -> trim_end (s +:+ String c "") = s +:+ String c "".
Proof.
  intros Hc. induction s as [|x s IH]; [change ("" +:+ String c "") with (String c ""); simpl; by rewrite Hc|].
  change (String x s +:+ String c "") with (String x (s +:+ String c "")). simpl.
  rewrite all_chars_app. simpl. rewrite Hc, !andb_false_r, IH. done.
Qed.

(** ** The exposition format

    A sample as the exporter writes it: [name{k="v",...} value]. *)
Definition label_text (kv : string * string) : string := fst kv +:+ (String equals (quoted (snd kv))).
Definition sample_text (name : string) (ls : list (string * string)) (v : string) : string :=
  name +:+ String open_brace (join "," (map label_text ls) +:+ String close_brace (String space v)).

Lemma trim_quoted v : trim (quoted v) = quoted v.
Proof.
  unfold trim, quoted. rewrite trim_start_solid by done.
  change (String quote (v +:+ String quote "")) with (String quote v +:+ String quote "").
  by apply trim_end_solid.
Qed.

(** Names as the exporter admits them, and label values without the
    characters the reader gives a meaning to. *)
Definition ident_char (c : Ascii.ascii) : bool :=
  let n := Ascii.N_of_ascii c in
  ((48 <=? n) && (n <=? 58) || (65 <=? n) && (n <=? 90) || (n =? 95) || (97 <=? n) && (n <=? 122))%N.
Definition ident (s : string) : bool := all_chars ident_char s.
Definition plain_value (v : string) : bool :=
  negb (has_char comma v || has_char close_brace v || has_char quote v).
Definition unspaced (s : string) : bool := all_chars (fun c => negb (is_whitespace c)) s.

Lemma all_chars_not (p : Ascii.ascii -> bool) c s : all_chars p s = true -> p c = false -> has_char c s = false.
Proof.
  intros Hs Hc. induction s as [|x s IH]; simpl in *; [done|]. apply andb_prop in Hs as [Hx Hs].
  rewrite IH by done. destruct (Ascii.eqb_spec x c) as [->|]; [congruence|done].
Qed.
Lemma all_chars_impl (p q : Ascii.ascii -> bool) s : (forall c, p c = true -> q c = true) ->
  all_chars p s = true -> all_chars q s = true.
Proof.
  intros H. induction s as [|x s IH]; simpl; [done|]. intros [Hx Hs]%andb_prop. by rewrite (H x Hx), IH.
Qed.
Lemma ident_unspaced s : ident s = true -> unspaced s = true.
Proof.
  apply all_chars_impl. intros [[] [] [] [] [] [] [] []]; vm_compute; done.
Qed.
Lemma trim_end_unspaced s : unspaced s = true -> trim_end s = s.
Proof.
  induction s as [|x s IH]; simpl; [done|]. intros [Hx Hs]%andb_prop. apply negb_true_iff in Hx.
  by rewrite Hx, IH.
Qed.
Lemma trim_unspaced s : unspaced s = true -> trim s = s.
Proof.
  intros H. unfold trim. destruct s as [|x s]; [done|]. rewrite trim_start_solid; [by apply trim_end_unspaced|].
  apply andb_prop in H as [Hx _]. by apply negb_true_iff.
Qed.

(** Reading one label pair, then all of them. *)
Lemma trim_label k v : ident k = true -> trim (label_text (k, v)) = label_text (k, v).
Proof.
  intros Hk. unfold label_text. simpl. unfold trim.
  assert (trim_start (k +:+ String equals (quoted v)) = k +:+ String equals (quoted v)) as ->.
  { destruct k as [|x k]; [done|]. apply trim_start_solid. apply ident_unspaced in Hk.
    apply andb_prop in Hk as [Hx _]. by apply negb_true_iff. }
  unfold quoted.
  change (String equals (String quote (v +:+ String quote ""))) with
    (String equals (String quote v) +:+ String quote "").
  rewrite <- str_app_assoc. by apply trim_end_solid.
Qed.
Lemma add_pair_label k v m : ident k = true -> plain_value v = true ->
  add_pair m (label_text (k, v)) = Ret (<[k := v]> m).
Proof.
  intros Hk Hv. unfold add_pair. rewrite trim_label by done. unfold label_text. simpl fst; simpl snd.
  rewrite find_app by (eapply all_chars_not; [exact Hk|reflexivity]).
  simpl. rewrite Nat.add_0_r.
  rewrite slice_to_app. simpl.
  change (String equals (quoted v)) with (String equals "" +:+ quoted v). rewrite <- str_app_assoc.
  rewrite slice_from_app by (rewrite str_length_app; simpl; lia). simpl.
  rewrite (trim_unspaced k) by (by apply ident_unspaced). rewrite trim_quoted, trim_quotes_quoted; [done|].
  unfold plain_value in Hv. apply negb_true_iff in Hv. by apply orb_false_iff in Hv as [_ Hv].
Qed.
Lemma add_pairs_labels ls m : Forall (fun kv => ident (fst kv) = true /\ plain_value (snd kv) = true) ls ->
  add_pairs (map label_text ls) m = Ret (fold_left (fun m kv => <[fst kv := snd kv]> m) ls m).
Proof.
  intros H. revert m. induction H as [|[k v] ls [Hk Hv] _ IH]; intros m; simpl; [done|].
  rewrite add_pair_label by done. simpl. apply IH.
Qed.

Section reading.
Context {F : Type} (parse_f64 : string -> option F) (zero : F).

(** The pieces of a sample line at its braces. *)
Lemma parse_metric_line_braced name inside rest : ident name = true -> has_char close_brace inside = false ->
  parse_metric_line parse_f64 zero (name +:+ String open_brace (inside +:+ String close_brace rest)) =
  (labels ← add_pairs (split_on comma inside) ∅; Ret (name, labels, default zero (parse_f64 (trim rest)))).
Proof.
  intros Hn Hi. set (tail := inside +:+ String close_brace rest).
  assert (find close_brace (name +:+ String open_brace tail) =
          Some (String.length name + 1 + String.length inside)%nat) as Hclose.
  { rewrite find_app by (eapply all_chars_not; [exact Hn|reflexivity]).
    change (find close_brace (String open_brace tail)) with (S <$> find close_brace tail).
    subst tail. rewrite find_app by done. simpl. f_equal. lia. }
  unfold parse_metric_line. rewrite Hclose.
  rewrite find_app by (eapply all_chars_not; [exact Hn|reflexivity]). simpl. rewrite Nat.add_0_r, slice_to_app.
  cbn [mbind outcome_bind default].
  change (String open_brace tail) with (String open_brace "" +:+ tail). rewrite <- str_app_assoc. subst tail.
  rewrite slice_mid by (rewrite str_length_app; simpl; lia). cbn [mbind outcome_bind].
  destruct (add_pairs _ _) as [labels|why]; [|done]. cbn [mbind outcome_bind].
  change (String close_brace rest) with (String close_brace "" +:+ rest). rewrite <- !str_app_assoc.
  by rewrite slice_from_app by (rewrite !str_length_app; simpl; lia).
Qed.

Lemma join_no_char c sep (ps : list string) : has_char c sep = false ->
  Forall (fun p => has_char c p = false) ps -> has_char c (join sep ps) = false.
Proof.
  intros Hs H. induction H as [|p ps Hp Hps IH]; [done|]. destruct ps as [|q ps]; [done|].
  change (join sep (p :: q :: ps)) with (p +:+ sep +:+ join sep (q :: ps)).
  by rewrite !has_char_app, Hp, Hs, IH.
Qed.
Lemma label_text_no_char c kv : ident (fst kv) = true -> ident_char c = false -> has_char c (snd kv) = false ->
  Ascii.eqb equals c = false -> Ascii.eqb quote c = false -> has_char c (label_text kv) = false.
Proof.
  intros Hk Hc Hv He Hq. unfold label_text, quoted.
  change (String equals (String quote (snd kv +:+ String quote ""))) with
    (String equals (String quote "") +:+ (snd kv +:+ String quote "")).
  rewrite !has_char_app, Hv, (all_chars_not _ _ _ Hk Hc). cbn [has_char]. by rewrite He, Hq.
Qed.
Lemma plain_value_spec v : plain_value v = true ->
  has_char comma v = false /\ has_char close_brace v = false /\ has_char quote v = false.
Proof. unfold plain_value. rewrite negb_true_iff, !orb_false_iff. tauto. Qed.

(** A sample written in the exposition format is read back: with an
    ordinary metric name, ordinary label names and label values free of
    commas, closing braces and quotes, the reader of the admin page finds the
    name, every label with its value (the last of a repeated one) and the
    number. *)
Theorem sample_roundtrip name ls v :
  ident name = true ->
  Forall (fun kv => ident (fst kv) = true /\ plain_value (snd kv) = true) ls ->
  unspaced v = true ->
  parse_metric_line parse_f64 zero (sample_text name ls v) =
    Ret (name, fold_left (fun m kv => <[fst kv := snd kv]> m) ls ∅, default zero (parse_f64 v)).
Proof.
  intros Hn Hls Hv. unfold sample_text.
  assert (forall c, ident_char c = false -> Ascii.eqb equals c = false -> Ascii.eqb quote c = false ->
    (forall w, plain_value w = true -> has_char c w = false) ->
    Forall (fun p => has_char c p = false) (map label_text ls)) as Hno.
  { intros c Hc He Hq Hw. apply Forall_fmap. eapply Forall_impl; [exact Hls|].
    intros kv [Hk Hkv]. simpl. apply label_text_no_char; auto. }
  rewrite parse_metric_line_braced;
    [|done|apply join_no_char; [done|apply Hno; try done; intros w Hw; by apply plain_value_spec in Hw as (_ & ? & _)]].
  assert (add_pairs (split_on comma (join "," (map label_text ls))) ∅ =
          Ret (fold_left (fun m kv => <[fst kv := snd kv]> m) ls ∅)) as ->.
  { destruct ls as [|kv ls]; [done|]. rewrite (split_on_join comma); [by apply add_pairs_labels|done|].
    apply Hno; try done. intros w Hw. by apply plain_value_spec in Hw as (? & _). }
  simpl. unfold trim. simpl. fold (trim v). by rewrite trim_unspaced.
Qed.

Lemma has_char_trim c s : is_whitespace c = false -> has_char c (trim s) = has_char c s.
Proof.
  intros Hc. assert (forall s, has_char c (trim_start s) = has_char c s) as Hs.
  { intros t. induction t as [|x t IH]; [done|]. simpl. destruct (is_whitespace x) eqn:Hx; [|done].
    rewrite IH. destruct (Ascii.eqb_spec x c); [congruence|done]. }
  assert (forall s, has_char c (trim_end s) = has_char c s) as He.
  { intros t. induction t as [|x t IH]; [done|]. simpl. destruct (is_whitespace x && _) eqn:Hx.
    - symmetry. apply (all_chars_not is_whitespace c (String x t)); done.
    - simpl. by rewrite IH. }
  unfold trim. by rewrite He, Hs.
Qed.
Lemma join_head sep p ps : exists t, join sep (p :: ps) = p +:+ t.
Proof. destruct ps as [|q ps]; [exists ""; by rewrite str_app_nil|by eexists]. Qed.
Lemma trim_quotes_open v : has_char quote v = false -> trim_quotes (String quote v) = v.
Proof.
  intros H. unfold trim_quotes. simpl.
  assert (trim_start_quotes v = v) as ->.
  { destruct v as [|x v]; [done|]. apply orb_false_iff in H as [Hx _]. simpl. by rewrite Hx. }
  induction v as [|x v IH]; [done|]. apply orb_false_iff in H as [Hx Hv]. simpl. by rewrite Hx, IH.
Qed.
Lemma add_pair_cut k pre : ident k = true -> unspaced pre = true -> has_char quote pre = false ->
  add_pair ∅ (k +:+ String equals (String quote pre)) = Ret {[k := pre]}.
Proof.
  intros Hk Hs Hq. unfold add_pair. rewrite trim_unspaced.
  2: { unfold unspaced in *. rewrite all_chars_app. simpl. rewrite Hs. by rewrite ident_unspaced. }
  rewrite find_app by (eapply all_chars_not; [exact Hk|reflexivity]). simpl. rewrite Nat.add_0_r, slice_to_app.
  simpl. change (String equals (String quote pre)) with (String equals "" +:+ String quote pre).
  rewrite <- str_app_assoc, slice_from_app by (rewrite str_length_app; simpl; lia). simpl.
  rewrite (trim_unspaced k), (trim_unspaced (String quote pre)) by (done || by apply ident_unspaced).
  by rewrite trim_quotes_open.
Qed.

(** A closing brace inside a label value, such as in the route
    [/api/admin/cache/{key}] that the HTTP metrics record, ends the labels
    there: the value of that label is cut off, the labels after it are lost
    and the sample is reported as zero, since what follows is not a number. *)
Theorem braced_label_loses_sample name k pre post ls v :
  ident name = true -> ident k = true -> plain_value pre = true -> unspaced pre = true ->
  (forall s, has_char quote s = true -> parse_f64 s = None) ->
  parse_metric_line parse_f64 zero (sample_text name ((k, pre +:+ String close_brace post) :: ls) v) =
    Ret (name, {[k := pre]}, zero).
Proof.
  intros Hn Hk Hpre Hs Hf. apply plain_value_spec in Hpre as (Hcomma & Hclose & Hquote).
  unfold sample_text. cbn [map]. destruct (join_head "," (label_text (k, pre +:+ String close_brace post)) (map label_text ls)) as [t ->].
  set (inside := k +:+ String equals (String quote pre)).
  assert (label_text (k, pre +:+ String close_brace post) =
          inside +:+ String close_brace (post +:+ String quote "")) as ->.
  { unfold label_text, quoted, inside. cbn [fst snd]. by rewrite !str_app_assoc. }
  rewrite !str_app_assoc.
  change (String close_brace (post +:+ String quote "") +:+ ?x) with (String close_brace ((post +:+ String quote "") +:+ x)).
  rewrite parse_metric_line_braced; [|done|].
  2: { unfold inside. rewrite has_char_app, (all_chars_not _ _ _ Hk) by reflexivity. simpl. exact Hclose. }
  rewrite split_on_piece.
  2: { unfold inside. rewrite has_char_app, (all_chars_not _ _ _ Hk) by reflexivity. simpl. exact Hcomma. }
  cbn [add_pairs]. unfold inside at 1. rewrite add_pair_cut by done. cbn [mbind outcome_bind]. 
  rewrite Hf; [done|]. rewrite has_char_trim by done. rewrite !has_char_app. simpl. by rewrite orb_true_r.
Qed.

(** ** The whole text *)
Definition is_sample (line : string) : bool :=
  negb (String.eqb (trim line) "") && negb (starts_with "#" (trim line)).

Lemma strip_hash p line rest : strip_prefix (String (Ascii.ascii_of_N 35) p) line = Some rest ->
  starts_with "#" line = true.
Proof.
  destruct line as [|c line]; [done|]. destruct (Ascii.eqb_spec (Ascii.ascii_of_N 35) c) as [<-|Hne]; [done|].
  apply Ascii.eqb_neq in Hne. cbn [strip_prefix]. by rewrite Hne.
Qed.

(** A line that is not a sample leaves the entries alone. *)
Lemma read_line_cases line r r' : read_line parse_f64 zero line r = Ret r' ->
  (is_sample line = true /\ read_sample parse_f64 zero (trim line) r = Ret r') \/
  (is_sample line = false /\ entries r' = entries r /\
   ((forall rest, strip_prefix "# HELP " (trim line) <> Some rest) ->
    current_name r' = current_name r /\ current_help r' = current_help r)).
Proof.
  unfold read_line, is_sample. destruct (String.eqb (trim line) "") eqn:E0; [intros [= <-]; by right|].
  destruct (strip_prefix "# HELP " (trim line)) as [rest|] eqn:E1.
  { rewrite (strip_hash _ _ _ E1). simpl. intros H. right. split_and!; [done| |by intros Hn; destruct (Hn rest)].
    destruct (find space rest) as [idx|]; [|by injection H as <-].
    destruct (slice 0 idx rest) as [n|]; [|done]. simpl in H. destruct (slice_from _ rest) as [h|]; [|done].
    by injection H as <-. }
  destruct (strip_prefix "# TYPE " (trim line)) as [rest|] eqn:E2.
  { rewrite (strip_hash _ _ _ E2). simpl. intros H. right.
    destruct (find space rest) as [idx|]; [|by injection H as <-].
    destruct (slice_from _ rest) as [h|]; [|done]. simpl in H. by injection H as <-. }
  destruct (starts_with "#" (trim line)); simpl; [intros [= <-]; by right|]. by left.
Qed.

(** The entries hold the samples [ss], each under its name. *)
Definition grouped (es : list (metric_entry F)) (ss : list (string * metric_value F)) : Prop :=
  NoDup (me_name <$> es) /\
  (forall e, e ∈ es -> values e = snd <$> filter (fun s => fst s = me_name e) ss) /\
  (forall s, s ∈ ss -> fst s ∈ me_name <$> es).

Lemma push_value_names fresh v (es : list (metric_entry F)) :
  me_name <$> push_value fresh v es =
  if bool_decide (me_name fresh ∈ me_name <$> es) then me_name <$> es else (me_name <$> es) ++ [me_name fresh].
Proof.
  induction es as [|e es IH]; [done|]. csimpl. destruct (String.eqb_spec (me_name e) (me_name fresh)) as [E|E]; csimpl.
  - rewrite bool_decide_true; [done|]. rewrite E. by left.
  - rewrite IH. repeat case_bool_decide; try done; set_solver.
Qed.
Lemma push_value_elem fresh v (es : list (metric_entry F)) e :
  NoDup (me_name <$> es) -> e ∈ push_value fresh v es ->
  (e ∈ es /\ me_name e <> me_name fresh) \/
  (me_name e = me_name fresh /\ exists x, x ∈ es /\ me_name x = me_name fresh /\ values e = values x ++ [v]) \/
  (me_name e = me_name fresh /\ (me_name fresh ∉ me_name <$> es) /\ values e = values fresh ++ [v]).
Proof.
  induction es as [|x es IH]; csimpl.
  - intros _ ->%list_elem_of_singleton. right; right. split_and!; [done|apply not_elem_of_nil|done].
  - intros [Hx Hnd]%NoDup_cons. destruct (String.eqb_spec (me_name x) (me_name fresh)) as [E|E];
      intros [-> |He]%elem_of_cons.
    + right; left. split; [done|]. exists x. split_and!; [by left|done|done].
    + left. split; [by right|]. intros Heq. apply Hx. rewrite E, <- Heq. by apply list_elem_of_fmap_2.
    + left. split; [by left|done].
    + destruct (IH Hnd He) as [[? ?]|[(? & y & ? & ? & ?)|(? & ? & ?)]].
      * left. split; [by right|done].
      * right; left. split; [done|]. exists y. split_and!; [by right|done|done].
      * right; right. split_and!; [done| |done]. by apply not_elem_of_cons.
Qed.
Lemma push_value_grouped fresh v es ss : values fresh = [] -> grouped es ss ->
  grouped (push_value fresh v es) (ss ++ [(me_name fresh, v)]).
Proof.
  intros Hf (Hnd & Hv & Hin). split_and!.
  - rewrite push_value_names. case_bool_decide as Hb; [done|].
    apply NoDup_app. split_and!; [done|set_solver|apply NoDup_singleton].
  - intros e He. rewrite filter_app, fmap_app, filter_cons, filter_nil. simpl.
    destruct (push_value_elem fresh v es e Hnd He) as [[He' Hne]|[(Hn & x & Hx & Hxn & ->)|(Hn & Hnew & ->)]].
    + rewrite decide_False by done. rewrite app_nil_r. by apply Hv.
    + rewrite decide_True, (Hv x Hx), Hxn, Hn by done. done.
    + rewrite decide_True, Hf, Hn by done. simpl.
      destruct (filter _ ss) as [|s l] eqn:El; [done|]. exfalso.
      assert (s ∈ filter (fun s => fst s = me_name fresh) ss) as Hs by (rewrite El; left).
      apply list_elem_of_filter in Hs as [Hs1 Hs2]. apply Hnew. rewrite <- Hs1. by apply Hin.
  - intros s [Hs| ->%list_elem_of_singleton]%elem_of_app; rewrite push_value_names; case_bool_decide; set_solver.
Qed.

(** A sample line as it is read. *)
Definition reads (line : string) (s : string * metric_value F) : Prop :=
  exists m, parse_metric_line parse_f64 zero (trim line) = Ret m /\
    snd s = MetricValue (snd (fst m)) (snd m) /\
    (fst s = fst (fst m) \/ fst s = base_name (fst (fst m))).

Lemma lookup_name_cases current n : lookup_name current n = n \/ lookup_name current n = base_name n.
Proof.
  unfold lookup_name. destruct (String.eqb_spec (base_name n) current) as [->|]; [by right|].
  destruct (String.eqb_spec n current) as [->|]; [by left|by right].
Qed.
Lemma read_lines_grouped ls r r' ss : read_lines parse_f64 zero ls r = Ret r' -> grouped (entries r) ss ->
  exists new, Forall2 reads (filter (fun l => is_sample l = true) ls) new /\ grouped (entries r') (ss ++ new).
Proof.
  revert r ss. induction ls as [|l ls IH]; intros r ss; simpl.
  { intros [= <-] Hg. exists []. by rewrite app_nil_r. }
  destruct (read_line parse_f64 zero l r) as [r1|] eqn:E; [|done]. simpl. intros Hr Hg.
  rewrite filter_cons. destruct (read_line_cases _ _ _ E) as [[Hs H1]|(Hs & He & _)]; rewrite Hs; simpl.
  - unfold read_sample in H1. destruct (parse_metric_line _ _ (trim l)) as [m|] eqn:Em; [|done].
    simpl in H1. injection H1 as <-.
    eapply IH in Hr as (new & Hnew & Hg'); [|simpl; by apply (push_value_grouped (MetricEntry _ _ _ []))].
    eexists (_ :: new). rewrite <- app_assoc in Hg'. split; [|exact Hg'].
    constructor; [|done]. exists m. split_and!; [done|done|]. apply lookup_name_cases.
  - rewrite <- He in Hg. exact (IH r1 ss Hr Hg).
Qed.

(** The page of metrics reports every sample of the text exactly once:
    the entries have different names, each holds the values of its own samples
    in the order of the text, and every sample line, read as its name or the
    name without a [_total], [_bucket], [_sum] or [_count] suffix, is in one. *)
Theorem every_sample_reported text es :
  parse_prometheus_text parse_f64 zero text = Ret es ->
  exists samples, Forall2 reads (filter (fun l => is_sample l = true) (lines text)) samples /\
    NoDup (me_name <$> es) /\
    (forall e, e ∈ es -> values e = snd <$> filter (fun s => fst s = me_name e) samples) /\
    (forall s, s ∈ samples -> fst s ∈ me_name <$> es).
Proof.
  unfold parse_prometheus_text. destruct (read_lines _ _ _ _) as [r|] eqn:E; [|done]. simpl. intros [= <-].
  eapply (read_lines_grouped _ _ _ []) in E as (new & H & Hg); [by exists new|].
  split_and!; [apply NoDup_nil_2|by intros e ?%elem_of_nil|by intros s ?%elem_of_nil].
Qed.

Definition undescribed (e : metric_entry F) : Prop :=
  me_name e <> "" -> metric_type e = "unknown" /\ help e = "".
Lemma push_value_undescribed fresh v es : undescribed fresh -> Forall undescribed es ->
  Forall undescribed (push_value fresh v es).
Proof.
  intros Hf. induction 1 as [|e es He Hes IH]; simpl; [constructor; [exact Hf|constructor]|].
  case_match; constructor; done.
Qed.
Lemma read_lines_undescribed ls r r' : read_lines parse_f64 zero ls r = Ret r' ->
  Forall (fun l => forall rest, strip_prefix "# HELP " (trim l) <> Some rest) ls ->
  current_name r = "" /\ current_help r = "" /\ Forall undescribed (entries r) ->
  Forall undescribed (entries r').
Proof.
  revert r. induction ls as [|l ls IH]; intros r; simpl; [intros [= <-]; tauto|].
  destruct (read_line parse_f64 zero l r) as [r1|] eqn:E; [|done]. simpl.
  intros Hr [Hl Hls]%Forall_cons (Hn & Hh & He). apply (IH r1 Hr Hls).
  destruct (read_line_cases _ _ _ E) as [[_ H1]|(_ & -> & H1)].
  - unfold read_sample in H1. destruct (parse_metric_line _ _ (trim l)) as [m|]; [|done].
    simpl in H1. injection H1 as <-. simpl. split_and!; [done|done|]. apply push_value_undescribed; [|done].
    rewrite Hn. intros Hne. simpl in *. destruct (String.eqb_spec (lookup_name "" (fst (fst m))) ""); done.
  - destruct (H1 Hl) as [-> ->]. by split_and!.
Qed.

(** Types and help come from help lines only: in a text whose metrics are
    not described, as the framework's own are not (it never describes one, and
    the exporter writes no [# HELP] line then), the [# TYPE] lines are wasted
    and every metric is reported with type "unknown" and without help. *)
Theorem types_need_help_lines text es :
  Forall (fun l => forall rest, strip_prefix "# HELP " (trim l) <> Some rest) (lines text) ->
  parse_prometheus_text parse_f64 zero text = Ret es ->
  Forall (fun e => me_name e <> "" -> metric_type e = "unknown" /\ help e = "") es.
Proof.
  unfold parse_prometheus_text. destruct (read_lines _ _ _ _) as [r|] eqn:E; [|done]. simpl. intros Hno [= <-].
  by eapply (read_lines_undescribed _ _ _ E Hno).
Qed.

(** A line with an opening brace and no closing one, or with the closing
    one first, does not read as a bad line: the reader panics, and the request
    for the page with it. *)
Theorem unbalanced_braces_panic name rest :
  has_char open_brace name = false -> has_char close_brace rest = false ->
  exists why, parse_metric_line parse_f64 zero (name +:+ String open_brace rest) = Panic why.
Proof.
  intros Hname Hrest. unfold parse_metric_line. rewrite find_app by done. simpl. rewrite Nat.add_0_r, slice_to_app.
  cbn [mbind outcome_bind].
  assert (find close_brace (name +:+ String open_brace rest) = find close_brace name) as ->.
  { clear Hname. induction name as [|x name IH].
    - change (S <$> find close_brace rest = None). by rewrite find_none.
    - change (String x name +:+ ?t) with (String x (name +:+ t)). simpl. destruct (Ascii.eqb x close_brace); [done|].
      by rewrite IH. }
  destruct (find close_brace name) as [i|] eqn:Ei; cbn [default].
  - exists "slice index out of range". unfold slice at 1.
    unfold id. replace (String.length name + 1 <=? i)%nat with false; [done|]. symmetry. apply Nat.leb_gt.
    apply find_bound in Ei. lia.
  - destruct (slice _ _ _); [|by eexists]. cbn [mbind outcome_bind]. destruct (add_pairs _ _); [|by eexists].
    cbn [mbind outcome_bind]. exists "slice index out of range". unfold slice_from, slice.
    replace (_ <=? _)%nat with false; [done|]. symmetry. apply Nat.leb_gt. lia.
Qed.
End reading.
End Metrics.

(** * The pages *)
Module AdminApi.

(** [String::from_utf8]: the well-formed sequences of Unicode's table 3-7. *)
Definition byte_in (lo hi : N) (b : Byte.byte) : bool := ((lo <=? Byte.to_N b) && (Byte.to_N b <=? hi))%N.
Definition continuation : Byte.byte -> bool := byte_in 128 191.
Definition second_of_three (a b : Byte.byte) : bool :=
  byte_in 224 224 a && byte_in 160 191 b || byte_in 225 236 a && continuation b
  || byte_in 237 237 a && byte_in 128 159 b || byte_in 238 239 a && continuation b.
Definition second_of_four (a b : Byte.byte) : bool :=
  byte_in 240 240 a && byte_in 144 191 b || byte_in 241 243 a && continuation b
  || byte_in 244 244 a && byte_in 128 143 b.
Fixpoint valid_utf8 (s : bytes) : bool :=
  match s with
  | [] => true
  | a :: s1 =>
      byte_in 0 127 a && valid_utf8 s1 ||
      match s1 with
      | [] => false
      | b :: s2 =>
          byte_in 194 223 a && continuation b && valid_utf8 s2 ||
          match s2 with
          | [] => false
          | c :: s3 =>
              second_of_three a b && continuation c && valid_utf8 s3 ||
              match s3 with
              | [] => false
              | d :: s4 => second_of_four a b && continuation c && continuation d && valid_utf8 s4
              end
          end
      end
  end.
Definition from_utf8 (s : bytes) : option string :=
  if valid_utf8 s then Some (String.string_of_list_byte s) else None.

Section pages.
Context {W : Type}.
Abbreviation state := (app_state RinfraConfig.t builtin_codec (component W) W).

(** [AppState::cache], [store], [message_bus] and [ratelimiter] *)
Definition cache (s : state) : option cache_component :=
  match state_get T_cache s with Some (CacheC c) => Some c | _ => None end.
Definition store (s : state) : option sql_store :=
  match state_get T_store s with Some (StoreC x) => Some x | _ => None end.
Definition message_bus (s : state) : option Components.message_bus :=
  match state_get T_bus s with Some (MessageBusC b) => Some b | _ => None end.
Definition ratelimiter (s : state) : option rate_limiter :=
  match state_get T_limiter s with Some (RateLimiterC l) => Some l | _ => None end.
Definition plugins (s : state) : PluginConfigs.t := RinfraConfig.plugins (state_config s).

(** [info_handler]: what the compiler put into the program. *)
Record system_info : Type := SystemInfo {
  si_name : string; si_version : string; rust_version : string; si_os : string; arch : string;
}.
Definition rustc_version (pkg_rust_version : option string) : string :=
  default "edition-2024" pkg_rust_version.
Definition info_handler (pkg version : string) (pkg_rust_version : option string) (os arch : string) :
  api_response system_info :=
  response_success (SystemInfo pkg version (rustc_version pkg_rust_version) os arch).

(** [health_handler] *)
Record component_health : Type := ComponentHealth {
  ch_cache : bool; ch_store : bool; ch_message_bus : bool; ch_ratelimiter : bool;
}.
Record health_status : Type := HealthStatus {
  hs_status : string; uptime_secs : Z; components : component_health;
}.
Definition is_some {A} (o : option A) : bool := match o with Some _ => true | None => false end.
Definition health_handler (uptime : Z) (s : state) : api_response health_status :=
  response_success (HealthStatus "healthy" uptime
    (ComponentHealth (is_some (cache s)) (is_some (store s)) (is_some (message_bus s)) (is_some (ratelimiter s)))).

(** [build_plugins_enabled] *)
Definition pushed_if (b : bool) (n : string) : list string := if b then [n] else [].
Definition is_cluster (c : ClusterPluginConfigs.t) : bool := String.eqb (ClusterPluginConfigs.mode c) "cluster".
Definition net_line (l : ListenerConfig.t) : string :=
  "net." +:+ ListenerConfig.name l +:+ " (" +:+ ListenerConfig.bind l +:+ ")".
Definition build_plugins_enabled (config : RinfraConfig.t) : list string :=
  let p := RinfraConfig.plugins config in
  pushed_if (StdoutLogConfig.enabled (LogPluginConfigs.stdout (PluginConfigs.log p))) "log.stdout"
  ++ pushed_if (MemoryCacheConfig.enabled (CachePluginConfigs.memory (PluginConfigs.cache p))) "cache.memory"
  ++ pushed_if (RedisCacheConfig.enabled (CachePluginConfigs.redis (PluginConfigs.cache p))) "cache.redis"
  ++ pushed_if (MultilevelCacheConfig.enabled (CachePluginConfigs.multilevel (PluginConfigs.cache p))) "cache.multilevel"
  ++ map net_line (NetPluginConfigs.listeners (PluginConfigs.net p))
  ++ pushed_if (PostgresConfig.enabled (StorePluginConfigs.postgres (PluginConfigs.store p))) "store.postgres"
  ++ pushed_if (MemoryRateLimitConfig.enabled (RateLimitPluginConfigs.memory (PluginConfigs.ratelimit p))) "ratelimit.memory"
  ++ pushed_if (RedisRateLimitConfig.enabled (RateLimitPluginConfigs.redis (PluginConfigs.ratelimit p))) "ratelimit.redis"
  ++ pushed_if (AesGcmConfig.enabled (CryptoPluginConfigs.aesgcm (PluginConfigs.crypto p))) "crypto.aesgcm"
  ++ pushed_if (RotatingKeyConfig.enabled (CryptoPluginConfigs.rotating (PluginConfigs.crypto p))) "crypto.rotating"
  ++ pushed_if (FileKeyConfig.enabled (CryptoPluginConfigs.file (PluginConfigs.crypto p))) "crypto.file"
  ++ match MqPluginConfigs.backend (PluginConfigs.mq p) with
     | MqBackend.Memory => ["mq.memory"]
     | MqBackend.Nats => ["mq.nats"]
     | MqBackend.RedisStreams => ["mq.redis_streams"]
     | MqBackend.None => []
     end
  ++ pushed_if (WasmScriptConfig.enabled (ScriptPluginConfigs.wasm (PluginConfigs.script p))) "script.wasm"
  ++ pushed_if (is_cluster (PluginConfigs.cluster p)) "cluster".

(** [config_handler] *)
Record listener_summary : Type := ListenerSummary { ls_name : string; ls_protocol : string; ls_bind : string }.
Record config_summary : Type := ConfigSummary {
  app_name : string; app_version : string; cs_listeners : list listener_summary;
  cluster_mode : string; cluster_role : string; plugins_enabled : list string;
}.
Definition protocol_debug (x : ListenerProtocol.t) : string :=
  match x with
  | ListenerProtocol.Http => "Http" | ListenerProtocol.Tcp => "Tcp"
  | ListenerProtocol.Grpc => "Grpc" | ListenerProtocol.Trpc => "Trpc"
  end.
Definition config_handler (s : state) : api_response config_summary :=
  let config := state_config s in
  let app := RinfraConfig.app config in
  let cluster := PluginConfigs.cluster (plugins s) in
  response_success (ConfigSummary (AppConfig.name app) (AppConfig.version app)
    (map (fun l => ListenerSummary (ListenerConfig.name l) (protocol_debug (ListenerConfig.protocol l))
                     (ListenerConfig.bind l)) (NetPluginConfigs.listeners (PluginConfigs.net (plugins s))))
    (ClusterPluginConfigs.mode cluster) (ClusterPluginConfigs.role cluster) (build_plugins_enabled config)).

(** [plugins_handler] *)
Record plugin_info : Type := PluginInfo { pi_name : string; category : string; pi_status : string }.
Definition plugin_rows (config : RinfraConfig.t) : list (string * string * bool) :=
  let p := RinfraConfig.plugins config in
  [("log.stdout", "logging", StdoutLogConfig.enabled (LogPluginConfigs.stdout (PluginConfigs.log p)));
   ("store.postgres", "storage", PostgresConfig.enabled (StorePluginConfigs.postgres (PluginConfigs.store p)));
   ("cache.memory", "cache", MemoryCacheConfig.enabled (CachePluginConfigs.memory (PluginConfigs.cache p)));
   ("cache.redis", "cache", RedisCacheConfig.enabled (CachePluginConfigs.redis (PluginConfigs.cache p)));
   ("cache.multilevel", "cache", MultilevelCacheConfig.enabled (CachePluginConfigs.multilevel (PluginConfigs.cache p)));
   ("ratelimit.memory", "ratelimit", MemoryRateLimitConfig.enabled (RateLimitPluginConfigs.memory (PluginConfigs.ratelimit p)));
   ("ratelimit.redis", "ratelimit", RedisRateLimitConfig.enabled (RateLimitPluginConfigs.redis (PluginConfigs.ratelimit p)));
   ("crypto.aesgcm", "crypto", AesGcmConfig.enabled (CryptoPluginConfigs.aesgcm (PluginConfigs.crypto p)));
   ("crypto.rotating", "crypto", RotatingKeyConfig.enabled (CryptoPluginConfigs.rotating (PluginConfigs.crypto p)));
   ("crypto.file", "crypto", FileKeyConfig.enabled (CryptoPluginConfigs.file (PluginConfigs.crypto p)));
   ("codec.json", "codec", true); ("codec.msgpack", "codec", true); ("codec.protobuf", "codec", true);
   ("mq.memory", "messaging", match MqPluginConfigs.backend (PluginConfigs.mq p) with MqBackend.Memory => true | _ => false end);
   ("script.wasm", "scripting", WasmScriptConfig.enabled (ScriptPluginConfigs.wasm (PluginConfigs.script p)));
   ("cluster", "cluster", is_cluster (PluginConfigs.cluster p))].
Definition plugin_row (r : string * string * bool) : plugin_info :=
  PluginInfo (fst (fst r)) (snd (fst r)) (if snd r then "enabled" else "available").
Definition plugins_handler (s : state) : api_response (list plugin_info) :=
  response_success (map plugin_row (plugin_rows (state_config s) ++
    map (fun l => (ListenerConfig.name l, "network", true)) (NetPluginConfigs.listeners (PluginConfigs.net (plugins s))))).

(** [cluster_nodes_handler]: [nodes] is what the node registry lists, if there
    is a registry. *)
Record cluster_node_info : Type := ClusterNodeInfo {
  cn_id : string; cn_role : string; cn_status : string; cn_endpoints : list Cluster.endpoint; cn_metadata : metadata_map;
}.
Record cluster_node_view : Type := ClusterNodeView { view_mode : string; nodes : list cluster_node_info }.
Definition role_debug (r : node_role) : string := match r with Main => "Main" | Worker => "Worker" end.
Definition status_debug (s : node_status) : string :=
  match s with Online => "Online" | Offline => "Offline" | Draining => "Draining" end.
Definition node_row (n : node_info) : cluster_node_info :=
  ClusterNodeInfo (node_id n) (role_debug (role n)) (status_debug (Cluster.status n)) (endpoints n) (metadata n).
Definition cluster_nodes_handler (listed : option (Result (list node_info))) (s : state) :
  api_response cluster_node_view :=
  response_success (ClusterNodeView (ClusterPluginConfigs.mode (PluginConfigs.cluster (plugins s)))
    match listed with Some (Ok l) => map node_row l | _ => [] end).

(** [cache_get_handler] and [cache_flush_handler]; [get] is the cache's. *)
Record cache_get_result : Type := CacheGetResult { cg_key : string; found : bool; cg_value : option string }.
Definition shown (b : bytes) : string :=
  match from_utf8 b with
  | Some v => v
  | None => "<binary " +:+ pretty (Z.of_nat (length b)) +:+ " bytes>"
  end.
Definition cache_get_handler (get : cache_component -> string -> M W (Result (option bytes)))
  (s : state) (key : string) : M W (api_response cache_get_result) :=
  match cache s with
  | Some c =>
      r ← get c key;
      mret (response_success
        match r with
        | Ok (Some b) => CacheGetResult key true (Some (shown b))
        | Ok None => CacheGetResult key false None
        | Err _ => CacheGetResult key false None
        end)
  | None => mret (response_success (CacheGetResult key false None))
  end.
Definition cache_flush_handler (s : state) : M W (api_response string) :=
  mret (response_success (if is_some (cache s) then "cache flush requested" else "no cache configured")).

(** [metrics_handler]: [rendered] is the exporter's text, if there is one. *)
Definition metrics_handler {F} (parse_f64 : string -> option F) (zero : F) (rendered : option string) :
  outcome (api_response (list (Metrics.metric_entry F))) :=
  match rendered with
  | None => Ret (response_success [])
  | Some raw => entries ← Metrics.parse_prometheus_text parse_f64 zero raw; Ret (response_success entries)
  end.

(** [struct MenuEntry] and [extensions_handler] *)
Record menu_entry : Type := MenuEntry {
  menu_path : string; menu_name : string; icon : string; menu_category : string; data_url : string;
}.
Definition extensions_handler (entries : list menu_entry) : api_response (list menu_entry) :=
  response_success entries.

(** ** Lemmas and properties *)
Lemma pushed_if_elem b n m : n ∈ pushed_if b m <-> b = true /\ n = m.
Proof. destruct b; simpl; [rewrite list_elem_of_singleton|rewrite elem_of_nil]; naive_solver. Qed.

(** The plugins both pages know. *)
Definition on_both_pages : list string :=
  ["log.stdout"; "store.postgres"; "cache.memory"; "cache.redis"; "cache.multilevel"; "ratelimit.memory";
   "ratelimit.redis"; "crypto.aesgcm"; "crypto.rotating"; "crypto.file"; "mq.memory"; "script.wasm"; "cluster"].

Lemma not_net_line n l : n ∈ on_both_pages -> n ∉ map net_line l.
Proof.
  intros Hn (x & -> & _)%list_elem_of_fmap. revert Hn. unfold on_both_pages.
  rewrite !elem_of_cons, elem_of_nil. intros H. repeat destruct H as [H|H]; try discriminate H; done.
Qed.

(** The message bus in the summary, as far as the other page knows it. *)
Definition mq_lines (b : MqBackend.t) : list string :=
  match b with
  | MqBackend.Memory => ["mq.memory"]
  | MqBackend.Nats => ["mq.nats"]
  | MqBackend.RedisStreams => ["mq.redis_streams"]
  | MqBackend.None => []
  end.
Lemma mq_line n b : n ∈ on_both_pages ->
  n ∈ mq_lines b <-> match b with MqBackend.Memory => true | _ => false end = true /\ n = "mq.memory".
Proof.
  intros Hn. unfold on_both_pages in Hn. rewrite !elem_of_cons, elem_of_nil in Hn.
  destruct b; simpl; rewrite ?elem_of_cons, ?elem_of_nil; naive_solver.
Qed.

(** The two pages that list plugins agree: a plugin both know is enabled
    on the plugins page exactly when it is in the configuration summary. *)
Theorem plugin_pages_agree (cfg : RinfraConfig.t) r :
  r ∈ plugin_rows cfg -> fst (fst r) ∈ on_both_pages ->
  (pi_status (plugin_row r) = "enabled" <-> fst (fst r) ∈ build_plugins_enabled cfg).
Proof.
  intros Hr Hn. pose proof (not_net_line _ (NetPluginConfigs.listeners (PluginConfigs.net (RinfraConfig.plugins cfg))) Hn) as Hnet.
  unfold build_plugins_enabled. rewrite !elem_of_app, !pushed_if_elem.
  set (b := MqPluginConfigs.backend _). pose proof (mq_line _ b Hn) as Hmq. fold (mq_lines b). rewrite Hmq.
  unfold plugin_rows in Hr. rewrite !elem_of_cons, elem_of_nil in Hr. fold b in Hr. clear Hmq. revert Hnet Hr.
  set (net := map net_line _). set (mem := match b with MqBackend.Memory => true | _ => false end).
  assert (forall x : bool, (if x then "enabled" else "available") = "enabled" <-> x = true) as Hb by (by intros []).
  unfold plugin_row; cbn [pi_status]. rewrite Hb. clearbody net mem. intros Hnet Hr.
  repeat destruct Hr as [-> |Hr]; try done; cbn [fst snd] in *;
    try (unfold on_both_pages in Hn; rewrite !elem_of_cons, elem_of_nil in Hn;
         destruct_or? Hn; discriminate); clear Hn Hb;
    (split; [intros ->; repeat first [by split | left; by split | right]
            |intros H; destruct_or? H; destruct_and? H; first [done | congruence | by destruct (Hnet H)]]).
Qed.

(** The summary goes by the flags alone: with the two-level cache enabled
    but not both of its levels, the application starts without it, and the
    page still lists it as enabled. *)
Theorem skipped_multilevel_reported {router : Type} (os : platform W) (cfg : RinfraConfig.t) :
  let caches := PluginConfigs.cache (RinfraConfig.plugins cfg) in
  MultilevelCacheConfig.enabled (CachePluginConfigs.multilevel caches) = true ->
  MemoryCacheConfig.enabled (CachePluginConfigs.memory caches) &&
    RedisCacheConfig.enabled (CachePluginConfigs.redis caches) = false ->
  BuiltinPlugins.startup_result (router := router) os cfg = Ret (Ok tt) ->
  "cache.multilevel" ∈ build_plugins_enabled cfg /\
  forall l1 l2, state_get T_cache (BuiltinPlugins.startup_state (router := router) os cfg) <>
    Some (CacheC (MultilevelCache l1 l2)).
Proof.
  intros caches Hml Hboth Hok. split.
  - unfold build_plugins_enabled. fold caches. rewrite Hml. simpl. rewrite !elem_of_app. right; right; right; left.
  - intros l1 l2. rewrite (BuiltinPlugins.cache_slot os cfg Hok). fold caches.
    assert (BuiltinPlugins.multilevel_on os cfg = false) as ->.
    { unfold BuiltinPlugins.multilevel_on, BuiltinPlugins.memory_cache_on, BuiltinPlugins.redis_cache_on. fold caches.
      destruct (MemoryCacheConfig.enabled _), (RedisCacheConfig.enabled _), (has os FMemoryCache), (has os FRedis); done. }
    by repeat case_match.
Qed.

(** The cache pages tell less than they seem to: a key whose read fails is
    reported like a key that is not there, with success, and the flush request
    is acknowledged without touching any cache. *)
Theorem cache_pages_hide_failures (get : cache_component -> string -> M W (Result (option bytes)))
  (s : state) (key : string) (w w' : W) c r :
  cache s = Some c -> get c key w = Ret (r, w') ->
  let missing := response_success (CacheGetResult key false None) in
  (cache_get_handler get s key w = Ret (missing, w') <-> r = Ok None \/ exists e, r = Err e) /\
  cache_flush_handler s w = Ret (response_success "cache flush requested", w).
Proof.
  intros Hc Hg missing. unfold cache_get_handler, cache_flush_handler. rewrite Hc.
  rewrite (M_bind_ret _ _ _ _ _ Hg). split; [|done]. split.
  - intros [= H]. destruct r as [[b|]|e]; [done|by left|right; eauto].
  - intros [-> |[e ->]]; done.
Qed.
End pages.
End AdminApi.

(** * Examples *)
Module AdminRoutesExamples.
Import Metrics AdminApi.

(** Literals as numbers, [0] for zero. *)
Definition literal (s : string) : option string := if has_char quote s then None else Some s.
Definition get_labels : list (string * string) := [("method", "GET"); ("path", "/api/admin/info")].

Lemma sample_roundtrip_witness :
  parse_metric_line literal "0" (sample_text "http_requests_total" get_labels "7") =
    Ret ("http_requests_total", list_to_map get_labels, "7").
Proof.
  etransitivity; [apply (sample_roundtrip literal "0" "http_requests_total" get_labels "7")|reflexivity].
  - reflexivity.
  - repeat constructor.
  - reflexivity.
Defined.

Lemma braced_label_loses_sample_witness :
  parse_metric_line literal "0"
    (sample_text "http_requests_total" [("path", "/api/admin/cache/{key}"); ("status", "200")] "7") =
    Ret ("http_requests_total", {["path" := "/api/admin/cache/{key"]}, "0").
Proof.
  apply (braced_label_loses_sample literal "0" "http_requests_total" "path" "/api/admin/cache/{key" ""
    [("status", "200")] "7"); try reflexivity.
  intros s H. unfold literal. by rewrite H.
Defined.

Definition with_newlines (ls : list string) : string := join (String newline "") ls.
Definition exported : string :=
  with_newlines ["# TYPE http_requests_total counter"; sample_text "http_requests_total" get_labels "7";
                 sample_text "http_requests_total" [("method", "PUT")] "2"; "";
                 "# TYPE up gauge"; "up 1"].
Definition exported_entries : list (metric_entry string) :=
  match parse_prometheus_text literal "0" exported with Ret es => es | Panic _ => [] end.

Lemma every_sample_reported_witness :
  exists samples, Forall2 (reads literal "0") (filter (fun l => is_sample l = true) (lines exported)) samples /\
    length samples = 3%nat /\ me_name <$> exported_entries = ["http_requests"; "up"].
Proof.
  destruct (every_sample_reported literal "0" exported exported_entries) as (samples & Hs & _);
    [vm_compute; reflexivity|].
  exists samples. split; [exact Hs|]. split; [|vm_compute; reflexivity].
  apply Forall2_length in Hs. rewrite <- Hs. vm_compute. reflexivity.
Defined.

Lemma types_need_help_lines_witness :
  Forall (fun e => me_name e <> "" -> metric_type e = "unknown" /\ help e = "") exported_entries /\
  length exported_entries = 2%nat.
Proof.
  split; [|vm_compute; reflexivity].
  apply (types_need_help_lines literal "0" exported); [|vm_compute; reflexivity].
  let ls := eval vm_compute in (lines exported) in change (lines exported) with ls.
  repeat (apply Forall_cons; split; [intros rest H; vm_compute in H; discriminate H|]). apply Forall_nil_2.
Defined.

Lemma unbalanced_braces_panic_witness :
  exists why, parse_metric_line literal "0" "up{broken 1" = Panic why.
Proof. apply (unbalanced_braces_panic literal "0" "up" "broken 1"); reflexivity. Defined.

Lemma plugin_pages_agree_witness :
  let cfg := RinfraConfig.default "c1" in
  let r := ("mq.memory", "messaging", true) in
  pi_status (plugin_row r) = "enabled" <-> "mq.memory" ∈ build_plugins_enabled cfg.
Proof.
  apply (plugin_pages_agree (RinfraConfig.default "c1") ("mq.memory", "messaging", true));
    apply (bool_decide_unpack _); vm_compute; exact I.
Defined.

Definition one_level : RinfraConfig.t :=
  BuiltinExamples.config_of [("cache", JObject [("multilevel", JObject [BuiltinExamples.on]); ("memory", JObject [BuiltinExamples.on])])].
Lemma skipped_multilevel_reported_witness : "cache.multilevel" ∈ build_plugins_enabled one_level.
Proof.
  apply (proj1 (skipped_multilevel_reported (router := unit) BuiltinExamples.example_platform one_level
    ltac:(vm_compute; reflexivity) ltac:(vm_compute; reflexivity) ltac:(vm_compute; reflexivity))).
Defined.

Definition failing_get (c : cache_component) (key : string) : M unit (Result (option bytes)) :=
  mret (fail CacheConnectionFailed "redis not connected").
Definition redis_state : app_state RinfraConfig.t builtin_codec (component unit) unit :=
  BuiltinPlugins.startup_state (router := unit) BuiltinExamples.example_platform BuiltinExamples.two_caches.
Lemma cache_pages_hide_failures_witness :
  cache_get_handler failing_get redis_state "k" tt =
    Ret (response_success (CacheGetResult "k" false None), tt).
Proof.
  eapply (proj1 (cache_pages_hide_failures failing_get redis_state "k" tt tt
    (RedisCache (CachePluginConfigs.redis (PluginConfigs.cache (RinfraConfig.plugins BuiltinExamples.two_caches))))
    (fail CacheConnectionFailed "redis not connected") ltac:(vm_compute; reflexivity) eq_refl)).
  right. eexists. reflexivity.
Defined.
End AdminRoutesExamples.
