(* ===== verification/Runtime.v ===== *)
(** The application ([rinfra-plugins/src/runtime/mod.rs]): the builder's
    tables, the listeners started from the configuration, and the order of
    startup and shutdown.  The routers are any [Router]. *)

From Stdlib Require Import FunctionalExtensionality.
From S2P Require Import Prelude Errors Registries Plugins Router.

(** [enum ListenerProtocol], [struct ListenerConfig] and its options; the
    middleware options are left to the HTTP stack. *)
Inductive listener_protocol : Type := Http | Tcp | Grpc | Trpc.
Record tcp_options : Type := TcpOptions { max_frame_size : Z; steps : list string }.
Definition default_tcp_options : tcp_options := TcpOptions 65536 [].
Record http_options (ws_opts mw_cfg : Type) : Type := HttpOptions { middleware : mw_cfg; ws : ws_opts }.
Arguments HttpOptions {ws_opts mw_cfg} _ _.
Arguments middleware {ws_opts mw_cfg} _.
Arguments ws {ws_opts mw_cfg} _.

Section runtime.
(** The values the tables hold: routers, application states, WebSocket and
    TCP handlers, gRPC service functions, tRPC service functions, byte
    transforms, HTTP and TCP middlewares, and the options of a listener. *)
Context {router state ws_handler tcp_handler grpc_fn service_fn transform http_mw tcp_mw ws_opts mw_cfg : Type}.
(** axum's routers, as in [Router]. *)
Context {H L : Type} `{LibR : !RouterLib H L router, LawsR : !RouterLaws H L router}.
Variable http_mw_name : http_mw -> string.
Variable builtin_http_middlewares : mw_cfg -> state -> list http_mw.
Variable health_router : state -> router.
Variable ws_router : ws_handler -> ws_opts -> router.
Variable ws_enabled : ws_opts -> bool.
Variable default_http_options : http_options ws_opts mw_cfg.

Record listener_config : Type := ListenerConfig {
  l_name : string;
  protocol : listener_protocol;
  bind : string;
  l_http : option (http_options ws_opts mw_cfg);
  l_tcp : option tcp_options;
}.

(** [struct Application], the part the listeners are started from. *)
Record application : Type := Application {
  http_routers : gmap string (list (state -> router));
  ws_handlers : gmap string ws_handler;
  tcp_handlers : gmap string tcp_handler;
  grpc_services : gmap string (list grpc_fn);
  trpc_services : gmap string (list (string * service_fn));
  transform_registry : gmap string transform;
  extra_http_middlewares : list http_mw;
  extra_tcp_middlewares : list tcp_mw;
}.

(** [ApplicationBuilder]'s tables: [entry(..).or_default().push] and [insert]. *)
Definition push_entry {A} (k : string) (x : A) (m : gmap string (list A)) : gmap string (list A) :=
  <[k := default [] (m !! k) ++ [x]]> m.
Definition http_router (listener : string) (f : state -> router) (a : application) : application :=
  Application (push_entry listener f (http_routers a)) (ws_handlers a) (tcp_handlers a) (grpc_services a)
    (trpc_services a) (transform_registry a) (extra_http_middlewares a) (extra_tcp_middlewares a).
Definition set_ws_handler (listener : string) (h : ws_handler) (a : application) : application :=
  Application (http_routers a) (<[listener := h]> (ws_handlers a)) (tcp_handlers a) (grpc_services a)
    (trpc_services a) (transform_registry a) (extra_http_middlewares a) (extra_tcp_middlewares a).
Definition set_tcp_handler (listener : string) (h : tcp_handler) (a : application) : application :=
  Application (http_routers a) (ws_handlers a) (<[listener := h]> (tcp_handlers a)) (grpc_services a)
    (trpc_services a) (transform_registry a) (extra_http_middlewares a) (extra_tcp_middlewares a).
Definition trpc_service (listener name : string) (f : service_fn) (a : application) : application :=
  Application (http_routers a) (ws_handlers a) (tcp_handlers a) (grpc_services a)
    (push_entry listener (name, f) (trpc_services a)) (transform_registry a)
    (extra_http_middlewares a) (extra_tcp_middlewares a).

(** What a listener's task serves. *)
Inductive server : Type :=
| HttpListener (bind : string) (extra : option router) (registry : gmap string http_mw)
| TcpListener (bind name : string) (h : tcp_handler) (pipeline : list transform)
    (mws : list tcp_mw) (max_frame : Z)
| GrpcListener (bind : string) (services : list grpc_fn)
| TrpcListener (bind name : string) (services : gmap string service_fn) (max_frame : Z).

(** [build_with_plugins]: the plugins' routers go under [__plugin__]. *)
Definition plugin_key : string := "__plugin__".
Definition add_plugin_routers (routers : list router) (a : application) : application :=
  fold_left (fun a r => http_router plugin_key (fun _ => r) a) routers a.

(** [start_http_listener]; two routers with a route in common cannot be
    merged: the listener, and [run] with it, panics. *)
Definition start_http_listener (l : listener_config) (st : state) (health_enabled : bool) (a : application) :
    outcome (server * application) :=
  let http_opts := default default_http_options (l_http l) in
  let registry :=
    register_all http_mw_name (fun n => "http middleware '" +:+ n +:+ "' already registered")
      (builtin_http_middlewares (middleware http_opts) st ++ extra_http_middlewares a) ∅ in
  let router_fns := http_routers a !! l_name l in
  let routers1 := delete (l_name l) (http_routers a) in
  let plugin_routers := routers1 !! plugin_key in
  let routers2 := delete plugin_key routers1 in
  merged ← merge_each ((fun f => f st) <$> default [] plugin_routers) None;
  merged ← merge_each ((fun f => f st) <$> default [] router_fns) merged;
  merged ← (if health_enabled then merge_into merged (health_router st) else Ret merged);
  merged ← match ws_handlers a !! l_name l with
           | Some h => if ws_enabled (ws http_opts) then merge_into merged (ws_router h (ws http_opts)) else Ret merged
           | None => Ret merged
           end;
  Ret (HttpListener (bind l) merged registry,
       Application routers2 (delete (l_name l) (ws_handlers a)) (tcp_handlers a) (grpc_services a)
         (trpc_services a) (transform_registry a) (extra_http_middlewares a) (extra_tcp_middlewares a)).

(** The pipeline of [start_tcp_listener]: [None] at the first unknown name. *)
Fixpoint resolve (registry : gmap string transform) (names : list string) : option (list transform) :=
  match names with
  | [] => Some []
  | n :: names => t ← registry !! n; ts ← resolve registry names; Some (t :: ts)
  end.
(** [start_tcp_listener] *)
Definition start_tcp_listener (l : listener_config) (a : application) : option server * application :=
  match tcp_handlers a !! l_name l with
  | None => (None, a)
  | Some h =>
      let a := Application (http_routers a) (ws_handlers a) (delete (l_name l) (tcp_handlers a))
                 (grpc_services a) (trpc_services a) (transform_registry a)
                 (extra_http_middlewares a) (extra_tcp_middlewares a) in
      let tcp_opts := default default_tcp_options (l_tcp l) in
      match resolve (transform_registry a) (steps tcp_opts) with
      | None => (None, a)
      | Some pipeline =>
          (Some (TcpListener (bind l) (l_name l) h pipeline (extra_tcp_middlewares a)
                   (max_frame_size tcp_opts)), a)
      end
  end.

(** [start_grpc_listener] *)
Definition start_grpc_listener (l : listener_config) (a : application) : server * application :=
  (GrpcListener (bind l) (default [] (grpc_services a !! l_name l)),
   Application (http_routers a) (ws_handlers a) (tcp_handlers a) (delete (l_name l) (grpc_services a))
     (trpc_services a) (transform_registry a) (extra_http_middlewares a) (extra_tcp_middlewares a)).

(** [RwLock::blocking_write], which tokio documents to panic when it is called
    within a runtime; [register_raw]. *)
Definition blocking_write {A} (in_runtime : bool) (f : A -> A) (a : A) : outcome A :=
  if in_runtime then Panic "Cannot block the current thread from within a runtime" else Ret (f a).
Definition register_raw (in_runtime : bool) (name : string) (f : service_fn) (services : gmap string service_fn) :
    outcome (gmap string service_fn) :=
  blocking_write in_runtime (fun m => <[name := f]> m) services.
Fixpoint register_each (in_runtime : bool) (entries : list (string * service_fn)) (services : gmap string service_fn) :
    outcome (gmap string service_fn) :=
  match entries with
  | [] => Ret services
  | (name, f) :: entries => services ← register_raw in_runtime name f services; register_each in_runtime entries services
  end.
(** [start_trpc_listener], which [run] calls within the runtime it is polled in *)
Definition start_trpc_listener (l : listener_config) (a : application) : outcome (server * application) :=
  let entries := default [] (trpc_services a !! l_name l) in
  services ← register_each true entries ∅;
  Ret (TrpcListener (bind l) (l_name l) services (max_frame_size (default default_tcp_options (l_tcp l))),
       Application (http_routers a) (ws_handlers a) (tcp_handlers a) (grpc_services a)
         (delete (l_name l) (trpc_services a)) (transform_registry a)
         (extra_http_middlewares a) (extra_tcp_middlewares a)).

(** One iteration of the loop of [run] that starts the listeners, and the loop. *)
Definition start_listener (l : listener_config) (st : state) (health_enabled : bool) (a : application) :
    outcome (list server * application) :=
  match protocol l with
  | Http => x ← start_http_listener l st health_enabled a; Ret ([fst x], snd x)
  | Tcp => let '(s, a) := start_tcp_listener l a in Ret (option_list s, a)
  | Grpc => let '(s, a) := start_grpc_listener l a in Ret ([s], a)
  | Trpc => x ← start_trpc_listener l a; Ret ([fst x], snd x)
  end.
Fixpoint start_listeners (ls : list listener_config) (st : state) (health_enabled : bool) (a : application) :
    outcome (list server * application) :=
  match ls with
  | [] => Ret ([], a)
  | l :: ls =>
      r ← start_listener l st health_enabled a;
      rest ← start_listeners ls st health_enabled (snd r);
      Ret (fst r ++ fst rest, snd rest)
  end.

(** ** What each listener is to serve

    Read off the tables the builder filled, without the tables' changes while
    the listeners are started. *)
Definition is_http (l : listener_config) : bool := match protocol l with Http => true | _ => false end.
Definition merge_all (rs : list router) : outcome (option router) := merge_each rs None.
Definition own_routes (l : listener_config) (st : state) (health_enabled : bool) (a : application) : list router :=
  let http_opts := default default_http_options (l_http l) in
  ((fun f => f st) <$> default [] (http_routers a !! l_name l)) ++
  (if health_enabled then [health_router st] else []) ++
  match ws_handlers a !! l_name l with
  | Some h => if ws_enabled (ws http_opts) then [ws_router h (ws http_opts)] else []
  | None => []
  end.
Definition http_routes (plugins : list (state -> router)) (l : listener_config) (st : state)
    (health_enabled : bool) (a : application) : list router :=
  ((fun f => f st) <$> plugins) ++ own_routes l st health_enabled a.
Definition has_trpc_service (a : application) (l : listener_config) : bool :=
  match protocol l with
  | Trpc => negb (Nat.eqb (length (default [] (trpc_services a !! l_name l))) 0)
  | _ => false
  end.
Definition expected_server (plugins : list (state -> router)) (l : listener_config) (st : state)
    (health_enabled : bool) (a : application) : outcome (list server) :=
  match protocol l with
  | Http =>
      merged ← merge_all (http_routes plugins l st health_enabled a);
      Ret [HttpListener (bind l) merged
             (register_all http_mw_name (fun n => "http middleware '" +:+ n +:+ "' already registered")
                (builtin_http_middlewares (middleware (default default_http_options (l_http l))) st ++
                 extra_http_middlewares a) ∅)]
  | Tcp =>
      Ret match tcp_handlers a !! l_name l, resolve (transform_registry a) (steps (default default_tcp_options (l_tcp l))) with
          | Some h, Some p =>
              [TcpListener (bind l) (l_name l) h p (extra_tcp_middlewares a)
                 (max_frame_size (default default_tcp_options (l_tcp l)))]
          | _, _ => []
          end
  | Grpc => Ret [GrpcListener (bind l) (default [] (grpc_services a !! l_name l))]
  | Trpc =>
      if has_trpc_service a l then Panic "Cannot block the current thread from within a runtime"
      else Ret [TrpcListener (bind l) (l_name l) ∅ (max_frame_size (default default_tcp_options (l_tcp l)))]
  end.
Fixpoint expected_servers (plugins : list (state -> router)) (ls : list listener_config) (st : state)
    (health_enabled : bool) (a : application) : outcome (list server) :=
  match ls with
  | [] => Ret []
  | l :: ls =>
      s ← expected_server plugins l st health_enabled a;
      rest ← expected_servers (if is_http l then [] else plugins) ls st health_enabled a;
      Ret (s ++ rest)
  end.

(** The tables [b] have what [a] has for the listeners still to start, and the
    plugins' routers that are left. *)
Definition agrees (plugins : list (state -> router)) (names : list string) (a b : application) : Prop :=
  transform_registry b = transform_registry a /\
  extra_http_middlewares b = extra_http_middlewares a /\
  extra_tcp_middlewares b = extra_tcp_middlewares a /\
  default [] (http_routers b !! plugin_key) = plugins /\
  forall n, n ∈ names ->
    http_routers b !! n = http_routers a !! n /\ ws_handlers b !! n = ws_handlers a !! n /\
    tcp_handlers b !! n = tcp_handlers a !! n /\ grpc_services b !! n = grpc_services a !! n /\
    trpc_services b !! n = trpc_services a !! n.

(** The routers one after the other, however they are grouped. *)
Lemma merged_http plugins l st (health : bool) a (b : option router) :
  (merged ← merge_each ((fun f : state -> router => f st) <$> plugins) b;
   merged ← merge_each ((fun f => f st) <$> default [] (http_routers a !! l_name l)) merged;
   merged ← (if health then merge_into merged (health_router st) else Ret merged);
   match ws_handlers a !! l_name l with
   | Some h => if ws_enabled (ws (default default_http_options (l_http l)))
               then merge_into merged (ws_router h (ws (default default_http_options (l_http l)))) else Ret merged
   | None => Ret merged
   end) = merge_each (http_routes plugins l st health a) b.
Proof.
  unfold http_routes, own_routes. rewrite merge_each_app. f_equal. apply functional_extensionality. intros m1.
  rewrite merge_each_app. f_equal. apply functional_extensionality. intros m2.
  rewrite merge_each_app.
  assert (merge_each (if health then [health_router st] else []) m2 =
    if health then merge_into m2 (health_router st) else Ret m2) as ->.
  { destruct health; [|done]. simpl. by destruct (merge_into m2 (health_router st)). }
  f_equal. apply functional_extensionality. intros m3. destruct (ws_handlers a !! l_name l); [|done].
  destruct (ws_enabled _); [|done]. simpl. by destruct (merge_into m3 _).
Qed.

Lemma start_http_listener_spec l st health plugins names a b :
  agrees plugins (l_name l :: names) a b -> l_name l ∉ names -> l_name l <> plugin_key -> plugin_key ∉ names ->
  protocol l = Http ->
  match expected_server plugins l st health a with
  | Ret ss => exists s b', start_http_listener l st health b = Ret (s, b') /\ [s] = ss /\ agrees [] names a b'
  | Panic _ => exists why, start_http_listener l st health b = Panic why
  end.
Proof.
  intros (Ht & Hm & Hmt & Hp & Hn) Hnew Hne Hnk Hprot.
  destruct (Hn (l_name l) (list_elem_of_here _ _)) as (H1 & H2 & _).
  unfold expected_server, merge_all. rewrite Hprot, <- merged_http.
  unfold start_http_listener. rewrite lookup_delete_ne, Hp, H1, H2 by done.
  destruct (merge_each _ None) as [m1|]; [|by eexists]. cbn [mbind outcome_bind].
  destruct (merge_each _ m1) as [m2|]; [|by eexists]. cbn [mbind outcome_bind].
  destruct (if health then _ else _) as [m3|]; [|by eexists]. cbn [mbind outcome_bind].
  destruct (match ws_handlers a !! l_name l with Some _ => _ | None => _ end) as [m4|]; [|by eexists].
  cbn [mbind outcome_bind]. eexists _, _. split; [reflexivity|]. split; [by rewrite Hm|].
  unfold agrees. cbn -[lookup delete]. split_and!; [done..| |].
  - by rewrite lookup_delete_eq.
  - intros n Hin. destruct (Hn n (list_elem_of_further _ _ _ Hin)) as (E1 & E2 & E3 & E4 & E5).
    rewrite !lookup_delete_ne by (intros E; subst; contradiction). by split_and!.
Qed.

Lemma start_tcp_listener_spec l st health plugins names a b :
  agrees plugins (l_name l :: names) a b -> l_name l ∉ names -> protocol l = Tcp ->
  Ret (option_list (fst (start_tcp_listener l b))) = expected_server plugins l st health a /\
  agrees plugins names a (snd (start_tcp_listener l b)).
Proof.
  intros (Ht & Hm & Hmt & Hp & Hn) Hnew Hprot.
  destruct (Hn (l_name l) (list_elem_of_here _ _)) as (_ & _ & H3 & _).
  assert (agrees plugins names a b) as Hb by (split_and!; [done..|]; intros n Hin; exact (Hn n (list_elem_of_further _ _ _ Hin))).
  unfold start_tcp_listener, expected_server. rewrite Hprot, H3.
  destruct (tcp_handlers a !! l_name l) as [h|]; [|done]. cbn -[lookup delete resolve]. rewrite Ht, Hmt.
  assert (agrees plugins names a (Application (http_routers b) (ws_handlers b) (delete (l_name l) (tcp_handlers b))
    (grpc_services b) (trpc_services b) (transform_registry b) (extra_http_middlewares b)
    (extra_tcp_middlewares b))) as Hd.
  { unfold agrees. cbn -[lookup delete]. split_and!; [done..|]. intros n Hin.
    destruct (Hn n (list_elem_of_further _ _ _ Hin)) as (E1 & E2 & E3 & E4 & E5).
    rewrite lookup_delete_ne by (intros E; subst; contradiction). by split_and!. }
  destruct (resolve _ _) as [p|]; cbn -[lookup delete]; rewrite <- ?Ht, <- ?Hmt; done.
Qed.

Lemma start_other_spec l st health plugins names a b :
  agrees plugins (l_name l :: names) a b -> l_name l ∉ names ->
  has_trpc_service a l = false ->
  (protocol l = Grpc -> Ret [fst (start_grpc_listener l b)] = expected_server plugins l st health a /\
     agrees plugins names a (snd (start_grpc_listener l b))) /\
  (protocol l = Trpc -> exists s b', start_trpc_listener l b = Ret (s, b') /\
     Ret [s] = expected_server plugins l st health a /\ agrees plugins names a b').
Proof.
  intros (Ht & Hm & Hmt & Hp & Hn) Hnew Hno.
  destruct (Hn (l_name l) (list_elem_of_here _ _)) as (_ & _ & _ & H4 & H5). split; intros Hprot.
  - unfold start_grpc_listener, expected_server. rewrite Hprot, H4. split; [done|].
    unfold agrees. cbn -[lookup delete]. split_and!; [done..|]. intros n Hin.
    destruct (Hn n (list_elem_of_further _ _ _ Hin)) as (E1 & E2 & E3 & E4 & E5).
    rewrite lookup_delete_ne by (intros E; subst; contradiction). by split_and!.
  - unfold start_trpc_listener, expected_server. rewrite Hprot, Hno. unfold has_trpc_service in Hno. rewrite Hprot in Hno.
    apply negb_false_iff, Nat.eqb_eq, length_zero_iff_nil in Hno.
    rewrite H5, Hno. eexists _, _. split; [reflexivity|].
    split; [done|]. unfold agrees. cbn -[lookup delete]. split_and!; [done..|]. intros n Hin.
    destruct (Hn n (list_elem_of_further _ _ _ Hin)) as (E1 & E2 & E3 & E4 & E5).
    rewrite lookup_delete_ne by (intros E; subst; contradiction). by split_and!.
Qed.

Lemma start_trpc_panics l names plugins a b :
  agrees plugins (l_name l :: names) a b -> has_trpc_service a l = true ->
  protocol l = Trpc /\ exists why, start_trpc_listener l b = Panic why.
Proof.
  intros (_ & _ & _ & _ & Hn). destruct (Hn (l_name l) (list_elem_of_here _ _)) as (_ & _ & _ & _ & H5).
  unfold has_trpc_service, start_trpc_listener. destruct (protocol l); try done. rewrite H5.
  destruct (default [] (trpc_services a !! l_name l)) as [|[n f] entries]; [done|]. intros _. split; [done|].
  by eexists.
Qed.

Lemma start_listener_spec l st health plugins names a b :
  agrees plugins (l_name l :: names) a b -> l_name l ∉ names -> l_name l <> plugin_key -> plugin_key ∉ names ->
  match expected_server plugins l st health a with
  | Ret ss => exists b', start_listener l st health b = Ret (ss, b') /\
      agrees (if is_http l then [] else plugins) names a b'
  | Panic _ => exists why, start_listener l st health b = Panic why
  end.
Proof.
  intros Hag Hnew Hne Hk. unfold start_listener, is_http. destruct (protocol l) eqn:Ep.
  - pose proof (start_http_listener_spec l st health _ _ _ _ Hag Hnew Hne Hk Ep) as Hs.
    destruct (expected_server plugins l st health a) as [ss|why].
    + destruct Hs as (s & b' & -> & <- & H2). by exists b'.
    + destruct Hs as [why' ->]. by exists why'.
  - destruct (start_tcp_listener_spec l st health _ _ _ _ Hag Hnew Ep) as [H1 H2].
    destruct (start_tcp_listener _ _) as [s b']. rewrite <- H1. eauto.
  - assert (has_trpc_service a l = false) as Etr by (unfold has_trpc_service; by rewrite Ep).
    destruct (start_other_spec l st health _ _ _ _ Hag Hnew Etr) as [Hg _].
    destruct (Hg Ep) as [H1 H2]. destruct (start_grpc_listener _ _) as [s b']. rewrite <- H1. eauto.
  - destruct (has_trpc_service a l) eqn:Etr.
    + destruct (start_trpc_panics _ _ _ _ _ Hag Etr) as [_ [why ->]].
      unfold expected_server. rewrite Ep, Etr. by exists why.
    + destruct (start_other_spec l st health _ _ _ _ Hag Hnew Etr) as [_ Htr].
      destruct (Htr Ep) as (s & b' & -> & <- & H2). exists b'. by split.
Qed.

Lemma start_listeners_spec ls st health plugins a b :
  agrees plugins (l_name <$> ls) a b -> NoDup (l_name <$> ls) -> plugin_key ∉ l_name <$> ls ->
  match expected_servers plugins ls st health a with
  | Ret ss => exists b', start_listeners ls st health b = Ret (ss, b')
  | Panic _ => exists why, start_listeners ls st health b = Panic why
  end.
Proof.
  revert plugins b. induction ls as [|l ls IH]; intros plugins b Hag Hnd Hk; cbn [expected_servers start_listeners].
  { by eexists. }
  rewrite fmap_cons in Hag, Hnd, Hk. apply NoDup_cons in Hnd as [Hnew Hnd].
  apply not_elem_of_cons in Hk as [Hk1 Hk2].
  pose proof (start_listener_spec l st health _ _ _ _ Hag Hnew (not_eq_sym Hk1) Hk2) as Hl.
  unfold mbind, outcome_bind. destruct (expected_server plugins l st health a) as [ss|why].
  2: { destruct Hl as [why' ->]. by eexists. }
  destruct Hl as (b' & -> & Hag'). specialize (IH _ b' Hag' Hnd Hk2). cbn [fst snd].
  destruct (expected_servers _ ls st health a) as [rest|why].
  - destruct IH as [b2 ->]. by eexists.
  - destruct IH as [why' ->]. by eexists.
Qed.

(** A listener that cannot be started ends the start-up. *)
Lemma clashing_listener l st health plugins a :
  is_http l = true -> clash (own_routes l st health a) -> exists why, expected_server plugins l st health a = Panic why.
Proof using LawsR.
  intros Hh Hc. unfold is_http in Hh. unfold expected_server, merge_all, http_routes. destruct (protocol l); try done.
  apply (clash_app ((fun f => f st) <$> plugins) _ []) in Hc. rewrite app_nil_r in Hc.
  destruct (merge_each_clash _ None Hc) as [why ->]. by exists why.
Qed.
Lemma trpc_listener_panics l st health plugins a :
  has_trpc_service a l = true -> exists why, expected_server plugins l st health a = Panic why.
Proof.
  intros Htr. unfold expected_server. assert (protocol l = Trpc) as -> by (unfold has_trpc_service in Htr; by destruct (protocol l)).
  rewrite Htr. by eexists.
Qed.
Lemma expected_servers_panic ls l st health plugins a :
  l ∈ ls -> (forall plugins, exists why, expected_server plugins l st health a = Panic why) ->
  exists why, expected_servers plugins ls st health a = Panic why.
Proof.
  intros Hin Hp. revert plugins. induction ls as [|l' ls IH]; [by apply elem_of_nil in Hin|].
  intros plugins. cbn [expected_servers]. apply elem_of_cons in Hin as [<-|Hin].
  - destruct (Hp plugins) as [why ->]. by exists why.
  - destruct (expected_server plugins l' st health a) as [s|why]; [|by exists why]. cbn [mbind outcome_bind].
    destruct (IH Hin (if is_http l' then [] else plugins)) as [why ->]. by exists why.
Qed.

(** The plugins' routers come after those already under their key, and touch
    no listener. *)
Lemma add_plugin_routers_agrees names (routers : list router) a :
  plugin_key ∉ names ->
  agrees (default [] (http_routers a !! plugin_key) ++ map (fun r _ => r) routers) names a
    (add_plugin_routers routers a).
Proof.
  intros Hk. unfold add_plugin_routers.
  assert (forall b, agrees (default [] (http_routers b !! plugin_key)) names a b ->
    agrees (default [] (http_routers b !! plugin_key) ++ map (fun r _ => r) routers) names a
      (fold_left (fun a r => http_router plugin_key (fun _ => r) a) routers b)) as Hgen.
  { induction routers as [|r routers IH]; intros b Hb; simpl; [by rewrite app_nil_r|].
    specialize (IH (http_router plugin_key (fun _ => r) b)).
    assert (http_routers (http_router plugin_key (fun _ => r) b) !! plugin_key =
            Some (default [] (http_routers b !! plugin_key) ++ [fun _ => r])) as Ek by apply lookup_insert_eq.
    rewrite Ek in IH. cbn [default from_option id] in IH. rewrite <- app_assoc in IH. apply IH.
    destruct Hb as (H1 & H2 & H3 & H4 & H5). unfold agrees, http_router. cbn -[lookup insert].
    split_and!; [done..| |].
    - unfold push_entry. by rewrite lookup_insert_eq.
    - intros n Hin. destruct (H5 n Hin) as (E1 & E2 & E3 & E4 & E5). unfold push_entry.
      rewrite lookup_insert_ne by (intros E; subst; contradiction). by split_and!. }
  apply Hgen. by split_and!.
Qed.

(** Every listener serves what was registered for it, and the plugins'
    routers are served by the first HTTP listener only: for listeners with
    distinct names, starting them one after the other - each removing its
    entries from the tables - starts exactly the servers read off the original
    tables, in order, a TCP listener without a handler or with an unknown
    transform being skipped.  It panics, and nothing is served, exactly when
    one of them cannot be read off: when the routers of an HTTP listener cannot
    be merged, as two that have a route in common, or a tRPC listener has a
    service. *)
Theorem listeners_served ls st health (routers : list router) a :
  NoDup (l_name <$> ls) -> plugin_key ∉ l_name <$> ls ->
  let a' := add_plugin_routers routers a in
  match expected_servers (default [] (http_routers a !! plugin_key) ++ map (fun r _ => r) routers) ls st health a with
  | Ret ss => exists b, start_listeners ls st health a' = Ret (ss, b)
  | Panic _ => exists why, start_listeners ls st health a' = Panic why
  end /\
  forall l, l ∈ ls -> is_http l = true /\ clash (own_routes l st health a) \/ has_trpc_service a l = true ->
    exists why, start_listeners ls st health a' = Panic why.
Proof using LawsR.
  intros Hnd Hk a'. set (plugins := default [] _ ++ _).
  pose proof (start_listeners_spec ls st health plugins a a' (add_plugin_routers_agrees _ _ _ Hk) Hnd Hk) as Hs.
  split; [exact Hs|]. intros l Hin Hl.
  destruct (expected_servers_panic ls l st health plugins a Hin) as [why Hw]; [|by rewrite Hw in Hs].
  intros ps. destruct Hl as [[Hh Hc]|Htr]; [by apply clashing_listener|by apply trpc_listener_panics].
Qed.
End runtime.

(** * Witness: two HTTP listeners and a TCP listener, one plugin router *)
Module RuntimeExamples.
Import ListRouter.
Abbreviation site := (ListRouter.router unit unit).
Abbreviation app := (application (router := site) (state := unit) (ws_handler := string)
  (tcp_handler := string) (grpc_fn := string) (service_fn := string) (transform := string)
  (http_mw := string) (tcp_mw := string)).
(** The router of one GET route. *)
Definition at_path (p : string) : site := ListRouter.Router [Endpoint "GET" p tt []] [].
Definition listener (name : string) (p : listener_protocol) (steps : list string) :
    listener_config (ws_opts := bool) (mw_cfg := list string) :=
  ListenerConfig name p ("0.0.0.0:" +:+ name) (Some (HttpOptions ["trace"] true)) (Some (TcpOptions 1024 steps)).
Definition tables : app :=
  set_tcp_handler "raw" "echo" (set_ws_handler "public" "chat"
    (http_router "admin" (fun _ => at_path "/admin") (http_router "public" (fun _ => at_path "/orders")
      (Application ∅ ∅ ∅ ∅ ∅ {[ "lz4" := "lz4" ]} ["tenant"] ["audit"])))).
Definition listeners : list (listener_config (ws_opts := bool) (mw_cfg := list string)) :=
  [listener "public" Http []; listener "admin" Http []; listener "raw" Tcp ["lz4"]].
Definition a_start := start_listeners (router := site) (state := unit) (tcp_handler := string) (grpc_fn := string) (service_fn := string)
  (transform := string) (tcp_mw := string) id (fun cfg _ => cfg) (fun _ => at_path "/readyz")
  (fun (_ : string) _ => at_path "/ws") id (HttpOptions [] false).

Definition expected : list (server (router := site) (tcp_handler := string) (grpc_fn := string)
    (service_fn := string) (transform := string) (http_mw := string) (tcp_mw := string)) :=
  [HttpListener "0.0.0.0:public"
     (Some (ListRouter.Router (map (fun p => Endpoint "GET" p tt []) ["/plugin"; "/orders"; "/readyz"; "/ws"]) []))
     (list_to_map [("tenant", "tenant"); ("trace", "trace")]);
   HttpListener "0.0.0.0:admin"
     (Some (ListRouter.Router (map (fun p => Endpoint "GET" p tt []) ["/admin"; "/readyz"]) []))
     (list_to_map [("tenant", "tenant"); ("trace", "trace")]);
   TcpListener "0.0.0.0:raw" "raw" "echo" ["lz4"] ["audit"] 1024].

(** With a router of the program's at the health check's path nothing is served. *)
Lemma listeners_served_witness :
  (exists b, a_start listeners tt true (add_plugin_routers [at_path "/plugin"] tables) = Ret (expected, b)) /\
  exists why, a_start listeners tt true
    (add_plugin_routers [] (http_router "admin" (fun _ => at_path "/readyz") tables)) = Panic why.
Proof.
  assert (NoDup (l_name <$> listeners) /\ plugin_key ∉ l_name <$> listeners) as [Hnd Hk].
  { split; [apply (bool_decide_unpack (NoDup (l_name <$> listeners)))|
            apply (bool_decide_unpack (plugin_key ∉ l_name <$> listeners))]; vm_compute; exact I. }
  split.
  - exact (proj1 (listeners_served id (fun cfg _ => cfg) (fun _ => at_path "/readyz") (fun (_ : string) _ => at_path "/ws")
      id (HttpOptions [] false) listeners tt true [at_path "/plugin"] tables Hnd Hk)).
  - refine (proj2 (listeners_served id (fun cfg _ => cfg) (fun _ => at_path "/readyz") (fun (_ : string) _ => at_path "/ws")
      id (HttpOptions [] false) listeners tt true [] (http_router "admin" (fun _ => at_path "/readyz") tables) Hnd Hk)
      (listener "admin" Http []) _ (or_introl _)).
    + by right; left.
    + split; [done|]. exists 1%nat, 2%nat, (at_path "/readyz"), (at_path "/readyz").
      split; [lia|]. split; [done|]. split; [done|]. by exists ("GET", "/readyz"); split; left.
Defined.
End RuntimeExamples.
