(* ===== verification/Lifecycle.v ===== *)
(** The application's life from its builder to its end
    ([rinfra-plugins/src/runtime/mod.rs], [log/mod.rs], [telemetry/mod.rs],
    [compress/mod.rs]): the configuration that is used, the log layers, the
    transforms, the cluster set-up, and the phases of [run].  The listeners
    that [run] starts are in [Runtime]. *)

From S2P Require Import Prelude Errors Registries Ws Cluster I18n Config ConfigLoad Plugins.
Import Health PluginContext PluginRegistry.

(** * Logging ([log/mod.rs]) *)
Module Observability.

(** The layers of the subscriber, with the choices their builders make. *)
Inductive rotation : Type := Hourly | Never | Daily.
Inductive layer : Type :=
| StdoutLayer (filter : string) (as_json : bool)
| FileLayer (filter : string) (as_json : bool) (r : rotation) (prefix : string) (max_files : Z) (dir : string)
| OtelLayer.

Section observability.
(** The log library: whether it parses a filter, whether it can open the
    appender's directory, and what installing the subscriber answers. *)
Context (parse_filter : string -> result string unit).
Context (open_appender : string -> result string unit).
Context (try_init : list layer -> result string unit).

(** [make_filter]; the boxed error is known by its text. *)
Definition make_filter (level : string) : result string string :=
  match parse_filter level with
  | Ok _ => Ok level
  | Err e => Err (error_to_string (new_error LogInitFailed ("invalid log level '" +:+ level +:+ "': " +:+ e)))
  end.
(** [build_stdout_layer] *)
Definition build_stdout_layer (c : StdoutLogConfig.t) : outcome (result string layer) :=
  Ret (f ← make_filter (StdoutLogConfig.level c);
       Ok (StdoutLayer f (String.eqb (StdoutLogConfig.format c) "json"))).
(** [make_rolling_appender]: an appender that cannot be opened panics. *)
Definition rotation_of (s : string) : rotation :=
  if String.eqb s "hourly" then Hourly else if String.eqb s "never" then Never else Daily.
Definition make_rolling_appender (c : FileLogConfig.t) : outcome unit :=
  match open_appender (FileLogConfig.path c) with
  | Ok _ => Ret tt
  | Err e => Panic ("failed to create rolling file appender: " +:+ e)
  end.
(** [build_file_layer] *)
Definition build_file_layer (c : FileLogConfig.t) : outcome (result string layer) :=
  match make_filter (FileLogConfig.level c) with
  | Err e => Ret (Err e)
  | Ok f =>
      _ ← make_rolling_appender c;
      Ret (Ok (FileLayer f (String.eqb (FileLogConfig.format c) "json") (rotation_of (FileLogConfig.rotation c))
                 (FileLogConfig.filename c) (FileLogConfig.max_files c) (FileLogConfig.path c)))
  end.
(** A layer, if it is switched on, after those before it. *)
Definition push_layer (on : bool) (build : outcome (result string layer)) (layers : list layer) :
  outcome (result string (list layer)) :=
  if on then
    r ← build;
    Ret match r with Ok l => Ok (layers ++ [l]) | Err e => Err e end
  else Ret (Ok layers).

(** [init_combined] *)
Definition init_combined (c : LogPluginConfigs.t) (otel : bool) : outcome (result string unit) :=
  let stdout := LogPluginConfigs.stdout c in
  let file := LogPluginConfigs.file c in
  r ← push_layer (StdoutLogConfig.enabled stdout) (build_stdout_layer stdout) [];
  match r with
  | Err e => Ret (Err e)
  | Ok layers =>
      r ← push_layer (FileLogConfig.enabled file) (build_file_layer file) layers;
      match r with
      | Err e => Ret (Err e)
      | Ok layers =>
          let layers := if otel then layers ++ [OtelLayer] else layers in
          match layers with [] => Ret (Ok tt) | _ => Ret (try_init layers) end
      end
  end.

(** [init_observability] *)
Definition init_observability (c : LogPluginConfigs.t) (has_otel : bool) : outcome (Result unit) :=
  if negb (StdoutLogConfig.enabled (LogPluginConfigs.stdout c)) &&
     negb (FileLogConfig.enabled (LogPluginConfigs.file c)) && negb has_otel
  then Ret (Ok tt)
  else
    r ← init_combined c has_otel;
    Ret match r with
        | Ok _ => Ok tt
        | Err e =>
            if contains "already been set" e then Ok tt
            else fail LogInitFailed ("failed to initialize logging: " +:+ e)
        end.

(** The layers a configuration asks for. *)
Definition wanted (c : LogPluginConfigs.t) (otel : bool) : list layer :=
  let stdout := LogPluginConfigs.stdout c in
  let file := LogPluginConfigs.file c in
  (if StdoutLogConfig.enabled stdout
   then [StdoutLayer (StdoutLogConfig.level stdout) (String.eqb (StdoutLogConfig.format stdout) "json")] else []) ++
  (if FileLogConfig.enabled file
   then [FileLayer (FileLogConfig.level file) (String.eqb (FileLogConfig.format file) "json")
           (rotation_of (FileLogConfig.rotation file)) (FileLogConfig.filename file)
           (FileLogConfig.max_files file) (FileLogConfig.path file)] else []) ++
  (if otel then [OtelLayer] else []).

(** Whether the layers that are on have acceptable filters, and the log file
    can be opened. *)
Definition filter_ok (on : bool) (level : string) : bool := negb on || is_ok (parse_filter level).
Definition filters_ok (c : LogPluginConfigs.t) : bool :=
  filter_ok (StdoutLogConfig.enabled (LogPluginConfigs.stdout c)) (StdoutLogConfig.level (LogPluginConfigs.stdout c)) &&
  filter_ok (FileLogConfig.enabled (LogPluginConfigs.file c)) (FileLogConfig.level (LogPluginConfigs.file c)).
Definition file_opens (c : LogPluginConfigs.t) : bool :=
  negb (FileLogConfig.enabled (LogPluginConfigs.file c)) || is_ok (open_appender (FileLogConfig.path (LogPluginConfigs.file c))).

Lemma make_filter_ok on level : filter_ok on level = true -> on = true -> make_filter level = Ok level.
Proof. unfold filter_ok, make_filter. intros H ->. by destruct (parse_filter level). Qed.
Lemma push_stdout (c : StdoutLogConfig.t) ls :
  filter_ok (StdoutLogConfig.enabled c) (StdoutLogConfig.level c) = true ->
  push_layer (StdoutLogConfig.enabled c) (build_stdout_layer c) ls =
  Ret (Ok (ls ++ if StdoutLogConfig.enabled c
                 then [StdoutLayer (StdoutLogConfig.level c) (String.eqb (StdoutLogConfig.format c) "json")] else [])).
Proof.
  intros H. unfold push_layer, build_stdout_layer. destruct (StdoutLogConfig.enabled c) eqn:E; [|by rewrite app_nil_r].
  by rewrite (make_filter_ok _ _ H eq_refl).
Qed.
Lemma init_combined_spec c otel : filters_ok c = true ->
  if file_opens c
  then init_combined c otel = Ret match wanted c otel with [] => Ok tt | ls => try_init ls end
  else exists why, init_combined c otel = Panic why.
Proof.
  unfold filters_ok, file_opens, init_combined, wanted. intros [Ho Hf]%andb_prop. rewrite push_stdout by done.
  cbn [mbind outcome_bind]. set (out := [] ++ _). unfold push_layer at 1, build_file_layer, make_rolling_appender.
  destruct (FileLogConfig.enabled (LogPluginConfigs.file c)) eqn:E; cbn [negb orb].
  - rewrite (make_filter_ok _ _ Hf eq_refl).
    destruct (open_appender _) as [u|e]; cbn [is_ok]; [|by eexists]. simpl.
    subst out. destruct (StdoutLogConfig.enabled _), otel; done.
  - cbn [mbind outcome_bind]. subst out. destruct (StdoutLogConfig.enabled _), otel; done.
Qed.

(** Logging is set up as configured or not at all: when the filters of the
    enabled layers are acceptable and the log directory opens, the subscriber
    is installed with exactly those layers, in order, and a subscriber that is
    already there is no error; a filter the library refuses stops the startup
    with an error that quotes the level; but a log directory that cannot be
    opened is a panic and not an error. *)
Theorem logging_as_configured c otel :
  (filters_ok c = true -> file_opens c = true ->
   init_observability c otel = Ret
     match wanted c otel with
     | [] => Ok tt
     | layers =>
         match try_init layers with
         | Ok _ => Ok tt
         | Err e => if contains "already been set" e then Ok tt
                    else fail LogInitFailed ("failed to initialize logging: " +:+ e)
         end
     end) /\
  (forall e, StdoutLogConfig.enabled (LogPluginConfigs.stdout c) = true ->
   let level := StdoutLogConfig.level (LogPluginConfigs.stdout c) in
   let text := error_to_string (new_error LogInitFailed ("invalid log level '" +:+ level +:+ "': " +:+ e)) in
   parse_filter level = Err e -> contains "already been set" text = false ->
   init_observability c otel = Ret (fail LogInitFailed ("failed to initialize logging: " +:+ text))) /\
  (filters_ok c = true -> file_opens c = false -> exists why, init_observability c otel = Panic why).
Proof.
  split_and!.
  - intros Hf Ho. pose proof (init_combined_spec c otel Hf) as H. rewrite Ho in H. unfold init_observability.
    rewrite H. unfold wanted. destruct (StdoutLogConfig.enabled _), (FileLogConfig.enabled _), otel; simpl;
      try done; by destruct (try_init _).
  - intros e Hon level text He Ht. unfold init_observability, init_combined, push_layer, build_stdout_layer, make_filter.
    rewrite Hon. cbn [negb andb]. fold level. rewrite He. cbn -[contains error_to_string new_error String.append].
    fold text. by rewrite Ht.
  - intros Hf Ho. pose proof (init_combined_spec c otel Hf) as H. rewrite Ho in H. destruct H as [why H].
    unfold init_observability. unfold file_opens in Ho. apply orb_false_iff in Ho as [Ho%negb_false_iff _].
    rewrite H, Ho. exists why. by rewrite andb_false_r.
Qed.
End observability.
End Observability.

(** * The builder ([ApplicationBuilder::build]) *)
Module Build.
Import Load.

(** [init_telemetry]: whether a guard and a layer come of it. *)
Definition init_telemetry (has_feature : bool) (init_otel_tracer : TelemetryConfig.t -> Result unit)
  (c : TelemetryConfig.t) : Result bool :=
  if negb (TelemetryConfig.enabled c) then Ok false
  else if has_feature then (_ ← init_otel_tracer c; Ok true)
  else Ok false.

Section build.
(** What is outside: the environment, the files ([None] where there is none),
    the YAML and float parsers and the default consumer name. *)
Context (consumer : string) (yaml_value : string -> result string json) (parse_f64 : string -> option string).
Context (env : list (string * string)) (file : string -> option (result string string)).

(** Which configuration the application gets. *)
Definition from_defaults : RinfraConfig.t :=
  apply_env_overrides parse_f64 consumer env (RinfraConfig.default consumer).
Definition choose_config (config : option RinfraConfig.t) (config_path : option string) : Result RinfraConfig.t :=
  match config with
  | Some c => Ok c
  | None =>
      match config_path with
      | Some path =>
          match file path with
          | Some content => load_with_env yaml_value parse_f64 consumer path content env
          | None => Ok from_defaults
          end
      | None => Ok from_defaults
      end
  end.
End build.

(** The transforms: the built-in compressors, then the application's own. *)
Section transforms.
Context {transform : Type} (name : transform -> string).
Abbreviation table := (gmap string transform).
Fixpoint register_transforms (ts : list transform) (m : table) : Result table :=
  match ts with
  | [] => Ok m
  | t :: ts =>
      let '(r, m) := Engines.register_transform name t m in
      match r with Ok _ => register_transforms ts m | Err e => Err e end
  end.
(** [builtin_compressors] with the [compress] feature, LZ4 before gzip. *)
Definition builtin_compressors (compress : bool) (lz4 gzip : transform) : list transform :=
  if compress then [lz4; gzip] else [].
Definition transform_registry (compress : bool) (lz4 gzip : transform) (extra : list transform) : Result table :=
  m ← register_transforms (builtin_compressors compress lz4 gzip) ∅;
  register_transforms extra m.

Definition table_of (ts : list transform) : table := list_to_map ((fun t => (name t, t)) <$> ts).

Lemma register_transforms_app ts us m :
  register_transforms (ts ++ us) m = (m ← register_transforms ts m; register_transforms us m).
Proof.
  revert m. induction ts as [|t ts IH]; intros m; simpl; [done|].
  destruct (Engines.register_transform name t m) as [[u|e] m']; [apply IH|done].
Qed.
Lemma register_transforms_spec ts m :
  match register_transforms ts m with
  | Ok m' => NoDup (name <$> ts) /\ (forall t, t ∈ ts -> m !! name t = None) /\
             (forall n, m' !! n = match m !! n with Some x => Some x | None => table_of ts !! n end)
  | Err e => exists t pre post, ts = pre ++ t :: post /\
      (is_Some (m !! name t) \/ name t ∈ name <$> pre) /\
      e = new_error PluginAlreadyRegistered ("transform '" +:+ name t +:+ "' already registered")
  end.
Proof.
  revert m. induction ts as [|t ts IH]; intros m; simpl.
  { split_and!; [apply NoDup_nil_2|by intros t ?%elem_of_nil|]. intros n. unfold table_of. simpl.
    rewrite lookup_empty. by destruct (m !! n). }
  unfold Engines.register_transform, register_named. destruct (m !! name t) as [x|] eqn:Em; simpl.
  { exists t, [], ts. split_and!; [done|left; by eexists|done]. }
  specialize (IH (<[name t := t]> m)). destruct (register_transforms ts _) as [m'|e].
  - destruct IH as (Hnd & Hfree & Hl). split_and!.
    + csimpl. apply NoDup_cons. split; [|done]. intros (u & Hu & Hin)%list_elem_of_fmap.
      specialize (Hfree u Hin). by rewrite <- Hu, lookup_insert_eq in Hfree.
    + intros u [-> |Hin]%elem_of_cons; [done|]. specialize (Hfree u Hin).
      by apply lookup_insert_None in Hfree as [? _].
    + intros n. rewrite Hl. unfold table_of. csimpl. destruct (decide (name t = n)) as [<-|Hne].
      * by rewrite !lookup_insert_eq, Em.
      * by rewrite !lookup_insert_ne.
  - destruct IH as (u & pre & post & -> & Hu & ->). exists u, (t :: pre), post. split_and!; [done| |done].
    csimpl. destruct Hu as [[x Hx]|Hu]; [|right; by right].
    apply lookup_insert_Some in Hx as [[Heq _]|[_ Hx]]; [right; rewrite <- Heq; by left|left; by eexists].
Qed.

(** The byte transforms of an application are the built-in compressors and
    its own, each found under its name, exactly when all the names are
    different; otherwise the application is not built, and the error names one
    that repeats one before it (so an own [lz4] cannot replace the
    built-in one). *)
Theorem transforms_registered compress lz4 gzip extra :
  let ts := builtin_compressors compress lz4 gzip ++ extra in
  match transform_registry compress lz4 gzip extra with
  | Ok m => NoDup (name <$> ts) /\ m = table_of ts
  | Err e => exists t pre post, ts = pre ++ t :: post /\ name t ∈ name <$> pre /\
      e = new_error PluginAlreadyRegistered ("transform '" +:+ name t +:+ "' already registered")
  end.
Proof.
  intros ts. assert (transform_registry compress lz4 gzip extra = register_transforms ts ∅) as ->.
  { unfold transform_registry, ts. by rewrite register_transforms_app. }
  pose proof (register_transforms_spec ts ∅) as H. destruct (register_transforms ts ∅) as [m|e].
  - destruct H as (Hnd & _ & Hl). split; [done|]. apply map_eq. intros n. by rewrite Hl, lookup_empty.
  - destruct H as (t & pre & post & Hts & [[x Hx]|Hin] & ->); [by rewrite lookup_empty in Hx|].
    by exists t, pre, post.
Qed.
End transforms.

(** [build]: what the rest of the application's life needs of it. *)
Section builder.
Context {plugin transform : Type} (name : transform -> string).
Context (init_otel_tracer : TelemetryConfig.t -> Result unit).
Context (init_logging : LogPluginConfigs.t -> bool -> outcome (Result unit)).
Record built : Type := Built {
  b_config : RinfraConfig.t;
  b_plugins : list plugin;
  b_transforms : gmap string transform;
  b_otel_guard : bool;
}.
Definition build (has_telemetry has_compress : bool) (config : Result RinfraConfig.t) (builtin extra : list plugin)
    (lz4 gzip : transform) (extra_transforms : list transform) : outcome (Result built) :=
  match config with
  | Err e => Ret (Err e)
  | Ok cfg =>
      match init_telemetry has_telemetry init_otel_tracer (PluginConfigs.telemetry (RinfraConfig.plugins cfg)) with
      | Err e => Ret (Err e)
      | Ok otel =>
          r ← init_logging (PluginConfigs.log (RinfraConfig.plugins cfg)) otel;
          Ret (_ ← r;
               ts ← transform_registry name has_compress lz4 gzip extra_transforms;
               Ok (Built cfg (builtin ++ extra) ts otel))
      end
  end.
End builder.
End Build.

(** * Joining a cluster ([setup_worker_cluster]) *)
Module WorkerSetup.

(** The endpoints a worker announces: its listeners' addresses with the host's
    name in place of the wildcard and the loopback address. *)
Definition protocol_name (p : ListenerProtocol.t) : string :=
  match p with
  | ListenerProtocol.Http => "http" | ListenerProtocol.Tcp => "tcp"
  | ListenerProtocol.Grpc => "grpc" | ListenerProtocol.Trpc => "trpc"
  end.
Definition announced_address (hostname bind : string) : string :=
  if negb (String.eqb hostname "") then replace "127.0.0.1" hostname (replace "0.0.0.0" hostname bind)
  else bind.
Definition endpoint_of (hostname : string) (l : ListenerConfig.t) : Cluster.endpoint :=
  Endpoint (protocol_name (ListenerConfig.protocol l)) (announced_address hostname (ListenerConfig.bind l)).
(** [hostname] is [None] when the system has none or it is not text. *)
Definition endpoints (hostname : option string) (ls : list ListenerConfig.t) : list Cluster.endpoint :=
  map (endpoint_of (default "" hostname)) ls.

Lemma strip_prefix_char c p s rest : has_char c p = true -> strip_prefix p s = Some rest -> has_char c s = true.
Proof.
  revert s. induction p as [|a p IH]; intros [|b s]; simpl; [done..|].
  destruct (Ascii.eqb_spec a b) as [->|]; [|done]. intros [Hb|Hp]%orb_prop H; [by rewrite Hb|].
  rewrite (IH s Hp H). by rewrite orb_true_r.
Qed.
Lemma replace_fuel_absent n c pat to s : has_char c pat = true -> has_char c s = false ->
  replace_fuel n pat to s = s.
Proof.
  intros Hp. revert s. induction n as [|n IH]; intros s Hs; simpl; [done|].
  destruct (strip_prefix pat s) as [rest|] eqn:E; [by rewrite (strip_prefix_char _ _ _ _ Hp E) in Hs|].
  destruct s as [|b s]; [done|]. apply orb_false_iff in Hs as [_ Hs]. by rewrite IH.
Qed.
(** A text without some character of the pattern has no occurrence of it. *)
Lemma replace_absent c pat to s : has_char c pat = true -> has_char c s = false -> replace pat to s = s.
Proof. apply replace_fuel_absent. Qed.

Lemma replace_head c pat to rest : has_char c pat = true -> has_char c rest = false ->
  replace pat to (pat +:+ rest) = to +:+ rest.
Proof.
  intros Hp Hr. unfold replace. cbn [replace_fuel]. rewrite strip_prefix_app. f_equal.
  by apply replace_fuel_absent with c.
Qed.

(** A worker announces an address that others can reach: a listener bound
    to the wildcard or the loopback address is announced under the host's
    name with its own port. *)
Theorem worker_announces_hostname (host port : string) (l : ListenerConfig.t) :
  has_char (Ascii.ascii_of_N 46) host = false -> has_char (Ascii.ascii_of_N 46) port = false -> host <> "" ->
  ListenerConfig.bind l = "0.0.0.0" +:+ port \/ ListenerConfig.bind l = "127.0.0.1" +:+ port ->
  Cluster.address (endpoint_of host l) = host +:+ port.
Proof.
  intros Hh Hp Hne Hb. unfold endpoint_of, announced_address. cbn [Cluster.address].
  destruct (String.eqb_spec host "") as [|_]; [done|]. cbn [negb].
  assert (has_char (Ascii.ascii_of_N 46) (host +:+ port) = false) as Hhp by (by rewrite has_char_app, Hh, Hp).
  destruct Hb as [-> | ->].
  - rewrite (replace_head (Ascii.ascii_of_N 46)) by done. by apply (replace_absent (Ascii.ascii_of_N 46)).
  - assert (replace "0.0.0.0" host ("127.0.0.1" +:+ port) = "127.0.0.1" +:+ port) as ->.
    { pose proof (replace_fuel_absent (S (String.length port)) (Ascii.ascii_of_N 46) "0.0.0.0" host port eq_refl Hp) as H.
      unfold replace, String.app in *. simpl in *. by rewrite H. }
    by apply (replace_head (Ascii.ascii_of_N 46)).
Qed.

(** But the replacement is of text, not of addresses: a listener on another
    address that merely contains one of the two is announced under a mangled
    one. *)
Example mangled_addresses :
  announced_address "web1" "10.0.0.0:80" = "1web1:80" /\ announced_address "web1" "127.0.0.10:80" = "web10:80".
Proof. by vm_compute. Qed.
End WorkerSetup.

(** * [Application::run] *)
Module Run.

Section run.
Context {component codec router server W : Type} (codec_name content_type : codec -> string).
Abbreviation plugin := (plugin RinfraConfig.t codec component router W).
Abbreviation state := (app_state RinfraConfig.t codec component W).

(** What [run] did, in order, with the time a step of the shutdown took. *)
Inductive phase : Type :=
| ClusterServerStarted (address token : string) (ping_interval_secs : Z)
| ClusterJoined (announced : list Cluster.endpoint)
| HeartbeatsStarted
| PluginsBuilt (manifests : list plugin_manifest)
| ListenersStarted (servers : list server)
| Signalled
| WsDrained (waited : Z)
| HooksRan (hooks : list hook) (took : Z)
| TelemetryFlushed (took : Z).

(** The world the application runs in: the host's name, the main node's answer
    to [connect_once], the components [run] itself puts into the state, the
    start of the listeners ([Runtime.start_listeners]), the WebSockets open at
    the signal and when the last of them has closed ([None] when it never
    does), whether there is a telemetry guard, and how long the flush of its
    traces blocks: [guard.shutdown()] is a call into the exporter, under no
    timeout of the application's. *)
Record world : Type := World {
  hostname : option string;
  connect_once : list Cluster.endpoint -> Result unit;
  node_registry : component;
  node_list : component;
  metrics_handle : option component;
  start_listeners : state -> list router -> outcome (list server);
  tracker : ws_tracker;
  last_ws_closes : option Z;
  otel_guard : bool;
  flush_time : Z;
}.

Definition T_node_registry : type_id := OtherT "Arc<dyn NodeRegistry>".
Definition T_node_list : type_id := OtherT "ClusterNodeList".
Definition T_metrics : type_id := OtherT "PrometheusHandle".
(** [AppState::set], and the calls of [run] that use it *)
Definition state_set (t : type_id) (v : value t) (s : state) : state :=
  AppState (state_config s) (map_set t v (state_extensions s)).
Definition is_cluster (c : ClusterPluginConfigs.t) : bool := String.eqb (ClusterPluginConfigs.mode c) "cluster".
Definition is_main (c : ClusterPluginConfigs.t) : bool := String.eqb (ClusterPluginConfigs.role c) "main".
Definition extend_state (w : world) (c : ClusterPluginConfigs.t) (s : state) : state :=
  let s := if is_cluster c && is_main c then state_set T_node_registry (node_registry w) s else s in
  let s := if is_cluster c && negb (is_main c) then state_set T_node_list (node_list w) s else s in
  match metrics_handle w with Some h => state_set T_metrics h s | None => s end.

(** [setup_main_cluster] and [setup_worker_cluster] *)
Definition setup_main_cluster (c : ClusterPluginConfigs.t) : list phase :=
  [ClusterServerStarted (ClusterPluginConfigs.main_address c) (ClusterPluginConfigs.cluster_token c)
     (ClusterPluginConfigs.ping_interval_secs c)].
Definition setup_worker_cluster (w : world) (ls : list ListenerConfig.t) : Result (list phase) :=
  let eps := WorkerSetup.endpoints (hostname w) ls in
  _ ← connect_once w eps;
  Ok [ClusterJoined eps; HeartbeatsStarted].
Definition setup_cluster (w : world) (cfg : RinfraConfig.t) : Result (list phase) :=
  let c := PluginConfigs.cluster (RinfraConfig.plugins cfg) in
  if is_cluster c then
    if is_main c then Ok (setup_main_cluster c)
    else setup_worker_cluster w (NetPluginConfigs.listeners (PluginConfigs.net (RinfraConfig.plugins cfg)))
  else Ok [].

(** [drain_ws_connections], [graceful_shutdown] and the flush of the traces *)
Definition drain_ws_connections (w : world) (cfg : RinfraConfig.t) : list phase :=
  let shutdown := RuntimeConfig.shutdown (RinfraConfig.runtime cfg) in
  match Drain.drain_ws_connections (ShutdownConfig.grace_period_secs shutdown) (tracker w) with
  | Some grace => [WsDrained match last_ws_closes w with Some t => Z.min t grace | None => grace end]
  | None => []
  end.
Definition graceful_shutdown (cfg : RinfraConfig.t) (reg : plugin_registry) : list phase :=
  let timeout := from_secs (ShutdownConfig.component_timeout_secs (RuntimeConfig.shutdown (RinfraConfig.runtime cfg))) in
  let '(_, ran, t, _) := shutdown_all timeout reg in
  [HooksRan ran t].
Definition flush_telemetry (w : world) : list phase :=
  if otel_guard w then [TelemetryFlushed (flush_time w)] else [].

(** [run]: its result and what it did. *)
Definition run (w : world) (plugins : list plugin) (cfg : RinfraConfig.t) : outcome (Result unit * list phase) :=
  match setup_cluster w cfg with
  | Err e => Ret (Err e, [])
  | Ok cluster =>
      let '(r, reg, ctx) := build_all codec_name content_type plugins (PluginContext.new cfg) PluginRegistry.new in
      match r with
      | Panic why => Panic why
      | Ret (Err e) => Ret (Err e, cluster)
      | Ret (Ok _) =>
          let '(st, routers) := into_app_parts codec_name ctx in
          let st := extend_state w (PluginConfigs.cluster (RinfraConfig.plugins cfg)) st in
          servers ← start_listeners w st routers;
          Ret (Ok tt,
            cluster ++ [PluginsBuilt (reg_manifests reg); ListenersStarted servers; Signalled]
            ++ drain_ws_connections w cfg ++ graceful_shutdown cfg reg
            ++ flush_telemetry w)
      end
  end.

(** The time between the signal and the end of [run], and the part of it the
    traces are flushed in. *)
Definition phase_time (p : phase) : Z :=
  match p with WsDrained t => t | HooksRan _ t => t | TelemetryFlushed t => t | _ => 0 end.
Definition flushing (p : phase) : Z := match p with TelemetryFlushed t => t | _ => 0 end.
Definition flushing_time (ps : list phase) : Z := foldr Z.add 0 (map flushing ps).
Definition total_time (ps : list phase) : Z := foldr Z.add 0 (map phase_time ps).
Definition is_shutdown (p : phase) : bool :=
  match p with Signalled | WsDrained _ | HooksRan _ _ | TelemetryFlushed _ => true | _ => false end.
Definition hooks_of (ps : list phase) : list hook :=
  concat (map (fun p => match p with HooksRan hs _ => hs | _ => [] end) ps).

Lemma total_time_app a b : total_time (a ++ b) = total_time a + total_time b.
Proof. unfold total_time. rewrite map_app. induction a as [|p a IH]; simpl; [done|]. simpl in IH. lia. Qed.
Lemma flushing_time_app a b : flushing_time (a ++ b) = flushing_time a + flushing_time b.
Proof. unfold flushing_time. rewrite map_app. induction a as [|p a IH]; simpl; [done|]. simpl in IH. lia. Qed.
Lemma flush_telemetry_time w : total_time (flush_telemetry w) = flushing_time (flush_telemetry w).
Proof. unfold flush_telemetry. by destruct (otel_guard w). Qed.
Lemma no_flush ps : Forall (fun p => is_shutdown p = false) ps -> flushing_time ps = 0.
Proof.
  unfold flushing_time. induction 1 as [|p ps Hp Hps IH]; [done|]. cbn [map foldr]. rewrite IH. by destruct p.
Qed.
Lemma setup_cluster_phases w cfg ps : setup_cluster w cfg = Ok ps ->
  total_time ps = 0 /\ hooks_of ps = [] /\ Forall (fun p => is_shutdown p = false) ps.
Proof.
  unfold setup_cluster, setup_worker_cluster. destruct (is_cluster _); [destruct (is_main _)|].
  - intros [= <-]. split_and!; [done|done|by repeat constructor].
  - destruct (connect_once _ _); [|done]. intros [= <-]. split_and!; [done|done|by repeat constructor].
  - intros [= <-]. split_and!; [done|done|constructor].
Qed.

Lemma hooks_of_app a b : hooks_of (a ++ b) = hooks_of a ++ hooks_of b.
Proof. unfold hooks_of. by rewrite map_app, concat_app. Qed.

(** A finished run failed before its plugins were built, or while, or went
    through every phase with the registry of the built plugins. *)
Lemma run_cases w plugins cfg r ps : run w plugins cfg = Ret (r, ps) ->
  (exists e, r = Err e /\ True /\
    ((setup_cluster w cfg = Err e /\ ps = []) \/
     (setup_cluster w cfg = Ok ps /\
      exists p, p ∈ plugins /\ snd (trace codec_name content_type plugins (PluginContext.new cfg)) = Some p))) \/
  exists cluster reg servers, r = Ok tt /\ setup_cluster w cfg = Ok cluster /\
    reg_manifests reg = map manifest plugins /\
    ps = cluster ++ [PluginsBuilt (reg_manifests reg); ListenersStarted servers; Signalled]
           ++ drain_ws_connections w cfg ++ graceful_shutdown cfg reg
           ++ flush_telemetry w /\
    reg_hooks reg = omap op_hook (fst (trace codec_name content_type plugins (PluginContext.new cfg))) /\
    snd (trace codec_name content_type plugins (PluginContext.new cfg)) = None.
Proof.
  pose proof (build_each_result codec_name content_type plugins (PluginContext.new cfg)) as Hr.
  pose proof (trace_extends codec_name content_type shutdown_hooks op_hook (fun _ => True)
    (fun c o _ => run_op_hooks codec_name content_type c o)
    (fun _ _ => eq_refl) plugins (PluginContext.new cfg) ltac:(by apply Forall_true)) as Hh.
  unfold run, build_all. destruct (setup_cluster w cfg) as [cluster|e].
  2: { intros [= <- <-]. left. exists e. split_and!; [done..|by left]. }
  destruct (build_each _ _ plugins _) as [r0 ctx]. simpl in Hr, Hh.
  destruct (snd (trace codec_name content_type plugins (PluginContext.new cfg))) as [p|] eqn:Ep.
  - destruct Hr as (Hp & [[e ->] | [why ->]]); [|done]. intros [= <- <-]. left. eexists. split_and!; [done..|]. right.
    split; [done|by exists p].
  - destruct Hr as [-> Hm]. cbn -[into_app_parts graceful_shutdown]. destruct (into_app_parts _ _) as [st routers].
    destruct (start_listeners w _ routers) as [servers|why]; [|done]. intros [= <- <-]. right.
    exists cluster, (MkRegistry (manifests ctx) (shutdown_hooks ctx)), servers.
    split_and!; [done|done|exact Hm|done|exact Hh|done].
Qed.

(** C35: once the signal is there the application ends in a time its
    configuration bounds, whatever its connections and plugins do, but for the
    flush of the traces: what it waits for its WebSockets and its hooks is at
    most the grace period plus the component timeout for each hook that was
    started, and the hooks started are hooks the plugins registered; the flush,
    which comes last and only with a telemetry guard, takes as long as the
    exporter does. *)
Theorem shutdown_is_bounded w plugins cfg r ps :
  let shutdown := RuntimeConfig.shutdown (RinfraConfig.runtime cfg) in
  let per_hook := from_secs (ShutdownConfig.component_timeout_secs shutdown) in
  run w plugins cfg = Ret (r, ps) -> 0 <= per_hook ->
  let grace := from_secs (ShutdownConfig.grace_period_secs shutdown) in
  0 <= grace ->
  total_time ps - flushing_time ps <= grace + Z.of_nat (length (hooks_of ps)) * per_hook /\
  flushing_time ps = (if otel_guard w && is_ok r then flush_time w else 0) /\
  (otel_guard w && is_ok r = true -> last ps = Some (TelemetryFlushed (flush_time w))) /\
  forall h, h ∈ hooks_of ps ->
    h ∈ omap op_hook (fst (trace codec_name content_type plugins (PluginContext.new cfg))).
Proof.
  intros shutdown per_hook H Hp grace Hw. destruct (run_cases _ _ _ _ _ H) as
    [(e & -> & _ & Hc)|(cluster & reg & servers & -> & Hset & _ & -> & Hreg & _)].
  { cbn [is_ok]. rewrite andb_false_r. assert (total_time ps = 0 /\ hooks_of ps = [] /\ flushing_time ps = 0) as (-> & -> & ->).
    { destruct Hc as [(_ & ->)|[Hc _]]; [done|]. destruct (setup_cluster_phases _ _ _ Hc) as (? & ? & Hs).
      split_and!; [done..|]. by apply no_flush. }
    simpl. split_and!; [lia|done|done|by intros h ?%elem_of_nil]. }
  destruct (setup_cluster_phases _ _ _ Hset) as (Ht & Hh & Hns).
  unfold graceful_shutdown. unfold shutdown_all. fold shutdown. fold per_hook.
  pose proof (run_hooks_spec per_hook (reverse (reg_hooks reg)) Hp) as Hs.
  destruct (run_hooks per_hook _) as [[sr ran] t]. destruct Hs as [Hlim Hs].
  rewrite !hooks_of_app, !total_time_app, !flushing_time_app, Ht, Hh, (no_flush _ Hns), flush_telemetry_time.
  assert (hooks_of (drain_ws_connections w cfg) = [] /\ flushing_time (drain_ws_connections w cfg) = 0 /\
          total_time (drain_ws_connections w cfg) <= grace) as (Hd1 & Hd3 & Hd2).
  { unfold drain_ws_connections, Drain.drain_ws_connections, total_time, flushing_time. fold shutdown. fold grace.
    destruct (0 <? _); simpl; (split; [done|]; split; [done|]); [|lia].
    destruct (last_ws_closes w); lia. }
  rewrite Hd1, Hd3.
  assert (forall ms servers, total_time [PluginsBuilt ms; ListenersStarted servers; Signalled] = 0) as -> by done.
  assert (total_time [HooksRan ran t] = t) as -> by (unfold total_time; simpl; lia).
  assert (forall ms servers, flushing_time [PluginsBuilt ms; ListenersStarted servers; Signalled] = 0) as -> by done.
  assert (flushing_time [HooksRan ran t] = 0) as -> by done.
  assert (hooks_of (flush_telemetry w) = [] /\
          flushing_time (flush_telemetry w) = if otel_guard w then flush_time w else 0) as [-> Hf].
  { unfold flush_telemetry. destruct (otel_guard w); [|done]. split; [done|]. unfold flushing_time. simpl. lia. }
  assert (hooks_of [HooksRan ran t] = ran) as -> by apply app_nil_r.
  cbn [hooks_of map concat app is_ok]. rewrite !app_nil_r, andb_true_r. split; [lia|]. split; [|split].
  - rewrite Hf. lia.
  - intros Hg. unfold flush_telemetry. by rewrite Hg, !last_app, !last_cons, !last_app.
  - intros h Hin. rewrite <- Hreg. apply elem_of_reverse.
    destruct Hs as [(_ & -> & _)|(pre & g & post & -> & _ & _ & -> & _)]; [done|].
    rewrite !elem_of_app, elem_of_cons. rewrite elem_of_app, list_elem_of_singleton in Hin. tauto.
Qed.

(** C37: a startup that fails cleans nothing up: when the main node refuses the
    worker or some plugin does not build, [run] ends with that error without
    any of the steps of the shutdown, so no hook of the plugins that had been
    built is run, and a main node's cluster server is already accepting
    workers; and when it does not fail, everything is done in one order. *)
Theorem run_phases w plugins cfg r ps :
  run w plugins cfg = Ret (r, ps) ->
  exists cluster, (setup_cluster w cfg = Ok cluster \/ cluster = []) /\
  match r with
  | Err e =>
      ps = cluster /\ hooks_of ps = [] /\ Forall (fun p => is_shutdown p = false) ps /\
      (setup_cluster w cfg = Err e \/
       exists p, p ∈ plugins /\ snd (trace codec_name content_type plugins (PluginContext.new cfg)) = Some p)
  | Ok _ =>
      exists servers hooks t, ps = cluster ++ [PluginsBuilt (map manifest plugins); ListenersStarted servers; Signalled]
        ++ drain_ws_connections w cfg ++ [HooksRan hooks t] ++ flush_telemetry w
  end.
Proof.
  intros H. destruct (run_cases _ _ _ _ _ H) as
    [(e & -> & Hno & [(Hc & ->)|[Hc Hf]])|(cluster & reg & servers & -> & Hset & Hm & -> & _)].
  - exists []. split; [by right|]. split_and!; [done|done|constructor|by left].
  - exists ps. split; [by left|]. destruct (setup_cluster_phases _ _ _ Hc) as (_ & ? & ?).
    split_and!; [done..|by right].
  - exists cluster. split; [by left|]. unfold graceful_shutdown.
    destruct (shutdown_all _ reg) as [[[sr ran] t] reg']. exists servers, ran, t. by rewrite Hm.
Qed.
End run.
End Run.

(** * Concrete applications *)
Module LifecycleExamples.
Import Build Run.

Definition config_of (kvs : list (string * json)) : RinfraConfig.t :=
  match RinfraConfig.of_json "c1" (JObject kvs) with
  | Ok c => c
  | Err _ => RinfraConfig.default "c1"
  end.
Definition section (name : string) (kvs : list (string * json)) : string * json := (name, JObject kvs).

(** A log configuration with a file, and one whose level is no level. *)
Definition logs (level : string) : LogPluginConfigs.t :=
  PluginConfigs.log (RinfraConfig.plugins (config_of
    [section "plugins" [section "log" [section "stdout" [("enabled", JBool true); ("level", JString level)];
       section "file" [("enabled", JBool true); ("path", JString "logs")]]]])).
Definition parse_filter (s : string) : result string unit :=
  if bool_decide (s = "info") then Ok tt else Err "invalid filter directive".
Definition dir_opens (s : string) : result string unit :=
  if bool_decide (s = "logs") then Ok tt else Err "permission denied".
Lemma logging_as_configured_witness :
  Observability.init_observability parse_filter dir_opens (fun _ => Err "a subscriber has already been set") (logs "info") false =
    Ret (Ok tt) /\
  (exists m, Observability.init_observability parse_filter dir_opens (fun _ => Ok tt) (logs "loud") false =
    Ret (fail LogInitFailed m)) /\
  exists why, Observability.init_observability parse_filter (fun _ => Err "permission denied") (fun _ => Ok tt)
    (logs "info") false = Panic why.
Proof.
  split; [|split].
  - refine (proj1 (Observability.logging_as_configured parse_filter dir_opens _ (logs "info") false) _ _);
      vm_compute; reflexivity.
  - eexists. refine (proj1 (proj2 (Observability.logging_as_configured parse_filter dir_opens (fun _ => Ok tt)
      (logs "loud") false)) "invalid filter directive" _ _ _); vm_compute; reflexivity.
  - refine (proj2 (proj2 (Observability.logging_as_configured parse_filter _ (fun _ => Ok tt) (logs "info") false)) _ _);
      vm_compute; reflexivity.
Defined.

Definition web_listener : ListenerConfig.t :=
  match ListenerConfig.of_json (JObject [("name", JString "web"); ("protocol", JString "http");
    ("bind", JString "0.0.0.0:8080")]) with
  | Ok l => l
  | Err _ => ListenerConfig.Make "" ListenerProtocol.Http "" None None
  end.
Lemma worker_announces_hostname_witness :
  Cluster.address (WorkerSetup.endpoint_of "node7" web_listener) = "node7:8080".
Proof.
  refine (WorkerSetup.worker_announces_hostname "node7" ":8080" web_listener _ _ _ _);
    [reflexivity|reflexivity|discriminate|left; vm_compute; reflexivity].
Defined.

(** A worker of a cluster with two plugins, the first of which has a hook that
    never ends. *)
Definition worker_config : RinfraConfig.t :=
  config_of [section "plugins" [section "cluster" [("mode", JString "cluster"); ("role", JString "worker")]];
             section "runtime" [section "shutdown" [("grace_period_secs", JNumber "10"); ("component_timeout_secs", JNumber "5")]]].
Definition slow_hook : hook := Hook None (Ok tt).
Definition plain (name : string) (ops : list (ctx_op string unit string unit)) (r : Result unit) :
    plugin RinfraConfig.t string unit string unit :=
  Plugin (PluginManifest name "1.0" name) (fun _ => (ops, Ret r)).
Definition two_plugins (r : Result unit) : list (plugin RinfraConfig.t string unit string unit) :=
  [plain "slow" [AddShutdownHook slow_hook] (Ok tt); plain "second" [AddRouter "/second"] r].
Definition a_world (answer : Result unit) : world (component := unit) (codec := string) (router := string)
    (server := string) (W := unit) :=
  World (Some "node7") (fun _ => answer) tt tt None (fun _ routers => Ret routers) (WsTracker 2 0) None true (from_secs 60).

Definition not_built : Result unit :=
  fail PluginInitFailed "plugin 'second' build failed: [STORE_CONNECTION_FAILED] no".
Lemma shutdown_is_bounded_witness :
  exists ps, run id id (a_world (Ok tt)) (two_plugins (Ok tt)) worker_config = Ret (Ok tt, ps) /\
  In (HeartbeatsStarted) ps /\ total_time ps = from_secs 75 /\
  total_time ps - flushing_time ps <= from_secs 10 + Z.of_nat (length (hooks_of ps)) * from_secs 5.
Proof.
  eexists. split; [vm_compute; reflexivity|]. split; [right; left; reflexivity|]. split; [vm_compute; reflexivity|].
  refine (proj1 (shutdown_is_bounded id id (a_world (Ok tt)) (two_plugins (Ok tt)) worker_config _ _ _ _ _));
    [vm_compute; reflexivity|vm_compute; discriminate|vm_compute; discriminate].
Defined.

Lemma run_phases_witness :
  exists ps, run id id (a_world (Ok tt)) (two_plugins (fail StoreConnectionFailed "no")) worker_config =
    Ret (not_built, ps) /\ In HeartbeatsStarted ps /\ hooks_of ps = [].
Proof.
  eexists. split; [vm_compute; reflexivity|]. split; [right; left; reflexivity|].
  destruct (run_phases id id (a_world (Ok tt)) (two_plugins (fail StoreConnectionFailed "no")) worker_config
    not_built _ ltac:(vm_compute; reflexivity)) as (? & _ & -> & H & _).
  exact H.
Defined.
End LifecycleExamples.
