(* ===== verification/Cli.v ===== *)
(** The command line ([rinfra-plugins/src/cli]): the commands, which
    configuration they read, what they print and with which status the process
    ends, and the requests of those that talk to a running instance.

    Parsing the arguments is clap's; the commands it can deliver are
    [commands].  What the process reads is the record [surroundings]. *)

From S2P Require Import Prelude Errors AuditTrail HttpStack Tasks Serde Config ConfigLoad Runtime Lifecycle Admin.

(** * The commands ([cli/mod.rs]) *)
Inductive output_format : Type := Pretty | Json.
Inductive server_commands : Type := Start.
Inductive config_commands : Type :=
| Show (defaults : bool)
| Validate
| Init (output : string) (force : bool).
Inductive plugin_commands : Type := ListPlugins.
Inductive cache_commands : Type := CacheGet (key : string) | CacheFlush.
Inductive cluster_cache_commands : Type := ClusterCacheGet (key : string) | ClusterCacheFlush (yes : bool).
Inductive cluster_commands : Type := Nodes | Info | ClusterCache (c : cluster_cache_commands).
Inductive commands : Type :=
| Server (c : server_commands)
| ConfigCmd (c : config_commands)
| Plugin (c : plugin_commands)
| Cache (c : cache_commands)
| ClusterCmd (target : option string) (c : cluster_commands)
| External (args : list string).
Record cli : Type := Cli { command : option commands; config : string; format : output_format }.

(** * A process *)

(** What a process did that can be seen, and how it ended. *)
Record http_request : Type := HttpRequest { method : string; url : string; bearer : option string }.
Inductive output : Type :=
| Printed (f : output_format) (v : json)
| Stdout (text : string)
| Stderr (text : string)
| Wrote (path content : string)
| Sent (r : http_request).
Inductive ended (A : Type) : Type := Running (a : A) | Exited (code : Z).
Arguments Running {A} a.
Arguments Exited {A} code.
(** A computation that may write, and may end the process; a panic is the
    [outcome]'s. *)
Definition process (A : Type) : Type := list output * outcome (ended A).
#[export] Instance process_ret : MRet process := fun A a => ([], Ret (Running a)).
#[export] Instance process_bind : MBind process := fun A B f p =>
  match p with
  | (out, Ret (Running a)) => (out ++ (f a).1, (f a).2)
  | (out, Ret (Exited c)) => (out, Ret (Exited c))
  | (out, Panic why) => (out, Panic why)
  end.
Definition emit (o : output) : process unit := ([o], Ret (Running tt)).
Definition exit {A} (code : Z) : process A := ([], Ret (Exited code)).
(** [eprintln!(..); std::process::exit(1)] *)
Definition die {A} (text : string) : process A := _ ← emit (Stderr text); exit 1.

(** What the process finds: its environment, the files ([None] where there is
    none), whether a file can be written, the answers of HTTP servers, and the
    libraries' parsers and printers. *)
Record surroundings : Type := Surroundings {
  env : list (string * string);
  file : string -> option (result string string);
  write : string -> string -> result string unit;
  send : http_request -> result string (Z * result string string);
  status_text : Z -> string;
  yaml_value : string -> result string json;
  yaml_text : json -> result string string;
  parse_f64 : string -> option string;
  parse_json : string -> result string json;
  consumer : string;
  http_client : bool;
  example_config : string;
}.

Module CliConfig.
Section config.
Context (w : surroundings).
Definition path_exists (p : string) : bool := match file w p with Some _ => true | None => false end.

(** [find_config] *)
Definition candidates : list string :=
  ["config/standalone.example.yaml"; "../config/standalone.example.yaml"; "../../config/standalone.example.yaml"].
Definition find_config (hint : string) : string :=
  if path_exists hint then hint
  else match list_find (fun c => path_exists c = true) candidates with Some (_, c) => c | None => hint end.

(** [load_config] and [load_or_exit] *)
Definition with_path (p : string) (c : RinfraConfig.t) : RinfraConfig.t :=
  RinfraConfig.Make p (RinfraConfig.app c) (RinfraConfig.runtime c) (RinfraConfig.plugins c) (RinfraConfig.business c).
Definition load_config (p : string) : Result RinfraConfig.t :=
  cfg ← match file w p with
        | Some content => Load.load_with_env (yaml_value w) (parse_f64 w) (consumer w) p content (env w)
        | None => Ok (Build.from_defaults (consumer w) (parse_f64 w) (env w))
        end;
  Ok (with_path p cfg).
Definition load_or_exit (p : string) : process RinfraConfig.t :=
  match load_config p with
  | Ok c => mret c
  | Err e => die ("Error loading config: " +:+ error_to_string e)
  end.
End config.
End CliConfig.

(** * The handlers ([cli/handlers.rs]) *)
Module Handlers.
Import CliConfig.

(** [collect_enabled] *)
Definition when (b : bool) (name : string) : list string := if b then [name] else [].
Definition mq_line (b : MqBackend.t) : list string :=
  match b with
  | MqBackend.Memory => ["mq.memory"]
  | MqBackend.Nats => ["mq.nats"]
  | MqBackend.RedisStreams => ["mq.redis_streams"]
  | MqBackend.None => []
  end.
Definition collect_enabled (c : RinfraConfig.t) : list string :=
  let p := RinfraConfig.plugins c in
  when (StdoutLogConfig.enabled (LogPluginConfigs.stdout (PluginConfigs.log p))) "log.stdout"
  ++ map (fun l => "net." +:+ ListenerConfig.name l) (NetPluginConfigs.listeners (PluginConfigs.net p))
  ++ when (PostgresConfig.enabled (StorePluginConfigs.postgres (PluginConfigs.store p))) "store.postgres"
  ++ when (MemoryCacheConfig.enabled (CachePluginConfigs.memory (PluginConfigs.cache p))) "cache.memory"
  ++ when (RedisCacheConfig.enabled (CachePluginConfigs.redis (PluginConfigs.cache p))) "cache.redis"
  ++ when (MultilevelCacheConfig.enabled (CachePluginConfigs.multilevel (PluginConfigs.cache p))) "cache.multilevel"
  ++ when (MemoryRateLimitConfig.enabled (RateLimitPluginConfigs.memory (PluginConfigs.ratelimit p))) "ratelimit.memory"
  ++ when (RedisRateLimitConfig.enabled (RateLimitPluginConfigs.redis (PluginConfigs.ratelimit p))) "ratelimit.redis"
  ++ when (AesGcmConfig.enabled (CryptoPluginConfigs.aesgcm (PluginConfigs.crypto p))) "crypto.aesgcm"
  ++ mq_line (MqPluginConfigs.backend (PluginConfigs.mq p))
  ++ when (WasmScriptConfig.enabled (ScriptPluginConfigs.wasm (PluginConfigs.script p))) "script.wasm"
  ++ when (Run.is_cluster (PluginConfigs.cluster p)) "cluster"
  ++ (if AdminPluginConfigs.enabled (PluginConfigs.admin p)
      then [if AdminAuthConfig.enabled (AdminPluginConfigs.auth (PluginConfigs.admin p)) then "admin (auth)" else "admin"]
      else []).

Section handlers.
Context (w : surroundings).

(** [ConfigOutput] and its parts *)
Definition strings (l : list string) : json := JArray (map JString l).
Definition protocol_debug (p : ListenerProtocol.t) : string :=
  match p with
  | ListenerProtocol.Http => "Http" | ListenerProtocol.Tcp => "Tcp"
  | ListenerProtocol.Grpc => "Grpc" | ListenerProtocol.Trpc => "Trpc"
  end.
Definition listener_output (l : ListenerConfig.t) : json :=
  JObject [("name", JString (ListenerConfig.name l)); ("protocol", JString (protocol_debug (ListenerConfig.protocol l)));
           ("bind", JString (ListenerConfig.bind l))].
Definition config_output (c : RinfraConfig.t) : json :=
  let s := RuntimeConfig.shutdown (RinfraConfig.runtime c) in
  let cl := PluginConfigs.cluster (RinfraConfig.plugins c) in
  JObject
    [("app", JObject [("name", JString (AppConfig.name (RinfraConfig.app c)));
                      ("version", JString (AppConfig.version (RinfraConfig.app c)))]);
     ("runtime", JObject [("grace_period_secs", JNumber (print_dec (ShutdownConfig.grace_period_secs s)));
                          ("component_timeout_secs", JNumber (print_dec (ShutdownConfig.component_timeout_secs s)))]);
     ("plugins", JObject
       [("listeners", JArray (map listener_output (NetPluginConfigs.listeners (PluginConfigs.net (RinfraConfig.plugins c)))));
        ("cluster_mode", JString (ClusterPluginConfigs.mode cl)); ("cluster_role", JString (ClusterPluginConfigs.role cl));
        ("enabled", strings (collect_enabled c))])].
(** [handle_config_show] *)
Definition handle_config_show (p : string) (f : output_format) : process unit :=
  c ← load_or_exit w p; emit (Printed f (config_output c)).
(** [handle_config_validate] *)
Definition validate_result (valid : bool) (message p : string) : json :=
  JObject [("valid", JBool valid); ("message", JString message); ("config_path", JString p)].
Definition handle_config_validate (p : string) (f : output_format) : process unit :=
  match load_config w p with
  | Ok _ => emit (Printed f (validate_result true "configuration is valid" p))
  | Err e => _ ← emit (Printed f (validate_result false (error_to_string e) p)); exit 1
  end.
(** [handle_config_init] *)
Definition handle_config_init (output_path : string) (force : bool) : process unit :=
  if path_exists w output_path && negb force
  then die ("File '" +:+ output_path +:+ "' already exists. Use --force to overwrite.")
  else
    match write w output_path (example_config w) with
    | Err e => die ("Failed to write config file: " +:+ e)
    | Ok _ =>
        _ ← emit (Wrote output_path (example_config w));
        _ ← emit (Stdout ("Reference configuration written to: " +:+ output_path));
        emit (Stdout "Edit the file and save as your config.yaml (or pass --config <path>) to use it.")
    end.
(** [handle_config_show_defaults] *)
Definition handle_config_show_defaults (p : string) : process unit :=
  c ← load_or_exit w p;
  match yaml_text w (RinfraConfig.to_json (consumer w) c) with
  | Ok text => emit (Stdout text)
  | Err e => die ("Error serializing config: " +:+ e)
  end.

(** [handle_plugin_list] *)
Record plugin_info : Type := PluginInfo { pi_name : string; pi_category : string; pi_enabled : bool }.
Definition plugin_infos (c : RinfraConfig.t) : list plugin_info :=
  let p := RinfraConfig.plugins c in
  [PluginInfo "log.stdout" "logging" (StdoutLogConfig.enabled (LogPluginConfigs.stdout (PluginConfigs.log p)));
   PluginInfo "store.postgres" "storage" (PostgresConfig.enabled (StorePluginConfigs.postgres (PluginConfigs.store p)));
   PluginInfo "cache.memory" "cache" (MemoryCacheConfig.enabled (CachePluginConfigs.memory (PluginConfigs.cache p)));
   PluginInfo "cache.redis" "cache" (RedisCacheConfig.enabled (CachePluginConfigs.redis (PluginConfigs.cache p)));
   PluginInfo "cache.multilevel" "cache"
     (MultilevelCacheConfig.enabled (CachePluginConfigs.multilevel (PluginConfigs.cache p)));
   PluginInfo "ratelimit.memory" "ratelimit"
     (MemoryRateLimitConfig.enabled (RateLimitPluginConfigs.memory (PluginConfigs.ratelimit p)));
   PluginInfo "ratelimit.redis" "ratelimit"
     (RedisRateLimitConfig.enabled (RateLimitPluginConfigs.redis (PluginConfigs.ratelimit p)));
   PluginInfo "crypto.aesgcm" "crypto" (AesGcmConfig.enabled (CryptoPluginConfigs.aesgcm (PluginConfigs.crypto p)));
   PluginInfo "codec.json" "codec" true; PluginInfo "codec.msgpack" "codec" true; PluginInfo "codec.protobuf" "codec" true;
   PluginInfo "mq.memory" "messaging"
     (match MqPluginConfigs.backend (PluginConfigs.mq p) with MqBackend.Memory => true | _ => false end);
   PluginInfo "script.wasm" "scripting" (WasmScriptConfig.enabled (ScriptPluginConfigs.wasm (PluginConfigs.script p)));
   PluginInfo "cluster" "cluster" (Run.is_cluster (PluginConfigs.cluster p));
   PluginInfo "admin" "admin" (AdminPluginConfigs.enabled (PluginConfigs.admin p))]
  ++ map (fun l => PluginInfo (ListenerConfig.name l) "network" true)
       (NetPluginConfigs.listeners (PluginConfigs.net p)).
Definition plugin_json (i : plugin_info) : json :=
  JObject [("name", JString (pi_name i)); ("category", JString (pi_category i));
           ("status", JString (if pi_enabled i then "enabled" else "available"))].
Definition handle_plugin_list (p : string) (f : output_format) : process unit :=
  c ← load_or_exit w p; emit (Printed f (JArray (map plugin_json (plugin_infos c)))).
End handlers.
End Handlers.

(** * The client ([cli/client.rs]) *)
Module CliClient.
Section client.
Context (w : surroundings).
Record cli_client : Type := Client { base_url : string; token : string }.

(** [find_http_bind] *)
Definition is_http (l : ListenerConfig.t) : bool :=
  match ListenerConfig.protocol l with ListenerProtocol.Http => true | _ => false end.
Definition find_http_bind (c : RinfraConfig.t) : string :=
  let ls := NetPluginConfigs.listeners (PluginConfigs.net (RinfraConfig.plugins c)) in
  let bind := match list_find (fun l => is_http l = true) ls with
              | Some (_, l) => ListenerConfig.bind l
              | None => "127.0.0.1:8080"
              end in
  match strip_prefix "0.0.0.0" bind with Some rest => "127.0.0.1" +:+ rest | None => bind end.
Definition cluster_of (c : RinfraConfig.t) : ClusterPluginConfigs.t := PluginConfigs.cluster (RinfraConfig.plugins c).
Definition for_local (c : RinfraConfig.t) : cli_client :=
  Client ("http://" +:+ find_http_bind c) (ClusterPluginConfigs.cluster_token (cluster_of c)).
Definition for_cluster (c : RinfraConfig.t) (target_override : option string) : cli_client :=
  let addr := match target_override with
              | Some t => t
              | None =>
                  let main := ClusterPluginConfigs.main_address (cluster_of c) in
                  if negb (String.eqb main "") then main else find_http_bind c
              end in
  Client (if starts_with "http://" addr || starts_with "https://" addr then addr else "http://" +:+ addr)
    (ClusterPluginConfigs.cluster_token (cluster_of c)).

(** [get_json] and [post_json] *)
Definition request_json (m url : string) (c : cli_client) : process (result string json) :=
  let req := HttpRequest m url (if negb (String.eqb (token c) "") then Some (token c) else None) in
  _ ← emit (Sent req);
  mret match send w req with
       | Err e => Err ("connection failed: " +:+ e)
       | Ok (_, Err e) => Err ("failed to read response: " +:+ e)
       | Ok (status, Ok body) =>
           if (200 <=? status) && (status <? 300)
           then match parse_json w body with
                | Ok v => Ok v
                | Err e => Err ("invalid JSON response: " +:+ e)
                end
           else Err ("HTTP " +:+ status_text w status +:+ ": " +:+ body)
       end.
Definition get_json := request_json "GET".
Definition post_json := request_json "POST".
(** [print_error], and what every command does with the answer *)
Definition print_error (msg : string) (f : output_format) : process unit :=
  _ ← emit (Printed f (JObject [("error", JString msg)])); exit 1.
Definition show (r : result string json) (f : output_format) : process unit :=
  match r with Ok v => emit (Printed f v) | Err e => print_error e f end.
Definition cache_get (key : string) (c : cli_client) (f : output_format) : process unit :=
  r ← get_json (base_url c +:+ "/api/admin/cache/" +:+ key) c; show r f.
Definition cache_flush (c : cli_client) (f : output_format) : process unit :=
  r ← post_json (base_url c +:+ "/api/admin/cache/flush") c; show r f.
Definition cluster_nodes (c : cli_client) (f : output_format) : process unit :=
  r ← get_json (base_url c +:+ "/api/admin/cluster/nodes") c; show r f.
Definition cluster_info (c : cli_client) (f : output_format) : process unit :=
  r ← get_json (base_url c +:+ "/api/admin/health") c; show r f.
Definition cluster_cache_get (key : string) (c : cli_client) (f : output_format) : process unit :=
  r ← get_json (base_url c +:+ "/api/admin/cache/" +:+ key) c; show r f.
Definition cluster_cache_flush (c : cli_client) (f : output_format) : process unit :=
  r ← post_json (base_url c +:+ "/api/admin/cache/flush") c; show r f.
End client.
End CliClient.

(** * The runner ([cli/runner.rs]) *)
Module Runner.
Import CliConfig Handlers CliClient.
Section runner.
(** The kinds of values an application is made of, as in [Runtime]. *)
Context {plugin router state ws_handler tcp_handler grpc_fn service_fn transform http_mw tcp_mw : Type}.
Abbreviation tables := (application (router := router) (state := state) (ws_handler := ws_handler)
  (tcp_handler := tcp_handler) (grpc_fn := grpc_fn) (service_fn := service_fn) (transform := transform)
  (http_mw := http_mw) (tcp_mw := tcp_mw)).

(** [struct RunOptions] and its builder methods *)
Record run_options : Type := RunOptions {
  plugins : list plugin;
  http_routers : list (string * (state -> router));
  ws_handlers : list (string * ws_handler);
  tcp_handlers : list (string * tcp_handler);
  grpc_services : list (string * grpc_fn);
  extra_cmd_handler : option (list string -> RinfraConfig.t -> output_format -> process bool);
  node_metadata : gmap string string;
}.
Definition new : run_options := RunOptions [] [] [] [] [] None ∅.
Definition add_plugin (p : plugin) (o : run_options) : run_options :=
  RunOptions (plugins o ++ [p]) (http_routers o) (ws_handlers o) (tcp_handlers o) (grpc_services o)
    (extra_cmd_handler o) (node_metadata o).
Definition add_http_router (listener : string) (f : state -> router) (o : run_options) : run_options :=
  RunOptions (plugins o) (http_routers o ++ [(listener, f)]) (ws_handlers o) (tcp_handlers o) (grpc_services o)
    (extra_cmd_handler o) (node_metadata o).
Definition add_ws_handler (listener : string) (h : ws_handler) (o : run_options) : run_options :=
  RunOptions (plugins o) (http_routers o) (ws_handlers o ++ [(listener, h)]) (tcp_handlers o) (grpc_services o)
    (extra_cmd_handler o) (node_metadata o).
Definition add_tcp_handler (listener : string) (h : tcp_handler) (o : run_options) : run_options :=
  RunOptions (plugins o) (http_routers o) (ws_handlers o) (tcp_handlers o ++ [(listener, h)]) (grpc_services o)
    (extra_cmd_handler o) (node_metadata o).
Definition add_grpc_service (listener : string) (f : grpc_fn) (o : run_options) : run_options :=
  RunOptions (plugins o) (http_routers o) (ws_handlers o) (tcp_handlers o) (grpc_services o ++ [(listener, f)])
    (extra_cmd_handler o) (node_metadata o).
Definition set_metadata (pairs : list (string * string)) (o : run_options) : run_options :=
  RunOptions (plugins o) (http_routers o) (ws_handlers o) (tcp_handlers o) (grpc_services o)
    (extra_cmd_handler o) (fold_left (fun m p => <[p.1 := p.2]> m) pairs ∅).
Definition extra_commands (h : list string -> RinfraConfig.t -> output_format -> process bool) (o : run_options) :
    run_options :=
  RunOptions (plugins o) (http_routers o) (ws_handlers o) (tcp_handlers o) (grpc_services o) (Some h) (node_metadata o).

(** The builder that [run_server] fills: the path of the configuration, the
    plugins, the tables of [Runtime] and the node's metadata. *)
Record builder : Type := Builder {
  config_path : string;
  extra_plugins : list plugin;
  builder_tables : tables;
  metadata : gmap string string;
}.
Definition empty_tables : tables := Application ∅ ∅ ∅ ∅ ∅ ∅ [] [].
Definition add_grpc (listener : string) (f : grpc_fn) (a : tables) : tables :=
  Application (Runtime.http_routers a) (Runtime.ws_handlers a) (Runtime.tcp_handlers a)
    (push_entry listener f (Runtime.grpc_services a)) (trpc_services a) (transform_registry a)
    (extra_http_middlewares a) (extra_tcp_middlewares a).
Definition fill (p : string) (o : run_options) : builder :=
  let t := fold_left (fun t x => http_router x.1 x.2 t) (http_routers o) empty_tables in
  let t := fold_left (fun t x => set_ws_handler x.1 x.2 t) (ws_handlers o) t in
  let t := fold_left (fun t x => set_tcp_handler x.1 x.2 t) (tcp_handlers o) t in
  let t := fold_left (fun t x => add_grpc x.1 x.2 t) (grpc_services o) t in
  Builder p (plugins o) t (node_metadata o).

(** Building and running the application are [Lifecycle]'s. *)
Context {app : Type} (build : builder -> outcome (Result app)) (run_app : app -> outcome (Result unit)).
Context (w : surroundings).
Definition lift {A} (o : outcome A) : process A := ([], a ← o; Ret (Running a)).

(** [run_server]: [expect] on what [build] answers. *)
Definition run_server (p : string) (o : run_options) : process unit :=
  built ← lift (build (fill p o));
  match built with
  | Err e => lift (Panic ("failed to build application: " +:+ error_to_string e))
  | Ok a =>
      r ← lift (run_app a);
      match r with
      | Ok _ => mret tt
      | Err e => die ("Application error: " +:+ error_to_string e)
      end
  end.

Definition unknown_command {A} (args : list string) : process A :=
  _ ← emit (Stderr ("Error: unknown command '" +:+ default "" (head args) +:+ "'"));
  die "Run with --help for available commands.".
Definition run_external (p : string) (args : list string) (f : output_format) (o : run_options) : process unit :=
  match args with
  | [] => die "Error: empty external subcommand"
  | _ =>
      c ← load_or_exit w p;
      match extra_cmd_handler o with
      | Some handler =>
          known ← handler args c f;
          if known : bool then mret tt else unknown_command args
      | None => unknown_command args
      end
  end.
Definition run_cluster (p : string) (target : option string) (c : cluster_commands) (f : output_format) : process unit :=
  if negb (http_client w) then die "Error: cluster CLI requires the 'http-client' feature"
  else
    cfg ← load_or_exit w p;
    let client := for_cluster cfg target in
    match c with
    | Nodes => cluster_nodes w client f
    | Info => cluster_info w client f
    | ClusterCache (ClusterCacheGet key) => cluster_cache_get w key client f
    | ClusterCache (ClusterCacheFlush yes) =>
        if negb yes
        then _ ← emit (Stderr "Warning: this will flush cache on all cluster nodes."); die "Use --yes to confirm."
        else cluster_cache_flush w client f
    end.
Definition run_cache (p : string) (c : cache_commands) (f : output_format) : process unit :=
  if negb (http_client w) then die "Error: cache CLI requires the 'http-client' feature"
  else
    cfg ← load_or_exit w p;
    let client := for_local cfg in
    match c with
    | CacheGet key => cache_get w key client f
    | CacheFlush => cache_flush w client f
    end.
(** [run_with_cli] *)
Definition run_with_cli (c : cli) (o : run_options) : process unit :=
  let p := find_config w (config c) in
  let f := format c in
  match command c with
  | None | Some (Server Start) => run_server p o
  | Some (ConfigCmd (Show true)) => handle_config_show_defaults w p
  | Some (ConfigCmd (Show false)) => handle_config_show w p f
  | Some (ConfigCmd Validate) => handle_config_validate w p f
  | Some (ConfigCmd (Init out force)) => handle_config_init w out force
  | Some (Plugin ListPlugins) => handle_plugin_list w p f
  | Some (Cache c) => run_cache p c f
  | Some (ClusterCmd target c) => run_cluster p target c f
  | Some (External args) => run_external p args f o
  end.
End runner.
End Runner.

(** * What the commands promise *)
Module CliProperties.
Import CliConfig Handlers CliClient Runner.

(** ** The exit status *)
Definition is_stderr (o : output) : bool := match o with Stderr _ => true | _ => false end.
(** An error message, or a printed object that says so. *)
Definition reports_failure (o : output) : bool :=
  match o with
  | Stderr _ | Printed _ (JObject [("error", _)]) | Printed _ (JObject (("valid", JBool false) :: _)) => true
  | _ => false
  end.
Definition tells (p : process unit) : Prop :=
  match p.2 with
  | Ret (Exited code) => code = 1 /\ exists out m, p.1 = out ++ [m] /\ reports_failure m = true
  | Ret (Running _) => exists out m, p.1 = out ++ [m] /\ is_stderr m = false
  | Panic _ => False
  end.
Lemma tells_prefix out (p : process unit) : tells p -> tells (out ++ p.1, p.2).
Proof.
  unfold tells. simpl. destruct p.2 as [[a|code]|why]; [| |done].
  - intros (o & m & -> & H). exists (out ++ o), m. by rewrite app_assoc.
  - intros (-> & o & m & -> & H). split; [done|]. exists (out ++ o), m. by rewrite app_assoc.
Qed.
Lemma tells_after {A} (p : process A) (f : A -> process unit) :
  (forall a, tells (f a)) ->
  match p.2 with
  | Ret (Exited code) => code = 1 /\ exists out m, p.1 = out ++ [m] /\ reports_failure m = true
  | Ret (Running _) => True
  | Panic _ => False
  end -> tells (p ≫= f).
Proof.
  intros Hf Hp. destruct p as [out [[a|code]|why]]; simpl in *; [by apply (tells_prefix out (f a))|done|done].
Qed.
Lemma tells_die text : tells (die text).
Proof. split; [done|]. by exists [], (Stderr text). Qed.
Lemma tells_load w p f : (forall c, tells (f c)) -> tells (load_or_exit w p ≫= f).
Proof.
  intros Hf. apply tells_after; [done|]. unfold load_or_exit. destruct (load_config w p) as [c|e]; [done|].
  split; [done|]. by eexists [], _.
Qed.
Lemma tells_emit o : is_stderr o = false -> tells (emit o).
Proof. intros H. by exists [], o. Qed.
Lemma tells_show w m u c f : tells (request_json w m u c ≫= fun r => show r f).
Proof.
  apply tells_after; [|done]. intros [v|e]; [by apply tells_emit|]. split; [done|]. by eexists [], _.
Qed.

(** The commands that neither serve nor call the application's own code. *)
Definition one_shot (c : cli) : bool :=
  match command c with
  | Some (ConfigCmd _) | Some (Plugin _) | Some (Cache _) | Some (ClusterCmd _ _) => true
  | _ => false
  end.

Section runner.
Context {plugin router state ws_handler tcp_handler grpc_fn service_fn transform http_mw tcp_mw app : Type}.
Context (build : builder (plugin := plugin) (router := router) (state := state) (ws_handler := ws_handler)
  (tcp_handler := tcp_handler) (grpc_fn := grpc_fn) (service_fn := service_fn) (transform := transform)
  (http_mw := http_mw) (tcp_mw := tcp_mw) -> outcome (Result app)).
Context (run_app : app -> outcome (Result unit)).

(** The exit status tells whether a command worked: every command that
    does not serve ends, without a panic; when its status is not zero it is
    one, and the last thing written is the failure (a line of the error
    stream, or a printed object that says so); when it is zero the last thing
    written is its result. *)
Theorem exit_status_tells (w : surroundings) (c : cli) o :
  one_shot c = true ->
  match (run_with_cli build run_app w c o).2 with
  | Ret (Exited code) =>
      code = 1 /\ exists out m, (run_with_cli build run_app w c o).1 = out ++ [m] /\ reports_failure m = true
  | Ret (Running _) => exists out m, (run_with_cli build run_app w c o).1 = out ++ [m] /\ is_stderr m = false
  | Panic _ => False
  end.
Proof.
  intros Hc. change (tells (run_with_cli build run_app w c o)). unfold one_shot in Hc. unfold run_with_cli.
  destruct (command c) as [[[]|[[]| |out force]|[]|cc|t cc|args]|]; try done.
  - apply tells_load. intros cfg. destruct (yaml_text w _) as [text|e]; [by apply tells_emit|apply tells_die].
  - apply tells_load. intros cfg. by apply tells_emit.
  - unfold handle_config_validate. destruct (load_config w _) as [cfg|e]; [by apply tells_emit|].
    split; [done|]. by eexists [], _.
  - unfold handle_config_init. destruct (_ && _); [apply tells_die|]. destruct (write w _ _) as [u|e]; [|apply tells_die].
    by exists [Wrote out (example_config w); Stdout ("Reference configuration written to: " +:+ out)],
      (Stdout "Edit the file and save as your config.yaml (or pass --config <path>) to use it.").
  - apply tells_load. intros cfg. by apply tells_emit.
  - unfold run_cache. destruct (negb _); [apply tells_die|]. apply tells_load. intros cfg. destruct cc; apply tells_show.
  - unfold run_cluster. destruct (negb _); [apply tells_die|]. apply tells_load. intros cfg.
    destruct cc as [| |[key|[]]]; try apply tells_show.
    apply (tells_prefix [Stderr _] (die "Use --yes to confirm.")). apply tells_die.
Qed.

(** A configuration path that does not exist is not an error: the command
    silently uses the first example configuration it finds in the repository's
    layout instead, and without one the built-in defaults, which [validate]
    reports as a valid configuration at that path. *)
Theorem missing_config_is_no_error (w : surroundings) (c : cli) o :
  file w (config c) = None ->
  (forall i p, list_find (fun p => path_exists w p = true) candidates = Some (i, p) ->
    command c = None -> run_with_cli build run_app w c o = run_server build run_app p o) /\
  (list_find (fun p => path_exists w p = true) candidates = None -> command c = Some (ConfigCmd Validate) ->
    run_with_cli build run_app w c o =
      ([Printed (format c) (validate_result true "configuration is valid" (config c))], Ret (Running tt))).
Proof.
  intros Hf. unfold run_with_cli, find_config. assert (path_exists w (config c) = false) as -> by (unfold path_exists; by rewrite Hf).
  split.
  - intros i p -> ->. done.
  - intros -> ->. unfold handle_config_validate, load_config. rewrite Hf. done.
Qed.
End runner.

(** ** The two listings *)
Definition listed (c : RinfraConfig.t) (n : string) : bool :=
  let p := RinfraConfig.plugins c in
  (StdoutLogConfig.enabled (LogPluginConfigs.stdout (PluginConfigs.log p)) && String.eqb n "log.stdout")
  || (PostgresConfig.enabled (StorePluginConfigs.postgres (PluginConfigs.store p)) && String.eqb n "store.postgres")
  || (MemoryCacheConfig.enabled (CachePluginConfigs.memory (PluginConfigs.cache p)) && String.eqb n "cache.memory")
  || (RedisCacheConfig.enabled (CachePluginConfigs.redis (PluginConfigs.cache p)) && String.eqb n "cache.redis")
  || (MultilevelCacheConfig.enabled (CachePluginConfigs.multilevel (PluginConfigs.cache p))
      && String.eqb n "cache.multilevel")
  || (MemoryRateLimitConfig.enabled (RateLimitPluginConfigs.memory (PluginConfigs.ratelimit p))
      && String.eqb n "ratelimit.memory")
  || (RedisRateLimitConfig.enabled (RateLimitPluginConfigs.redis (PluginConfigs.ratelimit p))
      && String.eqb n "ratelimit.redis")
  || (AesGcmConfig.enabled (CryptoPluginConfigs.aesgcm (PluginConfigs.crypto p)) && String.eqb n "crypto.aesgcm")
  || existsb (String.eqb n) (mq_line (MqPluginConfigs.backend (PluginConfigs.mq p)))
  || (WasmScriptConfig.enabled (ScriptPluginConfigs.wasm (PluginConfigs.script p)) && String.eqb n "script.wasm")
  || (Run.is_cluster (PluginConfigs.cluster p) && String.eqb n "cluster")
  || (AdminPluginConfigs.enabled (PluginConfigs.admin p) &&
      String.eqb n (if AdminAuthConfig.enabled (AdminPluginConfigs.auth (PluginConfigs.admin p)) then "admin (auth)" else "admin")).
Lemma existsb_eqb n l : existsb (String.eqb n) l = bool_decide (n ∈ l).
Proof.
  induction l as [|m l IH]; simpl; [done|]. rewrite IH. apply eq_true_iff_eq.
  rewrite orb_true_iff, !bool_decide_eq_true, elem_of_cons, String.eqb_eq. done.
Qed.
Lemma existsb_when n b m : existsb (String.eqb n) (when b m) = b && String.eqb n m.
Proof. destruct b; [apply orb_false_r|done]. Qed.
Lemma existsb_net n ls : starts_with "net." n = false ->
  existsb (String.eqb n) (map (fun l => "net." +:+ ListenerConfig.name l) ls) = false.
Proof.
  intros Hn. rewrite existsb_eqb. apply bool_decide_eq_false. intros Hin.
  apply list_elem_of_In, in_map_iff in Hin as (l & <- & _). done.
Qed.
Lemma listed_spec c n : starts_with "net." n = false -> n ∈ collect_enabled c <-> listed c n = true.
Proof.
  intros Hn. rewrite <- (bool_decide_eq_true (n ∈ collect_enabled c)), <- existsb_eqb. unfold collect_enabled, listed.
  rewrite !existsb_app, !existsb_when, existsb_net by done. rewrite !orb_assoc.
  destruct (AdminPluginConfigs.enabled _); simpl; by rewrite ?orb_false_r.
Qed.

Definition fixed_rows : nat := 15.
(** The two listings agree on what both know: a component of
    [plugin list] is shown as enabled exactly when [config show] has it among
    the enabled (the codecs are always shown as enabled, and the admin backend
    appears under its own name or with its authentication); but a component
    that only one of them or neither knows, like the MySQL store, is not shown
    whatever the configuration says. *)
Theorem listings_agree (c : RinfraConfig.t) :
  (forall i, i ∈ take fixed_rows (plugin_infos c) -> pi_category i <> "codec" -> pi_name i <> "admin" ->
    (pi_name i ∈ collect_enabled c <-> pi_enabled i = true)) /\
  (forall i, i ∈ plugin_infos c -> pi_name i = "admin" -> pi_category i = "admin" ->
    ("admin" ∈ collect_enabled c \/ "admin (auth)" ∈ collect_enabled c <-> pi_enabled i = true)) /\
  ("store.mysql" ∉ collect_enabled c) /\
  Forall (fun i => pi_name i <> "store.mysql") (take fixed_rows (plugin_infos c)).
Proof.
  split_and!.
  - intros i Hi Hc Ha. cbn [take plugin_infos app fixed_rows] in Hi.
    repeat (apply elem_of_cons in Hi as [->|Hi]; [|]); [..|by apply elem_of_nil in Hi].
    all: cbn [pi_name pi_category pi_enabled] in *; try done.
    all: rewrite listed_spec by done; unfold listed; cbn [String.eqb Ascii.eqb Bool.eqb].
    all: destruct (MqPluginConfigs.backend _), (AdminAuthConfig.enabled _); cbn; by rewrite ?andb_false_r, ?andb_true_r, ?orb_false_r.
  - intros i Hi Hn Hc. unfold plugin_infos in Hi. apply elem_of_app in Hi as [Hi|Hi].
    2: { apply list_elem_of_In, in_map_iff in Hi as (l & <- & _). done. }
    repeat (apply elem_of_cons in Hi as [->|Hi]; [|]); [..|by apply elem_of_nil in Hi].
    all: cbn [pi_name pi_category pi_enabled] in *; try done.
    rewrite !listed_spec by done; unfold listed; cbn [String.eqb Ascii.eqb Bool.eqb].
    destruct (MqPluginConfigs.backend _), (AdminAuthConfig.enabled _); cbn;
      rewrite ?andb_false_r, ?andb_true_r, ?orb_false_r;
      (split; [by intros [?|?]|intros ?; first [by left|by right]]).
  - rewrite listed_spec by done; unfold listed; cbn [String.eqb Ascii.eqb Bool.eqb].
    destruct (MqPluginConfigs.backend _), (AdminAuthConfig.enabled _); cbn; by rewrite ?andb_false_r.
  - cbn [take plugin_infos app fixed_rows]. repeat constructor; discriminate.
Qed.

(** ** Talking to an instance whose admin backend wants a token *)
Section admin.
Context {H : Type} `{!TokenStore.Host H}.
Import TokenStore AuthLayer.
Abbreviation St := (list token_record * H)%type.

(** The request as the instance's router sees it. *)
Definition server_request (m path : string) (bearer : option string) : HttpStack.request token_info :=
  Request m path match bearer with Some t => [("authorization", "Bearer " +:+ t)] | None => [] end None None.
(** The instance answers the requests to it as its admin layer does. *)
Definition answers_as (w : surroundings) (l : auth_layer) (inner : HttpStack.request token_info -> task St response)
    (base : string) (s : St) : Prop :=
  forall m path bearer, exists resp s',
    run (auth_call l inner (server_request m path bearer)) s = Ret (resp, s') /\
    send w (HttpRequest m (base +:+ path) bearer) = Ok (status resp, Ok (default "" (body resp))).

Lemma extract_server_request m path bearer t :
  extract_token (server_request m path bearer) = Some t -> bearer = Some t.
Proof.
  unfold extract_token, server_request. cbn [req_headers]. destruct bearer as [b|]; [|done].
  set (v := "Bearer " +:+ b). unfold header_get. simpl. unfold to_str. destruct (all_chars _ v); [|done].
  intros Hx. change (strip_prefix "Bearer " ("Bearer " +:+ b) = Some t) in Hx.
  rewrite strip_prefix_app in Hx. congruence.
Qed.
(** Such a request is refused unless some record accepts its token. *)
Lemma refused_without_record l inner m path bearer s s' resp :
  audit_keeps (audit l) -> existsb (fun p => starts_with p path) (exclude_paths l) = false ->
  (forall t now r, bearer = Some t -> r ∈ s.1 -> ~ accepts t now r) ->
  run (auth_call l inner (server_request m path bearer)) s = Ret (resp, s') -> resp = unauthorized.
Proof.
  intros Ha He Hno Hr. unfold auth_call in Hr. change (HttpStack.path (server_request m path bearer)) with path in Hr.
  rewrite He in Hr. destruct (extract_token _) as [t|] eqn:Et.
  - apply extract_server_request in Et. apply run_bind_inv in Hr as (v & s1 & H1 & Hr).
    apply verify_accepts in H1 as (now & Hv). destruct v as [info|].
    + destruct Hv as (pre & r & post & Hs & _ & Hacc & _). destruct (Hno t now r Et); [|done]. rewrite Hs. set_solver.
    + apply run_bind_inv in Hr as (? & s2 & _ & Hr). by apply run_ret_inv in Hr as [-> _].
  - apply run_bind_inv in Hr as (? & s2 & _ & Hr). by apply run_ret_inv in Hr as [-> _].
Qed.

(** The commands that talk to an instance present the cluster's token,
    which is not a token of the admin backend: unless some record of the
    instance's token list accepts it, every such command is answered 401 and
    ends with status one, having printed the error. *)
Theorem cluster_token_is_no_admin_token (w : surroundings) (l : auth_layer) inner (c : cli_client) (f : output_format)
    (s : St) (m path : string) :
  audit_keeps (audit l) -> existsb (fun p => starts_with p path) (exclude_paths l) = false ->
  (forall now r, r ∈ s.1 -> ~ accepts (CliClient.token c) now r) ->
  answers_as w l inner (base_url c) s ->
  (request_json w m (base_url c +:+ path) c ≫= fun r => show r f) =
    ([Sent (HttpRequest m (base_url c +:+ path) (if negb (String.eqb (CliClient.token c) "") then Some (CliClient.token c) else None));
      Printed f (JObject [("error", JString ("HTTP " +:+ status_text w 401 +:+ ": "))])], Ret (Exited 1)).
Proof.
  intros Ha He Hno Hs. set (bearer := if negb _ then _ else _).
  destruct (Hs m path bearer) as (resp & s' & Hr & Hw).
  assert (resp = unauthorized) as ->.
  { eapply refused_without_record; [exact Ha|exact He| |exact Hr]. intros t now r Ht Hin. subst bearer.
    destruct (negb _); [|done]. injection Ht as <-. by apply Hno. }
  unfold request_json. fold bearer. rewrite Hw. cbn. by rewrite str_app_nil.
Qed.
End admin.
End CliProperties.

(** * Concrete invocations *)
Module CliExamples.
Import CliConfig Handlers CliClient Runner CliProperties AdminExamples.

Definition no_send (r : http_request) : result string (Z * result string string) := Err "refused".
Definition world (file : string -> option (result string string)) send : surroundings :=
  Surroundings [] file (fun _ _ => Ok tt) send (fun _ => "401 Unauthorized") (fun _ => Err "bad yaml")
    (fun _ => Ok "yaml") (fun _ => None) (fun _ => Err "bad json") "c1" true "# example".
Definition nothing : surroundings := world (fun _ => None) no_send.
Definition broken (p : string) : option (result string string) :=
  if String.eqb p "../config/standalone.example.yaml" then Some (Ok "") else None.
Definition no_options : run_options (plugin := unit) (router := unit) (state := unit) (ws_handler := unit)
  (tcp_handler := unit) (grpc_fn := unit) := new.
Definition no_build (b : builder (plugin := unit) (router := unit) (state := unit) (ws_handler := unit)
  (tcp_handler := unit) (grpc_fn := unit) (service_fn := unit) (transform := unit) (http_mw := unit) (tcp_mw := unit)) :
  outcome (Result unit) := Ret (Ok tt).
Definition runs (u : unit) : outcome (Result unit) := Ret (Ok tt).
Definition validate : cli := Cli (Some (ConfigCmd Validate)) "prod.yaml" Json.
Definition start : cli := Cli None "prod.yaml" Json.
Definition flush : cli := Cli (Some (ClusterCmd None (ClusterCache (ClusterCacheFlush true)))) "prod.yaml" Json.

Lemma exit_status_tells_witness :
  (run_with_cli no_build runs nothing flush no_options).2 = Ret (Exited 1) /\
  (1 = 1 /\ exists out m, (run_with_cli no_build runs nothing flush no_options).1 = out ++ [m] /\ reports_failure m = true).
Proof.
  split; [vm_compute; reflexivity|]. exact (exit_status_tells no_build runs nothing flush no_options eq_refl).
Defined.
Lemma missing_config_is_no_error_witness :
  run_with_cli no_build runs nothing validate no_options =
    ([Printed Json (validate_result true "configuration is valid" "prod.yaml")], Ret (Running tt)) /\
  run_with_cli no_build runs (world broken no_send) start no_options =
    run_server no_build runs "../config/standalone.example.yaml" no_options.
Proof.
  split.
  - exact (proj2 (missing_config_is_no_error no_build runs nothing validate no_options eq_refl) eq_refl eq_refl).
  - exact (proj1 (missing_config_is_no_error no_build runs (world broken no_send) start no_options eq_refl)
      1%nat _ eq_refl eq_refl).
Defined.

(** An instance on the main node's address, and the client of a worker. *)
Definition instance (r : http_request) : result string (Z * result string string) :=
  match strip_prefix "http://main:9000" (url r) with
  | Some path =>
      match run (AuthLayer.auth_call layer echo (server_request (method r) path (bearer r))) AdminExamples.start with
      | Ret (resp, _) => Ok (status resp, Ok (default "" (body resp)))
      | Panic _ => Err "connection closed"
      end
  | None => Err "no route"
  end.
Definition worker_client : cli_client := Client "http://main:9000" "s3cret".
Lemma instance_answers : answers_as (world (fun _ => None) instance) layer echo "http://main:9000" AdminExamples.start.
Proof.
  intros m path b. cbn [send world]. unfold instance. cbn [url method bearer].
  rewrite strip_prefix_app. unfold AuthLayer.auth_call.
  destruct (existsb _ _); [by eexists _, _|].
  destruct (AuthLayer.extract_token _) as [t|]; [|by eexists _, _].
  unfold TokenStore.verify. simpl. unfold mbind, M_bind. simpl.
  destruct (bool_decide (t = "leaked")), (bool_decide (t = "secret")); by eexists _, _.
Qed.
Lemma cluster_token_is_no_admin_token_witness :
  (request_json (world (fun _ => None) instance) "GET" "http://main:9000/api/admin/cluster/nodes" worker_client
     ≫= fun r => show r Json).2 = Ret (Exited 1).
Proof.
  change "http://main:9000/api/admin/cluster/nodes" with (base_url worker_client +:+ "/api/admin/cluster/nodes").
  rewrite (cluster_token_is_no_admin_token (world (fun _ => None) instance) layer echo worker_client Json
    AdminExamples.start "GET" "/api/admin/cluster/nodes").
  - reflexivity.
  - intros f e. discriminate.
  - vm_compute. reflexivity.
  - intros now r Hr [_ Ha]. repeat (apply elem_of_cons in Hr as [->|Hr]; [vm_compute in Ha; discriminate|]).
    by apply elem_of_nil in Hr.
  - exact instance_answers.
Defined.
End CliExamples.
