(* ===== verification/Proxy.v ===== *)
(** The reverse proxy of the examples ([rinfra-examples/src/proxy.rs]): the
    round robin over the web nodes of the cluster, and the forwarding of a
    request to the chosen one. *)

From S2P Require Import Prelude Errors Cluster HttpStack Config Plugins Lifecycle.
Import PluginContext.

(** * The choice of a backend *)

(** The [http] endpoints of the online nodes that declare themselves [web]. *)
Definition is_web (n : node_info) : bool :=
  bool_decide (Cluster.status n = Online) && bool_decide (metadata n !! "service_type" = Some "web").
Definition http_addresses (n : node_info) : list string :=
  address <$> filter (fun e => protocol e = "http") (endpoints n).
Definition web_endpoints (nodes : list node_info) : list string :=
  mjoin (http_addresses <$> filter (fun n => is_web n = true) nodes).
Definition backend_url (addr : string) : string :=
  if starts_with "http" addr then addr else "http://" +:+ addr.

(** [AtomicUsize::fetch_add(1)]: the old value, and the new one with its
    wrap-around. *)
Definition fetch_add (counter : Z) : Z * Z := (counter, as_u64 (counter + 1)).
(** [pick_web_backend] on the counter: nothing is counted without a backend. *)
Definition pick_web_backend (nodes : list node_info) (counter : Z) : option string * Z :=
  let eps := web_endpoints nodes in
  match eps with
  | [] => (None, counter)
  | _ :: _ =>
      let '(old, counter) := fetch_add counter in
      let idx := Z.to_nat (old mod Z.of_nat (length eps)) in
      (backend_url <$> eps !! idx, counter)
  end.
(** [n] requests in a row. *)
Fixpoint picks (n : nat) (nodes : list node_info) (counter : Z) : list (option string) * Z :=
  match n with
  | O => ([], counter)
  | S n =>
      let '(p, c1) := pick_web_backend nodes counter in
      let '(ps, c2) := picks n nodes c1 in (p :: ps, c2)
  end.

(** * Forwarding *)

(** The requests and responses of the two HTTP libraries; a body that cannot
    be read to its end is an error. *)
Record incoming : Type := Incoming {
  in_method : string;
  in_path : string;
  in_query : option string;
  in_headers : headers;
  in_body : result string (list Byte.byte);
}.
Record outgoing : Type := Outgoing {
  out_method : string;
  out_url : string;
  out_headers : headers;
  out_body : list Byte.byte;
}.
Record upstream : Type := Upstream {
  up_status : Z;
  up_headers : headers;
  up_body : result string (list Byte.byte);
}.
Record reply : Type := Reply {
  reply_status : Z;
  reply_headers : headers;
  reply_body : list Byte.byte;
}.
Definition text_reply (status : Z) (text : string) : reply :=
  Reply status [("content-type", "text/plain; charset=utf-8")] (String.list_byte_of_string text).

Definition body_limit : Z := 10 * 1024 * 1024.
(** [axum::body::to_bytes] *)
Definition to_bytes (limit : Z) (b : result string (list Byte.byte)) : result string (list Byte.byte) :=
  d ← b; if Z.of_nat (length d) <=? limit then Ok d else Err "length limit exceeded".
Definition known_methods : list string := ["GET"; "POST"; "PUT"; "DELETE"; "PATCH"; "HEAD"; "OPTIONS"].
Definition upstream_method (m : string) : string := if decide (m ∈ known_methods) then m else "GET".
Definition upstream_url (backend : string) (req : incoming) : string :=
  backend +:+ in_path req +:+ match in_query req with Some q => "?" +:+ q | None => "" end.
Definition forwarded (hs : headers) : headers :=
  filter (fun h => fst h <> "host" /\ is_Some (to_str (snd h))) hs.
(** [StatusCode::from_u16] *)
Definition status_from_u16 (n : Z) : option Z := if (100 <=? n) && (n <? 1000) then Some n else None.

Section handler.
(** The rest of the world; [reqwest]'s sending of a request, and what its
    [RwLock] holds when it is read; header names and values of one library
    that the other accepts. *)
Context {W : Type}.
Variable send : outgoing -> M W (result string upstream).
Variable read_nodes : W -> list node_info.
Variable valid_header : string * string -> bool.

Definition on_world {A} (m : M W A) : M (Z * W) A := fun s =>
  match m (snd s) with Ret (a, w) => Ret (a, (fst s, w)) | Panic p => Panic p end.

(** [proxy_handler]; the counter is the first half of the state. *)
Definition forward (backend : string) (req : incoming) : M (Z * W) reply :=
  match to_bytes body_limit (in_body req) with
  | Err _ => mret (text_reply 400 "failed to read body")
  | Ok body =>
      resp ← on_world (send (Outgoing (upstream_method (in_method req)) (upstream_url backend req)
                               (forwarded (in_headers req)) body));
      match resp with
      | Err _ => mret (text_reply 502 "upstream request failed")
      | Ok r =>
          let status := default 500 (status_from_u16 (up_status r)) in
          let hs := filter (fun h => valid_header h = true) (up_headers r) in
          mret (match up_body r with
                | Ok b => Reply status hs b
                | Err _ => text_reply 502 "failed to read upstream"
                end)
      end
  end.
Definition proxy_handler (req : incoming) : M (Z * W) reply := fun s =>
  let '(backend, counter) := pick_web_backend (read_nodes (snd s)) (fst s) in
  match backend with
  | None => Ret (text_reply 503 "no web backends available", (counter, snd s))
  | Some b => forward b req (counter, snd s)
  end.
End handler.

(** [proxy_router]: the counter starts at zero; without the worker's list of
    nodes the assembly panics. *)
Definition proxy_router {component codec W : Type} (s : app_state RinfraConfig.t codec component W) : outcome Z :=
  match state_get Lifecycle.Run.T_node_list s with
  | Some _ => Ret 0
  | None => Panic "ClusterNodeList not found in AppState; cluster mode required"
  end.

(** * What the choice guarantees *)

Lemma web_endpoints_elem nodes a : a ∈ web_endpoints nodes <->
  exists n e, n ∈ nodes /\ Cluster.status n = Online /\ metadata n !! "service_type" = Some "web" /\
    e ∈ endpoints n /\ protocol e = "http" /\ address e = a.
Proof.
  unfold web_endpoints. rewrite list_elem_of_join. setoid_rewrite list_elem_of_fmap.
  split.
  - intros (l & Ha & n & -> & Hn). apply list_elem_of_filter in Hn as [Hw Hn].
    apply andb_true_iff in Hw as [Hs%bool_decide_eq_true Hm%bool_decide_eq_true].
    apply list_elem_of_fmap in Ha as (e & -> & He). apply list_elem_of_filter in He as [Hp He].
    by exists n, e.
  - intros (n & e & Hn & Hs & Hm & He & Hp & <-). exists (http_addresses n). split.
    + apply list_elem_of_fmap. exists e. split; [done|]. by apply list_elem_of_filter.
    + exists n. split; [done|]. apply list_elem_of_filter. split; [|done].
      unfold is_web. by rewrite !bool_decide_eq_true_2.
Qed.

Lemma pick_spec nodes c : 0 <= c -> web_endpoints nodes <> [] ->
  exists a, web_endpoints nodes !! Z.to_nat (c mod Z.of_nat (length (web_endpoints nodes))) = Some a /\
    pick_web_backend nodes c = (Some (backend_url a), as_u64 (c + 1)).
Proof.
  intros Hc Hne. unfold pick_web_backend. destruct (web_endpoints nodes) as [|e es] eqn:E; [done|].
  set (idx := Z.to_nat _). assert (idx < length (e :: es))%nat as Hi.
  { unfold idx. pose proof (Z.mod_pos_bound c (Z.of_nat (length (e :: es))) ltac:(simpl; lia)). lia. }
  apply lookup_lt_is_Some in Hi as [a Ha]. exists a. split; [done|].
  unfold fetch_add. cbv beta iota zeta. fold idx. by rewrite Ha.
Qed.

(** Only a live web backend is ever chosen: what is picked is the [http]
    endpoint of a node of the list that is online and declares itself
    [service_type: web], and there is a pick whenever there is such an
    endpoint; a request without one is not counted. *)
Theorem picks_live_web (nodes : list node_info) (c : Z) :
  0 <= c ->
  match fst (pick_web_backend nodes c) with
  | Some url => exists n e, n ∈ nodes /\ Cluster.status n = Online /\
      metadata n !! "service_type" = Some "web" /\ e ∈ endpoints n /\ protocol e = "http" /\
      url = backend_url (address e)
  | None => snd (pick_web_backend nodes c) = c /\
      forall n e, n ∈ nodes -> Cluster.status n = Online -> metadata n !! "service_type" = Some "web" ->
        e ∈ endpoints n -> protocol e <> "http"
  end.
Proof.
  intros Hc. destruct (decide (web_endpoints nodes = [])) as [He|Hne].
  - assert (pick_web_backend nodes c = (None, c)) as -> by (unfold pick_web_backend; by rewrite He).
    split; [done|]. intros n e Hn Hs Hm Hen Hp.
    assert (address e ∈ web_endpoints nodes) as Hin by (apply web_endpoints_elem; by exists n, e).
    rewrite He in Hin. by apply elem_of_nil in Hin.
  - destruct (pick_spec nodes c Hc Hne) as (a & Ha & ->). simpl.
    apply list_elem_of_lookup_2, web_endpoints_elem in Ha as (n & e & H). exists n, e. naive_solver.
Qed.

(** ** Fairness *)

(** The indices that [n] requests see from a counter. *)
Lemma picks_unwrapped n nodes c : 0 <= c -> c + Z.of_nat n <= u64_max -> web_endpoints nodes <> [] ->
  picks n nodes c =
    (map (fun i => backend_url <$> web_endpoints nodes !!
            Z.to_nat ((c + Z.of_nat i) mod Z.of_nat (length (web_endpoints nodes)))) (seq 0 n),
     c + Z.of_nat n).
Proof.
  intros Hc Hmax Hne. revert c Hc Hmax. induction n as [|n IH]; intros c Hc Hmax; simpl picks.
  - simpl. f_equal. lia.
  - destruct (pick_spec nodes c Hc Hne) as (a & Ha & Hp). rewrite Hp.
    assert (as_u64 (c + 1) = c + 1) as -> 
      by (clear Ha Hp IH; unfold as_u64, u64_max in *; apply Z.mod_small; lia).
    rewrite IH by lia. cbn [seq map]. f_equal; [|lia]. f_equal.
    + rewrite Z.add_0_r. by rewrite Ha.
    + rewrite <- seq_shift, map_map. apply map_ext. intros i.
      by replace (c + 1 + Z.of_nat i) with (c + Z.of_nat (S i)) by lia.
Qed.

(** One round from any counter visits every endpoint once. *)
Lemma round_indices c n : 0 <= c -> (0 < n)%nat ->
  map (fun i => Z.to_nat ((c + Z.of_nat i) mod Z.of_nat n)) (seq 0 n) ≡ₚ seq 0 n.
Proof.
  intros Hc Hn. apply submseteq_length_Permutation; [|by rewrite length_map].
  apply NoDup_submseteq.
  - apply (NoDup_fmap_2_strong (A := nat)); [|apply NoDup_seq].
    intros i j Hi Hj E. apply elem_of_seq in Hi, Hj.
    assert ((c + Z.of_nat i) mod Z.of_nat n = (c + Z.of_nat j) mod Z.of_nat n) as E'.
    { pose proof (Z.mod_pos_bound (c + Z.of_nat i) (Z.of_nat n) ltac:(lia)).
      pose proof (Z.mod_pos_bound (c + Z.of_nat j) (Z.of_nat n) ltac:(lia)). lia. }
    pose proof (Z.div_mod (c + Z.of_nat i) (Z.of_nat n) ltac:(lia)).
    pose proof (Z.div_mod (c + Z.of_nat j) (Z.of_nat n) ltac:(lia)).
    rewrite E' in *. generalize dependent ((c + Z.of_nat i) / Z.of_nat n). intros q1.
    generalize dependent ((c + Z.of_nat j) / Z.of_nat n). intros q2 H2 H1.
    assert (Z.of_nat n * (q1 - q2) = Z.of_nat i - Z.of_nat j) as Hq by lia. clear E E' H1 H2.
    assert (q1 - q2 = 0 \/ 1 <= q1 - q2 \/ q1 - q2 <= -1) as [Hz|[Hz|Hz]] by lia;
      [rewrite Hz, Z.mul_0_r in Hq; lia|nia|nia].
  - intros x (i & <- & Hi)%list_elem_of_In%in_map_iff. apply elem_of_seq.
    pose proof (Z.mod_pos_bound (c + Z.of_nat i) (Z.of_nat n) ltac:(lia)). lia.
Qed.
Lemma round_picks nodes c : let n := length (web_endpoints nodes) in
  0 <= c -> c + Z.of_nat n <= u64_max -> web_endpoints nodes <> [] ->
  fst (picks n nodes c) ≡ₚ map (fun a => Some (backend_url a)) (web_endpoints nodes).
Proof.
  intros n Hc Hmax Hne. rewrite picks_unwrapped by done. fold n. simpl.
  assert (0 < n)%nat as Hn by (unfold n; destruct (web_endpoints nodes); [done|simpl; lia]).
  rewrite <- (map_map (fun i => Z.to_nat ((c + Z.of_nat i) mod Z.of_nat n))
    (fun i => backend_url <$> web_endpoints nodes !! i)).
  rewrite round_indices by done. unfold n. generalize (web_endpoints nodes) as l. clear.
  intros l. induction l as [|a l IH]; [done|]. cbn [length seq map]. apply perm_skip.
  rewrite <- seq_shift, map_map. exact IH.
Qed.
Lemma picks_plus n m nodes c : picks (n + m) nodes c =
  (fst (picks n nodes c) ++ fst (picks m nodes (snd (picks n nodes c))),
   snd (picks m nodes (snd (picks n nodes c)))).
Proof.
  revert c. induction n as [|n IH]; intros c; simpl; [by destruct (picks m nodes c)|].
  destruct (pick_web_backend nodes c) as [p c1]. rewrite IH.
  by destruct (picks n nodes c1) as [ps c2].
Qed.

(** C25: the proxy is fair: while the list of nodes does not change, [k] rounds
    of as many requests as there are web endpoints - starting anywhere, before
    the counter's wrap-around - give every endpoint exactly [k] of them. *)
Theorem round_robin_fair (nodes : list node_info) (c : Z) (k : nat) :
  let eps := web_endpoints nodes in
  0 <= c -> c + Z.of_nat (k * length eps) <= u64_max -> eps <> [] ->
  fst (picks (k * length eps) nodes c) ≡ₚ mjoin (replicate k (map (fun a => Some (backend_url a)) eps)).
Proof.
  intros eps Hc Hmax Hne. revert c Hc Hmax. induction k as [|k IH]; intros c Hc Hmax; [done|].
  change (S k * length eps)%nat with (length eps + k * length eps)%nat in *. rewrite picks_plus.
  set (m := (k * length eps)%nat) in *.
  cbn [fst replicate mjoin list_join]. f_equiv; [apply round_picks; [done|fold eps; lia|done]|].
  assert (snd (picks (length eps) nodes c) = c + Z.of_nat (length eps)) as ->
    by (rewrite picks_unwrapped; [done|done|lia|done]).
  apply IH; lia.
Qed.

(** * What the forwarding guarantees *)

Lemma list_filter_all {A} (P : A -> Prop) `{!forall x, Decision (P x)} (l : list A) :
  Forall P l -> filter P l = l.
Proof. induction 1 as [|x l Hx _ IH]; [done|]. by rewrite filter_cons_True, IH. Qed.
Lemma list_filter_same {A} (P Q : A -> Prop) `{!forall x, Decision (P x), !forall x, Decision (Q x)} (l : list A) :
  Forall (fun x => P x <-> Q x) l -> filter P l = filter Q l.
Proof.
  induction 1 as [|x l Hx _ IH]; [done|]. rewrite !filter_cons, IH.
  destruct (decide (P x)), (decide (Q x)); tauto.
Qed.

Section forwarding.
Context {W : Type}.
Variable send : outgoing -> M W (result string upstream).
Variable read_nodes : W -> list node_info.
Variable valid_header : string * string -> bool.

(** The request that goes upstream, and the reply to what comes back. *)
Definition request_upstream (backend : string) (req : incoming) (body : list Byte.byte) : outgoing :=
  Outgoing (upstream_method (in_method req)) (upstream_url backend req) (forwarded (in_headers req)) body.
Definition answer (r : result string upstream) : reply :=
  match r with
  | Err _ => text_reply 502 "upstream request failed"
  | Ok u =>
      match up_body u with
      | Err _ => text_reply 502 "failed to read upstream"
      | Ok b => Reply (default 500 (status_from_u16 (up_status u)))
                  (filter (fun h => valid_header h = true) (up_headers u)) b
      end
  end.

Lemma forward_spec b req c w :
  forward send valid_header b req (c, w) =
    match to_bytes body_limit (in_body req) with
    | Err _ => Ret (text_reply 400 "failed to read body", (c, w))
    | Ok body =>
        match send (request_upstream b req body) w with
        | Ret (r, w') => Ret (answer r, (c, w'))
        | Panic p => Panic p
        end
    end.
Proof.
  unfold forward. destruct (to_bytes body_limit (in_body req)) as [body|]; [|done].
  unfold mbind, M_bind, on_world, request_upstream. simpl.
  destruct (send _ w) as [[[u|e] w']|]; simpl; [|done..]. by destruct (up_body u).
Qed.

(** Each request ends in exactly one way: 503 without a backend, and then
    neither the counter nor the network is touched; 400 for a body that
    cannot be read or is longer than ten megabytes, and the network is not
    touched; or one request is sent, to the backend picked, and the reply is
    made from its response - 502 when there is none or its body cannot be
    read, and the response itself otherwise. *)
Theorem proxy_outcomes (req : incoming) (c c' : Z) (w w' : W) (r : reply) :
  proxy_handler send read_nodes valid_header req (c, w) = Ret (r, (c', w')) ->
  let pick := pick_web_backend (read_nodes w) c in
  c' = snd pick /\
  match fst pick with
  | None => r = text_reply 503 "no web backends available" /\ c' = c /\ w' = w
  | Some b =>
      match to_bytes body_limit (in_body req) with
      | Err _ => r = text_reply 400 "failed to read body" /\ w' = w
      | Ok body => exists u, send (request_upstream b req body) w = Ret (u, w') /\ r = answer u
      end
  end.
Proof.
  unfold proxy_handler. cbn [fst snd]. destruct (pick_web_backend (read_nodes w) c) as [[b|] c1] eqn:E; simpl.
  - rewrite forward_spec. destruct (to_bytes _ _) as [body|]; [|by intros [= <- <- <-]].
    destruct (send _ w) as [[u w1]|]; [|done]. intros [= <- <- <-]. split; [done|]. by exists u.
  - intros [= <- <- <-]. split; [done|]. split; [done|]. split; [|done].
    unfold pick_web_backend in E. destruct (web_endpoints (read_nodes w)) as [|e es] eqn:Ee; [congruence|].
    unfold fetch_add in E. cbv beta iota zeta in E.
    set (idx := Z.to_nat _) in E. assert (idx < length (e :: es))%nat as Hi.
    { unfold idx. pose proof (Z.mod_pos_bound c (Z.of_nat (length (e :: es))) ltac:(simpl; lia)). lia. }
    apply lookup_lt_is_Some in Hi as [a Ha]. by rewrite Ha in E.
Qed.

(** A request that can be forwarded is forwarded as it is: with one of the
    seven methods, printable header values and a body within the limit, the
    backend gets the same method, path, query, headers - all but [host] - and
    body, and the client gets the backend's status, headers and body. *)
Theorem proxy_transparent (req : incoming) (b : string) (c c' : Z) (w w' : W) (body : list Byte.byte)
    (st : Z) (hs : headers) (out : list Byte.byte) :
  pick_web_backend (read_nodes w) c = (Some b, c') ->
  in_method req ∈ known_methods -> Forall (fun h => all_chars is_visible (snd h) = true) (in_headers req) ->
  in_body req = Ok body -> Z.of_nat (length body) <= body_limit ->
  send (Outgoing (in_method req)
          (b +:+ in_path req +:+ match in_query req with Some q => "?" +:+ q | None => "" end)
          (filter (fun h => fst h <> "host") (in_headers req)) body) w =
    Ret (Ok (Upstream st hs (Ok out)), w') ->
  100 <= st < 1000 -> Forall (fun h => valid_header h = true) hs ->
  proxy_handler send read_nodes valid_header req (c, w) = Ret (Reply st hs out, (c', w')).
Proof.
  intros Hp Hm Hv Hb Hlen Hs Hst Hhs. unfold proxy_handler. simpl. rewrite Hp, forward_spec.
  unfold to_bytes. rewrite Hb. simpl. rewrite (proj2 (Z.leb_le _ _) Hlen).
  assert (request_upstream b req body = Outgoing (in_method req)
          (b +:+ in_path req +:+ match in_query req with Some q => "?" +:+ q | None => "" end)
          (filter (fun h => fst h <> "host") (in_headers req)) body) as ->.
  { unfold request_upstream, upstream_method, upstream_url. rewrite decide_True by done. f_equal.
    unfold forwarded. apply list_filter_same. eapply Forall_impl; [exact Hv|]. intros h Hh.
    simpl. unfold to_str. rewrite Hh. naive_solver. }
  rewrite Hs. simpl. unfold status_from_u16.
  rewrite (proj2 (Z.leb_le _ _)), (proj2 (Z.ltb_lt _ _)) by lia. simpl. do 3 f_equal.
  by apply list_filter_all.
Qed.

(** A method outside the seven is not forwarded but silently replaced: the
    proxy treats a request with it exactly as the same request with [GET]. *)
Theorem unknown_method_becomes_get (req : incoming) (s : Z * W) :
  in_method req ∉ known_methods ->
  proxy_handler send read_nodes valid_header req s =
  proxy_handler send read_nodes valid_header
    (Incoming "GET" (in_path req) (in_query req) (in_headers req) (in_body req)) s.
Proof.
  intros Hm. destruct s as [c w]. unfold proxy_handler. simpl.
  destruct (pick_web_backend (read_nodes w) c) as [[b|] c1]; [|done]. rewrite !forward_spec. simpl.
  unfold request_upstream. simpl.
  assert (upstream_method (in_method req) = upstream_method "GET") as E.
  { unfold upstream_method. by rewrite (decide_False _ _ Hm). }
  by rewrite E.
Qed.
End forwarding.

(** The proxy runs on workers only: in the state that [run] prepares, its
    router can be built exactly when the cluster mode is on and the node is
    not the main one; on a main node it panics although the mode is the one
    its message asks for. *)
Theorem proxy_needs_worker {component codec router server W : Type}
    (w : Lifecycle.Run.world (component := component) (codec := codec) (router := router) (server := server) (W := W))
    (c : ClusterPluginConfigs.t) (s : app_state RinfraConfig.t codec component W) :
  state_get Lifecycle.Run.T_node_list s = None ->
  proxy_router (Lifecycle.Run.extend_state w c s) =
    if Lifecycle.Run.is_cluster c && negb (Lifecycle.Run.is_main c) then Ret 0
    else Panic "ClusterNodeList not found in AppState; cluster mode required".
Proof.
  intros Hs. assert (forall t v (s' : app_state RinfraConfig.t codec component W),
    t <> Lifecycle.Run.T_node_list -> state_get Lifecycle.Run.T_node_list (Lifecycle.Run.state_set t v s') =
      state_get Lifecycle.Run.T_node_list s') as Hne.
  { intros t v s' Ht. by apply map_get_set_ne. }
  unfold proxy_router, Lifecycle.Run.extend_state. cbv zeta.
  set (s1 := if _ && Lifecycle.Run.is_main c then _ else s).
  assert (state_get Lifecycle.Run.T_node_list s1 = None) as Hs1.
  { unfold s1. destruct (Lifecycle.Run.is_cluster c && Lifecycle.Run.is_main c); [|done]. by rewrite Hne. }
  set (s2 := if _ && negb _ then _ else s1).
  assert (state_get Lifecycle.Run.T_node_list
    (match Lifecycle.Run.metrics_handle w with
     | Some h => Lifecycle.Run.state_set Lifecycle.Run.T_metrics h s2 | None => s2 end) =
    state_get Lifecycle.Run.T_node_list s2) as ->.
  { destruct (Lifecycle.Run.metrics_handle w); [|done]. by rewrite Hne. }
  unfold s2. destruct (Lifecycle.Run.is_cluster c && negb (Lifecycle.Run.is_main c)); [|by rewrite Hs1].
  assert (state_get Lifecycle.Run.T_node_list
    (Lifecycle.Run.state_set Lifecycle.Run.T_node_list (Lifecycle.Run.node_list w) s1) =
    Some (Lifecycle.Run.node_list w)) as ->
    by exact (map_get_set Lifecycle.Run.T_node_list (Lifecycle.Run.node_list w) _).
  done.
Qed.

(** A backend whose host name starts with [http] is taken for a URL. *)
Example host_named_http : backend_url "httpd.internal:8080" = "httpd.internal:8080" /\
  backend_url "web.internal:8080" = "http://web.internal:8080".
Proof. by split. Qed.

(** * The theorems on an example *)
Module ProxyExamples.
Definition web_node (id addr : string) (s : node_status) : node_info :=
  NodeInfo id Worker [Endpoint "tcp" "10.0.0.9:9000"; Endpoint "http" addr] {["service_type" := "web"]} s.
Definition cluster : list node_info :=
  [web_node "w1" "10.0.0.1:80" Online; web_node "w2" "10.0.0.2:80" Offline; web_node "w3" "10.0.0.3:80" Online;
   NodeInfo "p" Worker [Endpoint "http" "10.0.0.4:80"] {["service_type" := "proxy"]} Online].
Definition req : incoming :=
  Incoming "PUT" "/a" (Some "x=1") [("host", "example.org"); ("accept", "*/*")] (Ok [Byte.x41]).
(** A network that echoes the body and records the request. *)
Definition echo (o : outgoing) : M (list outgoing) (result string upstream) := fun w =>
  Ret (Ok (Upstream 201 [("x", "y")] (Ok (out_body o))), w ++ [o]).
End ProxyExamples.
Import ProxyExamples.

Example picks_ex : picks 4 cluster 7 =
  ([Some "http://10.0.0.3:80"; Some "http://10.0.0.1:80"; Some "http://10.0.0.3:80"; Some "http://10.0.0.1:80"], 11).
Proof. vm_compute. reflexivity. Qed.

Lemma picks_live_web_witness :
  exists n e, n ∈ cluster /\ Cluster.status n = Online /\ metadata n !! "service_type" = Some "web" /\
    e ∈ endpoints n /\ protocol e = "http" /\ "http://10.0.0.3:80" = backend_url (address e).
Proof. exact (picks_live_web cluster 7 ltac:(lia)). Defined.

Lemma round_robin_fair_witness :
  fst (picks 4 cluster 7) ≡ₚ
    [Some "http://10.0.0.1:80"; Some "http://10.0.0.3:80"; Some "http://10.0.0.1:80"; Some "http://10.0.0.3:80"].
Proof. exact (round_robin_fair cluster 7 2 ltac:(lia) ltac:(vm_compute; discriminate) ltac:(vm_compute; discriminate)). Defined.

Lemma proxy_outcomes_witness :
  exists u, echo (request_upstream "http://10.0.0.3:80" req [Byte.x41]) [] =
      Ret (u, [Outgoing "PUT" "http://10.0.0.3:80/a?x=1" [("accept", "*/*")] [Byte.x41]]) /\
    Reply 201 [("x", "y")] [Byte.x41] = answer (fun _ => true) u.
Proof.
  refine (proj2 (proxy_outcomes echo (fun _ => cluster) (fun _ => true) req 7 8 [] _ _ _)).
  vm_compute. reflexivity.
Defined.

Lemma proxy_transparent_witness :
  proxy_handler echo (fun _ => cluster) (fun _ => true) req (7, []) =
    Ret (Reply 201 [("x", "y")] [Byte.x41],
         (8, [Outgoing "PUT" "http://10.0.0.3:80/a?x=1" [("accept", "*/*")] [Byte.x41]])).
Proof.
  apply (proxy_transparent echo (fun _ => cluster) (fun _ => true) req "http://10.0.0.3:80" 7 8 [] _ [Byte.x41]).
  - vm_compute. reflexivity.
  - right. right. left.
  - repeat constructor.
  - reflexivity.
  - vm_compute. discriminate.
  - vm_compute. reflexivity.
  - lia.
  - repeat constructor.
Defined.

Lemma unknown_method_becomes_get_witness :
  proxy_handler echo (fun _ => cluster) (fun _ => true)
    (Incoming "MKCOL" "/a" None [] (Ok [])) (7, []) =
  proxy_handler echo (fun _ => cluster) (fun _ => true) (Incoming "GET" "/a" None [] (Ok [])) (7, []).
Proof.
  apply (unknown_method_becomes_get echo (fun _ => cluster) (fun _ => true) (Incoming "MKCOL" "/a" None [] (Ok []))).
  by apply (bool_decide_unpack _).
Defined.

Definition empty_state (c : RinfraConfig.t) : app_state RinfraConfig.t string unit unit := AppState c ∅.
Definition cluster_config (role : string) : ClusterPluginConfigs.t :=
  match ClusterPluginConfigs.of_json (JObject [("mode", JString "cluster"); ("role", JString role)]) with
  | Ok c => c
  | Err _ => ClusterPluginConfigs.default
  end.
Lemma proxy_needs_worker_witness :
  let s := empty_state Lifecycle.LifecycleExamples.worker_config in
  let w := Lifecycle.LifecycleExamples.a_world (Ok tt) in
  proxy_router (Lifecycle.Run.extend_state w (cluster_config "worker") s) = Ret 0 /\
  exists why, proxy_router (Lifecycle.Run.extend_state w (cluster_config "main") s) = Panic why.
Proof.
  intros s w. split.
  - refine (eq_trans (proxy_needs_worker w (cluster_config "worker") s eq_refl) _). vm_compute. reflexivity.
  - eexists. refine (eq_trans (proxy_needs_worker w (cluster_config "main") s eq_refl) _). vm_compute. reflexivity.
Defined.
