(* ===== verification/Telemetry.v ===== *)
(** What the instances observe of themselves: the tracer and the propagation
    of trace contexts ([rinfra-plugins/src/telemetry/{mod,otel}.rs],
    [net/middleware/trace_propagation.rs]) and the HTTP metrics
    ([rinfra-plugins/src/metrics/mod.rs]). The exporters, the propagator and
    the metrics recorder are libraries. *)

From Stdlib Require Import SpecFloat.
From S2P Require Import Prelude Errors HttpStack Config.

(** * Tracing *)
Module Otel.

(** ** The sampler

    Doubles with their comparison; [f64::EPSILON] is two to the minus 52. *)
Definition f64_one : spec_float := S754_finite false 4503599627370496 (-52).
Definition f64_zero : spec_float := S754_zero false.
Definition f64_epsilon : spec_float := S754_finite false 4503599627370496 (-104).
Inductive sampler : Type := AlwaysOn | AlwaysOff | TraceIdRatioBased (r : spec_float).
Definition choose_sampler (sample_ratio : spec_float) : sampler :=
  if SFltb (SFabs (SFsub 53 1024 sample_ratio f64_one)) f64_epsilon then AlwaysOn
  else if SFleb sample_ratio f64_zero then AlwaysOff
  else TraceIdRatioBased sample_ratio.

Section otel.
(** A trace context, and a propagator: the pairs it sets, in order, and what
    it reads from a carrier's [get] and [keys]. *)
Context {context exporter : Type}.
Record propagator : Type := Propagator {
  inject_context : context -> list (string * string);
  extract : (string -> option string) -> list string -> context;
}.
Variable trace_context_propagator : propagator.
Variable build_exporter : string -> result string exporter.
Variable parse_f64 : string -> spec_float.

Record tracer_provider : Type := TracerProvider {
  span_exporter : exporter;
  provider_sampler : sampler;
  resource : list (string * string);
}.
(** The process's global propagator - none sets and reads nothing - and
    tracer provider. *)
Record globals : Type := Globals {
  global_propagator : option propagator;
  global_provider : option tracer_provider;
}.

(** [init_otel_tracer] *)
Definition init_otel_tracer (c : TelemetryConfig.t) (service_name : string) (g : globals) :
    Result tracer_provider * globals :=
  let g := Globals (Some trace_context_propagator) (global_provider g) in
  match build_exporter (TelemetryConfig.otlp_endpoint c) with
  | Err e => (fail Internal ("otlp exporter init failed: " +:+ e), g)
  | Ok x =>
      let provider := TracerProvider x (choose_sampler (parse_f64 (TelemetryConfig.sample_ratio c)))
                        [("service.name", service_name)] in
      (Ok provider, Globals (global_propagator g) (Some provider))
  end.

(** [HashMapInjector] and [HashMapExtractor] *)
Definition set_all (kvs : list (string * string)) : gmap string string :=
  fold_left (fun m kv => <[fst kv := snd kv]> m) kvs ∅.
Definition hash_map_get (m : gmap string string) (k : string) : option string := m !! k.
Definition hash_map_keys (m : gmap string string) : list string := (map_to_list m).*1.

(** [inject_trace_context] and [extract_trace_context_span], with and without
    the feature; a span is its operation and its remote parent. *)
Record span : Type := Span { span_name : string; parent : option context }.
Definition inject_trace_context (feature : bool) (g : globals) (current : context) : option (gmap string string) :=
  if feature then
    let m := match global_propagator g with
             | Some p => set_all (inject_context p current)
             | None => ∅
             end in
    if bool_decide (m = ∅) then None else Some m
  else None.
Definition extract_trace_context_span (feature : bool) (g : globals) (ctx : option (gmap string string))
    (name : string) : span :=
  match ctx with
  | Some m =>
      if feature && negb (bool_decide (m = ∅))
      then Span name ((fun p => extract p (hash_map_get m) (hash_map_keys m)) <$> global_propagator g)
      else Span name None
  | None => Span name None
  end.

(** [HeaderExtractor], and the parent that [OtelPropagationService::call]
    sets. *)
Definition header_extractor_get {claims} (req : request claims) (k : string) : option string :=
  header_get k (req_headers req) ≫= to_str.
Definition header_extractor_keys {claims} (req : request claims) : list string := remove_dups (req_headers req).*1.
Definition propagation_parent {claims} (g : globals) (req : request claims) : option context :=
  (fun p => extract p (header_extractor_get req) (header_extractor_keys req)) <$> global_propagator g.

(** What a propagator promises: a context that sets something is read back
    from every carrier that holds what it set, whatever else it holds. *)
Definition faithful (p : propagator) : Prop := forall cx get keys,
  inject_context p cx <> [] ->
  (forall k v, set_all (inject_context p cx) !! k = Some v -> get k = Some v) ->
  extract p get keys = cx.

Lemma set_all_empty kvs : set_all kvs = ∅ <-> kvs = [].
Proof.
  split; [|by intros ->]. destruct kvs as [|kv kvs] using rev_ind; [done|].
  unfold set_all. rewrite fold_left_app. simpl. intros H. by apply insert_non_empty in H.
Qed.

(** A trace is continued on the other side: with the feature compiled in
    and the tracer initialised on both sides, the context that one process
    injects into a message is the parent of the span the other opens for it;
    a context that sets nothing is sent as nothing and opens a span without a
    parent, and so does every message of a process without the feature. *)
Theorem trace_context_roundtrip (p : propagator) (sender receiver : globals) (feature : bool)
    (cx : context) (name : string) :
  faithful p -> global_propagator sender = Some p -> global_propagator receiver = Some p ->
  extract_trace_context_span true receiver (inject_trace_context feature sender cx) name =
    Span name (if feature && negb (bool_decide (length (inject_context p cx) = 0%nat)) then Some cx else None).
Proof.
  intros Hp Hs Hr. unfold inject_trace_context, extract_trace_context_span. rewrite Hs.
  destruct feature; [|done]. simpl.
  destruct (inject_context p cx) as [|kv kvs] eqn:E; [done|]. rewrite <- E.
  assert (set_all (inject_context p cx) <> ∅) as Hne by (rewrite set_all_empty; congruence).
  rewrite bool_decide_eq_false_2 by done. rewrite bool_decide_eq_false_2 by done. rewrite Hr. simpl.
  rewrite (Hp cx); [by rewrite E|congruence|done].
Qed.

(** The same over HTTP: the request that carries the pairs as headers. *)
Lemma propagation_parent_ok {claims} (p : propagator) (g : globals) (cx : context) (req : request claims) :
  faithful p -> global_propagator g = Some p -> inject_context p cx <> [] ->
  (forall k v, set_all (inject_context p cx) !! k = Some v ->
     header_get k (req_headers req) = Some v /\ all_chars is_visible v = true) ->
  propagation_parent g req = Some cx.
Proof.
  intros Hp Hg Hne Hh. unfold propagation_parent. rewrite Hg. simpl. f_equal. apply Hp; [done|].
  intros k v Hk. unfold header_extractor_get. destruct (Hh k v Hk) as [-> Hv]. simpl.
  unfold to_str. by rewrite Hv.
Qed.

(** Initialising the tracer sets up what the configuration says and
    nothing else: it fails exactly when the exporter cannot be built - and
    then the propagator has been installed all the same, but no provider -
    and otherwise installs a provider that samples as configured and names the
    service; the export timeout of the configuration changes nothing. *)
Theorem tracer_as_configured (c : TelemetryConfig.t) (service_name : string) (g : globals) (timeout : Z) :
  init_otel_tracer (TelemetryConfig.Make (TelemetryConfig.enabled c) (TelemetryConfig.otlp_endpoint c)
      (TelemetryConfig.sample_ratio c) timeout) service_name g = init_otel_tracer c service_name g /\
  match build_exporter (TelemetryConfig.otlp_endpoint c) with
  | Err e => init_otel_tracer c service_name g =
      (fail Internal ("otlp exporter init failed: " +:+ e), Globals (Some trace_context_propagator) (global_provider g))
  | Ok x => exists p, init_otel_tracer c service_name g = (Ok p, Globals (Some trace_context_propagator) (Some p)) /\
      span_exporter p = x /\ resource p = [("service.name", service_name)] /\
      provider_sampler p = choose_sampler (parse_f64 (TelemetryConfig.sample_ratio c))
  end.
Proof.
  split; [done|]. unfold init_otel_tracer. destruct (build_exporter _); [|done]. eexists. done.
Qed.
End otel.

(** The sampler follows the ratio: one - and only doubles closer to it
    than the machine epsilon - samples everything, zero, minus zero and every
    negative ratio sample nothing, and everything else, a ratio above one or
    not a number included, is handed to the library. *)
Theorem sampler_follows_ratio (r : spec_float) :
  match choose_sampler r with
  | AlwaysOn => SFltb (SFabs (SFsub 53 1024 r f64_one)) f64_epsilon = true
  | AlwaysOff => exists s, r = S754_zero s \/ (s = true /\ (r = S754_infinity s \/ exists m e, r = S754_finite s m e))
  | TraceIdRatioBased r' => r' = r /\
      (r = S754_nan \/ r = S754_infinity false \/ exists m e, r = S754_finite false m e)
  end.
Proof.
  unfold choose_sampler. destruct (SFltb _ _) eqn:E; [done|].
  destruct r as [s|s| |s m e]; simpl.
  - by exists s; left.
  - destruct s; simpl; [exists true; eauto|]. split; [done|]. eauto.
  - split; [done|]. by left.
  - destruct s; simpl; [exists true; right; eauto|]. split; [done|]. eauto.
Qed.
Example sampler_ex :
  choose_sampler f64_one = AlwaysOn /\ choose_sampler f64_zero = AlwaysOff /\
  choose_sampler (S754_finite false 4503599627370496 (-53)) =
    TraceIdRatioBased (S754_finite false 4503599627370496 (-53)) /\
  choose_sampler (S754_finite false 9007199254740991 (-53)) = AlwaysOn /\
  choose_sampler (S754_finite false 4503599627370497 (-52)) =
    TraceIdRatioBased (S754_finite false 4503599627370497 (-52)).
Proof. vm_compute. repeat split. Qed.
End Otel.

(** * HTTP metrics *)
Module HttpMetrics.

(** The recorder: counters of 64 bits and histograms by name and labels. *)
Abbreviation labels := (list (string * string)).
Record recorder : Type := Recorder {
  counters : gmap (string * labels) Z;
  histograms : gmap (string * labels) (list Z);
}.
Definition increment (k : string * labels) (r : recorder) : recorder :=
  Recorder (<[k := as_u64 (default 0 (counters r !! k) + 1)]> (counters r)) (histograms r).
Definition record (k : string * labels) (d : Z) (r : recorder) : recorder :=
  Recorder (counters r) (<[k := default [] (histograms r !! k) ++ [d]]> (histograms r)).

(** [init_metrics] over the installation of the recorder, and [apply_metrics]
    over the router's operations. *)
Definition init_metrics {handle : Type} (install_recorder : result string handle) : Result handle :=
  map_err (fun e => new_error Internal ("failed to install Prometheus recorder: " +:+ e)) install_recorder.
Definition apply_metrics {handle router : Type} (install_recorder : result string handle)
    (metrics_router : handle -> string -> outcome router) (merge : router -> router -> outcome router)
    (layer : router -> router) (r : router) (c : MetricsConfig.t) : outcome (Result (router * option handle)) :=
  if negb (MetricsConfig.enabled c) then Ret (Ok (r, None))
  else
    match init_metrics install_recorder with
    | Err e => Ret (Err e)
    | Ok h =>
        route ← metrics_router h (MetricsConfig.endpoint c);
        r ← merge r route;
        Ret (Ok (layer r, Some h))
    end.

Section middleware.
(** The world holds the recorder and a clock; the router has matched the
    request to one of its routes, or to none. *)
Context {W claims : Type} (recorder_of : W -> recorder) (update : (recorder -> recorder) -> W -> W).
Hypothesis recorder_update : forall f w, recorder_of (update f w) = f (recorder_of w).
Variable now_instant : W -> Z.
Abbreviation request := (request claims).
Variable matched_path : request -> option string.

Definition path_label (req : request) : string := default (path req) (matched_path req).
Definition labels_of (req : request) (resp : response) : labels :=
  [("method", method req); ("path", path_label req); ("status", pretty (status resp))].
(** [http_metrics_middleware] *)
Definition http_metrics_middleware (next : request -> M W response) (req : request) : M W response := fun w =>
  let start := now_instant w in
  '(resp, w) ← next req w;
  let duration := duration_since (now_instant w) start in
  let ls := labels_of req resp in
  Ret (resp, update (record ("http_request_duration_seconds", take 2 ls) duration)
               (update (increment ("http_requests_total", ls)) w)).

(** Requests one after the other. *)
Fixpoint serve_all (h : request -> M W response) (reqs : list request) : M W (list response) :=
  match reqs with
  | [] => mret []
  | r :: reqs => x ← h r; xs ← serve_all h reqs; mret (x :: xs)
  end.

(** An application that leaves the recorder alone. *)
Variable next : request -> M W response.
Definition quiet : Prop := forall req w resp w', next req w = Ret (resp, w') -> recorder_of w' = recorder_of w.
Definition total (w : W) (ls : labels) : Z := default 0 (counters (recorder_of w) !! ("http_requests_total", ls)).
Definition seen (ls : labels) (reqs : list request) (resps : list response) : nat :=
  length (filter (fun x => labels_of x.1 x.2 = ls) (zip reqs resps)).

Lemma metrics_step req w resp w' : quiet -> http_metrics_middleware next req w = Ret (resp, w') ->
  (exists w1, next req w = Ret (resp, w1)) /\
  counters (recorder_of w') = <[("http_requests_total", labels_of req resp) :=
      as_u64 (total w (labels_of req resp) + 1)]> (counters (recorder_of w)).
Proof using recorder_update.
  intros Hq. unfold http_metrics_middleware. destruct (next req w) as [[r w1]|] eqn:E; [|done].
  simpl. intros [= -> <-]. split; [by exists w1|]. rewrite !recorder_update. simpl. unfold total.
  by rewrite (Hq _ _ _ _ E).
Qed.
Lemma serve_all_cons h r reqs w resps w' : serve_all h (r :: reqs) w = Ret (resps, w') ->
  exists x w1 xs, h r w = Ret (x, w1) /\ serve_all h reqs w1 = Ret (xs, w') /\ resps = x :: xs.
Proof.
  simpl. intros (x & w1 & H1 & (xs & w2 & H2 & H3)%M_bind_inv)%M_bind_inv.
  injection H3 as <- <-. by exists x, w1, xs.
Qed.

(** The metrics count what was served: after any sequence of requests the
    counter of a method, a path and a status has grown by exactly the number
    of requests with that method and path that were answered with that
    status, modulo the counter's 64 bits, and every request gets the answer
    that the application gave. *)
Theorem metrics_count_requests (reqs : list request) (resps : list response) (w w' : W) (ls : labels) :
  quiet -> 0 <= total w ls <= u64_max ->
  serve_all (http_metrics_middleware next) reqs w = Ret (resps, w') ->
  total w' ls = as_u64 (total w ls + Z.of_nat (seen ls reqs resps)).
Proof using recorder_update.
  intros Hq. revert w resps. induction reqs as [|r reqs IH]; intros w resps Hw.
  - intros [= <- <-]. unfold seen. simpl. rewrite Z.add_0_r. unfold as_u64.
    rewrite Z.mod_small; [done|]. unfold u64_max in Hw. lia.
  - intros (x & w1 & xs & Hx & Hxs & ->)%serve_all_cons.
    apply metrics_step in Hx as [_ Hc]; [|done].
    assert (total w1 ls = if decide (labels_of r x = ls) then as_u64 (total w ls + 1) else total w ls) as H1.
    { unfold total. rewrite Hc. destruct (decide (labels_of r x = ls)) as [<-|Hne].
      - by rewrite lookup_insert_eq.
      - rewrite lookup_insert_ne; [done|]. congruence. }
    rewrite (IH w1 xs); [| |done].
    + unfold seen. cbn [zip zip_with]. rewrite filter_cons, H1. simpl. destruct (decide (labels_of r x = ls)).
      * unfold as_u64. rewrite Zplus_mod_idemp_l. f_equal. simpl. lia.
      * done.
    + rewrite H1. destruct (decide _); [|done]. unfold as_u64, u64_max.
      pose proof (Z.mod_pos_bound (total w ls + 1) (2 ^ 64) ltac:(lia)). lia.
Qed.

(** The counters that a sequence of requests leaves. *)
Definition served_keys (reqs : list request) (resps : list response) : list (string * labels) :=
  zip_with (fun r x => ("http_requests_total", labels_of r x)) reqs resps.
Lemma served_series reqs resps w w' : quiet ->
  serve_all (http_metrics_middleware next) reqs w = Ret (resps, w') ->
  length resps = length reqs /\
  dom (counters (recorder_of w')) = dom (counters (recorder_of w)) ∪ list_to_set (served_keys reqs resps).
Proof using recorder_update.
  intros Hq. revert w resps. induction reqs as [|r reqs IH]; intros w resps.
  - intros [= <- <-]. split; [done|]. set_solver.
  - intros (x & w1 & xs & Hx & Hxs & ->)%serve_all_cons.
    apply metrics_step in Hx as [_ Hc]; [|done]. destruct (IH _ _ Hxs) as [Hl Hd].
    split; [simpl; by rewrite Hl|]. rewrite Hd, Hc, dom_insert_L. simpl. set_solver.
Qed.
Lemma served_keys_elem reqs resps k : k ∈ served_keys reqs resps ->
  exists r x, r ∈ reqs /\ k = ("http_requests_total", labels_of r x).
Proof.
  unfold served_keys. intros [i Hi]%list_elem_of_lookup_1.
  apply lookup_zip_with_Some in Hi as (r & x & -> & Hr & _). exists r, x. split; [|done].
  by eapply list_elem_of_lookup_2.
Qed.
Lemma served_keys_distinct reqs resps : length resps = length reqs ->
  Forall (fun r => matched_path r = None) reqs -> NoDup (map (@path claims) reqs) ->
  NoDup (served_keys reqs resps).
Proof.
  intros Hl Hm. revert resps Hl. induction Hm as [|r reqs Hr Hm IH]; intros [|x resps] Hl Hnd; try done; simpl.
  { apply NoDup_nil_2. }
  simpl in Hnd. apply NoDup_cons in Hnd as [Hnin Hnd]. apply NoDup_cons. split; [|apply IH; [simpl in *; lia|done]].
  intros (r' & x' & Hin & E)%served_keys_elem. apply Hnin.
  unfold labels_of, path_label in E. rewrite Forall_forall in Hm. rewrite Hr, (Hm r' Hin) in E.
  injection E as _ E _. simpl in E. rewrite E. by apply list_elem_of_In, in_map, list_elem_of_In.
Qed.

(** The series are not bounded by the routes: a client that asks for
    [n] different paths that no route matches leaves at least [n] counters
    behind, one for each path; only the requests that matched are counted
    under the routes' own paths. *)
Theorem unmatched_paths_grow_series (reqs : list request) (resps : list response) (w w' : W) :
  quiet -> serve_all (http_metrics_middleware next) reqs w = Ret (resps, w') ->
  (Forall (fun r => matched_path r = None) reqs -> NoDup (map (@path claims) reqs) ->
     (length reqs <= size (counters (recorder_of w')))%nat) /\
  (forall routes : list string, Forall (fun r => exists p, matched_path r = Some p /\ p ∈ routes) reqs ->
     forall k, is_Some (counters (recorder_of w') !! k) ->
       is_Some (counters (recorder_of w) !! k) \/
       exists m p s, k = ("http_requests_total", [("method", m); ("path", p); ("status", s)]) /\ p ∈ routes).
Proof using recorder_update.
  intros Hq Hrun. destruct (served_series _ _ _ _ Hq Hrun) as [Hl Hd]. split.
  - intros Hm Hnd. rewrite <- size_dom, Hd.
    assert (length reqs = size (list_to_set (served_keys reqs resps) : gset (string * labels))) as ->.
    { rewrite size_list_to_set by by apply served_keys_distinct.
      unfold served_keys. rewrite length_zip_with. lia. }
    apply subseteq_size. set_solver.
  - intros routes Hall k Hk. apply elem_of_dom in Hk. rewrite Hd in Hk.
    apply elem_of_union in Hk as [Hk|Hk]; [left; by apply elem_of_dom|right].
    apply elem_of_list_to_set, served_keys_elem in Hk as (r & x & Hr & ->).
    rewrite Forall_forall in Hall. destruct (Hall r Hr) as (p & Hp & Hin).
    exists (method r), p, (pretty (status x)). split; [|done].
    unfold labels_of, path_label. by rewrite Hp.
Qed.
End middleware.
End HttpMetrics.

(** * The theorems on examples *)
Module TelemetryExamples.
Import Otel HttpMetrics.
(** A propagator with one field: the empty context sets nothing. *)
Definition one_field : propagator (context := string) :=
  Propagator (fun cx => if String.eqb cx "" then [] else [("traceparent", cx)])
    (fun get _ => default "" (get "traceparent")).
Lemma one_field_faithful : faithful one_field.
Proof.
  intros cx get keys. simpl. destruct (String.eqb cx "") eqn:E; [done|]. intros _ H.
  rewrite (H "traceparent" cx); [done|]. reflexivity.
Qed.
Definition ready : globals (context := string) (exporter := unit) := Globals (Some one_field) None.
Lemma trace_context_roundtrip_witness :
  extract_trace_context_span true ready (inject_trace_context true ready "00-ab-cd-01") "deregister" =
    Span "deregister" (Some "00-ab-cd-01") /\
  extract_trace_context_span true ready (inject_trace_context true ready "") "deregister" = Span "deregister" None.
Proof.
  split.
  - exact (trace_context_roundtrip one_field ready ready true "00-ab-cd-01" "deregister" one_field_faithful eq_refl eq_refl).
  - exact (trace_context_roundtrip one_field ready ready true "" "deregister" one_field_faithful eq_refl eq_refl).
Defined.

(** An application that answers 404 to everything; nothing is matched. *)
Definition not_found (r : request unit) : M recorder response := fun w => Ret (Response 404 [] None, w).
Definition probe (p : string) : request unit := Request "GET" p [] None None.
Definition no_metrics : recorder := Recorder ∅ ∅.
Definition measured := http_metrics_middleware (W := recorder) (claims := unit) (fun f w => f w) (fun _ => 0) (fun _ => None) not_found.
Definition after (paths : list string) : recorder :=
  match serve_all measured (map probe paths) no_metrics with Ret (_, w) => w | Panic _ => no_metrics end.
Definition not_founds (n : nat) : list response := replicate n (Response 404 [] None).
Lemma not_found_quiet : quiet (fun w : recorder => w) not_found.
Proof. intros req w resp w' E. by injection E as <- <-. Qed.

Lemma metrics_count_requests_witness :
  total (fun w : recorder => w) (after ["/a"; "/b"; "/a"]) [("method", "GET"); ("path", "/a"); ("status", "404")] = 2.
Proof.
  refine (eq_trans (metrics_count_requests (fun w : recorder => w) (fun f w => f w) (fun _ _ => eq_refl) (fun _ => 0)
    (fun _ : request unit => None) not_found (map probe ["/a"; "/b"; "/a"]) (not_founds 3) no_metrics _ _
    not_found_quiet _ _) _).
  - vm_compute. split; discriminate.
  - vm_cast_no_check (eq_refl (Ret (not_founds 3, after ["/a"; "/b"; "/a"]) : outcome (list response * recorder))).
  - vm_compute. reflexivity.
Defined.

Lemma unmatched_paths_grow_series_witness :
  (3 <= size (counters (after ["/a"; "/b"; "/c"])))%nat.
Proof.
  refine (proj1 (unmatched_paths_grow_series (fun w : recorder => w) (fun f w => f w) (fun _ _ => eq_refl) (fun _ => 0)
    (fun _ : request unit => None) not_found (map probe ["/a"; "/b"; "/c"]) (not_founds 3) no_metrics _
    not_found_quiet _) _ _).
  - vm_cast_no_check (eq_refl (Ret (not_founds 3, after ["/a"; "/b"; "/c"]) : outcome (list response * recorder))).
  - repeat constructor.
  - apply (bool_decide_unpack _). vm_compute. exact I.
Defined.
End TelemetryExamples.
