(* ===== verification/Grpc.v ===== *)
(** The gRPC server ([rinfra-plugins/src/rpc/grpc.rs]): its start, its
    shutdown signal, and the orders in which the two can happen. Tonic's
    server and Tokio's [Notify] are libraries: the first is what it answers
    for an address, the second the permit and the waiters it documents. *)

From S2P Require Import Prelude Errors.

(** [struct GrpcServer]: the address, the [Notify]'s permit, and the calls of
    [start] that are serving and wait for it. *)
Record grpc_server : Type := GrpcServer {
  bind_addr : string;
  permit : bool;
  serving : nat;
}.
Definition new (bind_addr : string) : grpc_server := GrpcServer bind_addr false 0.

(** What a call has returned by the time it waits: its result, or nothing. *)
Inductive progress : Type := Returned (r : Result unit) | Serving.

Section server.
Context {addr router : Type}.
Variable parse : string -> result string addr.
(** The router with the health service, and the binding of the address, with
    the error the server ends with otherwise. *)
Variable health_router : router.
Variable bind : addr -> router -> result string unit.

(** [parse_addr] *)
Definition parse_addr (s : grpc_server) : Result addr :=
  map_err (fun e => new_error RpcServerFailed ("invalid gRPC address '" +:+ bind_addr s +:+ "': " +:+ e))
    (parse (bind_addr s)).

(** [start_with_routes] up to the point where it waits: [notified] takes a
    permit that is there and returns at once. *)
Definition start_with_routes (configure : router -> router) (s : grpc_server) : progress * grpc_server :=
  match parse_addr s with
  | Err e => (Returned (Err e), s)
  | Ok a =>
      match bind a (configure health_router) with
      | Err e => (Returned (fail RpcServerFailed ("gRPC server error: " +:+ e)), s)
      | Ok _ =>
          if permit s then (Returned (Ok tt), GrpcServer (bind_addr s) false (serving s))
          else (Serving, GrpcServer (bind_addr s) false (S (serving s)))
      end
  end.
Definition start : grpc_server -> progress * grpc_server := start_with_routes (fun r => r).

(** [shutdown]: [notify_one] wakes one waiter, or leaves a permit. *)
Definition shutdown (s : grpc_server) : Result unit * grpc_server :=
  (Ok tt, match serving s with
          | S n => GrpcServer (bind_addr s) (permit s) n
          | O => GrpcServer (bind_addr s) true 0
          end).

(** The calls on one server, in any order. *)
Inductive call : Type := Start (configure : router -> router) | Shutdown.
Definition step (s : grpc_server) (c : call) : grpc_server :=
  match c with Start f => snd (start_with_routes f s) | Shutdown => snd (shutdown s) end.
Definition run_calls (cs : list call) (s : grpc_server) : grpc_server := fold_left step cs s.

(** A permit is kept only while nobody waits for it. *)
Definition no_lost_wakeup (s : grpc_server) : Prop := permit s = true -> serving s = 0%nat.
Lemma step_no_lost_wakeup s c : no_lost_wakeup s -> no_lost_wakeup (step s c).
Proof.
  unfold no_lost_wakeup. intros H. destruct c as [f|]; simpl.
  - unfold start_with_routes. destruct (parse_addr s) as [a|]; [|done].
    destruct (bind a _); [|done]. destruct (permit s) eqn:E; [|done]. simpl. auto.
  - destruct (serving s) as [|n]; [done|]. simpl. intros Hp. specialize (H Hp). lia.
Qed.

Lemma run_no_lost_wakeup cs s : no_lost_wakeup s -> no_lost_wakeup (run_calls cs s).
Proof.
  unfold run_calls. revert s. induction cs as [|c cs IH]; intros s H; [done|].
  by apply IH, step_no_lost_wakeup.
Qed.
Lemma repeated_shutdown n s : serving s = 0%nat ->
  Nat.iter (S n) (fun s => snd (shutdown s)) s = GrpcServer (bind_addr s) true 0.
Proof.
  intros H. induction n as [|n IH].
  - simpl. by rewrite H.
  - change (snd (shutdown (Nat.iter (S n) (fun s => snd (shutdown s)) s)) = GrpcServer (bind_addr s) true 0).
    by rewrite IH.
Qed.

(** No shutdown is lost and none counts twice: after any calls, a stored
    signal means that nothing is serving; a shutdown then stops exactly one
    serving call if there is one, and otherwise - however often it is
    repeated - exactly the next start that binds, which returns without an
    error as soon as it is up, while the start after it serves. *)
Theorem grpc_shutdown_signal (a : string) (cs : list call) (n : nat) (configure : router -> router) :
  let s := run_calls cs (new a) in
  (permit s = true -> serving s = 0%nat) /\
  (forall k, serving s = S k -> serving (snd (shutdown s)) = k /\ permit (snd (shutdown s)) = false) /\
  (serving s = 0%nat -> (exists x, parse_addr s = Ok x /\ is_ok (bind x (configure health_router)) = true) ->
     let s1 := Nat.iter (S n) (fun s => snd (shutdown s)) s in
     fst (start_with_routes configure s1) = Returned (Ok tt) /\
     fst (start_with_routes configure (snd (start_with_routes configure s1))) = Serving).
Proof.
  intros s. assert (no_lost_wakeup s) as Hinv by by apply run_no_lost_wakeup.
  split; [exact Hinv|]. split.
  - intros k Hk. simpl. rewrite Hk. simpl. split; [done|].
    destruct (permit s) eqn:E; [|done]. specialize (Hinv E). lia.
  - intros H0 (x & Hx & Hb) s1. unfold s1. rewrite repeated_shutdown by done.
    assert (parse (bind_addr s) = Ok x) as Hp by (unfold parse_addr in Hx; destruct (parse (bind_addr s)); simpl in Hx; congruence).
    destruct (bind x (configure health_router)) as [u|] eqn:Eb; [|done].
    unfold start_with_routes, parse_addr. simpl. rewrite Hp. simpl. rewrite Eb. simpl. rewrite Hp. simpl.
    rewrite Eb. done.
Qed.

(** A start fails in two ways only, with [RpcServerFailed] both times: the
    address does not parse, which is found before anything is set up, or the
    server cannot run on it; neither uses up a shutdown that is waiting. *)
Theorem grpc_start_errors (s : grpc_server) (configure : router -> router) :
  match fst (start_with_routes configure s) with
  | Returned (Err e) => err_code e = RpcServerFailed /\ snd (start_with_routes configure s) = s /\
      (is_ok (parse (bind_addr s)) = false \/
       exists x, parse (bind_addr s) = Ok x /\ is_ok (bind x (configure health_router)) = false)
  | _ => exists x, parse (bind_addr s) = Ok x /\ bind x (configure health_router) = Ok tt
  end.
Proof.
  unfold start_with_routes, parse_addr. destruct (parse (bind_addr s)) as [x|e] eqn:Ep; simpl; [|by eauto].
  destruct (bind x _) as [[]|e] eqn:Eb; simpl.
  - destruct (permit s); simpl; eauto.
  - split; [done|]. split; [done|]. right. exists x. by rewrite Eb.
Qed.
End server.

(** A server that is shut down twice before it is started. *)
Definition any_addr (s : string) : result string string := if String.eqb s "" then Err "invalid socket address syntax" else Ok s.
Definition any_bind (a : string) (r : unit) : result string unit := Ok tt.
Lemma grpc_shutdown_signal_witness :
  let s := snd (shutdown (snd (shutdown (new "127.0.0.1:50051")))) in
  fst (start any_addr tt any_bind s) = Returned (Ok tt) /\
  fst (start any_addr tt any_bind (snd (start any_addr tt any_bind s))) = Serving.
Proof.
  refine (proj2 (proj2 (grpc_shutdown_signal any_addr tt any_bind "127.0.0.1:50051" [] 1 (fun r => r))) eq_refl _).
  by exists "127.0.0.1:50051".
Defined.
