(* ===== verification/Site.v ===== *)
(** What an HTTP listener serves, over axum's routers as in [Router]: the server
    that puts one together ([rinfra-plugins/src/net/http.rs]) and the admin
    site with its built-in, token, business and menu routes
    ([rinfra-admin/backend/src/lib.rs], [routes.rs], [extensions.rs]). *)

From S2P Require Import Prelude Errors Registries AuditTrail Router HttpStack Tasks Admin AdminRoutes.

(** * The admin site *)
Module AdminSite.
(** The handlers of [admin_routes], [token_management_routes] and
    [extensions_route], the business's own ones and the frontend's files. *)
Inductive site_handler (B : Type) : Type :=
| InfoHandler | HealthHandler | ConfigHandler | PluginsHandler | ClusterNodesHandler
| CacheGetHandler | CacheFlushHandler | MetricsHandler
| ListTokensHandler | CreateTokenHandler | DeleteTokenHandler | RotateRootHandler
| ExtensionsHandler (entries : list AdminApi.menu_entry)
| Business (b : B)
| ServeFrontend (dir : string).
Arguments InfoHandler {B}. Arguments HealthHandler {B}. Arguments ConfigHandler {B}.
Arguments PluginsHandler {B}. Arguments ClusterNodesHandler {B}. Arguments CacheGetHandler {B}.
Arguments CacheFlushHandler {B}. Arguments MetricsHandler {B}. Arguments ListTokensHandler {B}.
Arguments CreateTokenHandler {B}. Arguments DeleteTokenHandler {B}. Arguments RotateRootHandler {B}.
Arguments ExtensionsHandler {B} _. Arguments Business {B} _. Arguments ServeFrontend {B} _.

(** A chain of [route] calls on a new router. *)
Section chain.
Context {H L R : Type} `{RouterLib H L R}.
Fixpoint add_routes (rs : list (string * list (string * H))) (r : R) : outcome R :=
  match rs with
  | [] => Ret r
  | (p, ms) :: rs => r ← route p ms r; add_routes rs r
  end.
(** [for extra in extra_routes { api = api.merge(extra) }] *)
Fixpoint merge_all (rs : list R) (r : R) : outcome R :=
  match rs with
  | [] => Ret r
  | x :: rs => r ← merge r x; merge_all rs r
  end.
Definition endpoints_of (rs : list (string * list (string * H))) : list (endpoint H L) :=
  mjoin (map (fun x => map (fun m => Endpoint (fst m) (fst x) (snd m) []) (snd x)) rs).
Context `{!RouterLaws H L R}.
Lemma add_routes_endpoints rs r r' : add_routes rs r = Ret r' -> routes r' = routes r ++ endpoints_of rs.
Proof.
  revert r. induction rs as [|[p ms] rs IH]; intros r; simpl.
  - intros [= ->]. by rewrite app_nil_r.
  - destruct (route p ms r) as [r1|] eqn:E; simpl; [|done]. intros Hr.
    apply routes_route in E as (_ & E & _). by rewrite (IH _ Hr), E, <- app_assoc.
Qed.
Lemma merge_all_endpoints rs r r' : merge_all rs r = Ret r' ->
  routes r' = routes r ++ mjoin (map routes rs).
Proof.
  revert r. induction rs as [|x rs IH]; intros r; simpl.
  - intros [= ->]. by rewrite app_nil_r.
  - destruct (merge r x) as [r1|] eqn:E; simpl; [|done]. intros Hr.
    rewrite (IH _ Hr), (proj1 (routes_merge _ _ _ E)), <- app_assoc. done.
Qed.
End chain.

Section site.
Context {World B R : Type} `{!TokenStore.Host World}.
Abbreviation St := (list TokenStore.token_record * World)%type.
Abbreviation auth_layer := (AuthLayer.auth_layer (H := World)).
Abbreviation handler := (site_handler B).
Context `{RouterLib handler auth_layer R}.

(** [routes::admin_routes], [routes::token_management_routes] and
    [extensions_route] *)
Definition admin_table : list (string * list (string * handler)) := [
  ("/info", [("GET", InfoHandler)]);
  ("/health", [("GET", HealthHandler)]);
  ("/config", [("GET", ConfigHandler)]);
  ("/plugins", [("GET", PluginsHandler)]);
  ("/cluster/nodes", [("GET", ClusterNodesHandler)]);
  ("/cache/{key}", [("GET", CacheGetHandler)]);
  ("/cache/flush", [("POST", CacheFlushHandler)]);
  ("/metrics", [("GET", MetricsHandler)])].
Definition token_table : list (string * list (string * handler)) := [
  ("/tokens", [("GET", ListTokensHandler); ("POST", CreateTokenHandler)]);
  ("/tokens/{id}", [("DELETE", DeleteTokenHandler)]);
  ("/tokens/root/rotate", [("POST", RotateRootHandler)])].
Definition admin_routes : outcome R := add_routes admin_table new_router.
Definition token_management_routes : outcome R := add_routes token_table new_router.
Definition extensions_route (entries : list AdminApi.menu_entry) : outcome R :=
  route "/extensions" [("GET", ExtensionsHandler entries)] new_router.

(** [struct AdminBuilder]; the part with the tokens is [Admin.Bootstrap]'s. *)
Record admin_builder : Type := AdminBuilder {
  static_dir : string;
  extra_routes : list R;
  menu_entries : list AdminApi.menu_entry;
  auth : Bootstrap.admin_builder;
}.
Definition new (dir : string) : admin_builder := AdminBuilder dir [] [] Bootstrap.new.
Definition add_route (r : R) (b : admin_builder) : admin_builder :=
  AdminBuilder (static_dir b) (extra_routes b ++ [r]) (menu_entries b) (auth b).
Definition menu (e : AdminApi.menu_entry) (b : admin_builder) : admin_builder :=
  AdminBuilder (static_dir b) (extra_routes b) (menu_entries b ++ [e]) (auth b).
Definition with_auth_config (b : admin_builder) (cfg : Bootstrap.config) (env : string -> option string) :
    M World admin_builder :=
  a ← Bootstrap.with_auth_config (auth b) cfg env;
  mret (AdminBuilder (static_dir b) (extra_routes b) (menu_entries b) a).

(** [build]: the state's audit logger, and whether the directory exists. *)
Definition the_layer (b : admin_builder) (audit : option (audit_event -> task St (Result unit))) : auth_layer :=
  let l := AuthLayer.new_layer (Bootstrap.auth_exclude_paths (auth b)) in
  match audit with Some a => AuthLayer.with_audit l a | None => l end.
Definition build (audit : option (audit_event -> task St (Result unit))) (is_dir : string -> bool)
    (b : admin_builder) : outcome R :=
  api ← admin_routes;
  api ← match Bootstrap.token_store (auth b) with
        | Some _ => token_routes ← token_management_routes; merge api token_routes
        | None => Ret api
        end;
  api ← merge_all (extra_routes b) api;
  ext_router ← extensions_route (menu_entries b);
  nested ← nest "/api/admin" api new_router;
  nested_ext ← nest "/api/admin" ext_router new_router;
  router ← merge nested nested_ext;
  let router := match Bootstrap.token_store (auth b) with
                | Some _ => layer (the_layer b audit) router
                | None => router
                end in
  if is_dir (static_dir b) then nest_service "/admin" (ServeFrontend (static_dir b)) router else Ret router.
Definition admin_router audit is_dir (dir : string) : outcome R := build audit is_dir (new dir).

(** ** The table of the site *)
Definition guarded (b : admin_builder) : bool :=
  match Bootstrap.token_store (auth b) with Some _ => true | None => false end.
Definition built_in (b : admin_builder) : list (endpoint handler auth_layer) :=
  endpoints_of admin_table ++ (if guarded b then endpoints_of token_table else []).
Definition menu_endpoint (b : admin_builder) : endpoint handler auth_layer :=
  Endpoint "GET" "/extensions" (ExtensionsHandler (menu_entries b)) [].
Definition site_endpoints (b : admin_builder) : list (endpoint handler auth_layer) :=
  (built_in b ++ mjoin (map routes (extra_routes b))) ++ [menu_endpoint b].
Definition frontend (is_dir : string -> bool) (b : admin_builder) : list (endpoint handler auth_layer) :=
  if is_dir (static_dir b)
  then map (fun q => Endpoint "*" q (ServeFrontend (static_dir b)) []) (service_paths "/admin") else [].

Context `{!RouterLaws handler auth_layer R}.

Lemma admin_routes_endpoints r : admin_routes = Ret r -> routes r = endpoints_of admin_table.
Proof using RouterLaws0. intros Hr%add_routes_endpoints. by rewrite routes_new in Hr. Qed.
Lemma token_routes_endpoints r : token_management_routes = Ret r -> routes r = endpoints_of token_table.
Proof using RouterLaws0. intros Hr%add_routes_endpoints. by rewrite routes_new in Hr. Qed.
Lemma nest_new p sub r : nest p sub new_router = Ret r -> routes r = map (prefixed p) (routes sub).
Proof using RouterLaws0. intros Hr%routes_nest. by rewrite routes_new in Hr. Qed.

(** The routes before the layer is put around them. *)
Lemma build_inv audit is_dir b r : build audit is_dir b = Ret r ->
  exists router, routes router = map (prefixed "/api/admin") (site_endpoints b) /\
    NoDup (keys (routes router)) /\
    routes r = map (if guarded b then layered (the_layer b audit) else fun e => e) (routes router) ++ frontend is_dir b.
Proof using RouterLaws0.
  unfold build. intros (api & Hapi & (api1 & H1 & (api2 & H2 & (ext & Hext & (n1 & Hn1 & (n2 & Hn2 & (router & Hm & Hend)
    %outcome_bind_inv)%outcome_bind_inv)%outcome_bind_inv)%outcome_bind_inv)%outcome_bind_inv)%outcome_bind_inv)%outcome_bind_inv.
  exists router. apply routes_merge in Hm as [Hr Hnd]. split; [|split; [done|]].
  - rewrite Hr, (nest_new _ _ _ Hn1), (nest_new _ _ _ Hn2), <- map_app. f_equal. unfold site_endpoints. f_equal.
    + rewrite (merge_all_endpoints _ _ _ H2). f_equal. unfold built_in, guarded.
      destruct (Bootstrap.token_store (auth b)).
      * apply outcome_bind_inv in H1 as (t & Ht & H1). apply routes_merge in H1 as [-> _].
        by rewrite (admin_routes_endpoints _ Hapi), (token_routes_endpoints _ Ht).
      * injection H1 as <-. by rewrite (admin_routes_endpoints _ Hapi), app_nil_r.
    + apply routes_route in Hext as (_ & Hext & _). by rewrite Hext, routes_new.
  - unfold guarded, frontend. clear Hr Hnd H1.
    assert (forall x, (if is_dir (static_dir b) then nest_service "/admin" (ServeFrontend (static_dir b)) x else Ret x) = Ret r ->
      routes r = routes x ++ frontend is_dir b) as Hf.
    { intros x. unfold frontend. destruct (is_dir (static_dir b)); [apply routes_nest_service|].
      intros [= ->]. by rewrite app_nil_r. }
    rewrite (Hf _ Hend). f_equal. destruct (Bootstrap.token_store (auth b)); [apply routes_layer|by rewrite map_id].
Qed.

(** C19: no admin route escapes the authentication: in every site that is
    built, an endpoint is either the frontend's files - which are there
    exactly when their directory is, under [/admin] - or a built-in, business
    or menu route at its path under [/api/admin], the root of a business
    router being [/api/admin] itself; with a token store every one of the latter has the
    authentication layer, with the builder's excluded paths, as its outermost
    one, and without a store there is neither the layer nor a route that
    manages tokens. *)
Theorem every_admin_route_guarded (audit : option (audit_event -> task St (Result unit)))
    (is_dir : string -> bool) (b : admin_builder) (r : R) :
  build audit is_dir b = Ret r ->
  forall e, e ∈ routes r <->
    e ∈ frontend is_dir b \/
    exists e0, e0 ∈ site_endpoints b /\ ep_method e = ep_method e0 /\ ep_path e = nested_path "/api/admin" (ep_path e0) /\
      ep_handler e = ep_handler e0 /\
      ep_layers e = if guarded b then the_layer b audit :: ep_layers e0 else ep_layers e0.
Proof using RouterLaws0.
  intros (router & Hr & _ & ->)%build_inv e. rewrite elem_of_app, Hr, map_map.
  rewrite (list_elem_of_In (map _ _)), in_map_iff. setoid_rewrite <- list_elem_of_In.
  split.
  - intros [(e0 & <- & He)|He]; [right|by left]. exists e0. split; [done|]. by destruct (guarded b).
  - intros [He|(e0 & He & Hm & Hp & Hh & Hl)]; [by right|left]. exists e0. split; [|done].
    destruct e as [m p h l]. simpl in *. subst. by destruct (guarded b).
Qed.

(** Routes that clash are found at startup: if two of the routes of a site
    - built-in, of the business or of the menu - have the same method and
    path, [build] does not return a router; it panics. *)
Theorem clashing_routes_panic (audit : option (audit_event -> task St (Result unit)))
    (is_dir : string -> bool) (b : admin_builder) :
  ~ NoDup (keys (site_endpoints b)) -> exists why, build audit is_dir b = Panic why.
Proof using RouterLaws0.
  intros Hd. destruct (build audit is_dir b) as [r|why] eqn:E; [|by exists why]. exfalso. apply Hd.
  apply build_inv in E as (router & Hr & Hnd & _). unfold keys in *. rewrite Hr, map_map in Hnd.
  change (map (fun x => ep_key (prefixed "/api/admin" x)) (site_endpoints b)) with
    ((fun k => (fst k, nested_path "/api/admin" (snd k))) ∘ ep_key <$> site_endpoints b) in Hnd.
  rewrite list_fmap_compose in Hnd. by apply NoDup_fmap_1 in Hnd.
Qed.
End site.
End AdminSite.

(** * The HTTP server *)
Module HttpServer.
Section http_server.
Context {H L R mw : Type} `{RouterLib H L R} (health_handler : H).
(** The application's middlewares on a boxed value that is a router or not,
    and the network. *)
Variable order : mw -> Z.
Variable apply : mw -> R + unit -> outcome (Result (R + unit)).
Variable bind : string -> result string unit.
Variable serve : R -> result string unit.

(** [struct HttpServer]; the registry by the values it holds. *)
Record http_server : Type := Server {
  bind_addr : string;
  extra_router : option R;
  middleware_values : list mw;
}.
Definition new (addr : string) : http_server := Server addr None [].
Definition merge_router (r : R) (s : http_server) : outcome http_server :=
  match extra_router s with
  | Some existing => m ← merge existing r; Ret (Server (bind_addr s) (Some m) (middleware_values s))
  | None => Ret (Server (bind_addr s) (Some r) (middleware_values s))
  end.
Definition with_middleware_registry (values : list mw) (s : http_server) : http_server :=
  Server (bind_addr s) (extra_router s) values.

(** [router] *)
Definition build_router (s : http_server) : outcome (Result R) :=
  r ← route "/health" [("GET", health_handler)] new_router;
  r ← match extra_router s with Some extra => merge r extra | None => Ret r end;
  match middleware_values s with
  | [] => Ret (Ok r)
  | vs =>
      any ← Middleware.apply_all order apply vs (inl r);
      Ret match any with
          | Ok (inl r) => Ok r
          | Ok (inr _) => fail Internal "middleware pipeline did not return axum::Router"
          | Err e => Err e
          end
  end.

(** [start] *)
Definition start (s : http_server) : outcome (Result unit) :=
  r ← build_router s;
  match r with
  | Err e => Ret (Err e)
  | Ok r =>
      match bind (bind_addr s) with
      | Err e => Ret (fail ServerBindFailed ("failed to bind to " +:+ bind_addr s +:+ ": " +:+ e))
      | Ok _ => Ret (map_err (fun e => new_error ServerStartFailed ("HTTP server error: " +:+ e)) (serve r))
      end
  end.

Context `{!RouterLaws H L R}.

Lemma base_router s rr : build_router s = Ret rr -> exists r,
  routes r = Endpoint "GET" "/health" health_handler [] ::
    match extra_router s with Some extra => routes extra | None => [] end /\
  (r0 ← route "/health" [("GET", health_handler)] new_router;
   match extra_router s with Some extra => merge r0 extra | None => Ret r0 end) = Ret r /\
  exists any, (if bool_decide (middleware_values s = []) then Ret (Ok (inl r))
               else Middleware.apply_all order apply (middleware_values s) (inl r)) = Ret any /\
    rr = match any with
         | Ok (inl r) => Ok r
         | Ok (inr _) => fail Internal "middleware pipeline did not return axum::Router"
         | Err e => Err e
         end.
Proof using RouterLaws0.
  intros (r0 & Hr0 & (r & Hr & Hm)%outcome_bind_inv)%outcome_bind_inv. exists r.
  pose proof (routes_route _ _ _ _ Hr0) as (_ & E0 & _). rewrite routes_new in E0. split; [|split].
  - destruct (extra_router s) as [extra|].
    + apply routes_merge in Hr as [-> _]. by rewrite E0.
    + injection Hr as <-. by rewrite E0.
  - rewrite Hr0. exact Hr.
  - destruct (middleware_values s) as [|v vs].
    + injection Hm as <-. by exists (Ok (inl r)).
    + apply outcome_bind_inv in Hm as (any & Ha & [= <-]). by exists any.
Qed.
Lemma served s app res :
  match bind (bind_addr s) with
  | Err e => Ret (fail ServerBindFailed ("failed to bind to " +:+ bind_addr s +:+ ": " +:+ e))
  | Ok _ => Ret (map_err (fun e => new_error ServerStartFailed ("HTTP server error: " +:+ e)) (serve app))
  end = Ret res ->
  (exists e, bind (bind_addr s) = Err e /\ res = fail ServerBindFailed ("failed to bind to " +:+ bind_addr s +:+ ": " +:+ e)) \/
  (bind (bind_addr s) = Ok tt /\
     res = map_err (fun e => new_error ServerStartFailed ("HTTP server error: " +:+ e)) (serve app)).
Proof.
  destruct (bind (bind_addr s)) as [[]|e]; intros [= <-]; [by right|left]. by exists e.
Qed.

(** A server starts with the health route and everything the application
    merged, or not at all: an application that brings its own [GET /health]
    makes it panic; otherwise it stops with the pipeline's own error, with
    [ServerBindFailed] or with [ServerStartFailed], and what is served is the
    router the middlewares made of the health route and the application's
    routes. *)
Theorem http_server_start (s : http_server) :
  (forall extra, extra_router s = Some extra -> ("GET", "/health") ∈ keys (routes extra) ->
     exists why, start s = Panic why) /\
  (forall res, start s = Ret res -> exists r,
     routes r = Endpoint "GET" "/health" health_handler [] ::
       match extra_router s with Some extra => routes extra | None => [] end /\
     exists piped, (if bool_decide (middleware_values s = []) then Ret (Ok (inl r))
                    else Middleware.apply_all order apply (middleware_values s) (inl r)) = Ret piped /\
     match piped with
     | Err e => res = Err e
     | Ok (inr _) => res = fail Internal "middleware pipeline did not return axum::Router"
     | Ok (inl app) =>
         (exists e, bind (bind_addr s) = Err e /\ res = fail ServerBindFailed ("failed to bind to " +:+ bind_addr s +:+ ": " +:+ e)) \/
         (bind (bind_addr s) = Ok tt /\
            res = map_err (fun e => new_error ServerStartFailed ("HTTP server error: " +:+ e)) (serve app))
     end).
Proof using RouterLaws0.
  split.
  - intros extra He Hin. destruct (start s) as [res|why] eqn:E; [|by exists why]. exfalso.
    apply outcome_bind_inv in E as (rr & E & _). apply base_router in E as (r & _ & E & _). rewrite He in E.
    apply outcome_bind_inv in E as (r0 & Hr0 & Hr).
    apply routes_route in Hr0 as (_ & Hr0 & _). rewrite routes_new in Hr0.
    destruct (merge_overlapping r0 extra) as [why Hw]; [|by rewrite Hw in Hr].
    exists ("GET", "/health"). split; [|done]. rewrite Hr0. by left.
  - intros res E. apply outcome_bind_inv in E as (rr & Hb & Hs). apply base_router in Hb as (r & Hr & _ & any & Ha & ->).
    exists r. split; [done|]. exists any. split; [exact Ha|].
    destruct any as [[app|u]|e]; [by apply served|by injection Hs as <-..].
Qed.
End http_server.
End HttpServer.

Module SiteExamples.
Import ListRouter.
#[local] Existing Instance list_router.
#[local] Existing Instance list_router_laws.
#[local] Existing Instance AdminExamples.sim_host.
Abbreviation World := AdminExamples.sim.
Abbreviation handler := (AdminSite.site_handler string).
Abbreviation auth_layer := (AuthLayer.auth_layer (H := World)).
Abbreviation table := (router handler auth_layer).

Definition business (p : string) : table := Router [Endpoint "GET" p (AdminSite.Business p) []] [].
Definition game_site : AdminSite.admin_builder (R := table) :=
  let b := AdminSite.add_route (business "/") (AdminSite.add_route (business "/game/status") (AdminSite.new "dist")) in
  AdminSite.AdminBuilder (AdminSite.static_dir b) (AdminSite.extra_routes b) (AdminSite.menu_entries b)
    (Bootstrap.with_auth (AdminSite.auth b) [] ["/api/admin/health"]).
Definition clashing_site : AdminSite.admin_builder (R := table) :=
  AdminSite.add_route (business "/plugins") (AdminSite.new "dist").
Definition site_of (b : AdminSite.admin_builder (R := table)) : outcome table :=
  AdminSite.build (World := World) None (fun _ => true) b.
Definition game_routes : table := match site_of game_site with Ret r => r | Panic _ => new_router end.

Lemma every_admin_route_guarded_witness :
  Endpoint "GET" "/api/admin/game/status" (AdminSite.Business "/game/status")
    [AdminSite.the_layer game_site None] ∈ routes game_routes /\
  Endpoint "GET" "/api/admin" (AdminSite.Business "/") [AdminSite.the_layer game_site None] ∈ routes game_routes.
Proof.
  split;
  refine (proj2 (AdminSite.every_admin_route_guarded (World := World) None (fun _ => true) game_site game_routes _ _) _).
  - vm_compute. reflexivity.
  - right. exists (Endpoint "GET" "/game/status" (AdminSite.Business "/game/status") []).
    split; [|repeat split].
    unfold AdminSite.site_endpoints. apply elem_of_app. left. apply elem_of_app. right. left.
  - vm_compute. reflexivity.
  - right. exists (Endpoint "GET" "/" (AdminSite.Business "/") []).
    split; [|repeat split].
    unfold AdminSite.site_endpoints. apply elem_of_app. left. apply elem_of_app. right. right. left.
Defined.

Lemma clashing_routes_panic_witness : exists why, site_of clashing_site = Panic why.
Proof.
  apply (AdminSite.clashing_routes_panic (World := World) None (fun _ => true) clashing_site).
  intros H. apply (bool_decide_pack _) in H. vm_compute in H. exact H.
Defined.

(** A server whose only middleware adds nothing. *)
Definition one_route (path handler : string) : router string unit := Router [Endpoint "GET" path handler []] [].
Definition app : router string unit := one_route "/" "index".
Definition server (addr : string) (extra : router string unit) :=
  HttpServer.Server (R := router string unit) (mw := Z) addr (Some extra) [50].
Definition passes (_ : Z) (r : router string unit + unit) : outcome (Result (router string unit + unit)) := Ret (Ok r).
Definition bind (addr : string) : result string unit := if String.eqb addr "busy" then Err "in use" else Ok tt.
Lemma http_server_start_witness :
  (exists why, HttpServer.start "health" (fun z => z) passes bind (fun _ => Ok tt)
     (server "free" (one_route "/health" "mine")) = Panic why) /\
  HttpServer.start "health" (fun z => z) passes bind (fun _ => Ok tt) (server "busy" app) =
    Ret (fail ServerBindFailed "failed to bind to busy: in use") /\
  exists r : router string unit, routes r = Endpoint "GET" "/health" "health" [] :: routes app.
Proof.
  split; [|split; [vm_compute; reflexivity|]].
  - apply (proj1 (HttpServer.http_server_start "health" (fun z => z) passes bind (fun _ => Ok tt) (server "free" _))
      (one_route "/health" "mine") eq_refl). left.
  - pose proof (HttpServer.http_server_start "health" (fun z => z) passes bind (fun _ => Ok tt) (server "free" app)) as [_ Hs].
    destruct (Hs (Ok tt) eq_refl) as (r & Hr & _). exists r. exact Hr.
Defined.
End SiteExamples.
