(* ===== verification/ClusterWire.v ===== *)
(** What the cluster's messages look like on the wire: their JSON
    ([rinfra-core/src/cluster/mod.rs]) and the codec that frames them
    ([rinfra-plugins/src/cluster/codec.rs]), over the framing and the JSON
    text of the libraries. *)

From S2P Require Import Prelude Errors Tcp Serde Cluster Trpc.

(** * The JSON of a message *)

(** A [HashMap<String, String>]: the entries in the map's own order; a later
    entry of a key replaces an earlier one. *)
Definition collect_map (es : list (string * string)) : gmap string string :=
  fold_left (fun m kv => <[fst kv := snd kv]> m) es ∅.
Definition map_c : codec (gmap string string) :=
  Codec (fun m => JObject (map (fun kv => (fst kv, JString (snd kv))) (map_to_list m)))
    (fun j => match j with
              | JObject es =>
                  kvs ← collect (fun kv => v ← dec string_c (snd kv); Ok (fst kv, v)) es;
                  Ok (collect_map kvs)
              | _ => invalid_type "a map"
              end)
    (fun _ => True).

Definition role_name (r : node_role) : string := match r with Main => "Main" | Worker => "Worker" end.
Definition status_name (s : node_status) : string :=
  match s with Online => "Online" | Offline => "Offline" | Draining => "Draining" end.
Definition role_c : codec node_role := enum_c role_name [Main; Worker].
Definition status_c : codec node_status := enum_c status_name [Online; Offline; Draining].

(** [struct Endpoint] and [struct NodeInfo] *)
Definition endpoint_c : codec endpoint :=
  Codec (fun e => JObject [("protocol", JString (protocol e)); ("address", JString (address e))])
    (fun j =>
       src ← struct_source 2 j;
       p ← field_req src 0 "protocol" string_c;
       a ← field_req src 1 "address" string_c;
       mret (Endpoint p a))
    (fun _ => True).
Definition endpoints_c : codec (list endpoint) := vec_c endpoint_c.
Definition node_info_c : codec node_info :=
  Codec (fun n => JObject [("id", JString (node_id n)); ("role", enc role_c (role n));
                           ("endpoints", enc endpoints_c (endpoints n)); ("metadata", enc map_c (metadata n));
                           ("status", enc status_c (status n))])
    (fun j =>
       src ← struct_source 5 j;
       i ← field_req src 0 "id" string_c;
       r ← field_req src 1 "role" role_c;
       e ← field_req src 2 "endpoints" endpoints_c;
       m ← field_req src 3 "metadata" map_c;
       s ← field_req src 4 "status" status_c;
       mret (NodeInfo i r e m s))
    (fun _ => True).

(** [enum ClusterMessage], externally tagged: a variant without fields is its
    name, one with fields an object from its name to them; an absent trace
    context is left out. *)
Definition trace_field (t : option metadata_map) : list (string * json) :=
  match t with Some m => [("trace_context", enc map_c m)] | None => [] end.
Definition message_json (m : cluster_message) : json :=
  match m with
  | Register i r eps meta token t =>
      JObject [("Register", JObject ([("node_id", JString i); ("role", enc role_c r);
        ("endpoints", enc endpoints_c eps); ("metadata", enc map_c meta); ("token", JString token)] ++ trace_field t))]
  | RegisterAck success error =>
      JObject [("RegisterAck", JObject [("success", JBool success); ("error", enc (option_c string_c) error)])]
  | Deregister i t => JObject [("Deregister", JObject ([("node_id", JString i)] ++ trace_field t))]
  | ListNodes => JString "ListNodes"
  | NodeList nodes => JObject [("NodeList", JObject [("nodes", enc (vec_c node_info_c) nodes)])]
  | Ping => JString "Ping"
  | Pong => JString "Pong"
  end.

(** The variants without fields, and the reading of those with fields. *)
Definition unit_variant (name : string) : option cluster_message :=
  if String.eqb name "ListNodes" then Some ListNodes
  else if String.eqb name "Ping" then Some Ping
  else if String.eqb name "Pong" then Some Pong
  else None.
Definition read_register (j : json) : result string cluster_message :=
  src ← struct_source 6 j;
  i ← field_req src 0 "node_id" string_c;
  r ← field_req src 1 "role" role_c;
  e ← field_req src 2 "endpoints" endpoints_c;
  m ← field_req src 3 "metadata" map_c;
  token ← field_req src 4 "token" string_c;
  t ← field_or src 5 "trace_context" (option_c map_c) None;
  mret (Register i r e m token t).
Definition read_register_ack (j : json) : result string cluster_message :=
  src ← struct_source 2 j;
  s ← field_req src 0 "success" bool_c;
  e ← field_or src 1 "error" (option_c string_c) None;
  mret (RegisterAck s e).
Definition read_deregister (j : json) : result string cluster_message :=
  src ← struct_source 2 j;
  i ← field_req src 0 "node_id" string_c;
  t ← field_or src 1 "trace_context" (option_c map_c) None;
  mret (Deregister i t).
Definition read_node_list (j : json) : result string cluster_message :=
  src ← struct_source 1 j;
  n ← field_req src 0 "nodes" (vec_c node_info_c);
  mret (NodeList n).
Definition message_of_json (j : json) : result string cluster_message :=
  match j with
  | JString s =>
      match unit_variant s with Some m => Ok m | None => Err ("unknown or struct variant `" +:+ s +:+ "`") end
  | JObject [(tag, content)] =>
      if String.eqb tag "Register" then read_register content
      else if String.eqb tag "RegisterAck" then read_register_ack content
      else if String.eqb tag "Deregister" then read_deregister content
      else if String.eqb tag "NodeList" then read_node_list content
      else
        match unit_variant tag, content with
        | Some m, JNull => Ok m
        | _, _ => Err ("unknown variant `" +:+ tag +:+ "`")
        end
  | _ => invalid_type "enum ClusterMessage"
  end.

(** ** What is written is read *)
Lemma collect_map_lookup es m k :
  fold_left (fun m kv => <[fst kv := snd kv]> m) es m !! k =
    match (list_to_map (reverse es) : gmap string string) !! k with
    | Some v => Some v | None => (m : gmap string string) !! k end.
Proof.
  revert m. induction es as [|[k' v] es IH]; intros m; [done|]. simpl. rewrite IH, reverse_cons, list_to_map_app.
  simpl. rewrite insert_empty, lookup_union.
  destruct ((list_to_map (reverse es) : gmap string string) !! k) as [w|]; simpl.
  - by destruct ({[k' := v]} !! k).
  - destruct (decide (k' = k)) as [->|Hne]; [by rewrite lookup_insert_eq, lookup_singleton_eq|].
    by rewrite lookup_insert_ne, lookup_singleton_ne.
Qed.
Lemma collect_map_to_list m : collect_map (map_to_list m) = m.
Proof.
  apply map_eq. intros k. unfold collect_map. rewrite collect_map_lookup, lookup_empty.
  assert ((list_to_map (reverse (map_to_list m)) : gmap string string) = m) as ->.
  { rewrite <- (list_to_map_to_list m) at 2. apply list_to_map_proper; [|apply reverse_Permutation].
    rewrite reverse_Permutation. apply NoDup_fst_map_to_list. }
  by destruct (m !! k).
Qed.
Lemma map_c_law : lawful map_c.
Proof.
  split; [|done]. intros m _. simpl.
  assert (forall l : list (string * string), collect (fun kv => v ← dec string_c (snd kv); Ok (fst kv, v))
    (map (fun kv => (fst kv, JString (snd kv))) l) = Ok l) as E.
  { induction l as [|[k v] l IH]; [done|]. simpl in *. by rewrite IH. }
  rewrite E. simpl. by rewrite collect_map_to_list.
Qed.
#[export] Hint Resolve map_c_law : serde.
Lemma role_ok r : ok role_c r.
Proof. by destruct r. Qed.
Lemma status_ok s : ok status_c s.
Proof. by destruct s. Qed.
Lemma endpoint_c_law : lawful endpoint_c.
Proof. split; [|done]. by intros [p a] _. Qed.
#[export] Hint Resolve endpoint_c_law : serde.
Lemma endpoints_ok es : ok endpoints_c es.
Proof. induction es; by constructor. Qed.
Lemma role_c_law : lawful role_c.
Proof. apply enum_c_law. Qed.
Lemma status_c_law : lawful status_c.
Proof. apply enum_c_law. Qed.
Lemma endpoints_c_law : lawful endpoints_c.
Proof. apply vec_c_law, endpoint_c_law. Qed.
#[export] Hint Resolve role_c_law status_c_law endpoints_c_law : serde.
Lemma node_info_c_law : lawful node_info_c.
Proof.
  split; [|done]. intros n _. cbn [enc dec node_info_c].
  pose proof (role_ok (role n)). pose proof (status_ok (status n)). pose proof (endpoints_ok (endpoints n)).
  assert (ok map_c (metadata n)) by done. assert (ok string_c (node_id n)) by done.
  cbn [struct_source]. cbn [mbind result_bind].
  destruct n as [i r e m s]. simpl in * |-. fields_law.
Qed.
#[export] Hint Resolve node_info_c_law : serde.
Lemma nodes_ok nodes : ok (vec_c node_info_c) nodes.
Proof. induction nodes; by constructor. Qed.

Lemma trace_context_enc t pre i : assoc "trace_context" pre = None ->
  field_or (Named (pre ++ trace_field t)) i "trace_context" (option_c map_c) None = Ok t.
Proof.
  intros Hpre. unfold field_or. simpl.
  assert (assoc "trace_context" (pre ++ trace_field t) = assoc "trace_context" (trace_field t)) as ->.
  { induction pre as [|[k v] pre IH]; [done|]. cbn [assoc] in Hpre. cbn [app assoc].
    destruct (String.eqb "trace_context" k); [done|]. by apply IH. }
  destruct t as [m|]; [|done]. cbn [trace_field assoc]. rewrite String.eqb_refl.
  exact (option_c_law map_c map_c_law (Some m) I).
Qed.

(** Every message is read back from its JSON, variant by variant. *)
Ltac variant_law :=
  cbn [struct_source mbind result_bind];
  repeat (erewrite field_req_enc; [|reflexivity|eassumption|field_law]; cbn [mbind result_bind]).
Lemma register_law i r e meta token t :
  message_of_json (message_json (Register i r e meta token t)) = Ok (Register i r e meta token t).
Proof.
  change (message_of_json (message_json (Register i r e meta token t))) with
    (read_register (JObject ([("node_id", JString i); ("role", enc role_c r); ("endpoints", enc endpoints_c e);
       ("metadata", enc map_c meta); ("token", JString token)] ++ trace_field t))).
  pose proof (role_ok r). pose proof (endpoints_ok e). assert (ok map_c meta) by done.
  assert (ok string_c i) by done. assert (ok string_c token) by done.
  unfold read_register. variant_law. by rewrite trace_context_enc.
Qed.
Lemma register_ack_law success error :
  message_of_json (message_json (RegisterAck success error)) = Ok (RegisterAck success error).
Proof.
  change (message_of_json (message_json (RegisterAck success error))) with
    (read_register_ack (JObject [("success", JBool success); ("error", enc (option_c string_c) error)])).
  assert (ok bool_c success) by done. assert (ok (option_c string_c) error) by by destruct error.
  unfold read_register_ack. variant_law. fields_law.
Qed.
Lemma deregister_law i t : message_of_json (message_json (Deregister i t)) = Ok (Deregister i t).
Proof.
  change (message_of_json (message_json (Deregister i t))) with
    (read_deregister (JObject ([("node_id", JString i)] ++ trace_field t))).
  assert (ok string_c i) by done. unfold read_deregister. variant_law. by rewrite trace_context_enc.
Qed.
Lemma node_list_law nodes : message_of_json (message_json (NodeList nodes)) = Ok (NodeList nodes).
Proof.
  change (message_of_json (message_json (NodeList nodes))) with
    (read_node_list (JObject [("nodes", enc (vec_c node_info_c) nodes)])).
  pose proof (nodes_ok nodes). unfold read_node_list. variant_law. done.
Qed.
Lemma message_json_law m : message_of_json (message_json m) = Ok m.
Proof.
  destruct m; [apply register_law|apply register_ack_law|apply deregister_law|done|apply node_list_law|done|done].
Qed.

(** * The framed connection *)

(** [LengthDelimitedCodec] with a maximal frame length, by what its
    documentation says: a frame is put behind its prefix unless it is too
    long; a buffer that starts with a whole frame gives the frame and the
    rest, and a part of one gives nothing yet. *)
Class FrameCodec : Type := {
  put : bytes -> result string bytes;
  take_frame : bytes -> result string (option (bytes * bytes));
}.
Definition max_frame_length : Z := 64 * 1024.
Class FrameLaws `{FrameCodec} : Prop := {
  put_fits f : Z.of_nat (length f) <= max_frame_length -> is_ok (put f) = true;
  put_too_long f : max_frame_length < Z.of_nat (length f) -> is_ok (put f) = false;
  take_nothing : take_frame [] = Ok None;
  take_put f w rest : put f = Ok w -> take_frame (w ++ rest) = Ok (Some (f, rest));
  take_part f w p q : put f = Ok w -> w = p ++ q -> q <> [] -> take_frame p = Ok None;
}.

Section codec.
Context `{FrameCodec}.
(** [serde_json]'s text of a value, and its reading. *)
Variable to_vec : json -> result string bytes.
Variable from_slice : bytes -> result string json.

(** [Encoder::encode]: what is appended to the destination. *)
Definition encode (m : cluster_message) : result string bytes := text ← to_vec (message_json m); put text.
(** [Decoder::decode]: the message and the rest of the source. *)
Definition decode (src : bytes) : result string (option (cluster_message * bytes)) :=
  r ← take_frame src;
  match r with
  | Some (frame, rest) =>
      j ← from_slice frame;
      m ← message_of_json j;
      Ok (Some (m, rest))
  | None => Ok None
  end.

(** [Framed]: what was read so far, and the messages of a buffer, as long as
    [decode] finds one; each is longer than nothing, so the buffer's length
    bounds their number. *)
Fixpoint drain (fuel : nat) (buf : bytes) : list cluster_message * result string bytes :=
  match fuel with
  | O => ([], Ok buf)
  | S fuel =>
      match decode buf with
      | Err e => ([], Err e)
      | Ok None => ([], Ok buf)
      | Ok (Some (m, rest)) => let '(ms, r) := drain fuel rest in (m :: ms, r)
      end
  end.
Fixpoint read_chunks (buf : bytes) (chunks : list bytes) : list cluster_message * result string bytes :=
  match chunks with
  | [] => ([], Ok buf)
  | c :: chunks =>
      match drain (length (buf ++ c)) (buf ++ c) with
      | (ms, Ok rest) => let '(ms', r) := read_chunks rest chunks in (ms ++ ms', r)
      | (ms, Err e) => (ms, Err e)
      end
  end.
(** [Framed::send] of messages one after the other. *)
Fixpoint send_all (ms : list cluster_message) : result string bytes :=
  match ms with
  | [] => Ok []
  | m :: ms => w ← encode m; ws ← send_all ms; Ok (w ++ ws)
  end.

Context {laws : FrameLaws}.
Hypothesis text_law : forall j text, to_vec j = Ok text -> from_slice text = Ok j.

Lemma decode_encoded m w rest : encode m = Ok w -> decode (w ++ rest) = Ok (Some (m, rest)).
Proof using laws text_law.
  unfold encode. destruct (to_vec (message_json m)) as [text|] eqn:Et; simpl; [|done]. intros Hw.
  unfold decode. rewrite (take_put _ _ _ Hw). simpl. rewrite (text_law _ _ Et). simpl.
  by rewrite message_json_law.
Qed.
Lemma decode_part m w p q : encode m = Ok w -> w = p ++ q -> q <> [] -> decode p = Ok None.
Proof using laws.
  unfold encode. destruct (to_vec (message_json m)) as [text|]; simpl; [|done]. intros Hw E Hq.
  unfold decode. by rewrite (take_part _ _ _ _ Hw E Hq).
Qed.
Lemma encode_nonempty m w : encode m = Ok w -> w <> [].
Proof using laws.
  unfold encode. destruct (to_vec (message_json m)) as [text|]; simpl; [|done]. intros Hw ->.
  pose proof (take_put _ _ [] Hw) as Ht. simpl in Ht. by rewrite take_nothing in Ht.
Qed.
Lemma send_all_cons m ms s : send_all (m :: ms) = Ok s ->
  exists w ws, encode m = Ok w /\ send_all ms = Ok ws /\ s = w ++ ws.
Proof.
  simpl. destruct (encode m) as [w|]; simpl; [|done]. destruct (send_all ms) as [ws|]; simpl; [|done].
  intros [= <-]. by exists w, ws.
Qed.

(** A buffer that holds no whole message of the stream it starts. *)
Definition stuck (p : bytes) (ms : list cluster_message) : Prop :=
  match ms with [] => p = [] | m :: _ => exists w q, encode m = Ok w /\ w = p ++ q /\ q <> [] end.

Lemma drain_prefix fuel b tl ms s : (length b <= fuel)%nat -> send_all ms = Ok s -> b ++ tl = s ->
  exists ms1 ms2 p s2, ms = ms1 ++ ms2 /\ drain fuel b = (ms1, Ok p) /\
    send_all ms2 = Ok s2 /\ p ++ tl = s2 /\ stuck p ms2.
Proof using laws text_law.
  revert b ms s. induction fuel as [|fuel IH]; intros b ms s Hlen Hs Hb.
  { destruct b; [|simpl in Hlen; lia]. exists [], ms, [], s. simpl. repeat split; try done.
    destruct ms as [|m ms]; [done|]. apply send_all_cons in Hs as (w & ws & Hw & _ & _).
    exists w, w. split; [done|]. split; [done|]. by eapply encode_nonempty. }
  destruct ms as [|m ms].
  { injection Hs as <-. apply app_nil in Hb as [-> ->]. exists [], [], [], []. simpl.
    unfold decode. by rewrite take_nothing. }
  pose proof Hs as (w & ws & Hw & Hws & Es)%send_all_cons.
  destruct (decide (length w <= length b)%nat) as [Hle|Hgt].
  - assert (b = w ++ drop (length w) b) as Eb.
    { rewrite <- (take_drop (length w) b) at 1. f_equal.
      rewrite <- (take_app_le b tl) by done. rewrite Hb, Es. apply take_app_length. }
    assert (drop (length w) b ++ tl = ws) as Htl.
    { rewrite Eb, <- app_assoc, Es in Hb. by apply app_inv_head in Hb. }
    assert (0 < length w)%nat as Hpos.
    { apply encode_nonempty in Hw. destruct w; [done|simpl; lia]. }
    destruct (IH (drop (length w) b) ms ws) as (ms1 & ms2 & p & s2 & -> & Hd & H2 & Hp & Hst);
      [rewrite length_drop; lia|done|done|].
    exists (m :: ms1), ms2, p, s2. split; [done|]. split; [|done].
    simpl. assert (decode b = Ok (Some (m, drop (length w) b))) as ->
      by (rewrite Eb at 1; by apply decode_encoded). by rewrite Hd.
  - exists [], (m :: ms), b, s. split; [done|].
    assert (w = b ++ drop (length b) w) as Ew.
    { rewrite <- (take_drop (length b) w) at 1. f_equal.
      rewrite <- (take_app_le w ws) by lia. rewrite <- Es, <- Hb. apply take_app_length. }
    assert (drop (length b) w <> []) as Hne.
    { intros E. apply (f_equal length) in E. rewrite length_drop in E. simpl in E. lia. }
    split; [simpl; by rewrite (decode_part _ _ _ _ Hw Ew Hne)|]. split; [done|]. split; [done|].
    by exists w, (drop (length b) w).
Qed.

(** C16: the cluster connection delivers what was sent: whatever messages one
    side sends - every variant, with or without its optional fields - and
    however the network cuts the bytes into pieces, the other side reads
    exactly these messages in order and has nothing left over, given that the
    JSON library reads back what it writes. *)
Theorem cluster_messages_delivered (ms : list cluster_message) (s : bytes) (chunks : list bytes) :
  send_all ms = Ok s -> mjoin chunks = s -> read_chunks [] chunks = (ms, Ok []).
Proof using laws text_law.
  intros Hs Hc. assert (stuck [] ms) as Hst.
  { destruct ms as [|m ms]; [done|]. apply send_all_cons in Hs as (w & ws & Hw & _ & _).
    exists w, w. split; [done|]. split; [done|]. by eapply encode_nonempty. }
  assert ([] ++ mjoin chunks = s) as Hb by done. clear Hc.
  revert Hst Hb. generalize ([] : bytes) at 1 2 3 as buf. revert ms s Hs.
  induction chunks as [|c chunks IH]; intros ms s Hs buf Hst Hb.
  - simpl in *. rewrite app_nil_r in Hb. subst s. destruct ms as [|m ms]; [simpl in Hst; by subst|].
    destruct Hst as (w & q & Hw & -> & Hq). apply send_all_cons in Hs as (w' & ws & Hw' & _ & E).
    rewrite Hw in Hw'. injection Hw' as <-. exfalso. apply Hq. apply (f_equal length) in E.
    rewrite !length_app in E. apply length_zero_iff_nil. lia.
  - simpl in Hb. rewrite app_assoc in Hb.
    destruct (drain_prefix (length (buf ++ c)) (buf ++ c) (mjoin chunks) ms s) as
      (ms1 & ms2 & p & s2 & -> & Hd & H2 & Hp & Hst2); [done..|].
    cbn [read_chunks]. rewrite Hd, (IH ms2 s2 H2 p Hst2 Hp). done.
Qed.

(** ** The size of a message *)

(** The strings of a JSON value: keys and contents. *)
Fixpoint strings_size (j : json) : Z :=
  match j with
  | JString s => Z.of_nat (String.length s)
  | JArray l => fold_right (fun j n => strings_size j + n) 0 l
  | JObject es => fold_right (fun e n => Z.of_nat (String.length (fst e)) + strings_size (snd e) + n) 0 es
  | _ => 0
  end.
(** The text of a value holds its strings. *)
Hypothesis text_size : forall j text, to_vec j = Ok text -> strings_size j <= Z.of_nat (length text).

Lemma strings_size_nonneg j : 0 <= strings_size j.
Proof.
  revert j. fix IH 1. intros [| | |s|l|es]; simpl; try lia.
  - induction l as [|j l IHl]; simpl; [lia|]. pose proof (IH j). lia.
  - induction es as [|[k j] es IHl]; simpl; [lia|]. pose proof (IH j). lia.
Qed.
Lemma node_size n : 39 <= strings_size (enc node_info_c n).
Proof.
  cbn -[strings_size]. cbn [strings_size fold_right fst snd].
  pose proof (strings_size_nonneg (JArray (map (enc endpoint_c) (endpoints n)))) as He.
  pose proof (strings_size_nonneg (JObject (map (fun kv => (fst kv, JString (snd kv))) (map_to_list (metadata n))))) as Hm.
  assert (4 <= Z.of_nat (String.length (role_name (role n)))) by (destruct (role n); simpl; lia).
  assert (6 <= Z.of_nat (String.length (status_name (status n)))) by (destruct (status n); simpl; lia).
  cbn [strings_size] in *. cbn [String.length] in *. cbn [enc endpoint_c] in He. lia.
Qed.
Lemma node_list_size nodes : 39 * Z.of_nat (length nodes) <= strings_size (message_json (NodeList nodes)).
Proof.
  change (strings_size (message_json (NodeList nodes))) with
    (8 + (5 + fold_right (fun j n => strings_size j + n) 0 (map (enc node_info_c) nodes) + 0) + 0).
  assert (39 * Z.of_nat (length nodes) <=
    fold_right (fun j n => strings_size j + n) 0 (map (enc node_info_c) nodes)) as Hl.
  { induction nodes as [|n nodes IH]; [done|]. pose proof (node_size n).
    cbn [length map fold_right]. lia. }
  lia.
Qed.

(** A cluster outgrows its protocol: once the main node's registry holds
    1681 nodes - and offline ones stay in it - the list it answers a request
    for nodes with is longer than the longest frame and cannot be encoded, so
    no worker gets a list any more; the failure is discarded and the
    connection goes on. *)
Theorem node_list_outgrows_frame (srv : Server.cluster_server) (id : string) (missed : Z) (m : ConnectedRegistry.registry) :
  1681 <= Z.of_nat (size m) ->
  exists reply, Server.handle_connection srv (Server.Message ListNodes) (Server.Serving id missed) m =
      Ret (Server.Serving id missed, m, [reply]) /\ is_ok (encode reply) = false.
Proof using laws text_size.
  intros Hm. eexists. split; [reflexivity|]. unfold encode.
  set (nodes := default [] _). assert (length nodes = size m) as Hn.
  { unfold nodes. simpl. by rewrite length_fmap, length_map_to_list. }
  destruct (to_vec (message_json (NodeList nodes))) as [text|] eqn:Et; [|done].
  pose proof (text_size _ _ Et). pose proof (node_list_size nodes). simpl. apply put_too_long.
  unfold max_frame_length. rewrite Hn in *. lia.
Qed.
End codec.

(** * The theorems on an example *)
Module WireExamples.
Import Protocol.
(** The prefix of four bytes, and a text for the variants without fields. *)
#[export] Instance prefix_codec : FrameCodec := {
  put f := if Z.of_nat (length f) <=? max_frame_length then Ok (to_be_bytes (Z.of_nat (length f)) ++ f)
           else Err "frame size too big";
  take_frame buf :=
    if (length buf <? 4)%nat then Ok None
    else
      let n := from_be_bytes (take 4 buf) in
      if max_frame_length <? n then Err "frame size too big"
      else if Z.of_nat (length (drop 4 buf)) <? n then Ok None
      else Ok (Some (take (Z.to_nat n) (drop 4 buf), drop (Z.to_nat n) (drop 4 buf)));
}.
Lemma prefix_length (f : bytes) : Z.of_nat (length f) <= max_frame_length ->
  from_be_bytes (to_be_bytes (Z.of_nat (length f))) = Z.of_nat (length f).
Proof. intros H. apply be_roundtrip. unfold in_u32, u32_max, max_frame_length in *. lia. Qed.
Lemma prefix_four n : length (to_be_bytes n) = 4%nat.
Proof. done. Qed.
#[export] Instance prefix_laws : FrameLaws.
Proof.
  split; cbn [put take_frame prefix_codec].
  - intros f H. by rewrite (proj2 (Z.leb_le _ _) H).
  - intros f H. by rewrite (proj2 (Z.leb_gt _ _) H).
  - done.
  - intros f w rest. destruct (Z.leb_spec (Z.of_nat (length f)) max_frame_length) as [H|]; [|done].
    pose proof (prefix_length f H) as Hp. pose proof (prefix_four (Z.of_nat (length f))) as H4.
    revert Hp H4. generalize (to_be_bytes (Z.of_nat (length f))) as pre. intros pre Hp H4 [= <-].
    rewrite <- app_assoc, length_app. destruct (Nat.ltb_spec (length pre + length (f ++ rest)) 4) as [|_]; [lia|].
    rewrite take_app_length', drop_app_length' by done. rewrite Hp. cbv zeta.
    destruct (Z.ltb_spec max_frame_length (Z.of_nat (length f))); [lia|].
    rewrite length_app. destruct (Z.ltb_spec (Z.of_nat (length f + length rest)) (Z.of_nat (length f))); [lia|].
    by rewrite Nat2Z.id, take_app_length, drop_app_length.
  - intros f w p q. destruct (Z.leb_spec (Z.of_nat (length f)) max_frame_length) as [H|]; [|done].
    pose proof (prefix_length f H) as Hp. pose proof (prefix_four (Z.of_nat (length f))) as H4.
    revert Hp H4. generalize (to_be_bytes (Z.of_nat (length f))) as pre. intros pre Hp H4 [= <-] E Hq.
    assert (0 < length q)%nat as Hql by (destruct q; [done|simpl; lia]).
    destruct (Nat.ltb_spec (length p) 4) as [|Hlen]; [done|].
    assert (length pre + length f = length p + length q)%nat as Hl.
    { rewrite <- !length_app. by rewrite E. }
    assert (take 4 p = pre) as ->.
    { rewrite <- (take_app_le p q) by done. rewrite <- E. by apply take_app_length'. }
    rewrite Hp, length_drop. cbv zeta. destruct (Z.ltb_spec max_frame_length (Z.of_nat (length f))); [lia|].
    destruct (Z.ltb_spec (Z.of_nat (length p - 4)) (Z.of_nat (length f))); [done|lia].
Qed.
Definition name_text (j : json) : result string bytes :=
  match j with JString s => Ok (String.list_byte_of_string s) | _ => Err "not written" end.
Definition read_name (d : bytes) : result string json := Ok (JString (String.string_of_list_byte d)).
Lemma name_text_law j text : name_text j = Ok text -> read_name text = Ok j.
Proof. destruct j; try done. intros [= <-]. unfold read_name. by rewrite String.string_of_list_byte_of_string. Qed.
Lemma name_text_size j text : name_text j = Ok text -> strings_size j <= Z.of_nat (length text).
Proof.
  destruct j as [| | |s| |]; try done. intros [= <-]. simpl.
  enough (length (String.list_byte_of_string s) = String.length s) by lia.
  unfold String.list_byte_of_string. rewrite length_map. clear. induction s; [done|]. simpl. by f_equal.
Qed.

Definition ping_pong : bytes :=
  match send_all name_text [Ping; ListNodes; Pong] with Ok s => s | Err _ => [] end.
Lemma cluster_messages_delivered_witness :
  read_chunks read_name [] [take 3 ping_pong; take 9 (drop 3 ping_pong); []; drop 12 ping_pong] =
    ([Ping; ListNodes; Pong], Ok []).
Proof.
  apply (cluster_messages_delivered name_text read_name name_text_law [Ping; ListNodes; Pong] ping_pong).
  - vm_compute. reflexivity.
  - vm_compute. reflexivity.
Defined.

(** As many nodes as the registry can hold in one list, and one more. *)
Fixpoint many (n : nat) (m : ConnectedRegistry.registry) : ConnectedRegistry.registry :=
  match n with
  | O => m
  | S n => many n (ConnectedRegistry.register (pretty n) Worker [] ∅ m)
  end.
Lemma node_list_outgrows_frame_witness :
  exists reply, Server.handle_connection (Server.server_new "" 10) (Server.Message ListNodes) (Server.Serving "w" 0) (many 1681 ∅) =
      Ret (Server.Serving "w" 0, many 1681 ∅, [reply]) /\ is_ok (encode name_text reply) = false.
Proof.
  refine (node_list_outgrows_frame name_text name_text_size (Server.server_new "" 10) "w" 0 (many 1681 ∅) _).
  apply Z.leb_le. vm_compute. reflexivity.
Defined.
End WireExamples.
