(* ===== verification/Assembly.v ===== *)
(** The application as a whole: [ApplicationBuilder] with every call a program
    can make on it, [build], [run] and the wait for the shutdown signal
    ([rinfra-plugins/src/runtime/mod.rs]), and the builder that the command
    line fills.

    The parts are other files': the tables and the listeners are [Runtime]'s,
    the configuration, the log set-up and the phases are [Lifecycle]'s, the
    built-in plugins are [Builtin]'s.  Here they are put together, and what
    the running application serves is read off the program's calls. *)

From S2P Require Import Prelude Errors Registries Ws Cluster I18n Tasks Serde Config ConfigLoad Plugins Builtin Router.
From S2P Require Import AppState Runtime Lifecycle Cli.
Import Health PluginContext PluginRegistry Components.

(** * [ApplicationBuilder] *)
Module Builder.
Section builder.
(** The kinds of values an application is made of, as in [Runtime]. *)
Context {plugin router state ws_handler tcp_handler grpc_fn service_fn transform http_mw tcp_mw : Type}.
Abbreviation tables := (application (router := router) (state := state) (ws_handler := ws_handler)
  (tcp_handler := tcp_handler) (grpc_fn := grpc_fn) (service_fn := service_fn) (transform := transform)
  (http_mw := http_mw) (tcp_mw := tcp_mw)).

(** [struct ApplicationBuilder]; the maps by listener and the middlewares are
    the tables of [Runtime], whose transforms are empty until [build]. *)
Record builder : Type := ApplicationBuilder {
  ab_config_path : option string;
  ab_config : option RinfraConfig.t;
  ab_plugins : list plugin;
  ab_tables : tables;
  ab_metadata : gmap string string;
  ab_transforms : list transform;
}.
(** [Application::builder] *)
Definition empty_builder : builder :=
  ApplicationBuilder None None [] (Application ∅ ∅ ∅ ∅ ∅ ∅ [] []) ∅ [].

(** Its methods; [http_router], [ws_handler], [tcp_handler] and [trpc_service]
    change the tables as in [Runtime]. *)
Definition on_tables (f : tables -> tables) (b : builder) : builder :=
  ApplicationBuilder (ab_config_path b) (ab_config b) (ab_plugins b) (f (ab_tables b)) (ab_metadata b)
    (ab_transforms b).
Definition config_path (p : string) (b : builder) : builder :=
  ApplicationBuilder (Some p) (ab_config b) (ab_plugins b) (ab_tables b) (ab_metadata b) (ab_transforms b).
Definition config (c : RinfraConfig.t) (b : builder) : builder :=
  ApplicationBuilder (ab_config_path b) (Some c) (ab_plugins b) (ab_tables b) (ab_metadata b) (ab_transforms b).
Definition add_plugin (p : plugin) (b : builder) : builder :=
  ApplicationBuilder (ab_config_path b) (ab_config b) (ab_plugins b ++ [p]) (ab_tables b) (ab_metadata b)
    (ab_transforms b).
Definition grpc_service (listener : string) (f : grpc_fn) : builder -> builder :=
  on_tables (fun a => Application (http_routers a) (ws_handlers a) (tcp_handlers a)
    (push_entry listener f (grpc_services a)) (trpc_services a) (transform_registry a)
    (extra_http_middlewares a) (extra_tcp_middlewares a)).
Definition http_middleware (mw : http_mw) : builder -> builder :=
  on_tables (fun a => Application (http_routers a) (ws_handlers a) (tcp_handlers a) (grpc_services a)
    (trpc_services a) (transform_registry a) (extra_http_middlewares a ++ [mw]) (extra_tcp_middlewares a)).
Definition push_tcp_middleware (mw : tcp_mw) (a : tables) : tables :=
  Application (http_routers a) (ws_handlers a) (tcp_handlers a) (grpc_services a) (trpc_services a)
    (transform_registry a) (extra_http_middlewares a) (extra_tcp_middlewares a ++ [mw]).
Definition tcp_middleware (mw : tcp_mw) : builder -> builder := on_tables (push_tcp_middleware mw).
Definition byte_transform (t : transform) (b : builder) : builder :=
  ApplicationBuilder (ab_config_path b) (ab_config b) (ab_plugins b) (ab_tables b) (ab_metadata b)
    (ab_transforms b ++ [t]).
Definition node_metadata (m : gmap string string) (b : builder) : builder :=
  ApplicationBuilder (ab_config_path b) (ab_config b) (ab_plugins b) (ab_tables b) m (ab_transforms b).

(** A program: the calls it makes on the builder, in order. *)
Inductive call : Type :=
| ConfigPath (p : string)
| WithConfig (c : RinfraConfig.t)
| WithPlugin (p : plugin)
| HttpRouter (listener : string) (f : state -> router)
| WsHandler (listener : string) (h : ws_handler)
| TcpHandler (listener : string) (h : tcp_handler)
| GrpcService (listener : string) (f : grpc_fn)
| TrpcService (listener name : string) (f : service_fn)
| HttpMiddleware (mw : http_mw)
| TcpMiddleware (mw : tcp_mw)
| ByteTransform (t : transform)
| NodeMetadata (m : gmap string string).
Definition apply (b : builder) (c : call) : builder :=
  match c with
  | ConfigPath p => config_path p b
  | WithConfig c => config c b
  | WithPlugin p => add_plugin p b
  | HttpRouter l f => on_tables (http_router l f) b
  | WsHandler l h => on_tables (set_ws_handler l h) b
  | TcpHandler l h => on_tables (set_tcp_handler l h) b
  | GrpcService l f => grpc_service l f b
  | TrpcService l n f => on_tables (trpc_service l n f) b
  | HttpMiddleware mw => http_middleware mw b
  | TcpMiddleware mw => tcp_middleware mw b
  | ByteTransform t => byte_transform t b
  | NodeMetadata m => node_metadata m b
  end.
Definition construct (calls : list call) : builder := fold_left apply calls empty_builder.

(** ** The specification: what a list of calls registers

    The values given in the calls of one kind, and those for one listener, in
    the order of the calls. *)
Definition paths : list call -> list string := omap (fun c => match c with ConfigPath p => Some p | _ => None end).
Definition configs : list call -> list RinfraConfig.t :=
  omap (fun c => match c with WithConfig c => Some c | _ => None end).
Definition plugins_of : list call -> list plugin := omap (fun c => match c with WithPlugin p => Some p | _ => None end).
Definition http_mws_of : list call -> list http_mw :=
  omap (fun c => match c with HttpMiddleware m => Some m | _ => None end).
Definition tcp_mws_of : list call -> list tcp_mw :=
  omap (fun c => match c with TcpMiddleware m => Some m | _ => None end).
Definition transforms_of : list call -> list transform :=
  omap (fun c => match c with ByteTransform t => Some t | _ => None end).
Definition metadata_of : list call -> list (gmap string string) :=
  omap (fun c => match c with NodeMetadata m => Some m | _ => None end).
Definition when_at {A} (n l : string) (x : A) : option A := if String.eqb l n then Some x else None.
Definition routers_at (n : string) : list call -> list (state -> router) :=
  omap (fun c => match c with HttpRouter l f => when_at n l f | _ => None end).
Definition ws_at (n : string) : list call -> list ws_handler :=
  omap (fun c => match c with WsHandler l h => when_at n l h | _ => None end).
Definition tcp_at (n : string) : list call -> list tcp_handler :=
  omap (fun c => match c with TcpHandler l h => when_at n l h | _ => None end).
Definition grpc_at (n : string) : list call -> list grpc_fn :=
  omap (fun c => match c with GrpcService l f => when_at n l f | _ => None end).
Definition trpc_at (n : string) : list call -> list (string * service_fn) :=
  omap (fun c => match c with TrpcService l s f => when_at n l (s, f) | _ => None end).

(** The builder holds what was registered: lists in order, and of what there is
    only one of (configuration, path, metadata, the handler of a listener) the
    last. *)
Record holds (calls : list call) (b : builder) : Prop := Holds {
  h_path : ab_config_path b = last (paths calls);
  h_config : ab_config b = last (configs calls);
  h_plugins : ab_plugins b = plugins_of calls;
  h_metadata : ab_metadata b = default ∅ (last (metadata_of calls));
  h_transforms : ab_transforms b = transforms_of calls;
  h_http_mws : extra_http_middlewares (ab_tables b) = http_mws_of calls;
  h_tcp_mws : extra_tcp_middlewares (ab_tables b) = tcp_mws_of calls;
  h_http n : default [] (http_routers (ab_tables b) !! n) = routers_at n calls;
  h_ws n : ws_handlers (ab_tables b) !! n = last (ws_at n calls);
  h_tcp n : tcp_handlers (ab_tables b) !! n = last (tcp_at n calls);
  h_grpc n : default [] (grpc_services (ab_tables b) !! n) = grpc_at n calls;
  h_trpc n : default [] (trpc_services (ab_tables b) !! n) = trpc_at n calls;
}.

Lemma push_entry_at {A} (n l : string) (x : A) (m : gmap string (list A)) :
  default [] (push_entry l x m !! n) = default [] (m !! n) ++ option_list (when_at n l x).
Proof.
  unfold push_entry, when_at. destruct (String.eqb_spec l n) as [<-|Hne].
  - by rewrite lookup_insert_eq.
  - rewrite lookup_insert_ne by done. by rewrite app_nil_r.
Qed.
Lemma insert_at {A} (n l : string) (x : A) (m : gmap string A) (xs : list A) :
  m !! n = last xs -> <[l := x]> m !! n = last (xs ++ option_list (when_at n l x)).
Proof.
  intros H. unfold when_at. destruct (String.eqb_spec l n) as [<-|Hne].
  - cbn. by rewrite lookup_insert_eq, last_snoc.
  - cbn. by rewrite lookup_insert_ne, app_nil_r by done.
Qed.
Lemma omap_snoc {A B} (f : A -> option B) (l : list A) (x : A) :
  omap f (l ++ [x]) = omap f l ++ option_list (f x).
Proof. rewrite omap_app. simpl. by destruct (f x). Qed.

Lemma apply_holds calls b c : holds calls b -> holds (calls ++ [c]) (apply b c).
Proof.
  intros []. destruct c; split; try intros n;
    unfold paths, configs, plugins_of, http_mws_of, tcp_mws_of, transforms_of, metadata_of, routers_at, ws_at,
      tcp_at, grpc_at, trpc_at in *;
    rewrite omap_snoc; cbn -[lookup insert omap last]; rewrite ?app_nil_r, ?last_snoc, ?push_entry_at;
    first [done | by apply insert_at | by f_equal].
Qed.
Lemma construct_holds calls : holds calls (construct calls).
Proof.
  induction calls as [|c calls IH] using rev_ind; [by split|].
  unfold construct. rewrite fold_left_app. by apply apply_holds.
Qed.
End builder.
#[global] Arguments builder : clear implicits.
#[global] Arguments call : clear implicits.
End Builder.

(** * [Application] *)
Module App.
Import Builder.

(** ** The shutdown signal

    Times are counted from the call.  [ctrl_c] fails where the system cannot
    deliver the signal, and [select!] takes its answer whatever it is. *)
Definition earliest (a b : option Z) : option Z := union_with (fun x y => Some (Z.min x y)) a b.
Definition wait_for_shutdown_signal (unix : bool) (ctrl_c sigterm : result string (option Z)) : outcome (option Z) :=
  let interrupted := match ctrl_c with Ok t => t | Err _ => Some 0 end in
  if unix then
    match sigterm with
    | Ok t => Ret (earliest interrupted t)
    | Err e => Panic ("failed to install SIGTERM handler: " +:+ e)
    end
  else Ret interrupted.
(** When the token is cancelled: a panic ends only the spawned task. *)
Definition create_shutdown_token (unix : bool) (ctrl_c sigterm : result string (option Z)) : option Z :=
  match wait_for_shutdown_signal unix ctrl_c sigterm with Ret t => t | Panic _ => None end.

Section app.
Context {any_router router ws_handler tcp_handler grpc_fn service_fn transform http_mw tcp_mw W : Type}.
Abbreviation plugin := (plugin RinfraConfig.t builtin_codec (component W) any_router W).
Abbreviation state := (app_state RinfraConfig.t builtin_codec (component W) W).
Abbreviation builder := (builder plugin router state ws_handler tcp_handler grpc_fn service_fn transform http_mw tcp_mw).
Abbreviation call := (call plugin router state ws_handler tcp_handler grpc_fn service_fn transform http_mw tcp_mw).
Abbreviation tables := (application (router := router) (state := state) (ws_handler := ws_handler)
  (tcp_handler := tcp_handler) (grpc_fn := grpc_fn) (service_fn := service_fn) (transform := transform)
  (http_mw := http_mw) (tcp_mw := tcp_mw)).
Abbreviation server := (server (router := router) (tcp_handler := tcp_handler) (grpc_fn := grpc_fn)
  (service_fn := service_fn) (transform := transform) (http_mw := http_mw) (tcp_mw := tcp_mw)).
Abbreviation phase := (Run.phase (server := server)).
Abbreviation world := (Run.world (component := component W) (codec := builtin_codec) (router := any_router)
  (server := server) (W := W)).

(** What is outside [build]: the environment, the files and their parsers, the
    compiled features, the set-up of traces, logs and metrics. *)
Context (consumer : string) (yaml_value : string -> result string json) (parse_f64 : string -> option string).
Context (env : list (string * string)) (file : string -> option (result string string)).
Context (has_telemetry has_compress has_metrics : bool).
Context (init_otel_tracer : TelemetryConfig.t -> Result unit).
Context (init_logging : LogPluginConfigs.t -> bool -> outcome (Result unit)).
Context (init_metrics : Result (component W)).
Context (os : platform W).
Context (transform_name : transform -> string) (lz4 gzip : transform).
(** What the listeners are made with, as in [Runtime]; [downcast] is the test
    for an axum [Router]. *)
Context {H L : Type} `{LibR : !RouterLib H L router, LawsR : !RouterLaws H L router}.
Context (downcast : any_router -> option router).
Context (http_mw_name : http_mw -> string).
Context (builtin_http_middlewares : MetricsConfig.t -> bool -> MiddlewareConfig.t -> state -> list http_mw).
Context (health_router : state -> router) (ws_router : ws_handler -> WsOptions.t -> router).
Context (AuditTcpMiddleware : string -> tcp_mw).

(** [struct Application] *)
Record app : Type := MakeApp {
  app_config : RinfraConfig.t;
  app_plugins : list plugin;
  app_tables : tables;
  app_metadata : gmap string string;
  app_metrics : option (component W);
  app_otel_guard : bool;
}.
Definition with_transforms (ts : gmap string transform) (a : tables) : tables :=
  Application (http_routers a) (ws_handlers a) (tcp_handlers a) (grpc_services a) (trpc_services a) ts
    (extra_http_middlewares a) (extra_tcp_middlewares a).
(** A recorder that cannot be installed is logged and left out. *)
Definition metrics_handle (cfg : RinfraConfig.t) : option (component W) :=
  if has_metrics && MetricsConfig.enabled (PluginConfigs.metrics (RinfraConfig.plugins cfg))
  then result_to_option init_metrics else None.
(** [ApplicationBuilder::build] *)
Definition build (b : builder) : outcome (Result app) :=
  r ← Build.build transform_name init_otel_tracer init_logging has_telemetry has_compress
        (Build.choose_config consumer yaml_value parse_f64 env file (ab_config b) (ab_config_path b))
        (BuiltinPlugins.builtin_plugins os) (ab_plugins b) lz4 gzip (ab_transforms b);
  Ret (x ← r;
       Ok (MakeApp (Build.b_config x) (Build.b_plugins x) (with_transforms (Build.b_transforms x) (ab_tables b))
             (ab_metadata b) (metrics_handle (Build.b_config x)) (Build.b_otel_guard x))).

(** ** [run] *)

(** The configuration of the listeners, in the terms of [Runtime]. *)
Definition protocol_of (p : ListenerProtocol.t) : listener_protocol :=
  match p with
  | ListenerProtocol.Http => Runtime.Http
  | ListenerProtocol.Tcp => Runtime.Tcp
  | ListenerProtocol.Grpc => Runtime.Grpc
  | ListenerProtocol.Trpc => Runtime.Trpc
  end.
Definition http_options_of (o : HttpListenerOptions.t) : http_options WsOptions.t MiddlewareConfig.t :=
  HttpOptions (HttpListenerOptions.middleware o) (HttpListenerOptions.ws o).
Definition tcp_options_of (o : TcpListenerOptions.t) : tcp_options :=
  TcpOptions (TcpListenerOptions.max_frame_size o) (PipelineStep.transform <$> TcpListenerOptions.pipeline o).
Definition listener_of (l : ListenerConfig.t) : listener_config :=
  Runtime.ListenerConfig (ListenerConfig.name l) (protocol_of (ListenerConfig.protocol l)) (ListenerConfig.bind l)
    (http_options_of <$> ListenerConfig.http l) (tcp_options_of <$> ListenerConfig.tcp l).
Definition listeners (cfg : RinfraConfig.t) : list (listener_config (ws_opts := WsOptions.t) (mw_cfg := MiddlewareConfig.t)) :=
  listener_of <$> NetPluginConfigs.listeners (PluginConfigs.net (RinfraConfig.plugins cfg)).
Definition health_enabled (cfg : RinfraConfig.t) : bool :=
  HealthConfig.enabled (PluginConfigs.health (RinfraConfig.plugins cfg)).
(** The middlewares of a listener come of its own options and of what [run]
    passes to every listener. *)
Definition middlewares_for (cfg : RinfraConfig.t) : MiddlewareConfig.t -> state -> list http_mw :=
  builtin_http_middlewares (PluginConfigs.metrics (RinfraConfig.plugins cfg))
    (TelemetryConfig.enabled (PluginConfigs.telemetry (RinfraConfig.plugins cfg))).

(** Between the build of the plugins and the signal: the plugins' routers that
    are axum's go into the tables, the audit middleware after the program's
    own, and the listeners are started. *)
Definition audited (st : state) (t : tables) : tables :=
  match AppState.audit_logger st with
  | Some log => push_tcp_middleware (AuditTcpMiddleware log) t
  | None => t
  end.
Definition start_all (a : app) (st : state) (routers : list any_router) : outcome (list server) :=
  let cfg := app_config a in
  r ← start_listeners http_mw_name (middlewares_for cfg) health_router ws_router WsOptions.enabled
        (http_options_of HttpListenerOptions.default) (listeners cfg) st (health_enabled cfg)
        (audited st (add_plugin_routers (omap downcast routers) (app_tables a)));
  Ret (fst r).

(** What is outside [run]. *)
Record surroundings : Type := Surroundings {
  hostname : option string;
  connect_once : ClusterPluginConfigs.t -> gmap string string -> list Cluster.endpoint -> Result unit;
  node_registry : component W;
  node_list : component W;
  tracker : ws_tracker;
  last_ws_closes : option Z;
  flush_time : Z;
  token_cancelled : option Z;
}.
Definition world_of (w : surroundings) (a : app) : world :=
  Run.World (hostname w) (connect_once w (PluginConfigs.cluster (RinfraConfig.plugins (app_config a))) (app_metadata a))
    (node_registry w) (node_list w) (app_metrics a) (start_all a) (tracker w) (last_ws_closes w) (app_otel_guard a) (flush_time w).

(** [run] either ends or waits for ever on a token that nobody cancels. *)
Inductive ending : Type := Finished (r : Result unit) | Waiting.
Fixpoint before_signal (ps : list phase) : list phase :=
  match ps with
  | [] => []
  | p :: ps => if Run.is_shutdown p then [] else p :: before_signal ps
  end.
Definition run (w : surroundings) (a : app) : outcome (ending * list phase) :=
  r ← Run.run codec_name codec_content_type (world_of w a) (app_plugins a) (app_config a);
  Ret match r with
      | (Err e, ps) => (Finished (Err e), ps)
      | (Ok u, ps) =>
          match token_cancelled w with
          | Some _ => (Finished (Ok u), ps)
          | None => (Waiting, before_signal ps)
          end
      end.

(** ** What the application serves, read off the program's calls *)
Definition all_transforms (calls : list call) : list transform :=
  Build.builtin_compressors has_compress lz4 gzip ++ transforms_of calls.
Definition audit_mws (st : state) : list tcp_mw :=
  match AppState.audit_logger st with Some log => [AuditTcpMiddleware log] | None => [] end.
(** The routers that one listener merges after the plugins'. *)
Definition listener_routes (cfg : RinfraConfig.t) (calls : list call) (st : state)
    (l : listener_config (ws_opts := WsOptions.t) (mw_cfg := MiddlewareConfig.t)) : list router :=
  let http := default (http_options_of HttpListenerOptions.default) (l_http l) in
  ((fun f => f st) <$> routers_at (l_name l) calls) ++
  (if health_enabled cfg then [health_router st] else []) ++
  match last (ws_at (l_name l) calls) with
  | Some h => if WsOptions.enabled (ws http) then [ws_router h (ws http)] else []
  | None => []
  end.
Definition trpc_in_use (calls : list call) (l : listener_config (ws_opts := WsOptions.t) (mw_cfg := MiddlewareConfig.t)) :
    bool :=
  match protocol l with Runtime.Trpc => negb (Nat.eqb (length (trpc_at (l_name l) calls)) 0) | _ => false end.
(** What one listener serves, unless it panics; [plugins] are the routers it
    takes from the plugins. *)
Definition served (cfg : RinfraConfig.t) (calls : list call) (plugins : list (state -> router)) (st : state)
    (l : listener_config (ws_opts := WsOptions.t) (mw_cfg := MiddlewareConfig.t)) : outcome (list server) :=
  let http := default (http_options_of HttpListenerOptions.default) (l_http l) in
  let tcp := default default_tcp_options (l_tcp l) in
  match protocol l with
  | Runtime.Http =>
      merged ← merge_all (((fun f => f st) <$> plugins) ++ listener_routes cfg calls st l);
      Ret [HttpListener (bind l) merged
             (register_all http_mw_name (fun n => "http middleware '" +:+ n +:+ "' already registered")
                (middlewares_for cfg (middleware http) st ++ http_mws_of calls) ∅)]
  | Runtime.Tcp =>
      Ret match last (tcp_at (l_name l) calls),
            resolve (Build.table_of transform_name (all_transforms calls)) (steps tcp) with
          | Some h, Some p => [TcpListener (bind l) (l_name l) h p (tcp_mws_of calls ++ audit_mws st) (max_frame_size tcp)]
          | _, _ => []
          end
  | Runtime.Grpc => Ret [GrpcListener (bind l) (grpc_at (l_name l) calls)]
  | Runtime.Trpc =>
      if trpc_in_use calls l then Panic "Cannot block the current thread from within a runtime"
      else Ret [TrpcListener (bind l) (l_name l) ∅ (max_frame_size tcp)]
  end.
(** The first HTTP listener takes the plugins' routers. *)
Fixpoint served_all (cfg : RinfraConfig.t) (calls : list call) (plugins : list (state -> router)) (st : state)
    (ls : list (listener_config (ws_opts := WsOptions.t) (mw_cfg := MiddlewareConfig.t))) : outcome (list server) :=
  match ls with
  | [] => Ret []
  | l :: ls =>
      s ← served cfg calls plugins st l;
      rest ← served_all cfg calls (if is_http l then [] else plugins) st ls;
      Ret (s ++ rest)
  end.
(** A listener that is in the program's way: two of the routers it is to merge
    have a route in common, or a service is registered on a tRPC listener. *)
Definition cannot_start (cfg : RinfraConfig.t) (calls : list call) (st : state)
    (l : listener_config (ws_opts := WsOptions.t) (mw_cfg := MiddlewareConfig.t)) : Prop :=
  is_http l = true /\ clash (listener_routes cfg calls st l) \/ trpc_in_use calls l = true.
(** The servers of the phases of a run. *)
Definition started : list phase -> list (list server) :=
  omap (fun p => match p with Run.ListenersStarted s => Some s | _ => None end).

Lemma build_ok b a : build b = Ret (Ok a) ->
  Build.choose_config consumer yaml_value parse_f64 env file (ab_config b) (ab_config_path b) = Ok (app_config a) /\
  app_plugins a = BuiltinPlugins.builtin_plugins os ++ ab_plugins b /\
  app_tables a = with_transforms (Build.table_of transform_name
    (Build.builtin_compressors has_compress lz4 gzip ++ ab_transforms b)) (ab_tables b) /\
  app_metadata a = ab_metadata b.
Proof.
  unfold build, Build.build. destruct (Build.choose_config _ _ _ _ _ _) as [cfg|e]; [|done].
  destruct (Build.init_telemetry _ _ _) as [otel|e]; [|done]. cbn [mbind outcome_bind].
  destruct (init_logging _ _) as [[u|e]|why]; [|done..]. cbn [mbind outcome_bind result_bind].
  unfold Build.transform_registry. rewrite <- Build.register_transforms_app.
  pose proof (Build.register_transforms_spec transform_name
    (Build.builtin_compressors has_compress lz4 gzip ++ ab_transforms b) ∅) as Hs.
  destruct (Build.register_transforms _ _ _) as [ts|e]; [|done]. intros [= <-].
  destruct Hs as (_ & _ & Hl). split_and!; [done..| |done]. cbn [app_tables Build.b_transforms]. f_equal.
  apply map_eq. intros n. by rewrite Hl, lookup_empty.
Qed.

Lemma audited_agrees plugins names st (a b : tables) :
  agrees plugins names a b -> agrees plugins names (audited st a) (audited st b).
Proof.
  intros (H1 & H2 & H3 & H4 & H5). unfold audited. destruct (AppState.audit_logger st); [|by split_and!].
  unfold agrees, push_tcp_middleware. cbn -[lookup]. rewrite H3. by split_and!.
Qed.

(** What [Runtime] reads off the tables is what the calls registered. *)
Definition tables_of (calls : list call) (b : builder) (st : state) : tables :=
  audited st (with_transforms (Build.table_of transform_name (all_transforms calls)) (ab_tables b)).
Lemma trpc_in_use_tables calls b st l : holds calls b ->
  has_trpc_service (tables_of calls b st) l = trpc_in_use calls l.
Proof.
  intros Hh. unfold has_trpc_service, trpc_in_use. rewrite <- (h_trpc _ _ Hh).
  unfold tables_of, audited. by destruct (protocol l), (AppState.audit_logger st).
Qed.
Lemma own_routes_tables cfg calls b st l : holds calls b ->
  own_routes health_router ws_router WsOptions.enabled (http_options_of HttpListenerOptions.default) l st
    (health_enabled cfg) (tables_of calls b st) = listener_routes cfg calls st l.
Proof.
  intros Hh. unfold own_routes, listener_routes, tables_of, audited.
  destruct (AppState.audit_logger st); cbn -[lookup fmap default]; by rewrite (h_http _ _ Hh), (h_ws _ _ Hh).
Qed.
Lemma expected_served cfg calls b plugins st l : holds calls b ->
  expected_server http_mw_name (middlewares_for cfg) health_router ws_router WsOptions.enabled
    (http_options_of HttpListenerOptions.default) plugins l st (health_enabled cfg) (tables_of calls b st) =
  served cfg calls plugins st l.
Proof.
  intros Hh. unfold expected_server, served, http_routes.
  rewrite (own_routes_tables _ _ _ _ _ Hh), (trpc_in_use_tables _ _ _ _ Hh). unfold tables_of, audited, audit_mws.
  destruct (protocol l), (AppState.audit_logger st);
    cbn -[lookup merge_all register_all resolve fmap default listener_routes];
    by rewrite ?(h_tcp _ _ Hh), ?(h_grpc _ _ Hh), ?(h_http_mws _ _ Hh), ?(h_tcp_mws _ _ Hh), ?app_nil_r.
Qed.
Lemma expected_served_all cfg calls b plugins st ls : holds calls b ->
  expected_servers http_mw_name (middlewares_for cfg) health_router ws_router WsOptions.enabled
    (http_options_of HttpListenerOptions.default) plugins ls st (health_enabled cfg) (tables_of calls b st) =
  served_all cfg calls plugins st ls.
Proof.
  intros Hh. revert plugins. induction ls as [|l ls IH]; intros plugins; [done|].
  cbn [expected_servers served_all]. rewrite (expected_served _ _ _ _ _ _ Hh).
  destruct (served _ _ _ _ l); [|done]. cbn [mbind outcome_bind]. by rewrite IH.
Qed.

(** The listeners that [start_all] starts. *)
Lemma start_all_spec calls a st routers :
  build (construct calls) = Ret (Ok a) ->
  let ls := listeners (app_config a) in
  NoDup (l_name <$> ls) -> plugin_key ∉ l_name <$> ls ->
  match served_all (app_config a) calls (routers_at plugin_key calls ++ map (fun r _ => r) (omap downcast routers)) st ls with
  | Ret servers => start_all a st routers = Ret servers
  | Panic _ => exists why, start_all a st routers = Panic why
  end /\
  forall l, l ∈ ls -> cannot_start (app_config a) calls st l -> exists why, start_all a st routers = Panic why.
Proof using LawsR.
  intros Hb ls Hnd Hk. destruct (build_ok _ _ Hb) as (_ & _ & Ht & _).
  pose proof (construct_holds calls) as Hh. rewrite (h_transforms _ _ Hh) in Ht. fold (all_transforms calls) in Ht.
  pose proof (audited_agrees _ _ st _ _ (add_plugin_routers_agrees (l_name <$> ls) (omap downcast routers)
    (app_tables a) Hk)) as Hag.
  pose proof (start_listeners_spec http_mw_name (middlewares_for (app_config a)) health_router ws_router
    WsOptions.enabled (http_options_of HttpListenerOptions.default) ls st (health_enabled (app_config a))
    _ _ _ Hag Hnd Hk) as Hs.
  assert (default [] (http_routers (app_tables a) !! plugin_key) = routers_at plugin_key calls) as Ep.
  { rewrite Ht. apply (h_http _ _ Hh). }
  assert (audited st (app_tables a) = tables_of calls (construct calls) st) as Ea by by rewrite Ht.
  rewrite Ep, Ea, (expected_served_all _ _ _ _ _ _ Hh) in Hs. clear Ep Ea Ht.
  split.
  - unfold start_all. fold ls. destruct (served_all _ _ _ _ _) as [ss|why0].
    + by destruct Hs as [b ->].
    + destruct Hs as [why ->]. by exists why.
  - intros l Hin Hl. unfold start_all. fold ls.
    destruct (expected_servers_panic http_mw_name (middlewares_for (app_config a)) health_router ws_router
      WsOptions.enabled (http_options_of HttpListenerOptions.default) ls l st (health_enabled (app_config a))
      (routers_at plugin_key calls ++ map (fun r _ => r) (omap downcast routers))
      (tables_of calls (construct calls) st) Hin) as [why Hw].
    + intros ps. destruct Hl as [[Hhttp Hc]|Htr].
      * apply clashing_listener; [done|]. by rewrite (own_routes_tables _ _ _ _ _ Hh).
      * apply trpc_listener_panics. by rewrite (trpc_in_use_tables _ _ _ _ Hh).
    + rewrite (expected_served_all _ _ _ _ _ _ Hh) in Hw. rewrite Hw in Hs. destruct Hs as [why' ->]. by exists why'.
Qed.

(** ** The run as a whole *)
Lemma started_app ps qs : started (ps ++ qs) = started ps ++ started qs.
Proof. apply omap_app. Qed.
Lemma before_signal_app ps qs : Forall (fun p => Run.is_shutdown p = false) ps ->
  before_signal (ps ++ qs) = ps ++ before_signal qs.
Proof. induction 1 as [|p ps Hp Hps IH]; [done|]. cbn [Datatypes.app before_signal]. by rewrite Hp, IH. Qed.
Lemma setup_starts_nothing (w : world) cfg cluster :
  Run.setup_cluster w cfg = Ok cluster -> started cluster = [].
Proof.
  unfold Run.setup_cluster, Run.setup_worker_cluster. destruct (Run.is_cluster _); [destruct (Run.is_main _)|].
  - by intros [= <-].
  - destruct (Run.connect_once _ _); [|done]. by intros [= <-].
  - by intros [= <-].
Qed.
Lemma shutdown_starts_nothing (w : world) cfg reg :
  started (Run.drain_ws_connections w cfg ++ Run.graceful_shutdown cfg reg ++ Run.flush_telemetry w) = [].
Proof.
  unfold Run.drain_ws_connections, Run.graceful_shutdown, Run.flush_telemetry.
  destruct (shutdown_all _ reg) as [[[? ?] ?] ?]. destruct (Drain.drain_ws_connections _ _); by destruct (Run.otel_guard w).
Qed.

(** The plugins' build, with the state and the routers it leaves. *)
Definition plugins_build (plugins : list plugin) (cfg : RinfraConfig.t) :=
  build_all codec_name codec_content_type plugins (PluginContext.new cfg) PluginRegistry.new.
Definition final_state (w : world) (plugins : list plugin) (cfg : RinfraConfig.t) : state :=
  Run.extend_state (server := server) (router := any_router) w (PluginConfigs.cluster (RinfraConfig.plugins cfg))
    (fst (into_app_parts codec_name (snd (plugins_build plugins cfg)))).
Definition final_routers (plugins : list plugin) (cfg : RinfraConfig.t) : list any_router :=
  snd (into_app_parts codec_name (snd (plugins_build plugins cfg))).

Lemma run_after_setup (w : world) (plugins : list plugin) cfg cluster :
  Run.setup_cluster w cfg = Ok cluster -> fst (fst (plugins_build plugins cfg)) = Ret (Ok tt) ->
  exists manifests rest, started rest = [] /\
  Run.run codec_name codec_content_type w plugins cfg =
    (servers ← Run.start_listeners w (final_state w plugins cfg) (final_routers plugins cfg);
     Ret (Ok tt, cluster ++ [Run.PluginsBuilt manifests; Run.ListenersStarted servers; Run.Signalled] ++ rest)).
Proof.
  intros Hc Hb. unfold Run.run, final_state, final_routers. rewrite Hc. fold (plugins_build plugins cfg).
  destruct (plugins_build plugins cfg) as [[r reg] ctx]. cbn [fst snd] in *. subst r.
  destruct (into_app_parts codec_name ctx) as [st routers]. eexists _, _. split; [|reflexivity].
  apply shutdown_starts_nothing.
Qed.

End app.

(** ** When the token is cancelled *)

(** With both handlers installed, at the first of the two signals; where
    Ctrl-C cannot be listened to, at once; and where SIGTERM cannot be, never,
    Ctrl-C or not: [expect] ends the task that would have cancelled it. *)
Theorem token_follows_first_signal (c s : option Z) (e : string) (ctrl_c sigterm : result string (option Z)) :
  create_shutdown_token true (Ok c) (Ok s) = earliest c s /\
  create_shutdown_token false (Ok c) sigterm = c /\
  (create_shutdown_token true (Ok c) (Ok s) = None <-> c = None /\ s = None) /\
  create_shutdown_token false (Err e) sigterm = Some 0 /\
  (forall t, 0 <= t -> create_shutdown_token true (Err e) (Ok (Some t)) = Some 0) /\
  create_shutdown_token true ctrl_c (Err e) = None.
Proof.
  split_and!; [done|done| |done| |done].
  - destruct c, s; cbn; split; [done|by intros []|done|by intros []|done|by intros []|done|done].
  - intros t Ht. cbn. f_equal. lia.
Qed.
End App.

(** * The builder that [run_server] fills *)
Module CommandLine.
Import Builder.
Section command_line.
Context {plugin router state ws_handler tcp_handler grpc_fn service_fn transform http_mw tcp_mw : Type}.
Abbreviation builder := (builder plugin router state ws_handler tcp_handler grpc_fn service_fn transform http_mw tcp_mw).
Abbreviation call := (call plugin router state ws_handler tcp_handler grpc_fn service_fn transform http_mw tcp_mw).
Abbreviation options := (Runner.run_options (plugin := plugin) (router := router) (state := state)
  (ws_handler := ws_handler) (tcp_handler := tcp_handler) (grpc_fn := grpc_fn)).

(** The calls [run_server] makes for its options. *)
Definition calls_of (path : string) (o : options) : list call :=
  ConfigPath path :: map WithPlugin (Runner.plugins o) ++
  map (fun x => HttpRouter x.1 x.2) (Runner.http_routers o) ++
  map (fun x => WsHandler x.1 x.2) (Runner.ws_handlers o) ++
  map (fun x => TcpHandler x.1 x.2) (Runner.tcp_handlers o) ++
  map (fun x => GrpcService x.1 x.2) (Runner.grpc_services o) ++
  (if bool_decide (Runner.node_metadata o = ∅) then [] else [NodeMetadata (Runner.node_metadata o)]).
(** The builder of [Cli], as the full one. *)
Definition of_filled (b : Runner.builder (plugin := plugin) (router := router) (state := state)
    (ws_handler := ws_handler) (tcp_handler := tcp_handler) (grpc_fn := grpc_fn) (service_fn := service_fn)
    (transform := transform) (http_mw := http_mw) (tcp_mw := tcp_mw)) : builder :=
  ApplicationBuilder (Some (Runner.config_path b)) None (Runner.extra_plugins b) (Runner.builder_tables b)
    (Runner.metadata b) [].

Lemma fold_tables {A} (mk : A -> call) f (l : list A) (b : builder) :
  (forall x b, apply b (mk x) = on_tables (f x) b) ->
  fold_left apply (map mk l) b = on_tables (fun t => fold_left (fun t x => f x t) l t) b.
Proof.
  intros H. revert b. induction l as [|x l IH]; intros b; [by destruct b|].
  cbn [map fold_left]. by rewrite H, IH.
Qed.
Lemma fold_plugins (l : list plugin) (b : builder) :
  fold_left apply (map WithPlugin l) b =
  ApplicationBuilder (ab_config_path b) (ab_config b) (ab_plugins b ++ l) (ab_tables b) (ab_metadata b) (ab_transforms b).
Proof.
  revert b. induction l as [|x l IH]; intros b; [by destruct b; rewrite app_nil_r|].
  cbn [map fold_left apply]. rewrite IH. cbn. by rewrite <- app_assoc.
Qed.

(** The command line starts the application of the calls that its options
    stand for: what it hands to [build] is the builder those calls leave,
    the metadata being set only when there is some. *)
Theorem server_runs_its_calls {app : Type} (build : builder -> outcome (Result app)) run_app
    (w : surroundings) (c : cli) (o : options) :
  command c = None \/ command c = Some (Server Start) ->
  Runner.run_with_cli (fun b => build (of_filled b)) run_app w c o =
  (built ← Runner.lift (build (construct (calls_of (CliConfig.find_config w (Cli.config c)) o)));
   match built with
   | Err e => Runner.lift (Panic ("failed to build application: " +:+ error_to_string e))
   | Ok a =>
       r ← Runner.lift (run_app a);
       match r with Ok _ => mret tt | Err e => die ("Application error: " +:+ error_to_string e) end
   end).
Proof.
  intros Hc. set (p := CliConfig.find_config w (Cli.config c)).
  assert (of_filled (Runner.fill p o) = construct (calls_of p o)) as Hf.
  { unfold construct, calls_of. cbn [fold_left apply]. rewrite !fold_left_app, fold_plugins.
    rewrite (fold_tables (fun x => HttpRouter x.1 x.2) (fun x => http_router x.1 x.2)) by done.
    rewrite (fold_tables (fun x => WsHandler x.1 x.2) (fun x => set_ws_handler x.1 x.2)) by done.
    rewrite (fold_tables (fun x => TcpHandler x.1 x.2) (fun x => set_tcp_handler x.1 x.2)) by done.
    rewrite (fold_tables (fun x => GrpcService x.1 x.2) (fun x => Runner.add_grpc x.1 x.2)) by done.
    destruct (bool_decide_reflect (Runner.node_metadata o = ∅)) as [Hm|Hm]; cbn [fold_left apply];
      unfold of_filled, Runner.fill; cbn; [by rewrite Hm|done]. }
  unfold Runner.run_with_cli. destruct Hc as [-> | ->]; unfold Runner.run_server; fold p; by rewrite Hf.
Qed.
End command_line.
End CommandLine.

(** * The role of a node *)
Module Roles.
(** [ClusterPluginConfigs::is_worker], which [run] does not ask. *)
Definition is_worker (c : ClusterPluginConfigs.t) : bool := String.eqb (ClusterPluginConfigs.role c) "worker".

(** In a cluster every node whose role is not main joins as a worker and finds
    the node list in its state, whether [is_worker] holds of it or not. *)
Theorem every_other_role_joins {component codec router server W : Type}
    (w : Run.world (component := component) (codec := codec) (router := router) (server := server) (W := W)) cfg :
  let c := PluginConfigs.cluster (RinfraConfig.plugins cfg) in
  Run.is_cluster c = true -> Run.is_main c = false ->
  Run.setup_cluster w cfg =
    Run.setup_worker_cluster w (NetPluginConfigs.listeners (PluginConfigs.net (RinfraConfig.plugins cfg))) /\
  forall s, Run.metrics_handle w = None ->
    Run.extend_state w c s = Run.state_set Run.T_node_list (Run.node_list w) s.
Proof.
  intros c Hc Hm. unfold Run.setup_cluster, Run.extend_state. fold c. rewrite Hc, Hm. split; [done|]. by intros s ->.
Qed.
End Roles.

(** * A program with two listeners, a plugin and an audit file *)
Module AssemblyExamples.
Import Builder App ListRouter.
Abbreviation site := (ListRouter.router unit unit).
(** The router of one GET route. *)
Definition at_path (p : string) : site := ListRouter.Router [Endpoint "GET" p tt []] [].
Abbreviation a_state := (app_state RinfraConfig.t builtin_codec (component unit) unit).
Abbreviation a_plugin := (plugin RinfraConfig.t builtin_codec (component unit) site unit).
Abbreviation an_application := (App.app (any_router := site) (router := site) (ws_handler := string)
  (tcp_handler := string) (grpc_fn := string) (service_fn := string) (transform := string) (http_mw := string)
  (tcp_mw := string) (W := unit)).
Abbreviation a_call := (call a_plugin site a_state string string string string string string string).

Definition listener_json (name protocol : string) (options : list (string * json)) : json :=
  JObject ([("name", JString name); ("protocol", JString protocol); ("bind", JString ("0.0.0.0:" +:+ name))] ++ options).
Definition two_listeners : RinfraConfig.t :=
  BuiltinExamples.config_of
    [("net", JObject [("listeners", JArray
        [listener_json "public" "http" [];
         listener_json "raw" "tcp" [("tcp", JObject [("pipeline", JArray [JObject [("transform", JString "lz4")];
           JObject [("transform", JString "rot13")]])])]])]);
     ("audit", JObject [("enabled", JBool true); ("file", JObject [("path", JString "audit.log")])])].
Definition page_plugin : a_plugin :=
  Plugin (PluginManifest "page" "1.0" "a page") (fun _ => ([AddRouter (at_path "/page")], Ret (Ok tt))).

(** The calls are in no particular order; the second TCP handler replaces the
    first, the configuration replaces the path. *)
Definition program : list a_call :=
  [HttpRouter "public" (fun _ => at_path "/orders"); TcpHandler "raw" "discard"; ConfigPath "absent.yaml";
   WithPlugin page_plugin; TcpMiddleware "tenant"; ByteTransform "rot13"; WithConfig two_listeners;
   HttpRouter "public" (fun _ => at_path "/users"); TcpHandler "raw" "echo"; HttpMiddleware "gzip";
   NodeMetadata {[ "zone" := "a" ]}].
Definition a_build (b : builder a_plugin site a_state string string string string string string string) :=
  App.build "c1" (fun _ => Err "no yaml") (fun _ => None) [] (fun _ => None) false true false (fun _ => Ok tt)
    (fun _ _ => Ret (Ok tt)) (fail Internal "no recorder") BuiltinExamples.example_platform id "lz4" "gzip" b.
Definition built_or {A} (d : A) (r : outcome (Result A)) : A := match r with Ret (Ok a) => a | _ => d end.
Definition nothing_built : an_application :=
  MakeApp (RinfraConfig.default "c1") [] (Application ∅ ∅ ∅ ∅ ∅ ∅ [] []) ∅ None false.
Definition an_app : an_application := built_or nothing_built (a_build (construct program)).
Definition around (token : option Z) : surroundings (W := unit) :=
  Surroundings (Some "node7") (fun _ _ _ => Ok tt) (AuditC "") (AuditC "") (WsTracker 0 0) None 0 token.
Definition a_run (token : option Z) (a : an_application) :=
  App.run Some id (fun _ _ _ _ => ["trace"]) (fun _ => at_path "/health") (fun h _ => at_path h)
    (fun path => "audit to " +:+ path)
    (around token) a.

Lemma built_or_eq {A} (d : A) r :
  (match r with Ret (Ok _) => true | _ => false end) = true -> r = Ret (Ok (built_or d r)).
Proof. by destruct r as [[a|e]|why]. Qed.

(** The same program with a second router at the path of its orders. *)
Definition twice : list a_call := program ++ [HttpRouter "public" (fun _ => at_path "/orders")].
Definition twice_app : an_application := built_or nothing_built (a_build (construct twice)).


(** A misspelt role. *)
Definition misspelt : RinfraConfig.t :=
  BuiltinExamples.config_of [("cluster", JObject [("mode", JString "cluster"); ("role", JString "mian")])].
Lemma every_other_role_joins_witness :
  let w := world_of Some id (fun _ _ _ _ => ["trace"]) (fun _ => at_path "/health") (fun h _ => at_path h) (fun path => path)
    (around None) an_app in
  Roles.is_worker (PluginConfigs.cluster (RinfraConfig.plugins misspelt)) = false /\
  Run.setup_cluster w misspelt = Ok [Run.ClusterJoined []; Run.HeartbeatsStarted].
Proof.
  intros w. split; [vm_compute; reflexivity|].
  rewrite (proj1 (Roles.every_other_role_joins w misspelt ltac:(vm_compute; reflexivity) ltac:(vm_compute; reflexivity))).
  vm_compute. reflexivity.
Defined.

(** What the command line starts is the same application. *)
Lemma server_runs_its_calls_witness :
  let o := Runner.add_plugin page_plugin (Runner.add_http_router "public" (fun _ : a_state => at_path "/orders") Runner.new) in
  Runner.run_with_cli (fun b => a_build (CommandLine.of_filled (ws_handler := string) (tcp_handler := string)
      (grpc_fn := string) b)) (fun a => Ret (fail Internal (AppConfig.name (RinfraConfig.app (app_config a)))))
    (CliExamples.world (fun _ => None) CliExamples.no_send) CliExamples.start o =
  ([Stderr "Application error: [INTERNAL] rinfra-app"], Ret (Exited 1)).
Proof.
  intros o. rewrite (CommandLine.server_runs_its_calls a_build _ _ CliExamples.start o (or_introl eq_refl)).
  vm_compute. reflexivity.
Defined.
End AssemblyExamples.
