(* ===== verification/Programs.v ===== *)
(** The example programs ([rinfra-examples/src/bin]): a main node, a proxy and
    a web backend, as the options each gives to the command line, and how the
    proxy comes to find the backend: the metadata of the web program reaches
    the worker's registration, the main node's registry, the list the proxy
    receives, and its choice of a backend. *)

From S2P Require Import Prelude Errors Cluster Config Plugins Builtin Runtime Lifecycle Cli Proxy Assembly.
Import Health PluginContext PluginRegistry Components Builder App.
#[local] Existing Instance ListenerProtocol.listener_protocol_eq_dec.

Section programs.
Context {any_router router ws_handler tcp_handler grpc_fn service_fn transform http_mw tcp_mw W : Type}.
Abbreviation plugin := (plugin RinfraConfig.t builtin_codec (component W) any_router W).
Abbreviation state := (app_state RinfraConfig.t builtin_codec (component W) W).
Abbreviation options := (Runner.run_options (plugin := plugin) (router := router) (state := state)
  (ws_handler := ws_handler) (tcp_handler := tcp_handler) (grpc_fn := grpc_fn)).
Abbreviation call := (call plugin router state ws_handler tcp_handler grpc_fn service_fn transform http_mw tcp_mw).
Abbreviation app := (App.app (any_router := any_router) (router := router) (ws_handler := ws_handler)
  (tcp_handler := tcp_handler) (grpc_fn := grpc_fn) (service_fn := service_fn) (transform := transform)
  (http_mw := http_mw) (tcp_mw := tcp_mw) (W := W)).
Abbreviation builder := (builder plugin router state ws_handler tcp_handler grpc_fn service_fn transform http_mw tcp_mw).

(** The three [main] functions, over the routers they build from the state. *)
Definition main_node (admin_router : state -> router) : options :=
  Runner.add_http_router "main" admin_router Runner.new.
Definition service_main (kind : string) (f : state -> router) : options :=
  Runner.set_metadata [("service_type", kind)] (Runner.add_http_router "main" f Runner.new).
Definition proxy_main : (state -> router) -> options := service_main "proxy".
Definition web_main : (state -> router) -> options := service_main "web".

(** What a built application's worker sends to the main node
    ([setup_worker_cluster]). *)
Definition listeners_of (a : app) : list ListenerConfig.t :=
  NetPluginConfigs.listeners (PluginConfigs.net (RinfraConfig.plugins (app_config a))).
Definition connection_of (uuid : string) (hostname : option string) (a : app) : WorkerConn.connection :=
  let c := PluginConfigs.cluster (RinfraConfig.plugins (app_config a)) in
  WorkerConn.new uuid
    (WorkerConn.Config (ClusterPluginConfigs.node_id c) (ClusterPluginConfigs.main_address c)
       (ClusterPluginConfigs.cluster_token c) (ClusterPluginConfigs.ping_interval_secs c))
    (WorkerSetup.endpoints hostname (listeners_of a)) (app_metadata a).

(** The announced addresses of the HTTP listeners. *)
Definition http_binds (hostname : option string) (a : app) : list string :=
  map (fun l => WorkerSetup.announced_address (default "" hostname) (ListenerConfig.bind l))
    (filter (fun l => ListenerConfig.protocol l = ListenerProtocol.Http) (listeners_of a)).

(** What is outside [build], as in [Assembly]. *)
Context (consumer : string) (yaml_value : string -> result string json) (parse_f64 : string -> option string).
Context (env : list (string * string)) (file : string -> option (result string string)).
Context (has_telemetry has_compress has_metrics : bool).
Context (init_otel_tracer : TelemetryConfig.t -> Result unit).
Context (init_logging : LogPluginConfigs.t -> bool -> outcome (Result unit)).
Context (init_metrics : Result (component W)).
Context (os : platform W).
Context (transform_name : transform -> string) (lz4 gzip : transform).
Definition built : builder -> outcome (Result app) :=
  App.build consumer yaml_value parse_f64 env file has_telemetry has_compress has_metrics init_otel_tracer
    init_logging init_metrics os transform_name lz4 gzip.

Lemma http_addresses_announced (hostname : option string) (a : app) id r s :
  http_addresses (NodeInfo id r (WorkerSetup.endpoints hostname (listeners_of a)) (app_metadata a) s) =
  http_binds hostname a.
Proof.
  assert (forall h l, Cluster.protocol (WorkerSetup.endpoint_of h l) = "http" <->
            ListenerConfig.protocol l = ListenerProtocol.Http) as Hp.
  { intros h l. cbn. by destruct (ListenerConfig.protocol l). }
  unfold http_addresses, http_binds, WorkerSetup.endpoints. cbn [Cluster.endpoints].
  induction (listeners_of a) as [|l ls IH]; [done|]. cbn [map].
  destruct (decide (ListenerConfig.protocol l = ListenerProtocol.Http)) as [E|E].
  - rewrite !filter_cons_True by (rewrite ?Hp; done). by rewrite fmap_cons, IH.
  - by rewrite !filter_cons_False by (rewrite ?Hp; done).
Qed.

Lemma program_metadata path kind f (a : app) :
  built (construct (CommandLine.calls_of path (service_main kind f))) = Ret (Ok a) ->
  app_metadata a = {[ "service_type" := kind ]}.
Proof.
  intros H. destruct (build_ok _ _ _ _ _ _ _ _ _ _ _ _ _ _ _ _ _ H) as (_ & _ & _ & ->). unfold CommandLine.calls_of. cbn -[bool_decide construct insert singletonM].
  rewrite bool_decide_eq_false_2 by apply insert_non_empty. by rewrite (h_metadata _ _ (construct_holds _)).
Qed.

(** The web program becomes a backend of the proxy: when the application it
    builds registers at a main node that expects its token, the registration
    is accepted, and from the list of that registry's nodes the proxy picks a
    backend provided the program has an HTTP listener, all of whose announced
    addresses take part in the round.  A service of another kind, such as a
    proxy, is no backend. *)
Theorem web_program_is_found path kind f (a : app) uuid hostname srv m ctx :
  built (construct (CommandLine.calls_of path (service_main kind f))) = Ret (Ok a) ->
  0 < Server.ping_interval srv ->
  Server.expected_token srv = ClusterPluginConfigs.cluster_token (PluginConfigs.cluster (RinfraConfig.plugins (app_config a))) ->
  let c := connection_of uuid hostname a in
  let id := WorkerConn.worker_id c in
  exists m', Server.handle_connection srv (Server.Message (WorkerConn.register_message c ctx)) Server.AtRegister m =
      Ret (Server.Serving id 0, m', [RegisterAck true None]) /\
    (kind = "web" -> http_binds hostname a <> [] ->
      forall nodes counter, ConnectedRegistry.list_nodes m' = Ok nodes -> 0 <= counter ->
        is_Some (fst (pick_web_backend nodes counter)) /\
        forall addr, addr ∈ http_binds hostname a -> addr ∈ web_endpoints nodes) /\
    (kind <> "web" -> forall n, m' !! id = Some n -> is_web n = false).
Proof.
  intros Hb Hpos Ht c id.
  set (n := NodeInfo id Worker (WorkerSetup.endpoints hostname (listeners_of a)) (app_metadata a) Online).
  exists (<[id := n]> m). split.
  { cbn. by rewrite Ht, String.eqb_refl, andb_false_r, (proj2 (Z.ltb_lt _ _) Hpos). }
  pose proof (program_metadata _ _ _ _ Hb) as Hm. split.
  - intros -> Hne nodes counter [= <-] Hc.
    assert (n ∈ (map_to_list (<[id := n]> m)).*2) as Hin.
    { apply list_elem_of_fmap. exists (id, n). split; [done|]. apply elem_of_map_to_list, lookup_insert_eq. }
    assert (is_web n = true) as Hw by (unfold is_web, n; cbn; rewrite Hm; reflexivity).
    assert (forall addr, addr ∈ http_binds hostname a -> addr ∈ web_endpoints (map_to_list (<[id := n]> m)).*2) as Hall.
    { intros addr Ha. unfold web_endpoints. rewrite list_elem_of_join. exists (http_addresses n). split.
      - unfold n. by rewrite http_addresses_announced.
      - apply list_elem_of_fmap. exists n. split; [done|]. by apply list_elem_of_filter. }
    split; [|exact Hall]. destruct (http_binds hostname a) as [|x xs] eqn:E; [done|].
    destruct (pick_spec (map_to_list (<[id := n]> m)).*2 counter Hc) as (addr & _ & Hp).
    { intros Hno. specialize (Hall x ltac:(by left)). rewrite Hno in Hall. by apply elem_of_nil in Hall. }
    rewrite Hp. by eexists.
  - intros Hk n' Hn'. rewrite lookup_insert_eq in Hn'. injection Hn' as <-.
    unfold is_web, n. cbn. rewrite Hm. apply bool_decide_eq_false_2. rewrite lookup_singleton_eq. by intros [= ->].
Qed.
End programs.

(** * The three programs on one configuration *)
Module ProgramsExamples.
Import AssemblyExamples.
(** [config/web.example.yaml], the sections that matter here. *)
Definition web_config : RinfraConfig.t :=
  BuiltinExamples.config_of
    [("net", JObject [("listeners", JArray [listener_json "main" "http" []])]);
     ("cluster", JObject [("mode", JString "cluster"); ("role", JString "worker"); ("node_id", JString "web-1");
        ("main_address", JString "127.0.0.1:9000"); ("cluster_token", JString "dev-cluster-token")])].
Definition web_file (p : string) : option (result string string) :=
  if bool_decide (p = "web.yaml") then Some (Ok "web") else None.
Definition web_yaml (s : string) : result string json :=
  if bool_decide (s = "web") then Ok (RinfraConfig.to_json "c1" web_config) else Err "no yaml".
Definition build_web (b : builder a_plugin site a_state string string string string string string string) :=
  built "c1" web_yaml (fun _ => None) [] web_file false true false (fun _ => Ok tt) (fun _ _ => Ret (Ok tt))
    (fail Internal "no recorder") BuiltinExamples.example_platform id "lz4" "gzip" b.
Definition web_program : list a_call := CommandLine.calls_of "web.yaml" (web_main (fun _ => at_path "/")).
Definition web_app : an_application := built_or nothing_built (build_web (construct web_program)).

Lemma web_program_is_found_witness :
  http_binds (Some "host7") web_app = ["host7:main"] /\
  exists m', Server.handle_connection (Server.server_new "dev-cluster-token" 5)
      (Server.Message (WorkerConn.register_message (connection_of "u1" (Some "host7") web_app) None)) Server.AtRegister ∅ =
      Ret (Server.Serving "web-1" 0, m', [RegisterAck true None]) /\
    is_Some (fst (pick_web_backend (default [] (result_to_option (ConnectedRegistry.list_nodes m'))) 7)).
Proof.
  split; [vm_compute; reflexivity|].
  assert (build_web (construct web_program) = Ret (Ok web_app)) as Hb by (apply built_or_eq; vm_compute; reflexivity).
  destruct (web_program_is_found _ _ _ _ _ _ _ _ _ _ _ _ _ _ _ "web.yaml" "web" (fun _ => at_path "/") web_app "u1" (Some "host7")
    (Server.server_new "dev-cluster-token" 5) ∅ None Hb ltac:(reflexivity) ltac:(vm_compute; reflexivity)) as (m' & Hm & Hw & _).
  exists m'. split; [rewrite Hm; vm_compute; reflexivity|].
  refine (proj1 (Hw eq_refl _ _ 7 eq_refl _)); [vm_compute; discriminate|lia].
Defined.
End ProgramsExamples.
