(* ===== verification/ClusterSystem.v ===== *)
(** The cluster as a whole: the main node of [Cluster.Server], any number of
    workers of [Cluster.WorkerConn], and the TCP connections between them, on
    which messages travel in order and which anybody may open
    ([rinfra-plugins/src/cluster/{server,connection}.rs]).

    The parts are the ones of [Cluster]; that what is sent on a connection
    arrives as it was sent is [ClusterWire]'s.  Here they run together: every
    move of the system is a move of one part or the delivery of one message,
    and the theorems say what a worker may conclude from the node list it
    keeps. *)

From stdpp Require Import sorting.
From S2P Require Import Prelude Errors Cluster.
Import ConnectedRegistry.

(** * The system *)

(** A connection: the messages in flight to the main node and to the worker
    that opened it, if it was one ([owner]).  What the main node sends is
    stamped with the number of states of its registry so far; the stamps, the
    [history] of those states and [seen], the stamp of the list a worker holds,
    record the past, and no move depends on them. *)
Record link : Type := Link {
  owner : option nat;
  up : list cluster_message;
  down : list (nat * cluster_message);
}.
(** A worker, with its connection to the main node when it has one, and
    whether it has sent its registration on it. *)
Record peer : Type := Peer {
  conn : WorkerConn.connection;
  wst : WorkerConn.worker;
  asked : bool;
  socket : option nat;
  seen : nat;
}.
Record cluster : Type := MkCluster {
  main : Server.main_node;
  links : list link;
  peers : list peer;
  history : list registry;
}.
Definition start (cs : list WorkerConn.connection) : cluster :=
  MkCluster (Server.MainNode new []) []
    (map (fun c => Peer c WorkerConn.spawn_background false None 0) cs) [new].

Inductive move : Type :=
| Dial (i : nat)                                   (* a worker's connection is accepted *)
| Ask (i : nat) (tc : option metadata_map)         (* it sends its registration *)
| Deliver (i : nat) (send_ok : bool)               (* it reads the next message *)
| Local (i : nat) (ev : WorkerConn.worker_event)   (* a timer, a failure or the shutdown *)
| Outsider                                         (* somebody else connects *)
| OutsiderSends (k : nat) (m : cluster_message)
| MainReads (k : nat)                              (* a connection's task reads the next message *)
| MainActs (k : nat) (ev : Server.event).          (* a timer, a failure or the shutdown *)

Definition push_up (ms : list cluster_message) (l : link) : link := Link (owner l) (up l ++ ms) (down l).
Definition push_down (s : nat) (ms : list cluster_message) (l : link) : link :=
  Link (owner l) (up l) (down l ++ map (pair s) ms).
Definition pop_up (l : link) : link := Link (owner l) (tail (up l)) (down l).
Definition pop_down (l : link) : link := Link (owner l) (up l) (tail (down l)).

(** ** The workers *)

(** The states in which a worker holds its connection. *)
Definition holds (p : WorkerConn.worker_pc) : bool :=
  match p with WorkerConn.AtRegister | WorkerConn.InMessages => true | _ => false end.
(** One step of the worker's own code.  The registration that [do_register]
    sends is on the wire since [Ask]. *)
Definition worker_moves (ev : WorkerConn.worker_event) (p : peer) : peer * list cluster_message :=
  let '(w, out) := WorkerConn.worker_step (conn p) ev (wst p) in
  (Peer (conn p) w (asked p) (if holds (WorkerConn.pc w) then socket p else None) (seen p),
   match WorkerConn.pc (wst p) with WorkerConn.InMessages => out | _ => [] end).
Definition with_peer (i : nat) (p : peer) (sent : list cluster_message) (f : link -> link) (c : cluster) : cluster :=
  MkCluster (main c)
    match peers c !! i with
    | Some old => match socket old with Some k => alter (push_up sent) k (alter f k (links c)) | None => links c end
    | None => links c
    end
    (<[i := p]> (peers c)) (history c).

(** What can happen to a worker without a message from the main node. *)
Definition is_local (ev : WorkerConn.worker_event) : bool :=
  match ev with
  | WorkerConn.ConnectAnswer a => negb (is_ok a)
  | WorkerConn.RegisterAnswer _ (WorkerConn.Ack _) | WorkerConn.FrameIn _ _ => false
  | _ => true
  end.
(** The event that the arrival of a message is for a worker. *)
Definition arrival (w : WorkerConn.worker) (m : cluster_message) (send_ok : bool) : option WorkerConn.worker_event :=
  match WorkerConn.pc w with
  | WorkerConn.AtRegister => Some (WorkerConn.RegisterAnswer (Ok tt) (WorkerConn.Ack m))
  | WorkerConn.InMessages => Some (WorkerConn.FrameIn m send_ok)
  | _ => None
  end.
Definition dial (i : nat) (c : cluster) : option cluster :=
  p ← peers c !! i;
  match WorkerConn.pc (wst p) with
  | WorkerConn.AtConnect =>
      let '(w, _) := WorkerConn.worker_step (conn p) (WorkerConn.ConnectAnswer (Ok tt)) (wst p) in
      Some (MkCluster (Server.MainNode (Server.nodes (main c)) (Server.conns (main c) ++ [Server.AtRegister]))
              (links c ++ [Link (Some i) [] []])
              (<[i := Peer (conn p) w false (Some (length (links c))) (seen p)]> (peers c)) (history c))
  | _ => None
  end.
Definition ask (i : nat) (tc : option metadata_map) (c : cluster) : option cluster :=
  p ← peers c !! i;
  match WorkerConn.pc (wst p), asked p with
  | WorkerConn.AtRegister, false =>
      Some (with_peer i (Peer (conn p) (wst p) true (socket p) (seen p))
              [WorkerConn.register_message (conn p) tc] id c)
  | _, _ => None
  end.
Definition deliver (i : nat) (send_ok : bool) (c : cluster) : option cluster :=
  p ← peers c !! i; k ← socket p; l ← links c !! k; x ← head (down l);
  ev ← arrival (wst p) x.2 send_ok;
  let '(p', out) := worker_moves ev p in
  let s := match WorkerConn.pc (wst p), x.2 with WorkerConn.InMessages, NodeList _ => x.1 | _, _ => seen p end in
  Some (with_peer i (Peer (conn p') (wst p') (asked p') (socket p') s) out pop_down c).
Definition local (i : nat) (ev : WorkerConn.worker_event) (c : cluster) : option cluster :=
  p ← peers c !! i;
  if is_local ev then let '(p', out) := worker_moves ev p in Some (with_peer i p' out id c) else None.

(** ** The main node *)
Section system.
(** Whether a message can be encoded ([ClusterWire.encode]); the main node
    discards the error of sending one that cannot. *)
Variable fits : cluster_message -> bool.
Section main_node.
Variable srv : Server.cluster_server.

Definition handled (k : nat) (ev : Server.event) (f : link -> link) (c : cluster) : option cluster :=
  cn ← Server.conns (main c) !! k;
  match Server.handle_connection srv ev cn (Server.nodes (main c)) with
  | Ret (cn', m, out) =>
      let sent := filter (fun x => fits x = true) out in
      Some (MkCluster (Server.MainNode m (<[k := cn']> (Server.conns (main c))))
              (alter (push_down (length (history c)) sent) k (alter f k (links c))) (peers c) (history c ++ [m]))
  | Panic _ => None
  end.
(** What a connection's task may see besides a message: before the
    registration only that none comes. *)
Definition may_act (cn : Server.conn) (ev : Server.event) : bool :=
  match cn, ev with
  | Server.AtRegister, Server.NoMessage => true
  | Server.Serving _ _, (Server.NoMessage | Server.Cancelled | Server.Tick _) => true
  | _, _ => false
  end.
Definition listens (cn : Server.conn) : bool := match cn with Server.Over => false | _ => true end.

Definition run_move (m : move) (c : cluster) : option cluster :=
  match m with
  | Dial i => dial i c
  | Ask i tc => ask i tc c
  | Deliver i send_ok => deliver i send_ok c
  | Local i ev => local i ev c
  | Outsider =>
      Some (MkCluster (Server.MainNode (Server.nodes (main c)) (Server.conns (main c) ++ [Server.AtRegister]))
              (links c ++ [Link None [] []]) (peers c) (history c))
  | OutsiderSends k m =>
      l ← links c !! k;
      if bool_decide (owner l = None)
      then Some (MkCluster (main c) (alter (push_up [m]) k (links c)) (peers c) (history c)) else None
  | MainReads k =>
      l ← links c !! k; cn ← Server.conns (main c) !! k; m ← head (up l);
      if listens cn then handled k (Server.Message m) pop_up c else None
  | MainActs k ev =>
      cn ← Server.conns (main c) !! k;
      if may_act cn ev then handled k ev id c else None
  end.
Fixpoint run_moves (ms : list move) (c : cluster) : option cluster :=
  match ms with
  | [] => Some c
  | m :: ms => c ← run_move m c; run_moves ms c
  end.
End main_node.

(** * What holds in every state *)

(** A message from the main node is stamped with a state of the registry, and
    a list is the listing of that state; the messages of a connection are
    stamped in order, after [lo]. *)
Definition stamped (h : list registry) (x : nat * cluster_message) : Prop :=
  (x.1 < length h)%nat /\
  match x.2 with NodeList ns => exists m, h !! x.1 = Some m /\ list_nodes m = Ok ns | _ => True end.
Definition ordered (h : list registry) (lo : nat) (l : link) : Prop :=
  Forall (stamped h) (down l) /\ StronglySorted le (lo :: (down l).*1).
(** The list that a worker holds is the listing of the state it was stamped with. *)
Definition view_ok (h : list registry) (p : peer) : Prop :=
  exists m, h !! seen p = Some m /\ list_nodes m = Ok (WorkerConn.node_list (wst p)).

(** What is in flight on a worker's connection, by its state and that of the
    main node's task. *)
Definition quiet (m : cluster_message) : Prop := m = Ping \/ m = Pong \/ m = ListNodes.
Definition phase (p : peer) (l : link) (cn : Server.conn) : Prop :=
  match WorkerConn.pc (wst p), asked p with
  | WorkerConn.AtRegister, false => up l = [] /\ down l = [] /\ (cn = Server.AtRegister \/ cn = Server.Over)
  | WorkerConn.AtRegister, true =>
      (exists tc, up l = [WorkerConn.register_message (conn p) tc]) /\ down l = [] /\
        (cn = Server.AtRegister \/ cn = Server.Over) \/
      up l = [] /\ cn <> Server.AtRegister
  | WorkerConn.InMessages, _ => Forall quiet (up l) /\ cn <> Server.AtRegister
  | _, _ => False
  end.
Definition attached (c : cluster) (i : nat) (p : peer) : Prop :=
  match socket p with
  | None => holds (WorkerConn.pc (wst p)) = false
  | Some k => exists l cn, links c !! k = Some l /\ Server.conns (main c) !! k = Some cn /\ owner l = Some i /\
      ordered (history c) (seen p) l /\ phase p l cn
  end.
Record sound (c : cluster) : Prop := Sound {
  s_length : length (links c) = length (Server.conns (main c));
  s_history : last (history c) = Some (Server.nodes (main c));
  s_links k l : links c !! k = Some l -> ordered (history c) 0 l;
  s_peers i p : peers c !! i = Some p -> view_ok (history c) p /\ attached c i p;
}.

(** ** Connections *)
Lemma stamped_more h m x : stamped h x -> stamped (h ++ [m]) x.
Proof.
  intros [Hl Hx]. split; [rewrite length_app; lia|]. destruct (x.2); try done.
  destruct Hx as (m' & Hm & Hn). exists m'. split; [|done]. by apply lookup_app_l_Some.
Qed.
Lemma ordered_more h m lo l : ordered h lo l -> ordered (h ++ [m]) lo l.
Proof. intros [H1 H2]. split; [|done]. eapply Forall_impl; [exact H1|]. intros x. apply stamped_more. Qed.
Lemma ordered_same_down h lo l l' : down l' = down l -> ordered h lo l -> ordered h lo l'.
Proof. unfold ordered. by intros ->. Qed.
Lemma ordered_tail h lo l : ordered h lo l -> ordered h lo (pop_down l).
Proof.
  unfold ordered, pop_down. simpl. destruct (down l) as [|x xs]; [done|]. simpl. intros [H1 H2].
  apply StronglySorted_cons in H2 as [Hlo H2]. apply StronglySorted_cons in H2 as [_ H2].
  split; [by apply Forall_cons in H1 as [_ ?]|]. apply StronglySorted_cons. split; [|done].
  by apply Forall_cons in Hlo as [_ ?].
Qed.
(** Reading the head moves the lower bound to its stamp. *)
Lemma ordered_read h lo l x : head (down l) = Some x -> ordered h lo l ->
  (lo <= x.1)%nat /\ stamped h x /\ ordered h x.1 (pop_down l).
Proof.
  unfold ordered, pop_down. simpl. destruct (down l) as [|y xs]; [done|]. simpl. intros [= ->] [H1 H2].
  apply Forall_cons in H1 as [Hx H1]. apply StronglySorted_cons in H2 as [Hlo H2].
  by apply Forall_cons in Hlo as [Hlo _].
Qed.
Lemma ordered_push h m lo out l : ordered h lo l -> (lo < length h)%nat ->
  Forall (fun y => match y with NodeList ns => list_nodes m = Ok ns | _ => True end) out ->
  ordered (h ++ [m]) lo (push_down (length h) out l).
Proof.
  intros [H1 H2] Hlo Ho. assert (Forall (fun x => x.1 < length h)%nat (down l)) as Hlt.
  { eapply Forall_impl; [exact H1|]. by intros x []. }
  split; simpl.
  - apply Forall_app. split; [eapply Forall_impl; [exact H1|]; intros x; apply stamped_more|].
    induction Ho as [|y out Hy Ho IH]; [constructor|]. constructor; [|done]. split; simpl.
    + rewrite length_app. simpl. lia.
    + destruct y; try done. exists m. split; [|done].
      rewrite lookup_app_r, Nat.sub_diag by done. done.
  - rewrite fmap_app. change (lo :: (down l).*1 ++ (map (pair (length h)) out).*1)
      with ((lo :: (down l).*1) ++ (map (pair (length h)) out).*1).
    assert (forall y, y ∈ (map (pair (length h)) out).*1 -> y = length h) as Hout.
    { intros y ((s & z) & -> & Hz)%list_elem_of_fmap. apply list_elem_of_In, in_map_iff in Hz as (? & [= <- <-] & _). done. }
    apply StronglySorted_app. split_and!; [|done|].
    + intros x y Hx Hy. apply Hout in Hy as ->. apply elem_of_cons in Hx as [->|Hx]; [lia|].
      apply list_elem_of_fmap in Hx as (z & -> & Hz). rewrite Forall_forall in Hlt. specialize (Hlt z Hz). simpl in *. lia.
    + clear Ho Hout. induction out as [|y out IH]; [constructor|]. cbn. constructor; [done|].
      clear IH. induction out; cbn; by constructor.
Qed.

(** ** The main node's tasks *)
Lemma handled_output srv ev cn m cn' m' out :
  Server.handle_connection srv ev cn m = Ret (cn', m', out) ->
  Forall (fun y => match y with NodeList ns => list_nodes m' = Ok ns | _ => True end) out.
Proof.
  destruct cn as [|id missed|]; simpl.
  - unfold Server.handle_register. destruct ev as [|[]| |]; try (intros [= <- <- <-]; by constructor).
    destruct (negb _ && negb _); intros [= <- <- <-]; by repeat constructor.
  - destruct ev as [|[]| |ok]; try (intros [= <- <- <-]; by repeat constructor).
    destruct (3 <=? missed); [intros [= <- <- <-]; by constructor|].
    destruct ok; [|intros [= <- <- <-]; by constructor].
    destruct (u32_add missed 1); simpl; [|done]. intros [= <- <- <-]. by repeat constructor.
  - intros [= <- <- <-]. constructor.
Qed.
Lemma handled_not_register srv ev cn m cn' m' out :
  Server.handle_connection srv ev cn m = Ret (cn', m', out) -> cn <> Server.AtRegister -> cn' <> Server.AtRegister.
Proof.
  intros H Hc ->. apply Server.handle_connection_inv in H as [[Hd _]|[(?&?&?&?&?&?&?&_)|(?&?&?&?&_)]]; try congruence.
  by destruct Hd as [<-|[[_ ?]|(?&?&?&_&?)]].
Qed.
Lemma handled_at_register srv ev m cn' m' out :
  Server.handle_connection srv ev Server.AtRegister m = Ret (cn', m', out) ->
  (exists y, ev = Server.Message y) -> cn' <> Server.AtRegister.
Proof.
  intros H [y ->] ->. simpl in H. destruct y; try done. simpl in H.
  destruct (negb _ && negb _); [done|]. destruct (0 <? _); done.
Qed.

Lemma phase_main_reads srv p l cn m cn' n n' out s :
  phase p l cn -> head (up l) = Some m -> listens cn = true ->
  Server.handle_connection srv (Server.Message m) cn n = Ret (cn', n', out) ->
  forall sent, phase p (push_down s sent (pop_up l)) cn'.
Proof.
  intros Hp Hm Hl Hh sent. unfold phase in *. cbn [push_down pop_up up down].
  destruct (WorkerConn.pc (wst p)); try done.
  - destruct (asked p).
    + right. destruct Hp as [([tc ->] & Hd & [-> | ->])|[Hu _]]; [|done|by rewrite Hu in Hm].
      split; [done|]. by eapply handled_at_register; [|eexists].
    + destruct Hp as (Hu & _). by rewrite Hu in Hm.
  - destruct Hp as [Hq Hc]. split; [|by eapply handled_not_register].
    destruct (up l); [done|]. by apply Forall_cons in Hq as [_ ?].
Qed.
Lemma phase_main_acts srv p l cn ev cn' n n' out s :
  phase p l cn -> may_act cn ev = true ->
  Server.handle_connection srv ev cn n = Ret (cn', n', out) ->
  forall sent, (out = [] -> sent = []) -> phase p (push_down s sent l) cn'.
Proof.
  intros Hp Ha Hh sent Hsent. unfold phase in *. cbn [push_down up down].
  destruct (WorkerConn.pc (wst p)); try done.
  - assert (cn = Server.AtRegister \/ cn = Server.Over -> out = [] /\ cn' = Server.Over) as Hreg.
    { intros [-> | ->]; [|by destruct ev]. destruct ev; try done. by injection Hh as <- <- <-. }
    destruct (asked p).
    + destruct Hp as [(Hu & Hd & Hc)|[Hu Hc]].
      * destruct (Hreg Hc) as [-> ->]. left. rewrite Hd, Hsent by done. eauto.
      * right. split; [done|]. by eapply handled_not_register.
    + destruct Hp as (Hu & Hd & Hc). destruct (Hreg Hc) as [-> ->]. rewrite Hd, Hsent by done. auto.
  - destruct Hp as [Hq Hc]. split; [done|]. by eapply handled_not_register.
Qed.

(** ** The moves, read backwards *)
Definition read_stamp (p : peer) (x : nat * cluster_message) : nat :=
  match WorkerConn.pc (wst p), x.2 with WorkerConn.InMessages, NodeList _ => x.1 | _, _ => seen p end.
Lemma dial_inv i c c' : dial i c = Some c' ->
  exists p, peers c !! i = Some p /\ WorkerConn.pc (wst p) = WorkerConn.AtConnect /\
    c' = MkCluster (Server.MainNode (Server.nodes (main c)) (Server.conns (main c) ++ [Server.AtRegister]))
           (links c ++ [Link (Some i) [] []])
           (<[i := Peer (conn p) (WorkerConn.goto WorkerConn.AtRegister (wst p)) false (Some (length (links c))) (seen p)]>
              (peers c)) (history c).
Proof.
  unfold dial. destruct (peers c !! i) as [p|]; [|done]. cbn [mbind option_bind].
  destruct (WorkerConn.pc (wst p)) eqn:E; [|done..]. unfold WorkerConn.worker_step. rewrite E. cbn.
  intros [= <-]. by exists p.
Qed.
Lemma ask_inv i tc c c' : ask i tc c = Some c' ->
  exists p, peers c !! i = Some p /\ WorkerConn.pc (wst p) = WorkerConn.AtRegister /\ asked p = false /\
    c' = with_peer i (Peer (conn p) (wst p) true (socket p) (seen p)) [WorkerConn.register_message (conn p) tc] id c.
Proof.
  unfold ask. destruct (peers c !! i) as [p|]; [|done]. cbn [mbind option_bind].
  destruct (WorkerConn.pc (wst p)) eqn:E; try done. destruct (asked p) eqn:Ea; [done|]. intros [= <-]. by exists p.
Qed.
Lemma deliver_inv i ok c c' : deliver i ok c = Some c' ->
  exists p k l x ev, peers c !! i = Some p /\ socket p = Some k /\ links c !! k = Some l /\ head (down l) = Some x /\
    arrival (wst p) x.2 ok = Some ev /\ let r := worker_moves ev p in
    c' = with_peer i (Peer (conn r.1) (wst r.1) (asked r.1) (socket r.1) (read_stamp p x)) r.2 pop_down c.
Proof.
  unfold deliver. destruct (peers c !! i) as [p|]; [|done]. cbn [mbind option_bind].
  destruct (socket p) as [k|] eqn:Es; [|done]. cbn [mbind option_bind].
  destruct (links c !! k) as [l|] eqn:El; [|done]. cbn [mbind option_bind].
  destruct (head (down l)) as [x|] eqn:Ex; [|done]. cbn [mbind option_bind].
  destruct (arrival (wst p) x.2 ok) as [ev|] eqn:Ea; [|done]. cbn [mbind option_bind].
  destruct (worker_moves ev p) as [p' out] eqn:Ew. intros [= <-]. exists p, k, l, x, ev. rewrite Ew. by split_and!.
Qed.
Lemma local_inv i ev c c' : local i ev c = Some c' ->
  exists p, peers c !! i = Some p /\ is_local ev = true /\ let r := worker_moves ev p in c' = with_peer i r.1 r.2 id c.
Proof.
  unfold local. destruct (peers c !! i) as [p|]; [|done]. cbn [mbind option_bind]. destruct (is_local ev); [|done].
  destruct (worker_moves ev p) as [p' out] eqn:Ew. intros [= <-]. exists p. by rewrite Ew.
Qed.
Lemma main_reads_inv srv k c c' : run_move srv (MainReads k) c = Some c' ->
  exists l cn m, links c !! k = Some l /\ Server.conns (main c) !! k = Some cn /\ head (up l) = Some m /\
    listens cn = true /\ handled srv k (Server.Message m) pop_up c = Some c'.
Proof.
  cbn [run_move]. destruct (links c !! k) as [l|]; [|done]. cbn [mbind option_bind].
  destruct (Server.conns (main c) !! k) as [cn|]; [|done]. cbn [mbind option_bind].
  destruct (head (up l)) as [m|] eqn:Em; [|done]. cbn [mbind option_bind].
  destruct (listens cn) eqn:E; [|done]. intros H. by exists l, cn, m.
Qed.
Lemma main_acts_inv srv k ev c c' : run_move srv (MainActs k ev) c = Some c' ->
  exists cn, Server.conns (main c) !! k = Some cn /\ may_act cn ev = true /\ handled srv k ev id c = Some c'.
Proof.
  cbn [run_move]. destruct (Server.conns (main c) !! k) as [cn|]; [|done]. cbn [mbind option_bind].
  destruct (may_act cn ev) eqn:E; [|done]. intros H. by exists cn.
Qed.
Lemma outsider_sends_inv srv k m c c' : run_move srv (OutsiderSends k m) c = Some c' ->
  exists l, links c !! k = Some l /\ owner l = None /\
    c' = MkCluster (main c) (alter (push_up [m]) k (links c)) (peers c) (history c).
Proof.
  cbn [run_move]. destruct (links c !! k) as [l|]; [|done]. cbn [mbind option_bind].
  case_bool_decide; [|done]. intros [= <-]. by exists l.
Qed.

(** ** Every move keeps the system sound *)
Lemma sound_start cs : sound (start cs).
Proof.
  split; [done|done|by intros [] l H|].
  intros i p Hp. cbn [start peers] in Hp. rewrite list_lookup_fmap in Hp.
  apply fmap_Some in Hp as (x & _ & ->). split; [|done]. exists new. split; [done|].
  unfold list_nodes, new. by rewrite map_to_list_empty.
Qed.

(** A new connection leaves the others alone. *)
Lemma attached_new_link c i p o n h :
  length (links c) = length (Server.conns (main c)) -> attached c i p ->
  attached (MkCluster (Server.MainNode n (Server.conns (main c) ++ [Server.AtRegister])) (links c ++ [Link o [] []]) h
    (history c)) i p.
Proof.
  intros Hlen. unfold attached. destruct (socket p) as [k|]; [|done]. cbn [links main Server.conns history].
  intros (l & cn & Hl & Hc & H). exists l, cn. split_and!; [by apply lookup_app_l_Some..|apply H|apply H|apply H].
Qed.
Lemma links_new c o k l :
  (links c ++ [Link o [] []]) !! k = Some l -> links c !! k = Some l \/ k = length (links c) /\ l = Link o [] [].
Proof.
  intros [?|(Hk & Hl)]%lookup_app_Some; [by left|right]. apply list_lookup_singleton_Some in Hl as [Hk' <-].
  split; [lia|done].
Qed.
Lemma ordered_fresh h lo o : ordered h lo (Link o [] []).
Proof. split; [constructor|]. by repeat constructor. Qed.

Lemma sound_outsider c :
  sound c ->
  sound (MkCluster (Server.MainNode (Server.nodes (main c)) (Server.conns (main c) ++ [Server.AtRegister]))
           (links c ++ [Link None [] []]) (peers c) (history c)).
Proof.
  intros [Hlen Hh Hl Hp]. split; [cbn; rewrite !length_app; cbn; lia|done| |].
  - intros k l [H|[_ ->]]%links_new; [by apply (Hl k)|apply ordered_fresh].
  - intros i p H. destruct (Hp i p H) as [Hv Ha]. split; [done|]. by apply attached_new_link.
Qed.

Lemma sound_dial i c c' : sound c -> dial i c = Some c' -> sound c'.
Proof.
  intros [Hlen Hh Hl Hp] (p & Ep & _ & ->)%dial_inv. destruct (Hp i p Ep) as [Hv _]. split; [cbn; rewrite !length_app; cbn; lia|done| |].
  - intros k l [H|[_ ->]]%links_new; [by apply (Hl k)|apply ordered_fresh].
  - intros j q. cbn [peers history]. intros [(-> & <- & _)|(Hne & Hq)]%list_lookup_insert_Some.
    + split; [exact Hv|]. unfold attached. cbn. exists (Link (Some j) [] []), Server.AtRegister. split_and!.
      * by rewrite lookup_app_r, Nat.sub_diag.
      * by rewrite Hlen, lookup_app_r, Nat.sub_diag.
      * done.
      * apply ordered_fresh.
      * done.
      * done.
      * by left.
    + destruct (Hp j q Hq) as [Hv' Ha]. split; [done|]. by apply attached_new_link.
Qed.

(** A worker's own move, in which it keeps its connection or gives it up. *)
Lemma sound_with_peer i p p' sent f c :
  sound c -> peers c !! i = Some p -> f = id \/ f = pop_down -> view_ok (history c) p' ->
  match socket p' with
  | None => holds (WorkerConn.pc (wst p')) = false
  | Some k => socket p = Some k /\ forall l cn, ordered (history c) (seen p) l -> links c !! k = Some l -> phase p l cn ->
      ordered (history c) (seen p') (f l) /\ phase p' (push_up sent (f l)) cn
  end ->
  sound (with_peer i p' sent f c).
Proof.
  intros [Hlen Hh Hl Hp] Ep Hf Hv Hs. destruct (Hp i p Ep) as [_ Ha].
  assert (forall l, owner (f l) = owner l) as Hof by (intros l; by destruct Hf as [-> | ->]).
  assert (forall lo l, ordered (history c) lo l -> ordered (history c) lo (push_up sent (f l))) as Hord.
  { intros lo l H. apply (ordered_same_down _ _ (f l)); [done|]. destruct Hf as [-> | ->]; [done|by apply ordered_tail]. }
  unfold with_peer. rewrite Ep. split; cbn [main links peers history].
  - destruct (socket p); [by rewrite !length_alter|done].
  - done.
  - intros k l. destruct (socket p) as [k0|]; [|apply Hl].
    destruct (decide (k0 = k)) as [<-|Hk]; [|rewrite !list_lookup_alter_ne by done; apply Hl].
    rewrite !list_lookup_alter_eq. destruct (links c !! k0) as [l0|] eqn:El; [|done].
    intros [= <-]. apply Hord. by apply (Hl k0).
  - intros j q. intros [(<- & <- & _)|(Hne & Hq)]%list_lookup_insert_Some.
    + split; [done|]. unfold attached in *. cbn [links main history] in *. destruct (socket p') as [k|]; [|done].
      destruct Hs as [Hsk Hs]. rewrite Hsk in Ha |- *. destruct Ha as (l & cn & El & Ec & Ho & Hor & Hph).
      destruct (Hs l cn Hor El Hph) as [H1 H2]. exists (push_up sent (f l)), cn.
      refine (conj _ (conj Ec (conj _ (conj _ H2)))).
      * by rewrite !list_lookup_alter_eq, El.
      * cbn. by rewrite Hof.
      * by apply (ordered_same_down _ _ (f l)).
    + destruct (Hp j q Hq) as [Hv' Ha']. split; [done|]. unfold attached in *. cbn [links main history].
      destruct (socket q) as [k|]; [|done]. destruct Ha' as (l & cn & El & Ec & Ho & H'). exists l, cn. split; [|exact (conj Ec (conj Ho H'))].
      destruct (socket p) as [k0|] eqn:Es; [|done]. destruct (decide (k0 = k)) as [->|Hk]; [|by rewrite !list_lookup_alter_ne].
      destruct Ha as (l0 & ? & El0 & _ & Ho0 & _). rewrite El in El0. congruence.
Qed.

(** A step of one of the main node's tasks. *)
Lemma sound_handled srv k ev f c c' :
  sound c -> f = id \/ f = pop_up -> handled srv k ev f c = Some c' ->
  (forall p l cn cn' n' out s, Server.conns (main c) !! k = Some cn -> links c !! k = Some l -> phase p l cn ->
    Server.handle_connection srv ev cn (Server.nodes (main c)) = Ret (cn', n', out) ->
    forall sent, (out = [] -> sent = []) -> phase p (push_down s sent (f l)) cn') ->
  sound c'.
Proof.
  intros [Hlen Hh Hl Hp] Hf. unfold handled. destruct (Server.conns (main c) !! k) as [cn|] eqn:Ec; [|done].
  cbn [mbind option_bind].
  destruct (Server.handle_connection _ _ _ _) as [[[cn' m] out]|why] eqn:E; [|done]. intros [= <-] Hphase.
  pose proof (handled_output _ _ _ _ _ _ _ E) as Hall. set (sent := filter _ out).
  assert (Forall (fun y => match y with NodeList ns => list_nodes m = Ok ns | _ => True end) sent) as Hout.
  { rewrite Forall_forall in Hall |- *. intros y Hy. apply Hall. by apply list_elem_of_filter in Hy as [_ ?]. }
  assert (forall l, owner (f l) = owner l /\ down (f l) = down l) as Hof by (intros l; by destruct Hf as [-> | ->]).
  assert (length (history c) <> 0%nat) as Hne by (destruct (history c); [done|cbn; lia]).
  assert (forall lo l, (lo < length (history c))%nat -> ordered (history c) lo l ->
            ordered (history c ++ [m]) lo (push_down (length (history c)) sent (f l))) as Hord.
  { intros lo l Hlo H. apply ordered_push; [|done..]. by apply (ordered_same_down _ _ l); [apply Hof|]. }
  split; cbn [main links peers history Server.conns Server.nodes].
  - by rewrite !length_alter, length_insert.
  - by rewrite last_snoc.
  - intros j l. destruct (decide (k = j)) as [<-|Hj].
    + rewrite !list_lookup_alter_eq. destruct (links c !! k) as [l0|] eqn:El; [|done].
      intros [= <-]. apply Hord; [lia|]. by apply (Hl k).
    + rewrite !list_lookup_alter_ne by done. intros H. apply ordered_more. by apply (Hl j).
  - intros i p Hi. destruct (Hp i p Hi) as [(m0 & Hm0 & Hv) Ha]. split.
    { exists m0. split; [by apply lookup_app_l_Some|done]. }
    unfold attached in *. cbn [main links history Server.conns]. destruct (socket p) as [j|]; [|done].
    destruct Ha as (l & cn0 & El & Ec0 & Ho & Hor & Hph). destruct (decide (k = j)) as [<-|Hkj].
    + rewrite Ec in Ec0. injection Ec0 as <-. exists (push_down (length (history c)) sent (f l)), cn'.
      refine (conj _ (conj _ (conj _ (conj _ _)))).
      * by rewrite !list_lookup_alter_eq, El.
      * by rewrite list_lookup_insert_eq by eauto using lookup_lt_Some.
      * cbn. by rewrite (proj1 (Hof l)).
      * apply Hord; [|done]. by apply lookup_lt_Some in Hm0.
      * eapply Hphase; [done..|]. unfold sent. by intros ->.
    + exists l, cn0. refine (conj _ (conj _ (conj Ho (conj _ Hph)))).
      * by rewrite !list_lookup_alter_ne.
      * by rewrite list_lookup_insert_ne.
      * by apply ordered_more.
Qed.

(** What a worker's own step does to its connection. *)
Definition keeps (p p' : peer) (out : list cluster_message) : Prop :=
  socket p' = None /\ holds (WorkerConn.pc (wst p')) = false \/
  socket p' = socket p /\ WorkerConn.pc (wst p') = WorkerConn.pc (wst p) /\ conn p' = conn p /\ asked p' = asked p /\
    Forall quiet out /\ (WorkerConn.pc (wst p) = WorkerConn.AtRegister -> out = []).

Lemma quiet_one m : quiet m -> Forall quiet [m].
Proof. intros H. constructor; [done|constructor]. Qed.
#[local] Ltac solve_keeps :=
  first [ left; by split | right; refine (conj eq_refl (conj eq_refl (conj eq_refl (conj eq_refl (conj _ _)))));
          [first [apply Forall_nil_2 | apply quiet_one; unfold quiet; by auto]|by intros] ].
Lemma worker_local ev p : is_local ev = true ->
  let r := worker_moves ev p in
  seen r.1 = seen p /\ conn r.1 = conn p /\
  WorkerConn.node_list (wst r.1) = WorkerConn.node_list (wst p) /\ keeps p r.1 r.2.
Proof.
  destruct p as [c [st b pc nl] a so se]. unfold worker_moves, WorkerConn.worker_step, keeps, quiet.
  cbn [wst conn asked socket seen WorkerConn.pc WorkerConn.node_list].
  destruct pc, ev as [[|]|sent [| | |m]| | |ok|ok|m ok| |]; intros Hl; try discriminate Hl; cbn;
    try (destruct sent; cbn);
    try (match goal with |- context [if ?b then _ else _] => destruct b end; cbn);
    (split; [done|split; [done|split; [done|]]]); solve_keeps.
Qed.
Lemma worker_reads p x ok ev : arrival (wst p) x ok = Some ev ->
  let r := worker_moves ev p in
  seen r.1 = seen p /\ conn r.1 = conn p /\
  match WorkerConn.pc (wst p) with
  | WorkerConn.AtRegister =>
      WorkerConn.node_list (wst r.1) = WorkerConn.node_list (wst p) /\ r.2 = [] /\
      (socket r.1 = None /\ holds (WorkerConn.pc (wst r.1)) = false \/
       socket r.1 = socket p /\ WorkerConn.pc (wst r.1) = WorkerConn.InMessages)
  | _ =>
      WorkerConn.pc (wst p) = WorkerConn.InMessages /\ keeps p r.1 r.2 /\
      WorkerConn.node_list (wst r.1) = match x with NodeList ns => ns | _ => WorkerConn.node_list (wst p) end
  end.
Proof.
  destruct p as [c [st b pc nl] a so se]. unfold arrival. cbn [wst WorkerConn.pc].
  unfold worker_moves, WorkerConn.worker_step, keeps. cbn [wst conn asked socket seen WorkerConn.pc WorkerConn.node_list].
  destruct pc; intros [= <-]; cbn [wst conn asked socket seen WorkerConn.pc WorkerConn.node_list].
  - destruct (WorkerConn.do_register (Ok tt) (WorkerConn.Ack x)) as [u|e]; cbn; [destruct (0 <? _); cbn|]; auto 10.
  - destruct x; cbn; try (destruct ok; cbn);
      (split; [done|split; [done|split; [done|split; [|done]]]]); solve_keeps.
Qed.

Lemma phase_push p p' l cn out :
  phase p l cn -> WorkerConn.pc (wst p') = WorkerConn.pc (wst p) -> conn p' = conn p -> asked p' = asked p ->
  Forall quiet out -> (WorkerConn.pc (wst p) = WorkerConn.AtRegister -> out = []) -> phase p' (push_up out l) cn.
Proof.
  unfold phase. intros Hp -> -> -> Hq Hr. cbn [push_up up down]. destruct (WorkerConn.pc (wst p)); try done.
  - rewrite Hr by done. by rewrite app_nil_r.
  - destruct Hp as [H1 H2]. split; [|done]. by apply Forall_app.
Qed.
Lemma phase_pop p l cn : phase p l cn -> phase p (pop_down l) cn.
Proof.
  unfold phase. cbn [pop_down up down]. destruct (WorkerConn.pc (wst p)); try done. destruct (asked p).
  - intros [(H1 & H2 & H3)|H]; [left|by right]. by rewrite H2.
  - intros (H1 & H2 & H3). by rewrite H2.
Qed.

Lemma sound_ask i tc c c' : sound c -> ask i tc c = Some c' -> sound c'.
Proof.
  intros Hs (p & Ep & Epc & Ea & ->)%ask_inv.
  destruct (s_peers _ Hs _ _ Ep) as [Hv Ha]. apply (sound_with_peer _ p); [done..|by left|done|].
  cbn [socket wst]. destruct (socket p) as [k|] eqn:Es; [|by unfold attached in Ha; rewrite Es in Ha].
  split; [done|]. intros l cn Hor _ Hp. split; [done|]. unfold phase in *. cbn. rewrite Epc in *. rewrite Ea in Hp.
  destruct Hp as (-> & -> & Hc). left. split; [by exists tc|done].
Qed.
Lemma sound_local i ev c c' : sound c -> local i ev c = Some c' -> sound c'.
Proof.
  intros Hs (p & Ep & El & ->)%local_inv. destruct (worker_local ev p El) as (Hse & Hco & Hnl & Hk).
  destruct (worker_moves ev p) as [p' out]. cbn [fst snd] in *.
  destruct (s_peers _ Hs _ _ Ep) as [Hv Ha]. apply (sound_with_peer _ p); [done..|by left| |].
  { unfold view_ok. by rewrite Hse, Hnl. }
  destruct Hk as [[-> Hh]|(Hso & Hpc & _ & Has & Hq & Hr)]; [done|].
  rewrite Hso. destruct (socket p) as [k|] eqn:Es; [|unfold attached in Ha; rewrite Es in Ha; by rewrite Hpc].
  split; [done|]. intros l cn Hor _ Hp. rewrite Hse. split; [done|]. by apply (phase_push p).
Qed.
Lemma sound_deliver i ok c c' : sound c -> deliver i ok c = Some c' -> sound c'.
Proof.
  intros Hs (p & k & l & x & ev & Ep & Es & El & Ex & Ea & ->)%deliver_inv.
  destruct (worker_reads _ _ _ _ Ea) as (Hse & Hco & Hr). destruct (worker_moves ev p) as [p' out]. cbn [fst snd] in *.
  destruct (s_peers _ Hs _ _ Ep) as [Hv Hat]. unfold attached in Hat. rewrite Es in Hat.
  destruct Hat as (l' & cn & El' & Ec & Ho & Hor & Hp). rewrite El in El'. injection El' as <-.
  destruct (ordered_read _ _ _ _ Ex Hor) as (Hle & Hst & Hor').
  assert (WorkerConn.pc (wst p) = WorkerConn.AtRegister \/ WorkerConn.pc (wst p) = WorkerConn.InMessages) as Hpc.
  { unfold arrival in Ea. destruct (WorkerConn.pc (wst p)); try done; auto. }
  apply (sound_with_peer _ p); [done..|by right| |].
  - unfold view_ok, read_stamp. cbn [seen wst]. destruct Hpc as [E|E]; rewrite E in Hr |- *.
    + by destruct Hr as (-> & _).
    + destruct Hr as (_ & _ & ->). destruct Hst as [_ Hst]. destruct (x.2); rewrite ?Hse; done.
  - unfold read_stamp. cbn [socket wst seen]. destruct Hpc as [E|E]; rewrite E in Hr |- *.
    + destruct Hr as (_ & -> & [[-> Hh]|[Hso Hin]]); [done|]. rewrite Hso, Es. split; [done|].
      intros l0 cn0 Hor0 El0 Hp0. split; [by apply ordered_tail|].
      rewrite El in El0. injection El0 as <-. unfold phase in *. rewrite E in Hp0. cbn. rewrite Hin.
      assert (down l <> []) as Hne by (by destruct (down l)).
      destruct (asked p); [|by destruct Hp0 as (_ & ? & _)]. destruct Hp0 as [(_ & ? & _)|[-> Hc]]; [done|].
      by split.
    + destruct Hr as (_ & Hk & _). destruct Hk as [[-> Hh]|(Hso & Hpc' & Hco' & Has & Hq & Hrr)]; [done|].
      rewrite Hso, Es. split; [done|]. intros l0 cn0 Hor0 El0 Hp0. rewrite El in El0. injection El0 as <-. split.
      * destruct (ordered_read _ _ _ _ Ex Hor0) as (_ & _ & H2).
        destruct (x.2); rewrite ?Hse; try done; by apply ordered_tail.
      * by apply (phase_push p); [apply phase_pop|..].
Qed.

Lemma sound_outsider_sends c k m l : sound c -> links c !! k = Some l -> owner l = None ->
  sound (MkCluster (main c) (alter (push_up [m]) k (links c)) (peers c) (history c)).
Proof.
  intros [Hlen Hh Hl Hp] El Ho. split; cbn [main links peers history].
  - by rewrite length_alter.
  - done.
  - intros j l'. destruct (decide (k = j)) as [<-|Hj]; [|rewrite list_lookup_alter_ne by done; apply Hl].
    rewrite list_lookup_alter_eq, El. intros [= <-]. apply (ordered_same_down _ _ l); [done|]. by apply (Hl k).
  - intros i p Hi. destruct (Hp i p Hi) as [Hv Ha]. split; [done|]. unfold attached in *. cbn [links main history].
    destruct (socket p) as [j|]; [|done]. destruct Ha as (l' & cn & El' & H). exists l', cn. split; [|done].
    rewrite list_lookup_alter_ne; [done|]. intros ->. rewrite El in El'. injection El' as <-.
    destruct H as (_ & H & _). congruence.
Qed.

Lemma run_move_sound srv m c c' : sound c -> run_move srv m c = Some c' -> sound c'.
Proof.
  intros Hs. destruct m as [i|i tc|i ok|i ev| |k m|k|k ev].
  - by apply sound_dial.
  - by apply sound_ask.
  - by apply sound_deliver.
  - by apply sound_local.
  - intros [= <-]. by apply sound_outsider.
  - intros (l & El & Ho & ->)%outsider_sends_inv. by apply (sound_outsider_sends c k m l).
  - intros (l & cn & m & El & Ec & Em & Hn & H)%main_reads_inv. eapply sound_handled; [done|by right|done|].
    intros p l0 cn0 cn' n' out s Ec0 El0 Hp Hh sent _. simplify_eq. by eapply phase_main_reads.
  - intros (cn & Ec & Hn & H)%main_acts_inv. eapply sound_handled; [done|by left|done|].
    intros p l0 cn0 cn' n' out s Ec0 El0 Hp Hh sent Hsent. simplify_eq. by eapply phase_main_acts.
Qed.
Lemma run_moves_app srv ms1 ms2 c :
  run_moves srv (ms1 ++ ms2) c = (c ← run_moves srv ms1 c; run_moves srv ms2 c).
Proof.
  revert c. induction ms1 as [|m ms1 IH]; intros c; [done|]. cbn [app run_moves].
  destruct (run_move srv m c); [|done]. apply IH.
Qed.
Lemma run_moves_sound srv ms c c' : sound c -> run_moves srv ms c = Some c' -> sound c'.
Proof.
  revert c. induction ms as [|m ms IH]; intros c Hs; cbn [run_moves]; [by intros [= <-]|].
  destruct (run_move srv m c) as [c1|] eqn:E; [|done]. cbn [mbind option_bind]. apply IH.
  by eapply run_move_sound.
Qed.

(** * What a worker may conclude from its list *)

(** ** Views are snapshots and never go back *)
Lemma with_peer_lookup i p sent f c j :
  peers (with_peer i p sent f c) !! j = if decide (i = j) then (fun _ => p) <$> peers c !! j else peers c !! j.
Proof.
  cbn. case_decide as Hij; [|by rewrite list_lookup_insert_ne]. subst j.
  destruct (peers c !! i) as [q|] eqn:E; cbn.
  - rewrite list_lookup_insert_eq; [done|]. by eapply lookup_lt_Some.
  - apply lookup_ge_None in E. apply lookup_ge_None. by rewrite length_insert.
Qed.
(** A worker's list is never replaced by an older one, and a worker stays itself. *)
Definition after (p p' : peer) : Prop := (seen p <= seen p')%nat /\ conn p' = conn p.
Lemma with_peer_after i p p' sent f c j q : peers c !! i = Some p -> after p p' -> peers c !! j = Some q ->
  exists q', peers (with_peer i p' sent f c) !! j = Some q' /\ after q q'.
Proof.
  intros Ep Ha Eq. rewrite with_peer_lookup. case_decide as Hij.
  - subst j. rewrite Eq. exists p'. split; [done|]. congruence.
  - exists q. by repeat split.
Qed.
Lemma handled_history srv k ev f c c' : handled srv k ev f c = Some c' ->
  peers c' = peers c /\ history c `prefix_of` history c'.
Proof.
  unfold handled. destruct (Server.conns (main c) !! k); [|done]. cbn [mbind option_bind].
  destruct (Server.handle_connection _ _ _ _) as [[[cn' m] out]|]; [|done]. intros [= <-]. split; [done|].
  by exists [m].
Qed.
Lemma run_move_after srv m c c' j q : sound c -> run_move srv m c = Some c' -> peers c !! j = Some q ->
  (exists q', peers c' !! j = Some q' /\ after q q') /\ history c `prefix_of` history c'.
Proof.
  intros Hs H Eq. destruct m as [i|i tc|i ok|i ev| |k m|k|k ev].
  - apply dial_inv in H as (p & Ep & _ & ->). split; [|done]. cbn [peers].
    destruct (decide (i = j)) as [<-|Hij]; [|rewrite list_lookup_insert_ne by done; eexists; by repeat split].
    rewrite list_lookup_insert_eq by eauto using lookup_lt_Some. rewrite Ep in Eq. injection Eq as <-.
    eexists. split; [done|]. by split; cbn.
  - apply ask_inv in H as (p & Ep & _ & _ & ->). split; [|done]. by eapply with_peer_after.
  - apply deliver_inv in H as (p & k & l & x & ev & Ep & Es & El & Ex & Ea & ->). split; [|done].
    destruct (worker_reads _ _ _ _ Ea) as (Hse & Hco & _). eapply with_peer_after; [done| |done].
    split; cbn [seen conn]; [|done].
    destruct (s_peers _ Hs _ _ Ep) as [_ Hat]. unfold attached in Hat. rewrite Es in Hat.
    destruct Hat as (l' & cn & El' & _ & _ & Hor & _). rewrite El in El'. injection El' as <-.
    destruct (ordered_read _ _ _ _ Ex Hor) as (Hle & _). unfold read_stamp. by destruct (WorkerConn.pc (wst p)), (x.2).
  - apply local_inv in H as (p & Ep & El & ->). destruct (worker_local ev p El) as (Hse & Hco & _). split; [|done].
    eapply with_peer_after; [done| |done]. split; [by rewrite Hse|done].
  - injection H as <-. split; [|done]. exists q. by repeat split.
  - apply outsider_sends_inv in H as (l & _ & _ & ->). split; [|done]. exists q. by repeat split.
  - apply main_reads_inv in H as (l & cn & m & _ & _ & _ & _ & [H1 H2]%handled_history). rewrite H1.
    split; [exists q; by repeat split|done].
  - apply main_acts_inv in H as (cn & _ & _ & [H1 H2]%handled_history). rewrite H1. split; [exists q; by repeat split|done].
Qed.
Lemma run_moves_after srv ms c c' j q : sound c -> run_moves srv ms c = Some c' -> peers c !! j = Some q ->
  (exists q', peers c' !! j = Some q' /\ after q q') /\ history c `prefix_of` history c'.
Proof.
  revert c q. induction ms as [|m ms IH]; intros c q Hs; cbn [run_moves].
  { intros [= <-] Hq. split; [|done]. exists q. by repeat split. }
  destruct (run_move srv m c) as [c1|] eqn:E; [|done]. cbn [mbind option_bind]. intros Hr Hq.
  destruct (run_move_after _ _ _ _ _ _ Hs E Hq) as [(q1 & Hq1 & Ha1) Hh1].
  destruct (IH c1 q1) as [(q2 & Hq2 & Ha2) Hh2]; [by eapply run_move_sound|done..|].
  split; [|by etrans]. exists q2. split; [done|]. destruct Ha1, Ha2. split; [lia|congruence].
Qed.

(** C10: a worker's node list is always a snapshot of the main node's registry,
    and successive lists never go back in time: in every execution - whatever
    connects, is sent, delayed, lost and retried, over however many successive
    connections - the list a worker holds is the listing of some state the
    registry was in, and a list it holds later is the listing of the same
    state or of a later one. *)
Theorem views_never_go_back (srv : Server.cluster_server) (cs : list WorkerConn.connection) (before during : list move)
    (c1 c2 : cluster) (i : nat) (p1 p2 : peer) :
  run_moves srv before (start cs) = Some c1 -> run_moves srv during c1 = Some c2 ->
  peers c1 !! i = Some p1 -> peers c2 !! i = Some p2 ->
  history c1 `prefix_of` history c2 /\ last (history c2) = Some (Server.nodes (main c2)) /\
  exists t1 t2 m1 m2, (t1 <= t2)%nat /\
    history c1 !! t1 = Some m1 /\ list_nodes m1 = Ok (WorkerConn.node_list (wst p1)) /\
    history c2 !! t2 = Some m2 /\ list_nodes m2 = Ok (WorkerConn.node_list (wst p2)).
Proof.
  intros H1 H2 Hp1 Hp2. pose proof (run_moves_sound _ _ _ _ (sound_start cs) H1) as Hs1.
  pose proof (run_moves_sound _ _ _ _ Hs1 H2) as Hs2.
  destruct (run_moves_after _ _ _ _ _ _ Hs1 H2 Hp1) as [(p2' & Hp2' & Hle & _) Hh]. rewrite Hp2 in Hp2'.
  injection Hp2' as <-. destruct (s_peers _ Hs1 _ _ Hp1) as [(m1 & Hm1 & Hv1) _].
  destruct (s_peers _ Hs2 _ _ Hp2) as [(m2 & Hm2 & Hv2) _].
  split; [done|]. split; [apply (s_history _ Hs2)|]. by exists (seen p1), (seen p2), m1, m2.
Qed.

(** ** Only holders of the token are listed *)
Section authentic.
Variable srv : Server.cluster_server.
Variable cs : list WorkerConn.connection.

(** The node that a worker of the cluster registers itself as. *)
Definition genuine (n : node_info) : Prop :=
  exists q, q ∈ cs /\ WorkerConn.token q = Server.expected_token srv /\ node_id n = WorkerConn.worker_id q /\ role n = Worker /\
    endpoints n = WorkerConn.worker_endpoints q /\ metadata n = WorkerConn.worker_metadata q.
(** A registration with the token that is a worker's own. *)
Definition trusted (m : cluster_message) : Prop :=
  match m with
  | Register id r eps meta token tc =>
      token = Server.expected_token srv -> exists q, q ∈ cs /\ m = WorkerConn.register_message q tc
  | _ => True
  end.
(** Nobody else has the token. *)
Definition secret_kept (m : move) : Prop :=
  match m with OutsiderSends _ x => trusted x | _ => True end.

Record authentic (c : cluster) : Prop := Authentic {
  a_peers : conn <$> peers c = cs;
  a_up k l : links c !! k = Some l -> Forall trusted (up l);
  a_history m id n : m ∈ history c -> m !! id = Some n -> genuine n;
}.

Lemma quiet_trusted out : Forall quiet out -> Forall trusted out.
Proof. intros H. eapply Forall_impl; [exact H|]. by intros x [->|[->| ->]]. Qed.
(** What a worker's own step sends is no registration. *)
Lemma worker_sends_trusted ev p : Forall trusted (worker_moves ev p).2.
Proof.
  destruct p as [c [st b pc nl] a so se]. unfold worker_moves, WorkerConn.worker_step. cbn [wst conn WorkerConn.pc].
  destruct pc; repeat case_match; simplify_eq/=; by repeat constructor.
Qed.

Lemma authentic_with_peer i p p' sent f c : authentic c -> peers c !! i = Some p -> conn p' = conn p ->
  Forall trusted sent -> f = id \/ f = pop_down -> authentic (with_peer i p' sent f c).
Proof.
  intros [Hp Hu Hh] Ep Hc Hs Hf. unfold with_peer. rewrite Ep. split; cbn [peers links history].
  - rewrite list_fmap_insert, Hc. rewrite list_insert_id; [done|]. by rewrite list_lookup_fmap, Ep.
  - intros k l. destruct (socket p) as [k0|]; [|apply Hu].
    destruct (decide (k0 = k)) as [<-|Hk]; [|rewrite !list_lookup_alter_ne by done; apply Hu].
    rewrite !list_lookup_alter_eq. destruct (links c !! k0) as [l0|] eqn:El; [|done].
    intros [= <-]. cbn. apply Forall_app. split; [|done]. destruct Hf as [-> | ->]; exact (Hu k0 l0 El).
  - done.
Qed.
Lemma authentic_new_link c n o ps : authentic c -> conn <$> ps = cs ->
  authentic (MkCluster n (links c ++ [Link o [] []]) ps (history c)).
Proof.
  intros [Hp Hu Hh] Hps. split; [done| |done]. cbn. intros k l [H|[_ ->]]%links_new; [by apply (Hu k)|constructor].
Qed.

Lemma registered_genuine ev cn m cn' m' out : Server.expected_token srv <> "" ->
  Server.handle_connection srv ev cn m = Ret (cn', m', out) ->
  (forall x, ev = Server.Message x -> trusted x) -> (forall id n, m !! id = Some n -> genuine n) ->
  forall id n, m' !! id = Some n -> genuine n.
Proof.
  intros Hne H Ht Hm id n Hn.
  apply Server.handle_connection_inv in H as [[_ ->]|[(i & r & eps & meta & token & tc & _ & _ & -> & -> & Htok)|
    (i & x & _ & _ & [-> | ->])]].
  - by apply (Hm id).
  - unfold register in Hn. apply lookup_insert_Some in Hn as [[_ <-]|[_ Hn]]; [|by apply (Hm id)].
    destruct Htok as [?| ->]; [done|]. destruct (Ht _ eq_refl eq_refl) as (q & Hq & E). injection E as -> -> -> -> E.
    by exists q.
  - unfold set_status in Hn. rewrite lookup_alter in Hn. case_decide; [|by apply (Hm id)].
    apply fmap_Some in Hn as (n0 & Hn0 & ->). subst i. destruct (Hm id n0 Hn0) as (q & Hq). by exists q.
  - unfold unregister in Hn. apply lookup_delete_Some in Hn as [_ Hn]. by apply (Hm id).
Qed.
Lemma authentic_handled k ev f c c' : Server.expected_token srv <> "" -> sound c -> authentic c -> f = id \/ f = pop_up ->
  (forall x, ev = Server.Message x -> trusted x) -> handled srv k ev f c = Some c' -> authentic c'.
Proof.
  intros Hne Hs [Hp Hu Hh] Hf Ht. unfold handled. destruct (Server.conns (main c) !! k) as [cn|]; [|done].
  cbn [mbind option_bind]. destruct (Server.handle_connection _ _ _ _) as [[[cn' m] out]|] eqn:E; [|done].
  intros [= <-]. split; cbn [peers links history]; [done| |].
  - intros j l. destruct (decide (k = j)) as [<-|Hj]; [|rewrite !list_lookup_alter_ne by done; apply Hu].
    rewrite !list_lookup_alter_eq. destruct (links c !! k) as [l0|] eqn:El; [|done].
    intros [= <-]. cbn. specialize (Hu k l0 El). destruct Hf as [-> | ->]; [done|]. cbn.
    destruct (up l0); [done|]. by apply Forall_cons in Hu as [_ ?].
  - intros m0 id n [Hin|Hin]%elem_of_app; [by apply Hh|]. apply list_elem_of_singleton in Hin as ->.
    eapply registered_genuine; [done|exact E|done|]. intros id' n'. apply Hh.
    pose proof (s_history _ Hs) as Hlast. apply last_Some in Hlast as [h ->]. apply elem_of_app. right. by left.
Qed.

Lemma run_move_authentic m c c' : Server.expected_token srv <> "" -> secret_kept m -> sound c -> authentic c ->
  run_move srv m c = Some c' -> authentic c'.
Proof.
  intros Hne Hk Hs Ha H. pose proof (a_peers _ Ha) as Hp. destruct m as [i|i tc|i ok|i ev| |k m|k|k ev].
  - apply dial_inv in H as (p & Ep & _ & ->). apply authentic_new_link; [done|]. rewrite list_fmap_insert. cbn.
    rewrite list_insert_id; [done|]. by rewrite list_lookup_fmap, Ep.
  - apply ask_inv in H as (p & Ep & _ & _ & ->).
    eapply authentic_with_peer; [done..| |by left]. constructor; [|constructor]. intros _. exists (conn p).
    split; [|done]. rewrite <- Hp. apply list_elem_of_fmap. exists p. split; [done|]. by eapply list_elem_of_lookup_2.
  - apply deliver_inv in H as (p & k & l & x & ev & Ep & Es & El & Ex & Ea & ->).
    destruct (worker_reads _ _ _ _ Ea) as (_ & Hco & _).
    eapply authentic_with_peer; [done..|apply worker_sends_trusted|by right].
  - apply local_inv in H as (p & Ep & El & ->). destruct (worker_local ev p El) as (_ & Hco & _).
    eapply authentic_with_peer; [done..|apply worker_sends_trusted|by left].
  - injection H as <-. by apply authentic_new_link.
  - apply outsider_sends_inv in H as (l & El & _ & ->). split; cbn [peers links history]; [done| |apply (a_history _ Ha)].
    intros j l'. destruct (decide (k = j)) as [<-|Hj]; [|rewrite !list_lookup_alter_ne by done; apply (a_up _ Ha)].
    rewrite list_lookup_alter_eq, El. intros [= <-]. cbn. apply Forall_app. split; [by apply (a_up _ Ha k)|].
    by constructor; [|constructor].
  - apply main_reads_inv in H as (l & cn & m & El & _ & Em & _ & H).
    eapply authentic_handled; [done..|by right| |exact H]. intros x [= <-]. pose proof (a_up _ Ha k l El) as Hu.
    destruct (up l); [done|]. injection Em as ->. by apply Forall_cons in Hu as [? _].
  - apply main_acts_inv in H as (cn & _ & Hm & H).
    eapply authentic_handled; [done..|by left| |exact H]. intros x ->. by destruct cn.
Qed.
End authentic.

Lemma authentic_start srv cs : authentic srv cs (start cs).
Proof.
  split; cbn.
  - rewrite <- list_fmap_compose. apply list_fmap_id.
  - by intros [] l H.
  - intros m id n Hm Hn. apply list_elem_of_singleton in Hm as ->. unfold new in Hn. by rewrite lookup_empty in Hn.
Qed.
Lemma run_moves_authentic srv cs ms c c' : Server.expected_token srv <> "" -> Forall (secret_kept srv cs) ms -> sound c ->
  authentic srv cs c -> run_moves srv ms c = Some c' -> authentic srv cs c'.
Proof.
  intros Hne Hk. revert c. induction Hk as [|m ms Hm Hms IH]; intros c Hs Ha; cbn [run_moves]; [by intros [= <-]|].
  destruct (run_move srv m c) as [c1|] eqn:E; [|done]. cbn [mbind option_bind].
  apply IH; [by eapply run_move_sound|]. by eapply run_move_authentic.
Qed.

(** C8: whoever is in a worker's list holds the cluster's token: when a token
    is configured and nobody but the cluster's workers registers with it -
    others may connect and send anything else - every node in any worker's
    list, in any execution, is one of the workers configured with that token,
    with exactly the endpoints and the metadata it registered. *)
Theorem listed_nodes_hold_token (srv : Server.cluster_server) (cs : list WorkerConn.connection) (ms : list move)
    (c : cluster) (i : nat) (p : peer) (n : node_info) :
  Server.expected_token srv <> "" -> Forall (secret_kept srv cs) ms ->
  run_moves srv ms (start cs) = Some c -> peers c !! i = Some p -> n ∈ WorkerConn.node_list (wst p) ->
  genuine srv cs n.
Proof.
  intros Hne Hk Hr Hp Hn. pose proof (run_moves_sound _ _ _ _ (sound_start cs) Hr) as Hs.
  pose proof (run_moves_authentic _ _ _ _ _ Hne Hk (sound_start cs) (authentic_start srv cs) Hr) as Ha.
  destruct (s_peers _ Hs _ _ Hp) as [(m & Hm & Hv) _]. injection Hv as Hv. rewrite <- Hv in Hn.
  apply list_elem_of_fmap in Hn as ((id & n') & -> & Hn). apply elem_of_map_to_list in Hn.
  eapply (a_history _ _ _ Ha); [by eapply list_elem_of_lookup_2|exact Hn].
Qed.

(** ** A connected worker can always catch up *)
Lemma main_drains srv k l c id x : links c !! k = Some l -> Server.conns (main c) !! k = Some (Server.Serving id x) ->
  Forall quiet (up l) -> (forall ns, list_nodes (Server.nodes (main c)) = Ok ns -> fits (NodeList ns) = true) ->
  exists c' l' x', run_moves srv (replicate (length (up l)) (MainReads k)) c = Some c' /\
    Server.nodes (main c') = Server.nodes (main c) /\ peers c' = peers c /\
    Server.conns (main c') !! k = Some (Server.Serving id x') /\ links c' !! k = Some l' /\
    (last (up l) = Some ListNodes ->
       exists s ns, last (down l') = Some (s, NodeList ns) /\ list_nodes (Server.nodes (main c)) = Ok ns).
Proof.
  remember (up l) as u eqn:Hu. revert c l x Hu. induction u as [|m u IH]; intros c l x Hu El Ec Hq Hfit.
  { exists c, l, x. by split_and!. }
  apply Forall_cons in Hq as [Hm Hq]. cbn [length replicate run_moves].
  assert (exists x' out, handled srv k (Server.Message m) pop_up c =
    Some (MkCluster (Server.MainNode (Server.nodes (main c)) (<[k := Server.Serving id x']> (Server.conns (main c))))
      (alter (push_down (length (history c)) out) k (alter pop_up k (links c))) (peers c)
      (history c ++ [Server.nodes (main c)])) /\
    (m = ListNodes -> exists ns, out = [NodeList ns] /\ list_nodes (Server.nodes (main c)) = Ok ns)) as (x' & out & Hh & Hout).
  { unfold handled. rewrite Ec. destruct Hm as [->|[->| ->]]; cbn; do 2 eexists; (split; [reflexivity|]); intros E; try done.
    eexists. split; [|done]. by rewrite decide_True by (by apply Hfit). }
  cbn [run_move]. rewrite El. cbn [mbind option_bind]. rewrite Ec. cbn [mbind option_bind]. rewrite <- Hu.
  cbn [head mbind option_bind listens]. rewrite Hh. cbn [mbind option_bind].
  set (c1 := MkCluster _ _ _ _).
  destruct (IH c1 (push_down (length (history c)) out (pop_up l)) x') as (c' & l' & x2 & Hr & Hn & Hp & Hc & Hl & Hlast).
  - cbn. by rewrite <- Hu.
  - cbn. by rewrite !list_lookup_alter_eq, El.
  - cbn. by rewrite list_lookup_insert_eq by eauto using lookup_lt_Some.
  - done.
  - exact Hfit.
  - exists c', l', x2. split_and!; [done..|]. intros Hm'. destruct u as [|m2 u]; [|by apply Hlast].
    injection Hm' as ->. destruct (Hout eq_refl) as (ns & -> & Hns). cbn in Hr. injection Hr as <-. cbn in Hl.
    rewrite !list_lookup_alter_eq, El in Hl. injection Hl as <-. cbn. rewrite last_snoc. by do 2 eexists.
Qed.

Lemma worker_drains srv i k l c p : peers c !! i = Some p -> WorkerConn.pc (wst p) = WorkerConn.InMessages ->
  socket p = Some k -> links c !! k = Some l ->
  exists c' p', run_moves srv (replicate (length (down l)) (Deliver i true)) c = Some c' /\
    Server.nodes (main c') = Server.nodes (main c) /\ peers c' !! i = Some p' /\
    (forall s ns, last (down l) = Some (s, NodeList ns) -> WorkerConn.node_list (wst p') = ns).
Proof.
  remember (down l) as d eqn:Hd. revert c l p Hd. induction d as [|x d IH]; intros c l p Hd Ep Epc Es El.
  { exists c, p. by split_and!. }
  cbn [length replicate run_moves run_move]. unfold deliver. rewrite Ep. cbn [mbind option_bind].
  rewrite Es. cbn [mbind option_bind]. rewrite El. cbn [mbind option_bind]. rewrite <- Hd. cbn [head mbind option_bind].
  unfold arrival. rewrite Epc. cbn [mbind option_bind].
  assert (exists w out, WorkerConn.worker_step (conn p) (WorkerConn.FrameIn x.2 true) (wst p) = (w, out) /\
    WorkerConn.pc w = WorkerConn.InMessages /\ (forall ns, x.2 = NodeList ns -> WorkerConn.node_list w = ns))
    as (w & out & Hw & Hpc & Hns).
  { unfold WorkerConn.worker_step. rewrite Epc. destruct (x.2); do 2 eexists; (split; [reflexivity|]); split; try done.
    by intros ns [= ->]. }
  unfold worker_moves. rewrite Hw, Epc, Hpc. cbn [holds].
  set (c1 := with_peer _ _ _ _ _). destruct (IH c1 (push_up out (pop_down l)) (Peer (conn p) w (asked p) (Some k) (read_stamp p x)))
    as (c' & p' & Hr & Hn & Hp & Hlast).
  - cbn. by rewrite <- Hd.
  - unfold c1. rewrite with_peer_lookup, decide_True, Ep by done. cbn. unfold read_stamp. by rewrite Epc, Es.
  - done.
  - done.
  - unfold c1, with_peer. cbn. by rewrite Ep, Es, !list_lookup_alter_eq, El.
  - exists c', p'. split_and!; [done|done|done|]. intros s ns Hl. destruct d as [|y d]; [|by apply (Hlast s)].
    injection Hl as ->. cbn in Hr. injection Hr as <-. unfold c1 in Hp. rewrite with_peer_lookup, decide_True, Ep in Hp by done.
    injection Hp as <-. cbn. by apply Hns.
Qed.

(** The moves with which a worker refreshes its list. *)
Definition refreshes (i k : nat) (m : move) : Prop :=
  m = Local i (WorkerConn.SyncTick true) \/ m = MainReads k \/ m = Deliver i true.

(** C26: a worker that is connected and served can always catch up: from any
    reachable state, one tick of its timer and the delivery of what is in
    flight on its own connection - whatever that is - make its list the
    listing of the main node's registry, which these moves do not change,
    provided that listing can be encoded in one frame. *)
Theorem list_can_be_refreshed (srv : Server.cluster_server) (cs : list WorkerConn.connection) (before : list move)
    (c : cluster) (i k : nat) (p : peer) (node : string) (x : Z) :
  run_moves srv before (start cs) = Some c ->
  peers c !! i = Some p -> WorkerConn.pc (wst p) = WorkerConn.InMessages -> socket p = Some k ->
  Server.conns (main c) !! k = Some (Server.Serving node x) ->
  (forall ns, list_nodes (Server.nodes (main c)) = Ok ns -> fits (NodeList ns) = true) ->
  exists ms c' p', Forall (refreshes i k) ms /\ run_moves srv ms c = Some c' /\
    Server.nodes (main c') = Server.nodes (main c) /\ peers c' !! i = Some p' /\
    list_nodes (Server.nodes (main c')) = Ok (WorkerConn.node_list (wst p')).
Proof.
  intros Hr Ep Epc Es Ec Hfit. pose proof (run_moves_sound _ _ _ _ (sound_start cs) Hr) as Hs.
  destruct (s_peers _ Hs _ _ Ep) as [_ Ha]. unfold attached in Ha. rewrite Es in Ha.
  destruct Ha as (l & cn & El & Ec' & _ & _ & Hph). rewrite Ec in Ec'. injection Ec' as <-.
  unfold phase in Hph. rewrite Epc in Hph. destruct Hph as [Hq _].
  assert (local i (WorkerConn.SyncTick true) c = Some (with_peer i p [ListNodes] id c)) as Hl.
  { unfold local. rewrite Ep. cbn [mbind option_bind is_local].
    assert (worker_moves (WorkerConn.SyncTick true) p = (p, [ListNodes])) as ->; [|done].
    destruct p as [c0 [st b pc nl] a so se]. cbn in *. by subst. }
  set (c1 := with_peer i p [ListNodes] id c) in *.
  assert (links c1 !! k = Some (push_up [ListNodes] l)) as El1.
  { unfold c1, with_peer. cbn. by rewrite Ep, Es, !list_lookup_alter_eq, El. }
  destruct (main_drains srv k (push_up [ListNodes] l) c1 node x) as (c2 & l2 & x2 & Hr2 & Hn2 & Hp2 & Hc2 & El2 & Hl2);
    [done|done|cbn; apply Forall_app; split; [done|by apply quiet_one; right; right]|exact Hfit|].
  destruct Hl2 as (s & ns & Hlast & Hns); [apply last_snoc|].
  assert (peers c2 !! i = Some p) as Ep2.
  { rewrite Hp2. unfold c1. by rewrite with_peer_lookup, decide_True, Ep. }
  destruct (worker_drains srv i k l2 c2 p Ep2 Epc Es El2) as (c3 & p3 & Hr3 & Hn3 & Ep3 & Hv).
  eexists (Local i (WorkerConn.SyncTick true) ::
    replicate (length (up (push_up [ListNodes] l))) (MainReads k) ++ replicate (length (down l2)) (Deliver i true)), c3, p3.
  split_and!.
  - constructor; [by left|]. apply Forall_app. split; apply Forall_replicate; unfold refreshes; auto.
  - cbn [run_moves run_move]. rewrite Hl. cbn [mbind option_bind]. rewrite run_moves_app, Hr2. exact Hr3.
  - rewrite Hn3, Hn2. done.
  - done.
  - rewrite Hn3, Hn2. rewrite (Hv _ _ Hlast). done.
Qed.

(** ** Every execution of the system is one of each part *)
Lemma server_steps_snoc srv ss s w0 w w' :
  Server.run_steps srv ss w0 = Ret w -> Server.run_step srv s w = Ret w' ->
  Server.run_steps srv (ss ++ [s]) w0 = Ret w'.
Proof. intros H1 H2. rewrite Server.run_steps_app, H1. cbn. rewrite H2. done. Qed.
Lemma handled_server srv k ev f c c' : handled srv k ev f c = Some c' ->
  Server.run_step srv (Server.Event k ev) (main c) = Ret (main c').
Proof.
  unfold handled. cbn [Server.run_step]. destruct (Server.conns (main c) !! k); [|done]. cbn [mbind option_bind].
  destruct (Server.handle_connection _ _ _ _) as [[[cn' m] out]|]; [|done]. by intros [= <-].
Qed.
Lemma run_move_main srv m c c' : run_move srv m c = Some c' ->
  main c' = main c \/ exists s, Server.run_step srv s (main c) = Ret (main c').
Proof.
  intros H. destruct m as [i|i tc|i ok|i ev| |k m|k|k ev].
  - apply dial_inv in H as (p & _ & _ & ->). right. by exists Server.Accept.
  - apply ask_inv in H as (p & _ & _ & _ & ->). by left.
  - apply deliver_inv in H as (p & k & l & x & ev & _ & _ & _ & _ & _ & ->). by left.
  - apply local_inv in H as (p & _ & _ & ->). by left.
  - injection H as <-. right. by exists Server.Accept.
  - apply outsider_sends_inv in H as (l & _ & _ & ->). by left.
  - apply main_reads_inv in H as (l & cn & m & _ & _ & _ & _ & H). right. eexists. by eapply handled_server.
  - apply main_acts_inv in H as (cn & _ & _ & H). right. eexists. by eapply handled_server.
Qed.
Lemma worker_moves_run ev p : wst (worker_moves ev p).1 = WorkerConn.run_worker (conn p) [ev] (wst p).
Proof. unfold worker_moves. cbn. by destruct (WorkerConn.worker_step _ _ _). Qed.
Lemma run_move_worker srv m c c' i p' : run_move srv m c = Some c' -> peers c' !! i = Some p' ->
  exists p evs, peers c !! i = Some p /\ conn p' = conn p /\ wst p' = WorkerConn.run_worker (conn p) evs (wst p).
Proof.
  intros H Hp'.
  assert (forall j q q' sent f, peers c !! j = Some q -> c' = with_peer j q' sent f c -> conn q' = conn q ->
    (exists evs, wst q' = WorkerConn.run_worker (conn q) evs (wst q)) ->
    exists p evs, peers c !! i = Some p /\ conn p' = conn p /\ wst p' = WorkerConn.run_worker (conn p) evs (wst p)) as Hw.
  { intros j q q' sent f Hq -> Hc [evs He]. rewrite with_peer_lookup in Hp'. case_decide as Hj; [|by exists p', []].
    subst j. rewrite Hq in Hp'. injection Hp' as <-. by exists q, evs. }
  destruct m as [j|j tc|j ok|j ev| |k m|k|k ev].
  - apply dial_inv in H as (p & Ep & Hpc & ->). cbn [peers] in Hp'. clear Hw.
    apply list_lookup_insert_Some in Hp' as [(-> & <- & _)|(_ & Hp')]; [|by exists p', []].
    exists p, [WorkerConn.ConnectAnswer (Ok tt)]. split_and!; [done..|]. cbn. unfold WorkerConn.worker_step. by rewrite Hpc.
  - apply ask_inv in H as (p & Ep & _ & _ & ->). eapply Hw; [done..|by exists []].
  - apply deliver_inv in H as (p & k & l & x & ev & Ep & _ & _ & _ & Ea & ->).
    destruct (worker_reads _ _ _ _ Ea) as (_ & Hc & _). eapply Hw; [done..|]. exists [ev]. apply worker_moves_run.
  - apply local_inv in H as (p & Ep & El & ->). destruct (worker_local _ p El) as (_ & Hc & _).
    eapply Hw; [done..|]. exists [ev]. apply worker_moves_run.
  - injection H as <-. by exists p', [].
  - apply outsider_sends_inv in H as (l & _ & _ & ->). by exists p', [].
  - apply main_reads_inv in H as (l & cn & m & _ & _ & _ & _ & [Hq _]%handled_history). rewrite Hq in Hp'. by exists p', [].
  - apply main_acts_inv in H as (cn & _ & _ & [Hq _]%handled_history). rewrite Hq in Hp'. by exists p', [].
Qed.

(** The cluster is made of its parts: what the main node does in an
    execution of the system is an execution of [Server], and what a worker
    does one of [WorkerConn] from the state in which its task starts, so that
    everything proved of them alone holds of them together. *)
Theorem executions_project (srv : Server.cluster_server) (cs : list WorkerConn.connection) (ms : list move) (c : cluster) :
  run_moves srv ms (start cs) = Some c ->
  (exists ss, Server.run_steps srv ss (Server.MainNode new []) = Ret (main c)) /\
  forall i p, peers c !! i = Some p ->
    cs !! i = Some (conn p) /\ exists evs, wst p = WorkerConn.run_worker (conn p) evs WorkerConn.spawn_background.
Proof.
  revert c. induction ms as [|m ms IH] using rev_ind; intros c.
  { intros [= <-]. split; [by exists []|]. intros i p. cbn. rewrite list_lookup_fmap.
    intros (q & -> & ->)%fmap_Some. split; [done|by exists []]. }
  rewrite run_moves_app. destruct (run_moves srv ms (start cs)) as [c1|]; [|done]. cbn [mbind option_bind].
  cbn [run_moves]. destruct (run_move srv m c1) as [c2|] eqn:E; [|done]. cbn [mbind option_bind]. intros [= <-].
  destruct (IH c1 eq_refl) as [[ss Hss] Hw]. split.
  - destruct (run_move_main _ _ _ _ E) as [-> |[s Hs]]; [by exists ss|]. exists (ss ++ [s]). by eapply server_steps_snoc.
  - intros i p Hp. destruct (run_move_worker _ _ _ _ _ _ E Hp) as (q & evs & Hq & Hc & He).
    destruct (Hw i q Hq) as [Hcs [evs0 Hq0]]. rewrite Hc. split; [done|]. exists (evs0 ++ evs).
    by rewrite WorkerConn.run_worker_app, <- Hq0.
Qed.

End system.

(** * Two workers, one of which has guessed the token, and an intruder *)
Module ClusterExamples.
Import WorkerConn.
Definition main_server : Server.cluster_server := Server.server_new "secret" 5.
Definition w1 : connection := WorkerConn.new "u1" (Config "w1" "main:9000" "secret" 5) [Endpoint "http" "w1:80"] {[ "service_type" := "web" ]}.
Definition w2 : connection := WorkerConn.new "u2" (Config "w2" "main:9000" "guess" 5) [] ∅.
Definition registers_and_syncs : list move :=
  [Dial 0; Ask 0 None; Outsider; OutsiderSends 1 (Register "evil" Worker [] ∅ "hunter2" None); MainReads 1;
   MainReads 0; Deliver 0 true; Local 0 (SyncTick true); MainReads 0; Deliver 0 true].
Definition second_worker : list move :=
  [Dial 1; Ask 1 None; MainReads 2; Deliver 1 true; MainActs 0 (Server.Tick true); Local 0 (PingTick true);
   Deliver 0 true; MainReads 0; MainReads 0; Local 0 (SyncTick true); Local 0 StreamEnd].
Definition all_fit (_ : cluster_message) : bool := true.
Definition run_or (c : cluster) (ms : list move) (c0 : cluster) : cluster := default c (run_moves all_fit main_server ms c0).
Definition first : cluster := run_or (start []) registers_and_syncs (start [w1; w2]).
Definition second : cluster := run_or (start []) second_worker first.
Definition peer_of (c : cluster) (i : nat) : peer := default (Peer w1 spawn_background false None 0) (peers c !! i).
Definition entry : node_info := NodeInfo "w1" Worker [Endpoint "http" "w1:80"] {[ "service_type" := "web" ]} Online.

Lemma views_never_go_back_witness :
  node_list (wst (peer_of first 0)) = [entry] /\ pc (wst (peer_of second 1)) = Backoff (from_secs 3) /\
  exists t1 t2, (t1 <= t2)%nat /\ is_Some (history first !! t1) /\ is_Some (history second !! t2).
Proof.
  split; [vm_compute; reflexivity|]. split; [vm_compute; reflexivity|].
  destruct (views_never_go_back all_fit main_server [w1; w2] registers_and_syncs second_worker first second 0
    (peer_of first 0) (peer_of second 0)) as (_ & _ & t1 & t2 & m1 & m2 & Ht & H1 & _ & H2 & _);
    [vm_compute; reflexivity..|]. exists t1, t2. split; [exact Ht|].
  split; [exists m1; exact H1|exists m2; exact H2].
Defined.
Lemma listed_nodes_hold_token_witness : genuine main_server [w1; w2] entry.
Proof.
  refine (listed_nodes_hold_token all_fit main_server [w1; w2] registers_and_syncs first 0 (peer_of first 0) entry _ _ _ _ _).
  - discriminate.
  - repeat constructor. discriminate.
  - vm_compute. reflexivity.
  - vm_compute. reflexivity.
  - vm_compute. left.
Defined.
Lemma list_can_be_refreshed_witness :
  exists ms c' p', Forall (refreshes 0 0) ms /\ run_moves all_fit main_server ms first = Some c' /\
    Server.nodes (main c') = Server.nodes (main first) /\ peers c' !! 0%nat = Some p' /\
    list_nodes (Server.nodes (main c')) = Ok (node_list (wst p')).
Proof.
  refine (list_can_be_refreshed all_fit main_server [w1; w2] registers_and_syncs first 0 0 (peer_of first 0) "w1" 0 _ _ _ _ _ _);
    first [vm_compute; reflexivity | by intros ns _].
Defined.
Lemma executions_project_witness :
  (exists ss, Server.run_steps main_server ss (Server.MainNode ConnectedRegistry.new []) = Ret (main second)) /\
  exists evs, wst (peer_of second 1) = run_worker (conn (peer_of second 1)) evs spawn_background.
Proof.
  destruct (executions_project all_fit main_server [w1; w2] (registers_and_syncs ++ second_worker) second) as [H1 H2];
    [vm_compute; reflexivity|]. split; [exact H1|].
  destruct (H2 1%nat (peer_of second 1)) as [_ H]; [vm_compute; reflexivity|].
  destruct H as [evs He]. exists evs. exact He.
Defined.
End ClusterExamples.
