(* ===== verification/ClusterSuite.v ===== *)
(** The cluster's integration tests
    ([rinfra-plugins/tests/integration_cluster.rs]) as scenarios over
    [ClusterSystem]: the model gives each of their assertions the value that
    the tests expect of the program. *)

From S2P Require Import Prelude Errors Cluster ClusterSystem.

(** * The tests' helpers *)

(** A test runs from a main node with a token; a raw client is a connection
    that no worker opened.  What it sends is read before the test goes on, as
    its answers and its pauses have it. *)
Record fixture : Type := Fixture { server : Server.cluster_server; sys : cluster }.
Definition test (A : Type) : Type := fixture -> option (A * fixture).
#[export] Instance test_ret : MRet test := fun A a s => Some (a, s).
#[export] Instance test_bind : MBind test := fun A B f m s =>
  match m s with Some (a, s) => f a s | None => None end.
Definition move_ (m : move) : test unit := fun s =>
  c ← run_move (fun _ => true) (server s) m (sys s); Some (tt, Fixture (server s) c).
Definition look {A} (f : cluster -> option A) : test A := fun s => a ← f (sys s); Some (a, s).
Definition assert_ (b : bool) : test unit := fun s => if b then Some (tt, s) else None.

(** [start_server_on] *)
Definition start_server_on (t : string) : fixture := Fixture (Server.server_new t 60) (start []).
(** [connect_raw] *)
Definition connect_raw : test nat := k ← look (fun c => Some (length (links c))); _ ← move_ Outsider; mret k.
Definition send (k : nat) (m : cluster_message) : test unit := _ ← move_ (OutsiderSends k m); move_ (MainReads k).
(** [framed.next()]: the answer to what was sent last *)
Definition next (k : nat) : test cluster_message := look (fun c => l ← links c !! k; x ← last (down l); Some x.2).
(** [drop(framed)] *)
Definition drop_ (k : nat) : test unit := move_ (MainActs k Server.NoMessage).
Definition list_nodes_ : test (list node_info) := look (fun c =>
  match ConnectedRegistry.list_nodes (Server.nodes (main c)) with Ok ns => Some ns | Err _ => None end).
Definition get_node_ (id : string) : test node_info := look (fun c =>
  match ConnectedRegistry.get_node id (Server.nodes (main c)) with Ok n => n | Err _ => None end).

(** [register] *)
Definition register_ (k : nat) (node_id token : string) : test bool :=
  _ ← send k (Register node_id Worker [] ∅ token None);
  ack ← next k;
  mret match ack with RegisterAck true _ => true | _ => false end.
Definition passes (t : test unit) (s : fixture) : bool := bool_decide (is_Some (t s)).

(** * The tests *)
Definition test_register_and_list : bool := passes (
  k ← connect_raw; ok ← register_ k "w1" ""; _ ← assert_ ok;
  nodes ← list_nodes_;
  assert_ match nodes with [NodeInfo "w1" Worker _ _ Online] => true | _ => false end) (start_server_on "").
Definition test_deregister : bool := passes (
  k ← connect_raw; ok ← register_ k "w1" ""; _ ← assert_ ok;
  nodes ← list_nodes_; _ ← assert_ (length nodes =? 1)%nat;
  _ ← send k (Deregister "w1" None);
  nodes ← list_nodes_; assert_ (length nodes =? 0)%nat) (start_server_on "").
Definition test_multiple_workers : bool := passes (
  f1 ← connect_raw; f2 ← connect_raw;
  ok ← register_ f1 "w1" ""; _ ← assert_ ok;
  ok ← register_ f2 "w2" ""; _ ← assert_ ok;
  nodes ← list_nodes_; assert_ (length nodes =? 2)%nat) (start_server_on "").
Definition test_auth_rejects_wrong_token : bool := passes (
  k ← connect_raw;
  _ ← send k (Register "bad" Worker [] ∅ "wrong-token" None);
  ack ← next k;
  assert_ match ack with RegisterAck false (Some e) => contains "invalid token" e | _ => false end) (start_server_on "correct-token").
Definition test_auth_accepts_valid_token : bool := passes (
  k ← connect_raw; ok ← register_ k "auth-w1" "secret"; _ ← assert_ ok;
  nodes ← list_nodes_; assert_ (bool_decide (node_id <$> nodes = ["auth-w1"]))) (start_server_on "secret").
Definition test_empty_token_skips_auth : bool := passes (
  k ← connect_raw; ok ← register_ k "w1" "any-token"; _ ← assert_ ok;
  nodes ← list_nodes_; assert_ (length nodes =? 1)%nat) (start_server_on "").
Definition test_disconnect_sets_offline : bool := passes (
  k ← connect_raw; ok ← register_ k "w1" ""; _ ← assert_ ok;
  nodes ← list_nodes_; _ ← assert_ (bool_decide (Cluster.status <$> nodes = [Online]));
  _ ← drop_ k;
  node ← get_node_ "w1"; assert_ (bool_decide (Cluster.status node = Offline))) (start_server_on "").
Definition test_ping_pong : bool := passes (
  k ← connect_raw; ok ← register_ k "w1" ""; _ ← assert_ ok;
  _ ← send k Ping; resp ← next k;
  assert_ match resp with Pong => true | _ => false end) (start_server_on "").
Definition suite : list (string * bool) :=
  [("test_register_and_list", test_register_and_list); ("test_deregister", test_deregister);
   ("test_multiple_workers", test_multiple_workers); ("test_auth_rejects_wrong_token", test_auth_rejects_wrong_token);
   ("test_auth_accepts_valid_token", test_auth_accepts_valid_token);
   ("test_empty_token_skips_auth", test_empty_token_skips_auth);
   ("test_disconnect_sets_offline", test_disconnect_sets_offline); ("test_ping_pong", test_ping_pong)].

(** The suite passes on the model. *)
Theorem cluster_suite_passes : Forall (fun t => t.2 = true) suite.
Proof. repeat constructor. Qed.
