(* ===== verification/UnitSuites.v ===== *)
(** Unit tests of the repository as scenarios over the models they test: the
    circuit breaker, the retry policy, the in-memory lock, specifications,
    database values, error codes and the in-memory bus.  Each test is the
    conjunction of its assertions, in the order in which the source makes them;
    where it reads a clock, the readings are arguments.  The tests of serde's
    derived formats are with [Serde] and [Config], not here. *)

From S2P Require Import Prelude Errors Tcp Resilience Lock Store Mq.

Definition all_hold (asserts : list bool) : bool := forallb id asserts.
(** [unwrap] in a test: a panic or an error fails it. *)
Definition run_outcome {A} (o : outcome A) (k : A -> bool) : bool := match o with Ret a => k a | Panic _ => false end.
Definition unwrap {A} (r : Result A) (k : A -> bool) : bool := match r with Ok a => k a | Err _ => false end.

(** * [resilience/circuit_breaker.rs] *)
Module BreakerSuite.
Import CircuitBreaker.

Definition test_config : config := Config 3 2 1.
Definition fails (n : nat) : list call := replicate n (CallFailure 0).
Definition state_is (cfg : config) (now : Z) (cs : list call) (s : circuit_state) : bool :=
  run_outcome (run_calls cfg cs new) (fun b => bool_decide ((state cfg now b).1 = s)).
Definition allows (cfg : config) (now : Z) (cs : list call) : bool :=
  run_outcome (run_calls cfg cs new) (fun b => (allow_request cfg now b).1).

Definition test_initial_state_is_closed : bool :=
  all_hold [state_is test_config 0 [] Closed; allows test_config 0 []].
Definition test_trips_after_threshold : bool :=
  all_hold [state_is test_config 0 (fails 2) Closed; state_is test_config 0 (fails 3) Open;
            negb (allows test_config 0 (fails 3))].
Definition test_success_resets_failure_count : bool :=
  state_is test_config 0 (fails 2 ++ [CallSuccess] ++ fails 2) Closed.
Definition immediate : config := Config 3 2 0.
Definition test_half_open_after_duration : bool := state_is immediate 0 (fails 3) HalfOpen.
Definition test_half_open_success_closes : bool :=
  let now := from_millis 10 in
  all_hold [state_is immediate now (fails 3) HalfOpen;
            state_is immediate now (fails 3 ++ [CallState now; CallSuccess; CallSuccess]) Closed].
Definition test_half_open_failure_reopens : bool :=
  let cfg := Config 3 2 60 in let cfg2 := Config 1 2 0 in
  all_hold [state_is cfg 0 (fails 3) Open; state_is cfg2 0 (fails 1) HalfOpen;
            allows cfg2 0 (fails 1 ++ [CallState 0; CallFailure 0])].
Definition test_reset : bool :=
  all_hold [state_is test_config 0 (fails 3) Open; state_is test_config 0 (fails 3 ++ [CallState 0; CallReset]) Closed;
            allows test_config 0 (fails 3 ++ [CallState 0; CallReset; CallState 0])].
Definition test_config_default : bool :=
  all_hold [failure_threshold default_config =? 5; success_threshold default_config =? 2;
            open_duration_secs default_config =? 30].
Definition suite : list bool :=
  [test_initial_state_is_closed; test_trips_after_threshold; test_success_resets_failure_count;
   test_half_open_after_duration; test_half_open_success_closes; test_half_open_failure_reopens; test_reset;
   test_config_default].
End BreakerSuite.

(** * [resilience/retry.rs] *)
Module RetrySuite.
Import Retry.
Definition delay_is (p : policy) (attempt ms : Z) : bool := delay_for_attempt p attempt =? from_millis ms.
Definition test_fixed_delay : bool :=
  let p := fixed 3 500 in all_hold [delay_is p 0 500; delay_is p 1 500; delay_is p 2 500].
Definition test_exponential_delay : bool :=
  let p := exponential 5 100 2000 in
  all_hold [delay_is p 0 100; delay_is p 1 200; delay_is p 2 400; delay_is p 3 800; delay_is p 4 1600; delay_is p 5 2000].
Definition test_exhausted : bool :=
  let p := fixed 3 100 in all_hold [negb (exhausted p 1); negb (exhausted p 2); exhausted p 3; exhausted p 4].
Definition test_default : bool :=
  all_hold [max_attempts default_policy =? 3; match strat default_policy with Exponential _ _ => true | _ => false end].
Definition suite : list bool := [test_fixed_delay; test_exponential_delay; test_exhausted; test_default].
End RetrySuite.

(** * [lock/memory.rs] *)
Module LockSuite.
Import InMemoryLock.

(** [try_acquire(..).await.unwrap()] *)
Definition acquires (now : Z) (uuid key : string) (ttl : Z) (l : in_memory_lock)
    (k : option lock_handle -> in_memory_lock -> bool) : bool :=
  run_outcome (try_acquire now 0 uuid key ttl l) (fun '(r, l) => unwrap r (fun h => k h l)).
(** [.unwrap()] on its handle *)
Definition held (now : Z) (uuid key : string) (ttl : Z) (l : in_memory_lock)
    (k : lock_handle -> in_memory_lock -> bool) : bool :=
  acquires now uuid key ttl l (fun h l => match h with Some h => k h l | None => false end).
Definition released (h : lock_handle) (l : in_memory_lock) (k : bool -> in_memory_lock -> bool) : bool :=
  unwrap (release h l).1 (fun b => k b (release h l).2).

Definition test_try_acquire_and_release : bool :=
  held 0 "u1" "key1" 10 new (fun h l =>
    String.eqb (handle_key h) "key1" &&
    acquires 0 "u2" "key1" 10 l (fun h2 l => negb (bool_decide (is_Some h2)) &&
      released h l (fun b l => b && acquires 0 "u3" "key1" 10 l (fun h3 _ => bool_decide (is_Some h3))))).
Definition test_different_keys : bool :=
  held 0 "u1" "a" 10 new (fun _ l => held 0 "u2" "b" 10 l (fun _ _ => true)).
Definition test_expired_lock_reacquirable : bool :=
  held 0 "u1" "exp" 0 new (fun _ l => acquires (from_millis 10) "u2" "exp" 10 l (fun h2 _ => bool_decide (is_Some h2))).
(** The waiter starts at 0 and waits; the release comes after 50 ms and wakes it. *)
Definition wait_step (now : Z) (pc : acquire_pc) (l : in_memory_lock) : outcome (acquire_pc * in_memory_lock) :=
  acquire_step now 0 "u2" "wait" 10 pc l.
Definition test_acquire_waits_for_release : bool :=
  held 0 "u1" "wait" 10 new (fun h l =>
    run_outcome (pc ← acquire_start 0 5; r ← wait_step 0 pc l; r ← wait_step 0 r.1 r.2; wait_step 0 r.1 r.2)
      (fun '(pc, l) => match pc with AtWait _ _ _ => true | _ => false end &&
        released h l (fun _ l => run_outcome (r ← wait_step (from_millis 50) pc l; wait_step (from_millis 50) r.1 r.2)
          (fun '(pc, _) => match pc with Finished (Ok h2) => String.eqb (handle_key h2) "wait" | _ => false end)))).
Definition test_acquire_timeout : bool :=
  held 0 "u1" "block" 60 new (fun _ l =>
    run_outcome (pc ← acquire_start 0 0; r ← acquire_step 0 0 "u2" "block" 10 pc l; acquire_step 0 0 "u2" "block" 10 r.1 r.2)
      (fun '(pc, _) => match pc with Finished (Err e) => bool_decide (err_code e = LockAcquireFailed) | _ => false end)).
Definition test_release_wrong_token : bool :=
  held 0 "u1" "owned" 10 new (fun _ l => released (LockHandle "owned" "wrong-token" 0) l (fun b _ => negb b)).
Definition test_extend : bool :=
  held 0 "u1" "ext" 1 new (fun h l =>
    run_outcome (extend 0 h 60 l) (fun '(r, l) => unwrap r (fun b => b &&
      run_outcome (extend 0 (LockHandle "ext" "wrong" 0) 60 l) (fun '(r, _) => unwrap r negb)))).
Definition suite : list bool :=
  [test_try_acquire_and_release; test_different_keys; test_expired_lock_reacquirable; test_acquire_waits_for_release;
   test_acquire_timeout; test_release_wrong_token; test_extend].
End LockSuite.

(** * [store/spec.rs] and [store/value.rs] *)
Module StoreSuite.
Definition clause_is (s : specification) (clause : string) (params : nat) : bool :=
  String.eqb (to_where_clause s 1).1 clause && (length (to_where_clause s 1).2 =? params)%nat.
Definition is_text (v : db_value) (t : string) : bool := match v with Text x => String.eqb x t | _ => false end.
Definition params_are (s : specification) (t : string) : bool :=
  match (to_where_clause s 1).2 with [v] => is_text v t | _ => false end.
Definition test_eq_spec : bool :=
  let s := eq_spec "name" (Text "Alice") in all_hold [clause_is s "name = $1" 1; params_are s "Alice"].
Definition test_like_spec : bool :=
  let s := like_spec "name" "%ali%" in all_hold [clause_is s "name LIKE $1" 1; params_are s "%ali%"].
Definition test_in_spec : bool := clause_is (in_spec "id" [Int 1; Int 2; Int 3]) "id IN ($1, $2, $3)" 3.
Definition test_between_spec : bool := clause_is (between_spec "age" (Int 18) (Int 65)) "age BETWEEN $1 AND $2" 2.
Definition test_and_spec : bool :=
  clause_is (and_spec (eq_spec "name" (Text "Alice")) (eq_spec "age" (Int 30))) "(name = $1) AND (age = $2)" 2.
Definition test_or_spec : bool :=
  clause_is (or_spec (eq_spec "status" (Text "active")) (eq_spec "status" (Text "pending")))
    "(status = $1) OR (status = $2)" 2.
Definition test_nested_spec : bool :=
  clause_is (and_spec (eq_spec "active" (Bool true)) (between_spec "age" (Int 20) (Int 50)))
    "(active = $1) AND (age BETWEEN $2 AND $3)" 3.

Definition reads {T} `{FromDbValue T} (v : db_value) (k : T -> bool) : bool := unwrap (from_db_value v) k.
Definition is_int (v : db_value) (n : Z) : bool := match v with Int x => x =? n | _ => false end.
Definition test_from_db_value_int : bool :=
  all_hold [reads (Int 42) (fun n => i64_value n =? 42); reads (Int 42) (fun n => i32_value n =? 42);
            reads (Int 42) (fun x => SpecFloat.SFeqb x (as_f64 42))].
Definition test_from_db_value_text : bool := reads (Text "hello") (String.eqb "hello").
Definition test_from_db_value_bool : bool :=
  all_hold [reads (T := bool) (Bool true) id; reads (T := bool) (Int 1) id; reads (T := bool) (Int 0) negb].
Definition test_from_db_value_option_some : bool :=
  reads (T := option i64) (Int 10) (fun o => match o with Some n => i64_value n =? 10 | None => false end).
Definition test_from_db_value_option_null : bool :=
  reads (T := option i64) Null (fun o => match o with Some _ => false | None => true end).
Definition test_from_db_value_type_mismatch : bool := negb (reads (T := i64) (Text "not a number") (fun _ => true)).
Definition test_into_db_value : bool :=
  all_hold [is_int (into_db_value (I64 42)) 42; match into_db_value true with Bool b => b | _ => false end;
            is_text (into_db_value "hi") "hi"].
Definition test_into_db_value_option : bool :=
  all_hold [is_int (into_db_value (Some (I64 5))) 5; is_null (into_db_value (None : option i64))].
Definition test_db_value_is_null : bool := all_hold [is_null Null; negb (is_null (Int 0))].
Definition suite : list bool :=
  [test_eq_spec; test_like_spec; test_in_spec; test_between_spec; test_and_spec; test_or_spec; test_nested_spec;
   test_from_db_value_int; test_from_db_value_text; test_from_db_value_bool; test_from_db_value_option_some;
   test_from_db_value_option_null; test_from_db_value_type_mismatch; test_into_db_value; test_into_db_value_option;
   test_db_value_is_null].
End StoreSuite.

(** * [error/code.rs] *)
Module ErrorSuite.
Definition as_str_is (c : error_code) (s : string) : bool := String.eqb (as_str c) s.
Definition test_error_code_as_str_returns_upper_snake_case : bool :=
  all_hold [as_str_is PluginAlreadyRegistered "PLUGIN_ALREADY_REGISTERED"; as_str_is PluginInitFailed "PLUGIN_INIT_FAILED";
            as_str_is EventSendFailed "EVENT_SEND_FAILED"; as_str_is Internal "INTERNAL";
            as_str_is InvalidArgument "INVALID_ARGUMENT"].
Definition test_error_code_http_status_mapping : bool :=
  all_hold [http_status PluginAlreadyRegistered =? 409; http_status PluginNotFound =? 404; http_status Internal =? 500;
            http_status InvalidArgument =? 400; http_status PluginShutdownTimeout =? 504].
Definition test_error_code_i18n_key : bool :=
  all_hold [String.eqb (i18n_key PluginNotFound) "error.plugin_not_found"; String.eqb (i18n_key Internal) "error.internal";
            String.eqb (i18n_key RateLimitExceeded) "error.rate_limit_exceeded"].
Definition test_error_code_equality : bool :=
  all_hold [bool_decide (Internal = Internal); negb (bool_decide (Internal = InvalidArgument))].
Definition suite : list bool :=
  [test_error_code_as_str_returns_upper_snake_case; test_error_code_http_status_mapping; test_error_code_i18n_key;
   test_error_code_equality].
End ErrorSuite.

(** * [mq/memory.rs] *)
Module BusSuite.
Import InMemoryBus.

Definition test_config : bus := new 16.
(** [subscribe(..).await.unwrap()]: the channel of the new subscriber *)
Definition subscribed (t : string) (b : bus) (k : nat -> bus -> bool) : bool :=
  run_outcome (subscribe t b) (fun '(p, b') =>
    match p with Returned (Ok _) => k (length (channels b)) b' | _ => false end).
Definition payload_of (s : string) : bytes := String.list_byte_of_string s.
(** [publish(..).await.unwrap()] *)
Definition published (m : message) (b : bus) (k : bus -> bool) : bool :=
  match do_publish m b with (Returned (Ok _), b) => k b | _ => false end.
Definition publish (t body : string) (b : bus) (k : bus -> bool) : bool :=
  published (new_message "id" 0 t (payload_of body)) b k.
Definition received (s : nat) (b : bus) (k : message -> bus -> bool) : bool :=
  match recv s b with (Some m, b) => k m b | _ => false end.
Definition body_is (m : message) (body : string) : bool := String.eqb (String.string_of_list_byte (msg_payload m)) body.

Definition test_publish_subscribe_single : bool :=
  subscribed "topic1" test_config (fun rx b => publish "topic1" "hello" b (fun b => received rx b (fun m _ =>
    all_hold [String.eqb (Mq.topic m) "topic1"; body_is m "hello"; bool_decide (Mq.headers m = ∅)]))).
Definition test_publish_with_headers_preserved : bool :=
  subscribed "t" test_config (fun rx b =>
    published (with_headers "id" 0 "t" (payload_of "data") {[ "key" := "val" ]}) b (fun b => received rx b (fun m _ =>
      bool_decide (Mq.headers m !! "key" = Some "val")))).
Definition test_publish_no_subscribers_ok : bool := publish "empty-topic" "data" test_config (fun _ => true).
Definition test_round_robin_distribution : bool :=
  subscribed "rr" test_config (fun rx1 b => subscribed "rr" b (fun rx2 b =>
    publish "rr" "msg1" b (fun b => publish "rr" "msg2" b (fun b =>
      received rx1 b (fun m1 b => received rx2 b (fun m2 _ => all_hold [body_is m1 "msg1"; body_is m2 "msg2"])))))).
Definition test_message_order_preserved : bool :=
  subscribed "order" test_config (fun rx b =>
    publish "order" "first" b (fun b => publish "order" "second" b (fun b => publish "order" "third" b (fun b =>
      received rx b (fun m1 b => received rx b (fun m2 b => received rx b (fun m3 _ =>
        all_hold [body_is m1 "first"; body_is m2 "second"; body_is m3 "third"]))))))).
Definition test_independent_topics : bool :=
  subscribed "topicA" test_config (fun rx_a b => subscribed "topicB" b (fun rx_b b =>
    publish "topicA" "a-msg" b (fun b => publish "topicB" "b-msg" b (fun b =>
      received rx_a b (fun ma b => received rx_b b (fun mb _ => all_hold [body_is ma "a-msg"; body_is mb "b-msg"])))))).
Definition suite : list bool :=
  [test_publish_subscribe_single; test_publish_with_headers_preserved; test_publish_no_subscribers_ok;
   test_round_robin_distribution; test_message_order_preserved; test_independent_topics].
End BusSuite.

(** The unit tests pass on the models. *)
Theorem unit_suites_pass :
  Forall (fun t => t = true) (BreakerSuite.suite ++ RetrySuite.suite ++ LockSuite.suite ++ StoreSuite.suite ++
    ErrorSuite.suite ++ BusSuite.suite).
Proof. vm_compute. repeat constructor. Qed.
