(* ===== verification/ServiceSuites.v ===== *)
(** Unit tests of the repository as scenarios over the models of the timer
    engine, the file translations, the cluster registry and the configuration
    loader, as [UnitSuites] has them for the smaller components.  A pause is
    steps of the spawned loop with the clock moved on; the documents that
    serde_yaml reads are given as the tests' texts mean them. *)

From S2P Require Import Prelude Errors Lock Timer Cluster I18n Serde Config ConfigLoad UnitSuites.

(** * [timer/simple.rs] and [timer/mod.rs] *)
Module TimerSuite.
Import SimpleTimer.

(** No expression of these tests is a cron expression. *)
Definition parse (e : string) : result string unit := Err "invalid expression".
Definition next (_ : unit) (_ : Z) : option Z := None.
Abbreviation lock_service := InMemoryLock.in_memory_lock.
#[local] Existing Instance InMemoryLock.in_memory_distributed_lock.
Definition default_config : engine := new 4.
Definition wall : Z := from_secs 1700000000.
Definition at_ms (ms : Z) (answer : Result unit) : input := Input (from_millis ms) (wall + from_millis ms) "u" answer.

(** Steps of the loop [j] with the number of times its handler has run. *)
Fixpoint drive (steps : nat) (i : input) (j : nat) (e : engine) (l : lock_service) (fired : nat) :
    outcome (nat * engine) :=
  match steps with
  | O => Ret (fired, e)
  | S steps =>
      let runs := match loops e !! j with
                  | Some lp => match pc lp with InHandler _ => true | _ => false end
                  | None => false
                  end in
      r ← engine_step parse next (DoLoop j i) e l;
      drive steps i j (fst r) (snd r) (if runs then S fired else fired)
  end.
Definition scheduled (t : timer_task) (e : engine) (k : engine -> bool) : bool :=
  run_outcome (schedule parse next wall t e) (fun '(r, e) => unwrap r (fun _ => k e)).
Definition driven (steps : nat) (ms : Z) (answer : Result unit) (e : engine) (k : nat -> engine -> bool) : bool :=
  run_outcome (drive steps (at_ms ms answer) 0 e InMemoryLock.new 0) (fun '(n, e) => k n e).
Definition cancelled (id : string) (e : engine) (k : bool -> engine -> bool) : bool :=
  unwrap (cancel id e).1 (fun b => k b (cancel id e).2).

Definition test_schedule_delay_fires_once : bool :=
  scheduled (new_task "t1" "test-delay" (Delay 0) []) default_config (fun e =>
    driven 30 200 (Ok tt) e (fun fired _ => (fired =? 1)%nat)).
Definition test_schedule_interval_fires_multiple : bool :=
  scheduled (new_task "t1" "test-interval" (Interval 0) []) default_config (fun e =>
    driven 30 300 (Ok tt) e (fun fired e => (2 <=? fired)%nat && cancelled "t1" e (fun _ _ => true))).
Definition test_cancel_stops_task : bool :=
  scheduled (new_task "t1" "test-cancel" (Delay 100) []) default_config (fun e =>
    cancelled "t1" e (fun b e => b && driven 30 200000 (Ok tt) e (fun fired e => (fired =? 0)%nat &&
      cancelled "t1" e (fun b _ => negb b)))).
Definition test_list_tasks : bool :=
  scheduled (new_task "t1" "list-me" (Delay 100) []) default_config (fun e =>
    match list_tasks e with
    | [info] => String.eqb (info_id info) "t1" && String.eqb (info_name info) "list-me"
    | _ => false
    end && unwrap (shutdown e).1 (fun _ => (length (list_tasks (shutdown e).2) =? 0)%nat)).
Fixpoint schedule_many (names : list string) (e : engine) (k : engine -> bool) : bool :=
  match names with
  | [] => k e
  | n :: names => scheduled (new_task n n (Delay 100) []) e (fun e => schedule_many names e k)
  end.
Definition test_shutdown_clears_all : bool :=
  schedule_many ["task-0"; "task-1"; "task-2"; "task-3"; "task-4"] default_config (fun e =>
    (length (list_tasks e) =? 5)%nat && unwrap (shutdown e).1 (fun _ => (length (list_tasks (shutdown e).2) =? 0)%nat)).
Definition test_handler_error_does_not_crash : bool :=
  scheduled (new_task "t1" "fail-task" (Delay 0) []) default_config (fun e =>
    driven 30 200 (fail Internal "boom") e (fun _ e =>
      match list_tasks e with
      | [info] => bool_decide (Timer.status (info_state info) = Failed) && (Timer.run_count (info_state info) =? 1)
      | _ => false
      end)).
Definition fires_in (s : timer_schedule) (d : Z) : bool :=
  unwrap (compute_next_fire parse next s wall) (fun o => bool_decide (o = Some d)).
Definition test_compute_next_fire_invalid_cron : bool :=
  negb (is_ok (compute_next_fire parse next (Cron "bad expr") wall)).
Definition test_compute_next_fire_interval : bool := fires_in (Interval 60) (from_secs 60).
Definition test_compute_next_fire_delay : bool := fires_in (Delay 5) (from_secs 5).
Definition test_compute_next_fire_once_past : bool := fires_in (Once 0) 0.
Definition test_compute_next_fire_once_future : bool :=
  unwrap (compute_next_fire parse next (Once (now_ms wall + 10000)) wall) (fun o =>
    match o with Some d => (as_millis d <=? 10000) && (9000 <=? as_millis d) | None => false end).

Definition test_timer_task_new : bool :=
  let t := new_task "u" "daily-cleanup" (Cron "0 0 3 * * *") (String.list_byte_of_string "{}") in
  all_hold [String.eqb (task_name t) "daily-cleanup"; negb (String.eqb (task_id t) "");
            String.eqb (String.string_of_list_byte (payload t)) "{}"; bool_decide (task_scope t = Node)].
Definition test_timer_task_scope_builder : bool :=
  let t := lock_ttl 600 (with_scope Timer.Cluster (new_task "u" "report" (Interval 3600) [])) in
  all_hold [bool_decide (task_scope t = Timer.Cluster); bool_decide (lock_ttl_secs t = Some 600); effective_lock_ttl t =? 600].
Definition test_timer_task_default_lock_ttl : bool :=
  effective_lock_ttl (with_scope Timer.Cluster (new_task "u" "t" (Delay 1) [])) =? 300.
Definition suite : list bool :=
  [test_schedule_delay_fires_once; test_schedule_interval_fires_multiple; test_cancel_stops_task; test_list_tasks;
   test_shutdown_clears_all; test_handler_error_does_not_crash; test_compute_next_fire_invalid_cron;
   test_compute_next_fire_interval; test_compute_next_fire_delay; test_compute_next_fire_once_past;
   test_compute_next_fire_once_future; test_timer_task_new; test_timer_task_scope_builder;
   test_timer_task_default_lock_ttl].
End TimerSuite.

(** * [i18n/file_i18n.rs] *)
Module I18nSuite.
Import FileI18n.

(** A directory of locales, each with the document that its file is. *)
Definition locale_file (l : string * yaml) : dir_entry := DirEntry (l.1 +:+ ".yaml") (Ok l.1).
Definition reads (ls : list (string * yaml)) (text : string) : result string yaml :=
  match list_find (fun l => l.1 = text) ls with Some (_, l) => Ok l.2 | None => Err "no such document" end.
Definition loaded (ls : list (string * yaml)) (k : file_i18n -> bool) : bool :=
  unwrap (load (fun _ => "") (reads ls) "dir" (Some (Ok (map locale_file ls))) "en") k.
Definition says (i : file_i18n) (key locale text : string) : bool := String.eqb (translate i key locale) text.
Definition entry (k v : string) : yaml * yaml := (YString k, YString v).

Definition test_load_and_translate : bool :=
  loaded [("en", YMapping [entry "greeting" "Hello!"; (YString "errors", YMapping [entry "not_found" "Not found"; entry "unauthorized" "Forbidden"])]);
          ("zh-CN", YMapping [entry "greeting" "你好！"; (YString "errors", YMapping [entry "not_found" "未找到"; entry "unauthorized" "无权限"])])]
    (fun i => all_hold [says i "greeting" "en" "Hello!"; says i "greeting" "zh-CN" "你好！";
                        says i "errors.not_found" "en" "Not found"; says i "errors.unauthorized" "zh-CN" "无权限"]).
Definition test_fallback_to_default_locale : bool :=
  loaded [("en", YMapping [entry "hello" "Hello"; entry "only_en" "English only"]); ("fr", YMapping [entry "hello" "Bonjour"])]
    (fun i => all_hold [says i "hello" "fr" "Bonjour"; says i "only_en" "fr" "English only"]).
Definition test_missing_key_returns_key : bool :=
  loaded [("en", YMapping [entry "a" "value_a"])] (fun i => says i "nonexistent.key" "en" "nonexistent.key").
Definition test_missing_dir_returns_empty : bool :=
  unwrap (load (fun _ => "") (reads []) "/tmp/nonexistent_i18n_dir_xyz" None "en") (fun i =>
    all_hold [(length (locales i) =? 0)%nat; says i "hello" "en" "hello"]).
Definition test_available_locales : bool :=
  let numbered n := YMapping [(YString "a", YNumber n)] in
  loaded [("en", numbered "1"); ("fr", numbered "2"); ("zh-CN", numbered "3")] (fun i =>
    all_hold [(length (locales i) =? 3)%nat; bool_decide ("en" ∈ locales i); bool_decide ("fr" ∈ locales i); bool_decide ("zh-CN" ∈ locales i)]).
Definition test_default_locale : bool :=
  loaded [("en", YMapping [(YString "a", YNumber "1")])] (fun i => String.eqb (default_loc i) "en").
(** The arguments in both orders that the hash map may enumerate them in. *)
Definition test_t_args : bool :=
  loaded [("en", YMapping [entry "welcome" "Welcome, {user}! You have {count} messages."])] (fun i =>
    forallb (fun args => String.eqb (t_args i "welcome" "en" args) "Welcome, Alice! You have 5 messages.")
      [[("user", "Alice"); ("count", "5")]; [("count", "5"); ("user", "Alice")]]).
Definition test_nested_yaml_flattening : bool :=
  loaded [("en", YMapping [(YString "level1", YMapping [(YString "level2", YMapping [entry "level3" "deep value"])]); entry "top" "top value"])]
    (fun i => all_hold [says i "top" "en" "top value"; says i "level1.level2.level3" "en" "deep value"]).
Definition suite : list bool :=
  [test_load_and_translate; test_fallback_to_default_locale; test_missing_key_returns_key; test_missing_dir_returns_empty;
   test_available_locales; test_default_locale; test_t_args; test_nested_yaml_flattening].
End I18nSuite.

(** * [cluster/registry.rs] *)
Module RegistrySuite.
Import ConnectedRegistry.
Definition registered (id : string) : registry -> registry := register id Worker [] ∅.
Definition node_is (id : string) (s : node_status) (m : registry) : bool :=
  unwrap (get_node id m) (fun n => match n with
    | Some n => String.eqb (node_id n) id && bool_decide (Cluster.status n = s)
    | None => false
    end).
Definition test_register_and_get : bool := node_is "n1" Online (registered "n1" new).
Definition test_unregister : bool :=
  unwrap (get_node "n1" (unregister "n1" (registered "n1" new))) (fun n => match n with None => true | Some _ => false end).
Definition test_list_nodes : bool :=
  unwrap (list_nodes (registered "n2" (registered "n1" new))) (fun ns => (length ns =? 2)%nat).
Definition test_set_status : bool := node_is "n1" Draining (set_status "n1" Draining (registered "n1" new)).
Definition suite : list bool := [test_register_and_get; test_unregister; test_list_nodes; test_set_status].
End RegistrySuite.

(** * [config/mod.rs] *)
Module ConfigSuite.
Import Load.
Definition parse_f64 (s : string) : option string := if String.eqb s "3.14" then Some s else None.
Definition default_config : RinfraConfig.t := RinfraConfig.default "consumer".
(** serde_yaml on the two documents of these tests. *)
Definition yaml_config (text : string) : result string RinfraConfig.t :=
  if String.eqb text "hello" then RinfraConfig.of_json "consumer" (JObject [("app", JObject [("name", JString "hello")])])
  else Err "invalid".
Definition overridden (key value : string) : RinfraConfig.t := apply_env_overrides parse_f64 "consumer" [(key, value)] default_config.
Definition fails_with {A} (r : Result A) (c : error_code) : bool :=
  match r with Err e => bool_decide (err_code e = c) | Ok _ => false end.

Definition test_load_from_str_valid_yaml : bool :=
  unwrap (load_from_str yaml_config "hello") (fun c => String.eqb (AppConfig.name (RinfraConfig.app c)) "hello").
Definition test_load_from_str_invalid_yaml_returns_error : bool :=
  fails_with (load_from_str yaml_config "{{invalid yaml") ConfigParseFailed.
Definition test_load_from_file_missing_returns_error : bool :=
  fails_with (load_from_file yaml_config "/nonexistent/rinfra.yaml" (Err "No such file")) ConfigFileMissing.
Definition test_apply_env_overrides : bool :=
  all_hold [String.eqb (AppConfig.name (RinfraConfig.app default_config)) "rinfra-app";
            String.eqb (AppConfig.name (RinfraConfig.app (overridden "RINFRA_APP__NAME" "overridden"))) "overridden"].
Definition test_apply_env_overrides_log_level : bool :=
  String.eqb (StdoutLogConfig.level (LogPluginConfigs.stdout (PluginConfigs.log (RinfraConfig.plugins
    (overridden "RINFRA_PLUGINS__LOG__STDOUT__LEVEL" "trace"))))) "trace".
Definition cluster_mode (c : RinfraConfig.t) : string := ClusterPluginConfigs.mode (PluginConfigs.cluster (RinfraConfig.plugins c)).
Definition test_deep_nested_override_cluster_mode : bool :=
  all_hold [String.eqb (cluster_mode default_config) "standalone";
            String.eqb (cluster_mode (overridden "RINFRA_PLUGINS__CLUSTER__MODE" "cluster")) "cluster"].
Definition test_bool_auto_detection : bool :=
  all_hold [match parse_env_value parse_f64 "true" with JBool b => b | _ => false end;
            match parse_env_value parse_f64 "FALSE" with JBool b => negb b | _ => false end].
Definition test_integer_auto_detection : bool :=
  match parse_env_value parse_f64 "8090" with JNumber n => String.eqb n "8090" | _ => false end.
Definition test_float_auto_detection : bool :=
  match parse_env_value parse_f64 "3.14" with JNumber n => String.eqb n "3.14" | _ => false end.
Definition test_string_fallback : bool :=
  match parse_env_value parse_f64 "hello-world" with JString s => String.eqb s "hello-world" | _ => false end.
Definition test_deep_override_app_name : bool := test_apply_env_overrides.
Definition test_set_nested_creates_intermediate_objects : bool :=
  match get_path (set_nested parse_f64 (JObject []) ["a"; "b"; "c"] "42") ["a"; "b"; "c"] with
  | Some (JNumber n) => String.eqb n "42"
  | _ => false
  end.
Definition suite : list bool :=
  [test_load_from_str_valid_yaml; test_load_from_str_invalid_yaml_returns_error; test_load_from_file_missing_returns_error;
   test_apply_env_overrides; test_apply_env_overrides_log_level; test_deep_nested_override_cluster_mode;
   test_bool_auto_detection; test_integer_auto_detection; test_float_auto_detection; test_string_fallback;
   test_deep_override_app_name; test_set_nested_creates_intermediate_objects].
End ConfigSuite.

(** The unit tests of these services pass on the models. *)
Theorem service_suites_pass :
  Forall (fun t => t = true) (TimerSuite.suite ++ I18nSuite.suite ++ RegistrySuite.suite ++ ConfigSuite.suite).
Proof. vm_compute. repeat constructor. Qed.
