(* ===== verification/SecuritySuites.v ===== *)
(** Unit tests of the repository as scenarios over the models of the admin's
    token store, the JWT middleware, the rotating keys, the response envelopes
    and the two-level cache, as in [UnitSuites].  The libraries are the
    concrete ones that the models' own examples use: a host with an in-memory
    disk, a token decoder that knows the tests' tokens, a cache that keeps
    everything. *)

From S2P Require Import Prelude Errors Tcp Tasks Cache Crypto HttpStack Admin UnitSuites.

(** * [auth/store.rs] of the admin backend *)
Module TokenSuite.
Import TokenStore AdminExamples.

(** A test starts at [load] with no file there, 5000 ms after the epoch. *)
Definition disk : sim := Sim (from_millis 5000) 0 true ∅.
Definition path : string := "rinfra_test/tokens.json".
Abbreviation store := (list token_record * sim)%type.
Definition loaded (h : sim) (k : store -> bool) : bool :=
  run_outcome (run (load path) h) (fun '(r, h) => match r with Ok ts => k (ts, h) | Err _ => false end).
Definition does {A} (t : task store A) (s : store) (k : A -> store -> bool) : bool :=
  run_outcome (run t s) (fun '(a, s) => k a s).
(** [create_token(..).unwrap()] *)
Definition created (r : admin_role) (label : string) (expires : option Z) (s : store)
    (k : string -> token_info -> store -> bool) : bool :=
  does (create_token path r label expires) s (fun x s => match x with Ok (t, i) => k t i s | Err _ => false end).
Definition unwrapped {A} (t : task store (result string A)) (s : store) (k : store -> bool) : bool :=
  does t s (fun x s => match x with Ok _ => k s | Err _ => false end).
Definition verifies (t : string) (s : store) (k : option token_info -> bool) : bool := does (verify t) s (fun o _ => k o).
Definition accepted (t : string) (s : store) : bool := verifies t s (fun o => bool_decide (is_Some o)).
Definition rooted (s : store) : bool := does has_root s (fun b _ => b).
Definition counted (s : store) (n : nat) : bool := does list_tokens s (fun l _ => (length l =? n)%nat).

(** The random part is the host's; its length is not compared. *)
Definition test_generate_token_format : bool :=
  does (generate_token Root) ([], disk) (fun t s => starts_with "rinfra_root_" t &&
    does (generate_token Admin) s (fun t _ => starts_with "rinfra_admin_" t)).
Definition test_hash_and_verify : bool :=
  run_outcome (argon2_hash "rinfra_root_abc123" disk) (fun '(r, _) => match r with
    | Ok h => argon2_verify (H := sim) "rinfra_root_abc123" h && negb (argon2_verify (H := sim) "wrong_token" h)
    | Err _ => false
    end).
Definition test_create_and_verify_token : bool :=
  loaded disk (fun s => created Root "test-root" None s (fun plaintext info s =>
    all_hold [starts_with "rinfra_root_" plaintext; bool_decide (info_role info = Root);
              String.eqb (info_label info) "test-root";
              verifies plaintext s (fun o => match o with Some v => String.eqb (info_id v) (info_id info) | None => false end);
              negb (accepted "wrong_token" s)])).
Definition test_has_root : bool :=
  loaded disk (fun s => negb (rooted s) && created Root "root" None s (fun _ _ s => rooted s)).
Definition test_list_and_delete : bool :=
  loaded disk (fun s => created Admin "a1" None s (fun _ info1 s => created Admin "a2" None s (fun _ _ s =>
    counted s 2 && unwrapped (delete_token path (info_id info1)) s (fun s => counted s 1)))).
Definition test_expired_token_rejected : bool :=
  loaded disk (fun s => created Admin "expired" (Some (5000 - 1000)) s (fun plaintext _ s => negb (accepted plaintext s))).
Definition test_persistence_across_loads : bool :=
  loaded disk (fun s => created Root "persist-test" None s (fun plaintext _ s =>
    loaded s.2 (fun s2 => accepted plaintext s2 && rooted s2))).
Definition test_delete_root_for_rotation : bool :=
  loaded disk (fun s => created Root "root" None s (fun _ _ s => created Admin "admin" None s (fun _ _ s =>
    rooted s && unwrapped (delete_root path) s (fun s => negb (rooted s) && counted s 1)))).
Definition test_role_display : bool :=
  all_hold [String.eqb (role_to_string Root) "root"; String.eqb (role_to_string Admin) "admin"].
Definition suite : list bool :=
  [test_generate_token_format; test_hash_and_verify; test_create_and_verify_token; test_has_root; test_list_and_delete;
   test_expired_token_rejected; test_persistence_across_loads; test_delete_root_for_rotation; test_role_display].
End TokenSuite.

(** * [net/middleware/auth.rs] *)
Module JwtSuite.

Definition test_state : auth_state := AuthState "test-secret" ["/health"; "/public"].
(** A token is the secret it was signed with and how long it is valid from now. *)
Definition make_token (secret : string) (exp_offset : Z) : string :=
  secret +:+ (if exp_offset <? 0 then ".old" else ".new").
Definition decode (secret token : string) (w : unit) : result (jwt_error_kind * string) string :=
  if String.eqb token (secret +:+ ".new") then Ok "user-1"
  else if String.eqb token (secret +:+ ".old") then Err (ExpiredSignature, "ExpiredSignature")
  else Err (OtherJwtError, "InvalidToken").
(** The body is the code of the envelope, which is what the tests read. *)
Definition to_vec (j : json) : option string :=
  match j with JObject (("code", JString c) :: _) => Some c | _ => None end.
Definition test_app : handler (W := unit) (claims := string) :=
  auth_middleware decode to_vec test_state (fun _ => mret (Response 200 [] (Some "ok"))).
Definition oneshot (uri : string) (authorization : option string) (k : response -> bool) : bool :=
  let hs := match authorization with Some v => [("authorization", v)] | None => [] end in
  run_outcome (test_app (Request "GET" uri hs None None) tt) (fun '(r, _) => k r).
Definition refused (authorization : option string) (code : string) : bool :=
  oneshot "/protected" authorization (fun r => (status r =? 401) && bool_decide (body r = Some code)).
Definition passes_through (uri : string) (authorization : option string) : bool := oneshot uri authorization (fun r => status r =? 200).
Definition bearer (t : string) : option string := Some ("Bearer " +:+ t).

Definition test_auth_missing_token_returns_401 : bool := refused None "AUTH_TOKEN_MISSING".
Definition test_auth_invalid_token_returns_401 : bool := refused (bearer "invalid.token.here") "AUTH_TOKEN_INVALID".
Definition test_auth_expired_token_returns_401 : bool := refused (bearer (make_token "test-secret" (-120))) "AUTH_TOKEN_EXPIRED".
Definition test_auth_valid_token_passes : bool := passes_through "/protected" (bearer (make_token "test-secret" 3600)).
Definition test_auth_excluded_path_skips_auth : bool := passes_through "/health" None.
Definition test_auth_excluded_prefix_skips_auth : bool := passes_through "/public/info" None.
Definition test_auth_wrong_secret_returns_invalid : bool :=
  oneshot "/protected" (bearer (make_token "wrong-secret" 3600)) (fun r => status r =? 401).
Definition suite : list bool :=
  [test_auth_missing_token_returns_401; test_auth_invalid_token_returns_401; test_auth_expired_token_returns_401;
   test_auth_valid_token_passes; test_auth_excluded_path_skips_auth; test_auth_excluded_prefix_skips_auth;
   test_auth_wrong_secret_returns_invalid].
End JwtSuite.

(** * [crypto/rotating_provider.rs] *)
Module KeySuite.
Import Rotating.

Definition test_config : provider := new 3.
Definition seeded (name : string) (k : bytes) (p : provider) (f : provider -> bool) : bool := run_outcome (seed_key 0 name k p) f.
Definition rotated_key (name : string) (p : provider) (f : Z -> provider -> bool) : bool :=
  run_outcome (rotate_key 0 [Byte.xff] name p) (fun '(r, p) => unwrap r (fun v => f v p)).
Definition key_is (name : string) (v : option Z) (p : provider) (k : bytes) : bool :=
  unwrap (get_key_versioned name v p) (fun x =>
    String.eqb (String.string_of_list_byte x) (String.string_of_list_byte k)).
Definition test_seed_and_get : bool :=
  let k := [Byte.x01; Byte.x02; Byte.x03] in seeded "master" k test_config (fun p => key_is "master" None p k).
Definition test_get_specific_version : bool :=
  seeded "master" [Byte.x01] test_config (fun p => seeded "master" [Byte.x02] p (fun p =>
    all_hold [key_is "master" (Some 1) p [Byte.x01]; key_is "master" (Some 2) p [Byte.x02]])).
Definition test_get_missing_key : bool := negb (is_ok (get_key_versioned "nope" None test_config)).
Definition test_rotate_key : bool :=
  seeded "master" [Byte.x01] test_config (fun p => rotated_key "master" p (fun v p => (v =? 2) &&
    unwrap (list_versions "master" p) (fun vs => (length vs =? 2)%nat &&
      existsb (fun kv => (kv_version kv =? 2) && kv_is_active kv) vs))).
Definition test_rotate_trims_old_versions : bool :=
  seeded "master" [Byte.x01] test_config (fun p => rotated_key "master" p (fun _ p => rotated_key "master" p (fun _ p =>
    rotated_key "master" p (fun _ p => unwrap (list_versions "master" p) (fun vs => (length vs =? 3)%nat))))).
Definition test_active_version : bool :=
  seeded "master" [Byte.x01] test_config (fun p => unwrap (get_active_version "master" p) (fun v => v =? 1)).
Definition suite : list bool :=
  [test_seed_and_get; test_get_specific_version; test_get_missing_key; test_rotate_key; test_rotate_trims_old_versions;
   test_active_version].
End KeySuite.

(** * [response/mod.rs] *)
Module ResponseSuite.
Definition response_is {T} (r : api_response T) (code message : string) : bool :=
  String.eqb (resp_code r) code && String.eqb (resp_message r) message.
Definition no_data {T} (r : api_response T) : bool := negb (bool_decide (is_Some (resp_data r))).
Definition test_api_response_success : bool :=
  let r := response_success "alice" in all_hold [response_is r "OK" "ok"; bool_decide (resp_data r = Some "alice")].
Definition test_api_response_success_with_message : bool :=
  let r := response_success_with_message 42 "found it" in
  all_hold [response_is r "OK" "found it"; bool_decide (resp_data r = Some 42)].
Definition test_api_response_error : bool :=
  let r := response_error (new_error PluginNotFound "codec-xml not installed") in
  all_hold [response_is r "PLUGIN_NOT_FOUND" "codec-xml not installed"; no_data r].
Definition test_api_response_from_error_code : bool :=
  let r := from_error_code InvalidArgument "name is empty" in
  all_hold [response_is r "INVALID_ARGUMENT" "name is empty"; no_data r].
Definition test_api_response_error_i18n : bool :=
  let t key locale := if String.eqb key "error.internal" && String.eqb locale "zh" then "Internal Server Error" else key in
  let err := new_error Internal "something broke" in
  all_hold [String.eqb (resp_message (error_i18n t err "zh")) "Internal Server Error";
            String.eqb (resp_message (error_i18n t err "en")) "something broke"].
Definition suite : list bool :=
  [test_api_response_success; test_api_response_success_with_message; test_api_response_error;
   test_api_response_from_error_code; test_api_response_error_i18n].
End ResponseSuite.

(** * [cache/multilevel.rs] *)
Module CacheSuite.
Import MemoryCache MultilevelCache.

(** Two memory caches with room for everything, side by side. *)
Abbreviation store := (gmap string bytes * gmap string bytes)%type.
Definition memory : cache (gmap string bytes) := memory_cache (Moka0 := CacheExamples.unbounded).
Definition l1 : cache store := cache_fst memory.
Definition l2 : cache store := cache_snd memory.
Definition ml : cache store := multilevel_cache l1 l2.
Definition empty : store := (∅, ∅).
Definition does {A} (t : task store (Result A)) (s : store) (k : A -> store -> bool) : bool :=
  run_outcome (run t s) (fun '(r, s) => unwrap r (fun a => k a s)).
Definition v1 : bytes := [Byte.x76; Byte.x31].
Definition holds (c : cache store) (v : option bytes) (s : store) : bool :=
  does (get c "k") s (fun o _ => bool_decide (String.string_of_list_byte <$> o = String.string_of_list_byte <$> v)).
Definition test_set_writes_both_levels : bool :=
  does (set ml "k" v1) empty (fun _ s => holds l1 (Some v1) s && holds l2 (Some v1) s).
Definition test_get_l1_hit : bool := does (set l1 "k" v1) empty (fun _ s => holds ml (Some v1) s).
Definition test_get_l1_miss_l2_hit_backfills_l1 : bool :=
  does (set l2 "k" v1) empty (fun _ s => holds ml (Some v1) s && does (get ml "k") s (fun _ s => holds l1 (Some v1) s)).
Definition test_get_miss_both : bool := does (get ml "nope") empty (fun o _ => negb (bool_decide (is_Some o))).
Definition test_delete_from_both : bool :=
  does (set ml "k" v1) empty (fun _ s => does (delete_key ml "k") s (fun _ s => holds l1 None s && holds l2 None s)).
Definition test_exists : bool :=
  does (set l2 "k" v1) empty (fun _ s => does (exists_key ml "k") s (fun b s => b &&
    does (exists_key ml "nope") s (fun b _ => negb b))).
Definition suite : list bool :=
  [test_set_writes_both_levels; test_get_l1_hit; test_get_l1_miss_l2_hit_backfills_l1; test_get_miss_both;
   test_delete_from_both; test_exists].
End CacheSuite.

(** The unit tests of these components pass on the models. *)
Theorem security_suites_pass :
  Forall (fun t => t = true) (TokenSuite.suite ++ JwtSuite.suite ++ KeySuite.suite ++ ResponseSuite.suite ++ CacheSuite.suite).
Proof. vm_compute. repeat constructor. Qed.
