(* ===== verification/RpcSystem.v ===== *)
(** Remote calls end to end: the multiplexing client of [Trpc.Client], the
    connection as two streams of bytes, and the stand-alone server's task that
    answers it, with the services' state that other connections change too
    ([rinfra-plugins/src/rpc/trpc/{client,protocol,server}.rs]).

    Everything is made of the parts in [Trpc]: an [ask] puts a frame in the
    write channel, the write loop prints it on the stream, the server's task
    reads it, calls the service and prints the answer, the read loop hands it
    to the [ask].  The theorems say what a caller may conclude. *)

From S2P Require Import Prelude Errors Resilience Tcp Trpc.
Import Protocol Client.

(** * The system *)
Section system.
Context {W : Type}.

(** The client, the bytes in flight in both directions, whether the server's
    task serves the connection, and the state of the services.  [calls], the
    frames served with the state in which each was, and [sent], what has been
    printed for every frame, record the past; no move depends on them. *)
Record rpc : Type := Rpc {
  caller_end : client;
  to_server : bytes;
  to_client : bytes;
  serving : bool;
  world : W;
  calls : list (W * frame);
  sent : list bytes;
}.
Definition accepted (w : W) : rpc := Rpc connected [] [] true w [] [].

Inductive move : Type :=
| Does (s : step)                 (* the application: the steps of an ask up to its answer, its timeout; a tell *)
| ClientWrites (io : option nat)  (* the write loop takes a frame; the stream may break in it *)
| ServerReads (io : option nat)   (* the server's task reads a frame, serves it and answers *)
| ClientReads                     (* the read loop reads a frame *)
| ServerStops                     (* the server's side of the connection breaks *)
| ConnectionLost                  (* the client's side does *)
| Elsewhere (f : frame).          (* another connection's frame is served *)

Variable to_vec : frame -> result string bytes.
Variable from_slice : bytes -> result string frame.
Variable table : services (W := W).

(** [read_frame] has what it waits for: four bytes, and the frame they
    announce unless they announce too much. *)
Definition whole (s : bytes) : bool :=
  (4 <=? length s)%nat &&
  (let len := from_be_bytes (take 4 s) in
   (MAX_FRAME_SIZE <? len) || (4 + Z.to_nat len <=? length s)%nat).
(** What reaches the stream of [b] when writing it breaks after [n] bytes. *)
Definition cut_at (io : option nat) (b : bytes) : bytes := match io with None => b | Some n => take n b end.

Definition by_application (s : step) : bool :=
  match s with Ask _ _ | Tells _ _ | Insert _ | Send _ | Remove _ | Timeout_ _ => true | _ => false end.
Definition with_client (cl : client) (c : rpc) : rpc :=
  Rpc cl (to_server c) (to_client c) (serving c) (world c) (calls c) (sent c).
Definition stopped (c : rpc) : rpc :=
  Rpc (caller_end c) (to_server c) (to_client c) false (world c) (calls c) (sent c).

(** One iteration of [write_loop]. *)
Definition client_writes (io : option nat) (c : rpc) : option rpc :=
  match write_queue (caller_end c) with
  | f :: _ =>
      if writing (caller_end c) then
        match write_frame to_vec None f with
        | Ok b =>
            Some (Rpc (write_step (bool_decide (io = None)) (caller_end c)) (to_server c ++ cut_at io b)
                    (to_client c) (serving c) (world c) (calls c) (sent c ++ [b]))
        | Err _ => Some (with_client (write_step false (caller_end c)) c)
        end
      else None
  | [] => None
  end.
(** One iteration of the server's [handle_connection]. *)
Definition server_reads (io : option nat) (c : rpc) : option rpc :=
  if serving c && whole (to_server c) then
    match read_frame from_slice (to_server c) EndOfFile with
    | Ok (Some (f, rest)) =>
        match serve_frame to_vec table f (world c) with
        | Ret ((out, continues), w) =>
            let b := default [] out in
            let broken := bool_decide (is_Some out /\ is_Some io) in
            Some (Rpc (caller_end c) rest (to_client c ++ cut_at io b) (continues && negb broken) w
                    (calls c ++ [(world c, f)]) (sent c ++ [b]))
        | Panic _ => None
        end
    | _ => Some (stopped c)
    end
  else None.
(** One iteration of [read_loop]. *)
Definition client_reads (c : rpc) : option rpc :=
  if reading (caller_end c) && whole (to_client c) then
    match read_frame from_slice (to_client c) EndOfFile with
    | Ok (Some (f, rest)) =>
        Some (Rpc (read_step (Some f) (caller_end c)) (to_server c) rest (serving c) (world c) (calls c) (sent c))
    | _ => Some (with_client (read_step None (caller_end c)) c)
    end
  else None.
Definition run_move (m : move) (c : rpc) : option rpc :=
  match m with
  | Does s => if by_application s then Some (with_client (run_step s (caller_end c)) c) else None
  | ClientWrites io => client_writes io c
  | ServerReads io => server_reads io c
  | ClientReads => client_reads c
  | ServerStops => Some (stopped c)
  | ConnectionLost => Some (with_client (read_step None (caller_end c)) c)
  | Elsewhere f =>
      match serve_frame to_vec table f (world c) with
      | Ret (_, w) =>
          Some (Rpc (caller_end c) (to_server c) (to_client c) (serving c) w (calls c) (sent c))
      | Panic _ => None
      end
  end.
Fixpoint run_moves (ms : list move) (c : rpc) : option rpc :=
  match ms with
  | [] => Some c
  | m :: ms => c ← run_move m c; run_moves ms c
  end.

(** The [ask]s of an execution, in the order in which they began. *)
Definition asked_by (m : move) : option (string * bytes) :=
  match m with Does (Ask service p) => Some (service, p) | _ => None end.
Definition asks_of (ms : list move) : list (string * bytes) := omap asked_by ms.

(** The result an [ask] makes of its answer. *)
Definition reply_of (response : frame) : Result bytes :=
  match kind response with
  | Response => Ok (payload response)
  | _ => fail RpcServiceError (string_of_bytes (payload response))
  end.

(** * What holds in every state *)

(** ** Streams *)
Hypothesis reads_back : forall f data, to_vec f = Ok data -> from_slice data = Ok f.

(** A bound on the frames of an execution: 4 GiB, beyond which their length
    wraps around, or the 16 MB beyond which they are refused. *)
Section bounded.
Variable limit : Z.
Hypothesis limit_u32 : limit <= u32_max.
(** What is printed for a frame within the limit *)
Definition printed (f : frame) (b : bytes) : Prop :=
  exists data, to_vec f = Ok data /\ Z.of_nat (length data) <= limit /\
    b = to_be_bytes (as_u32 (Z.of_nat (length data))) ++ data.
(** A stream of whole frames and a rest [cut]. *)
Inductive carries (cut : bytes) : list frame -> bytes -> Prop :=
| carries_nil : carries cut [] cut
| carries_cons f b fs s : printed f b -> carries cut fs s -> carries cut (f :: fs) (b ++ s).
(** No frame can be read off [s], whatever else may happen. *)
Definition no_frame (s : bytes) : Prop :=
  forall f rest, read_frame from_slice s EndOfFile <> Ok (Some (f, rest)).
(** What has been printed for a frame is within the limit. *)
Definition small (b : bytes) : Prop := Z.of_nat (length b) <= 4 + limit.

Lemma write_frame_printed f b : write_frame to_vec None f = Ok b -> small b -> printed f b.
Proof.
  unfold write_frame, small. destruct (to_vec f) as [data|e] eqn:E; [|done]. intros [= <-] H.
  exists data. split_and!; [done| |done]. cbn [length app to_be_bytes] in H. lia.
Qed.
Lemma carries_app cut fs fs' s s' : carries [] fs s -> carries cut fs' s' -> carries cut (fs ++ fs') (s ++ s').
Proof.
  intros H H'. induction H as [|f b fs s Hp _ IH]; [done|]. simpl. rewrite <- app_assoc. by constructor.
Qed.
Lemma carries_cut cut s : carries cut [] s -> s = cut.
Proof. by inversion 1. Qed.
Lemma printed_carries f b : printed f b -> carries [] [f] b.
Proof. intros H. rewrite <- (app_nil_r b). constructor; [done|constructor]. Qed.

Lemma no_frame_nil : no_frame [].
Proof. done. Qed.
(** A frame that breaks off is none. *)
Lemma no_frame_take f b n : printed f b -> (n < length b)%nat -> no_frame (take n b).
Proof.
  intros (data & _ & Hl & ->) Hn f' rest. rewrite length_app, length_to_be_bytes in Hn.
  set (hd := to_be_bytes _) in *. assert (length hd = 4%nat) as Hhd by done.
  assert (from_be_bytes hd = Z.of_nat (length data)) as Hlen.
  { unfold hd, as_u32. rewrite Z.mod_small by (unfold u32_max in *; lia). apply be_roundtrip. unfold in_u32. lia. }
  unfold read_frame, read_exact at 1. rewrite length_take, length_app, Hhd.
  destruct (Nat.leb_spec 4 (n `min` (4 + length data))); [|done].
  rewrite take_take, Nat.min_l, take_app_length' by lia. rewrite Hlen. destruct (_ <? _); [done|].
  unfold read_exact. rewrite Nat2Z.id, length_drop, length_take, length_app, Hhd.
  destruct (Nat.leb_spec (length data) (n `min` (4 + length data) - 4)); [lia|done].
Qed.
Lemma carries_cut_at f b io : printed f b ->
  exists fs cut, (fs = [f] \/ fs = []) /\ carries cut fs (cut_at io b) /\ no_frame cut /\ (io = None -> fs = [f] /\ cut = []).
Proof.
  intros Hp. destruct io as [n|]; simpl.
  - destruct (Nat.le_gt_cases (length b) n) as [Hn|Hn].
    + exists [f], []. split_and!; [by left| |done|done]. rewrite take_ge by done. by apply printed_carries.
    + exists [], (take n b). split_and!; [by right|constructor|by eapply no_frame_take|done].
  - exists [f], []. split_and!; [by left|by apply printed_carries|done|done].
Qed.
(** Reading takes the next frame, or fails. *)
Lemma carries_read cut fs s f rest : carries cut fs s -> no_frame cut ->
  read_frame from_slice s EndOfFile = Ok (Some (f, rest)) -> exists fs', fs = f :: fs' /\ carries cut fs' rest.
Proof.
  intros Hc Hn. destruct Hc as [|f' b fs s (data & Hd & Hl & ->) Hc]; [by intros ?%Hn|].
  rewrite read_prefixed by lia. destruct (_ <? _); [done|]. rewrite (reads_back _ _ Hd).
  intros [= <- <-]. by exists fs.
Qed.

Lemma carries_written fs s : carries [] fs s -> write_frames to_vec fs = Ok s.
Proof.
  induction 1 as [|f b fs s (data & Hd & Hl & ->) _ IH]; [done|]. cbn [write_frames]. rewrite (write_frame_ok _ _ _ Hd).
  cbn [mbind result_bind]. rewrite IH. done.
Qed.

(** ** The invariant *)

(** A frame is one that the application sent: an [ask] has the identifier of
    its place among the [ask]s. *)
Definition genuine (qs : list (string * bytes)) (f : frame) : Prop :=
  match kind f with
  | Request => 1 <= request_id f /\ qs !! Z.to_nat (request_id f - 1) = Some (service f, payload f)
  | Tell => True
  | _ => False
  end.
Definition request_of (f : frame) : option Z := match kind f with Request => Some (request_id f) | _ => None end.
Definition ids (fs : list frame) : list Z := omap request_of fs.
(** Everything sent, in order: served, on the stream and in the channel. *)
Definition line (c : rpc) (up : list frame) : list frame :=
  (calls c).*2 ++ up ++ write_queue (caller_end c).
Definition served_as (c : rpc) (r : frame) : Prop :=
  exists w f w', (w, f) ∈ calls c /\ kind f = Request /\ answer table f w = Ret (r, w').
(** The result [r] of the [ask] with the identifier [id] has its reason. *)
Definition explained (c : rpc) (id : Z) (r : Result bytes) : Prop :=
  r = closed_error \/ exists response, served_as c response /\ request_id response = id /\ r = reply_of response.

(** The [ask] has not put its frame in the channel. *)
Definition unsent (f : frame) (a : ask_state) : Prop := a = Taken f \/ exists e, a = Sending f e.

Record sound (qs : list (string * bytes)) (c : rpc) (up down : list frame) (cu cd : bytes) : Prop := Sound {
  s_next : next_id (caller_end c) = 1 + Z.of_nat (length qs);
  s_asks id a : asks (caller_end c) !! id = Some a -> 1 <= id <= Z.of_nat (length qs);
  s_sending id f a : asks (caller_end c) !! id = Some a -> unsent f a ->
    kind f = Request /\ request_id f = id /\ genuine qs f;
  s_pending : reachable_by_reader (caller_end c);
  s_up : carries cu up (to_server c) /\ no_frame cu /\ (writing (caller_end c) = true -> cu = []);
  s_down : carries cd down (to_client c) /\ no_frame cd /\ (serving c = true -> cd = []);
  s_genuine : Forall (genuine qs) (line c up);
  s_once : NoDup (ids (line c up));
  s_begun id : id ∈ ids (line c up) ->
    exists a, asks (caller_end c) !! id = Some a /\ forall f, ~ unsent f a;
  s_answers : Forall (served_as c) down;
  s_results id a r : asks (caller_end c) !! id = Some a -> result_in a r -> explained c id r;
  s_kept id : writing (caller_end c) = true -> serving c = true ->
    reading (caller_end c) = true -> asks (caller_end c) !! id = Some Waiting ->
    id ∈ ids (up ++ write_queue (caller_end c)) \/ exists r, r ∈ down /\ request_id r = id;
}.

Lemma rpc_ids_app fs fs' : ids (fs ++ fs') = ids fs ++ ids fs'.
Proof. apply omap_app. Qed.
Lemma ids_one f : ids [f] = match request_of f with Some id => [id] | None => [] end.
Proof. unfold ids. simpl. by destruct (request_of f). Qed.
Lemma genuine_more qs q f : genuine qs f -> genuine (qs ++ [q]) f.
Proof.
  unfold genuine. destruct (kind f); [done| |done|done]. intros [Hid Hq]. split; [done|]. by apply lookup_app_l_Some.
Qed.
Lemma genuine_all qs q fs : Forall (genuine qs) fs -> Forall (genuine (qs ++ [q])) fs.
Proof. intros H. eapply Forall_impl; [exact H|]. intros f. apply genuine_more. Qed.
Lemma answer_id f w r w' : answer table f w = Ret (r, w') -> request_id r = request_id f.
Proof.
  unfold answer. destruct (get_handler _ _); [|by intros [= <- <-]].
  intros (x & w1 & _ & [= <- <-])%M_bind_inv. by destruct x.
Qed.
Lemma rpc_serve_frame_inv f w out continues w' : serve_frame to_vec table f w = Ret ((out, continues), w') ->
  small (default [] out) ->
  (kind f = Request /\ exists r, answer table f w = Ret (r, w') /\
     ((exists b, out = Some b /\ continues = true /\ printed r b) \/ (out = None /\ continues = false))) \/
  (request_of f = None /\ out = None /\ continues = true).
Proof.
  unfold serve_frame, request_of. destruct (kind f).
  - intros (x & w1 & _ & [= <- <- <-])%M_bind_inv _. by right.
  - intros (r & w1 & Ha & Hr)%M_bind_inv. destruct (write_frame to_vec None r) as [b|e] eqn:Eb;
      injection Hr as <- <- <-; intros Hs; left; (split; [done|]); exists r; (split; [done|]).
    + left. exists b. split_and!; [done..|]. by apply write_frame_printed.
    + by right.
  - intros [= <- <- <-] _. by right.
  - intros [= <- <- <-] _. by right.
Qed.
Lemma served_as_more c c' x r : calls c' = calls c ++ [x] -> served_as c r -> served_as c' r.
Proof.
  unfold served_as. intros -> (w & f & w' & Hc & Hr). exists w, f, w'. split; [|done]. apply elem_of_app. by left.
Qed.
Lemma explained_more c c' id r : (forall x, served_as c x -> served_as c' x) -> explained c id r -> explained c' id r.
Proof. unfold explained. intros H [->|(x & Hx & Hid)]; [by left|]. right. exists x. split; [by apply H|done]. Qed.

Lemma sound_accepted w : sound [] (accepted w) [] [] [] [].
Proof.
  assert (forall s, s = [] -> carries [] [] s /\ no_frame [] /\ (true = true -> [] = @nil Byte.byte)) as Hw.
  { intros s ->. split_and!; [constructor|done|done]. }
  split; cbn [accepted caller_end asks connected to_server to_client writing serving]; try (intros *; by rewrite lookup_empty);
    try done; first [by apply Hw|apply Forall_nil_2|apply NoDup_nil_2|by intros id ?%elem_of_nil].
Qed.

(** ** Moves of the application *)
Lemma line_with_client cl c up : write_queue cl = write_queue (caller_end c) -> line (with_client cl c) up = line c up.
Proof. unfold line. cbn. by intros ->. Qed.
Lemma rpc_sound_ask qs c up down cu cd service p : Z.of_nat (length qs) + 1 < u64_max ->
  sound qs c up down cu cd ->
  sound (qs ++ [(service, p)]) (with_client (ask service p (caller_end c)) c) up down cu cd.
Proof.
  intros Hl H. assert (asks (caller_end c) !! next_id (caller_end c) = None) as Hnew.
  { destruct (asks (caller_end c) !! next_id (caller_end c)) as [a|] eqn:E; [|done].
    apply (s_asks _ _ _ _ _ _ H) in E. rewrite (s_next _ _ _ _ _ _ H) in E. lia. }
  split; cbn [with_client caller_end ask asks next_id writing reading write_queue pending].
  - rewrite length_app, (s_next _ _ _ _ _ _ H). simpl. unfold as_u64. rewrite Z.mod_small; [lia|]. unfold u64_max in Hl. lia.
  - intros id a. rewrite length_app, lookup_insert_Some. simpl. rewrite (s_next _ _ _ _ _ _ H).
    intros [[<- _]|[_ Ha]]; [lia|]. apply (s_asks _ _ _ _ _ _ H) in Ha. lia.
  - intros id f a. rewrite lookup_insert_Some. intros [[<- <-]|[_ Ha]] Hf.
    + destruct Hf as [[= <-]|[e [=]]]. split_and!; [done..|]. unfold genuine. cbn. rewrite (s_next _ _ _ _ _ _ H). split; [lia|].
      replace (Z.to_nat _) with (length qs) by lia. rewrite lookup_app_r, Nat.sub_diag by done. done.
    + apply (s_sending _ _ _ _ _ _ H _ _ _ Ha) in Hf as (Hk & Hid & Hg). split_and!; [done..|]. by apply genuine_more.
  - exact (run_step_reachable (Ask service p) _ (s_pending _ _ _ _ _ _ H)).
  - apply (s_up _ _ _ _ _ _ H).
  - apply (s_down _ _ _ _ _ _ H).
  - apply genuine_all. apply (s_genuine _ _ _ _ _ _ H).
  - apply (s_once _ _ _ _ _ _ H).
  - intros id Hid. destruct (s_begun _ _ _ _ _ _ H id Hid) as (a & Ha & Hs). exists a. split; [|done].
    rewrite lookup_insert_ne by congruence. done.
  - apply (s_answers _ _ _ _ _ _ H).
  - intros id a r. rewrite lookup_insert_Some. intros [[_ <-]|[_ Ha]] Hr; [by destruct Hr as [?|[f [=]]]|].
    by apply (s_results _ _ _ _ _ _ H _ _ _ Ha).
  - intros id Hw Hs Hr. rewrite lookup_insert_Some. intros [[_ [=]]|[_ Ha]]. by apply (s_kept _ _ _ _ _ _ H).
Qed.
Lemma sound_tell qs c up down cu cd service p :
  sound qs c up down cu cd -> sound qs (with_client (run_step (Tells service p) (caller_end c)) c) up down cu cd.
Proof.
  intros H. cbn [run_step]. unfold tell. destruct (writing (caller_end c)) eqn:Ew; cbn [snd]; [|by destruct c].
  set (c' := with_client _ c).
  assert (line c' up = line c up ++ [Frame Tell 0 service p]) as Hline by (unfold line; cbn; by rewrite !app_assoc).
  assert (ids (line c' up) = ids (line c up)) as Hids by (by rewrite Hline, rpc_ids_app, ids_one, app_nil_r).
  split; rewrite ?Hids; cbn [c' with_client caller_end asks next_id writing reading write_queue serving];
    try solve [apply H].
  - pose proof (s_up _ _ _ _ _ _ H) as Hu. by rewrite Ew in Hu.
  - change (Forall (genuine qs) (line c' up)). rewrite Hline. apply Forall_app. split; [apply H|by repeat constructor].
  - intros id _ Hs Hr Ha. destruct (s_kept _ _ _ _ _ _ H id Ew Hs Hr Ha) as [Hi|Hi]; [left|by right].
    rewrite app_assoc, rpc_ids_app. apply elem_of_app. by left.
Qed.
(** An [ask] that changes its state without its frame being sent. *)
Lemma sound_settle qs c up down cu cd id a a' cl :
  sound qs c up down cu cd -> asks (caller_end c) !! id = Some a -> asks cl = <[id := a']> (asks (caller_end c)) ->
  next_id cl = next_id (caller_end c) -> write_queue cl = write_queue (caller_end c) ->
  writing cl = writing (caller_end c) -> reading cl = reading (caller_end c) -> reachable_by_reader cl ->
  (forall f, unsent f a' -> unsent f a) -> a' <> Waiting ->
  (forall r, result_in a' r -> explained c id r) ->
  sound qs (with_client cl c) up down cu cd.
Proof.
  intros H Ea Has Hn Hq Hw Hr Hp Hns Hnw Hex.
  split; rewrite ?line_with_client by done; cbn [with_client caller_end serving]; rewrite ?Has, ?Hn, ?Hq, ?Hw, ?Hr; try solve [apply H]; try done.
  - intros id' b. rewrite lookup_insert_Some. intros [[<- _]|[_ Hb]]; [by apply (s_asks _ _ _ _ _ _ H) in Ea|by apply (s_asks _ _ _ _ _ _ H) in Hb].
  - intros id' f b. rewrite lookup_insert_Some. intros [[<- <-]|[_ Hb]] Hf; [by eapply (s_sending _ _ _ _ _ _ H); [exact Ea|apply Hns]|by apply (s_sending _ _ _ _ _ _ H _ _ _ Hb)].
  - intros id' Hid. destruct (s_begun _ _ _ _ _ _ H id' Hid) as (b & Hb & Hs).
    destruct (decide (id' = id)) as [->|Hne]; [exists a'; rewrite lookup_insert_eq|exists b; by rewrite lookup_insert_ne].
    rewrite Ea in Hb. injection Hb as <-. split; [done|]. intros f Hf. by apply (Hs f), Hns.
  - intros id' b r. rewrite lookup_insert_Some. intros [[<- <-]|[_ Hb]]; [apply Hex|by apply (s_results _ _ _ _ _ _ H)].
  - intros id' H1 H2 H3. rewrite lookup_insert_Some. intros [[_ ->]|[_ Hb]]; [done|by apply (s_kept _ _ _ _ _ _ H)].
Qed.
Lemma sound_send qs c up down cu cd id :
  sound qs c up down cu cd -> sound qs (with_client (run_step (Send id) (caller_end c)) c) up down cu cd.
Proof.
  intros H. pose proof (run_step_reachable (Send id) _ (s_pending _ _ _ _ _ _ H)) as Hp.
  cbn [run_step] in *. revert Hp. unfold send_ask.
  destruct (asks (caller_end c) !! id) as [[f|f early| | | |]|] eqn:Ea; try (intros _; by destruct c).
  destruct (s_sending _ _ _ _ _ _ H _ f _ Ea) as (Hk & Hid & Hg); [right; by exists early|].
  destruct (writing (caller_end c)) eqn:Ew; [destruct (_ <? _)%nat; [|intros _; by destruct c]|]; intros Hp.
  - set (a' := match early with Some r => Answered r | None => Waiting end) in *. set (cl := TrpcClient _ _ _ _ _ _) in *.
    assert (forall f, ~ unsent f a') as Hns by (unfold a'; destruct early; by intros f' [?|[? ?]]).
    assert (line (with_client cl c) up = line c up ++ [f]) as Hline by (unfold line; cbn; by rewrite !app_assoc).
    assert (ids (line (with_client cl c) up) = ids (line c up) ++ [id]) as Hids.
    { rewrite Hline, rpc_ids_app, ids_one. unfold request_of. by rewrite Hk, Hid. }
    split; rewrite ?Hids, ?Hline; cbn [with_client caller_end cl asks next_id writing reading write_queue serving]; try solve [apply H]; try done.
    + intros id' b. rewrite lookup_insert_Some. intros [[<- _]|[_ Hb]]; [by apply (s_asks _ _ _ _ _ _ H) in Ea|by apply (s_asks _ _ _ _ _ _ H) in Hb].
    + intros id' f' b. rewrite lookup_insert_Some. intros [[_ <-]|[_ Hb]] Hf; [by destruct (Hns f')|by apply (s_sending _ _ _ _ _ _ H _ _ _ Hb)].
    + pose proof (s_up _ _ _ _ _ _ H) as Hu. by rewrite Ew in Hu.
    + apply Forall_app. split; [apply H|by constructor].
    + apply NoDup_app. split_and!; [apply H| |apply NoDup_singleton].
      intros x Hx ->%list_elem_of_singleton. destruct (s_begun _ _ _ _ _ _ H _ Hx) as (b & Hb & Hs). rewrite Ea in Hb.
      injection Hb as <-. apply (Hs f). right. by exists early.
    + intros id' [Hi| ->%list_elem_of_singleton]%elem_of_app; [|exists a'; by rewrite lookup_insert_eq].
      destruct (s_begun _ _ _ _ _ _ H id' Hi) as (b & Hb & Hs).
      destruct (decide (id' = id)) as [->|Hne]; [exists a'; by rewrite lookup_insert_eq|exists b; by rewrite lookup_insert_ne].
    + intros id' b r. rewrite lookup_insert_Some. intros [[<- <-]|[_ Hb]]; [|by apply (s_results _ _ _ _ _ _ H)].
      unfold a'. intros Hr. apply (s_results _ _ _ _ _ _ H _ _ _ Ea). right. destruct early as [r'|]; destruct Hr as [Hr|[f' Hr]]; try done.
      injection Hr as <-. by exists f.
    + intros id' _ Hs Hr. rewrite app_assoc, rpc_ids_app, lookup_insert_Some. intros [[<- _]|[_ Hb]].
      * left. apply elem_of_app. right. rewrite ids_one. unfold request_of. rewrite Hk, Hid. by left.
      * destruct (s_kept _ _ _ _ _ _ H id' Ew Hs Hr Hb) as [Hi|Hi]; [left; apply elem_of_app; by left|by right].
  - eapply sound_settle with (a := Sending f early) (a' := Refused) (id := id); try done.
    + by intros f' [?|[? ?]].
    + by intros r [?|[? ?]].
Qed.
Lemma sound_insert qs c up down cu cd id :
  sound qs c up down cu cd -> sound qs (with_client (run_step (Insert id) (caller_end c)) c) up down cu cd.
Proof.
  intros H. pose proof (run_step_reachable (Insert id) _ (s_pending _ _ _ _ _ _ H)) as Hp.
  cbn [run_step] in *. revert Hp. unfold insert_ask.
  destruct (asks (caller_end c) !! id) as [[f|f early| | | |]|] eqn:Ea; try (intros _; by destruct c).
  intros Hp. eapply sound_settle with (a := Taken f) (a' := Sending f None) (id := id); try done.
  - intros f' [[=]|[e [= <- _]]]. by left.
  - by intros r [?|[? ?]].
Qed.
Lemma sound_remove qs c up down cu cd id :
  sound qs c up down cu cd -> sound qs (with_client (run_step (Remove id) (caller_end c)) c) up down cu cd.
Proof.
  intros H. pose proof (run_step_reachable (Remove id) _ (s_pending _ _ _ _ _ _ H)) as Hp.
  cbn [run_step] in *. revert Hp. unfold remove_ask.
  destruct (asks (caller_end c) !! id) as [[f|f early| | | |]|] eqn:Ea; try (intros _; by destruct c).
  intros Hp. eapply sound_settle with (a := Refused) (a' := Answered closed_error) (id := id); try done.
  - by intros f' [?|[? ?]].
  - intros r [[= <-]|[f' [=]]]. by left.
Qed.
Lemma sound_time_out qs c up down cu cd id :
  sound qs c up down cu cd -> sound qs (with_client (run_step (Timeout_ id) (caller_end c)) c) up down cu cd.
Proof.
  intros H. pose proof (run_step_reachable (Timeout_ id) _ (s_pending _ _ _ _ _ _ H)) as Hp.
  cbn [run_step] in *. revert Hp. unfold time_out.
  destruct (asks (caller_end c) !! id) as [a|] eqn:Ea; [|intros _; by destruct c].
  destruct a; try (intros _; by destruct c); intros Hp;
    (eapply sound_settle with (a' := TimedOut) (id := id); try done; [by intros f' [?|[? ?]]|intros r [[=]|[f' [=]]]]).
Qed.

(** ** The read loop *)
Lemma result_in_receive a r r' : result_in (receive r' a) r -> result_in a r \/ r = r'.
Proof.
  unfold result_in. destruct a as [f|f [x|]| | | |]; simpl; intros [Hr|[f' Hr]]; simplify_eq; eauto.
Qed.
Lemma receive_unsent r a f : unsent f (receive r a) -> unsent f a.
Proof. unfold unsent. destruct a as [f'|f' [x|]| | | |]; simpl; intros [H|[e H]]; simplify_eq; eauto. Qed.
Lemma receive_waiting r a : receive r a <> Waiting.
Proof. by destruct a as [f'|f' [x|]| | | |]. Qed.

(** The results that reach [ask]s, in a map [m] of those it had. *)
Lemma sound_receive qs c up down down' cu cd m s' cl :
  sound qs c up down cu cd ->
  (forall id a', m !! id = Some a' -> exists a, asks (caller_end c) !! id = Some a /\
     (a' = a \/ exists r, a' = receive r a /\ explained c id r)) ->
  (forall id, is_Some (asks (caller_end c) !! id) -> is_Some (m !! id)) ->
  asks cl = m -> next_id cl = next_id (caller_end c) -> write_queue cl = write_queue (caller_end c) ->
  writing cl = writing (caller_end c) -> reachable_by_reader cl ->
  Forall (served_as c) down' -> carries cd down' s' ->
  (reading cl = true -> reading (caller_end c) = true /\ forall id, m !! id = Some Waiting -> asks (caller_end c) !! id = Some Waiting /\
     forall r, r ∈ down -> request_id r = id -> r ∈ down') ->
  sound qs (Rpc cl (to_server c) s' (serving c) (world c) (calls c) (sent c)) up down' cu cd.
Proof.
  intros H Hm Hdom Has Hn Hq Hw Hp Hd Hs' Hk.
  assert (line (Rpc cl (to_server c) s' (serving c) (world c) (calls c) (sent c)) up = line c up) as Hline
    by (unfold line; cbn; by rewrite Hq).
  split; rewrite ?Hline; cbn [caller_end serving to_server to_client]; rewrite ?Has, ?Hn, ?Hq, ?Hw; try solve [apply H]; try done.
  - intros id a' Ha'. destruct (Hm _ _ Ha') as (a & Ha & _). by apply (s_asks _ _ _ _ _ _ H) in Ha.
  - intros id f a' Ha' Hf. destruct (Hm _ _ Ha') as (a & Ha & Hr). apply (s_sending _ _ _ _ _ _ H _ _ _ Ha).
    destruct Hr as [<-|(r & -> & _)]; [done|by apply receive_unsent in Hf].
  - split; [done|]. apply (s_down _ _ _ _ _ _ H).
  - intros id Hid. destruct (s_begun _ _ _ _ _ _ H id Hid) as (a & Ha & Hs).
    destruct (Hdom id) as [a' Ha']; [by exists a|]. exists a'. split; [done|]. intros f Hf.
    destruct (Hm _ _ Ha') as (a0 & Ha0 & Hr). rewrite Ha in Ha0. injection Ha0 as <-. apply (Hs f).
    destruct Hr as [<-|(r & -> & _)]; [done|by apply receive_unsent in Hf].
  - intros id a' r Ha' Hr. destruct (Hm _ _ Ha') as (a & Ha & [->|(r' & -> & Hr')]); [by apply (s_results _ _ _ _ _ _ H id a)|].
    apply result_in_receive in Hr as [Hr| ->]; [by apply (s_results _ _ _ _ _ _ H id a)|done].
  - intros id Hwr Hsv Hrd Ha. destruct (Hk Hrd) as [Hr0 Hk']. destruct (Hk' _ Ha) as [Ha0 Hd0].
    destruct (s_kept _ _ _ _ _ _ H id Hwr Hsv Hr0 Ha0) as [Hi|(r & Hr & Hid)]; [by left|]. right. exists r. split; [by apply Hd0|done].
Qed.
Lemma sound_lost qs c up down cu cd :
  sound qs c up down cu cd -> sound qs (with_client (read_step None (caller_end c)) c) up down cu cd.
Proof.
  intros H. pose proof (run_step_reachable ReadEnd _ (s_pending _ _ _ _ _ _ H)) as Hp. cbn [run_step] in Hp. revert Hp.
  unfold read_step. destruct (reading (caller_end c)); cbn [negb]; [|intros _; by destruct c]. intros Hp.
  eapply sound_receive; [exact H| | |reflexivity|reflexivity..|exact Hp|apply H|apply H|done]; cbn [asks].
  - intros id a'. rewrite map_lookup_imap. intros (a & Ha & Ha')%bind_Some. exists a. split; [done|].
    injection Ha' as <-. case_decide; [right; exists closed_error; split; [done|by left]|by left].
  - intros id [a Ha]. rewrite map_lookup_imap, Ha. by eexists.
Qed.
Lemma sound_client_reads qs c c' up down cu cd :
  sound qs c up down cu cd -> client_reads c = Some c' ->
  exists down', sound qs c' up down' cu cd /\ (reading (caller_end c') = true -> length down = S (length down')).
Proof.
  intros H. unfold client_reads. destruct (reading (caller_end c) && whole (to_client c)) eqn:Eg; [|done].
  apply andb_true_iff in Eg as [Er _].
  assert (forall x, Some (with_client (read_step None (caller_end c)) c) = Some x ->
    exists down', sound qs x up down' cu cd /\ (reading (caller_end x) = true -> length down = S (length down'))) as Hend.
  { intros x [= <-]. exists down. split; [by apply sound_lost|]. cbn. unfold read_step. by rewrite Er. }
  destruct (read_frame _ _ _) as [[[f rest]|]|e] eqn:Ef; [|by apply Hend..]. clear Hend. intros [= <-].
  destruct (s_down _ _ _ _ _ _ H) as (Hc & Hn & _).
  destruct (carries_read _ _ _ _ _ Hc Hn Ef) as (down' & -> & Hc').
  pose proof (s_answers _ _ _ _ _ _ H) as Ha. apply Forall_cons in Ha as [Hf Ha]. exists down'. split; [|done].
  pose proof (run_step_reachable (Read f) _ (s_pending _ _ _ _ _ _ H)) as Hp. cbn [run_step] in Hp.
  assert (exists a, reply_of f = a /\ read_step (Some f) (caller_end c) =
    if decide (request_id f ∈ pending (caller_end c))
    then TrpcClient (pending (caller_end c) ∖ {[request_id f]}) (next_id (caller_end c)) (write_queue (caller_end c))
      (writing (caller_end c)) (reading (caller_end c)) (deliver (request_id f) a (asks (caller_end c)))
    else caller_end c) as (a & Hra & Hrs).
  { eexists. split; [reflexivity|]. unfold read_step, reply_of. rewrite Er. cbn [negb].
    destruct Hf as (w & g & w' & _ & _ & Hans). unfold answer in Hans. destruct (get_handler _ _).
    - apply M_bind_inv in Hans as ([x|x] & w1 & _ & [= <- <-]); reflexivity.
    - injection Hans as <- <-. reflexivity. }
  assert (Hex : explained c (request_id f) a) by (right; exists f; split_and!; [exact Hf|done|by symmetry]).
  rewrite Hrs in *. case_decide as Hpd.
  - eapply sound_receive; [exact H| | |reflexivity|reflexivity..|exact Hp|exact Ha|exact Hc'|]; cbn [asks reading].
    + intros id a'. unfold deliver. rewrite lookup_alter_Some. intros [(<- & a0 & Ha0 & ->)|[_ Ha0]].
      * exists a0. split; [done|]. right. by exists a.
      * exists a'. split; [done|by left].
    + intros id [a0 Ha0]. unfold deliver. destruct (decide (request_id f = id)) as [<-|Hne];
        [rewrite lookup_alter_eq, Ha0; by eexists|rewrite lookup_alter_ne by done; by exists a0].
    + intros _. split; [done|]. intros id. unfold deliver. rewrite lookup_alter_Some.
      intros [(<- & a0 & _ & Hw)|[Hne Ha0]]; [by destruct (receive_waiting a a0)|]. split; [done|].
      intros r [-> |Hr]%elem_of_cons Hid; [by destruct Hne|done].
  - eapply sound_receive; [exact H| | |reflexivity|reflexivity..|exact Hp|exact Ha|exact Hc'|]; cbn [asks reading].
    + intros id a' Ha'. exists a'. split; [done|by left].
    + done.
    + intros _. split; [done|]. intros id Hw. split; [done|].
      intros r [-> |Hr]%elem_of_cons Hid; [|done]. destruct Hpd. rewrite Hid.
      apply (s_pending _ _ _ _ _ _ H Er id Waiting Hw). by left.
Qed.

(** ** The write loop *)
Lemma ids_sublist l l' : l `sublist_of` l' -> ids l `sublist_of` ids l'.
Proof.
  induction 1 as [|f l l' _ IH|f l l' _ IH]; [constructor| |]; unfold ids in *; simpl; destruct (request_of f);
    by try constructor.
Qed.
Lemma sound_written qs c up up' down cu cu' cd s' q' wr' snt :
  sound qs c up down cu cd -> writing (caller_end c) = true ->
  carries cu' up' s' -> no_frame cu' -> up' ++ q' `sublist_of` up ++ write_queue (caller_end c) ->
  (wr' = true -> cu' = [] /\ up' ++ q' = up ++ write_queue (caller_end c)) ->
  sound qs (Rpc (TrpcClient (pending (caller_end c)) (next_id (caller_end c)) q' wr' (reading (caller_end c)) (asks (caller_end c)))
      s' (to_client c) (serving c) (world c) (calls c) snt) up' down cu' cd.
Proof.
  intros H Hw Hc Hn Hsub Hwr. set (c' := Rpc _ _ _ _ _ _ _).
  assert (line c' up' `sublist_of` line c up) as Hline by (apply sublist_app; [done|exact Hsub]).
  split; cbn [c' caller_end asks next_id writing reading write_queue serving to_server to_client]; try solve [apply H]; try done.
  - split_and!; [done|done|]. by intros [? _]%Hwr.
  - apply Forall_forall. intros f Hf. pose proof (s_genuine _ _ _ _ _ _ H) as Hg. rewrite Forall_forall in Hg.
    apply Hg. by eapply elem_of_sublist.
  - eapply sublist_NoDup; [apply H|by apply ids_sublist].
  - intros id Hid. apply (s_begun _ _ _ _ _ _ H). eapply elem_of_sublist; [exact Hid|by apply ids_sublist].
  - intros id Hw' Hs Hr Ha. destruct (Hwr Hw') as [_ ->]. by apply (s_kept _ _ _ _ _ _ H).
Qed.
Lemma sound_client_writes qs c c' io up down cu cd :
  sound qs c up down cu cd -> client_writes io c = Some c' -> Forall small (sent c') ->
  exists up' cu', sound qs c' up' down cu' cd.
Proof.
  intros H. unfold client_writes. destruct (write_queue (caller_end c)) as [|f q] eqn:Eq; [done|].
  destruct (writing (caller_end c)) eqn:Ew; [|done].
  destruct (s_up _ _ _ _ _ _ H) as (Hc & Hn & Hcu). rewrite (Hcu Ew) in *. clear Hcu.
  unfold write_step. rewrite Eq, Ew.
  destruct (write_frame to_vec None f) as [b|e] eqn:Eb; intros [= <-]; cbn [sent].
  - intros (_ & Hb)%Forall_app. apply Forall_cons in Hb as [Hb _].
    destruct (carries_cut_at f b io (write_frame_printed _ _ Eb Hb)) as (fs & cut & Hfs & Hcut & Hnc & Hio).
    exists (up ++ fs), cut. apply (sound_written qs c up (up ++ fs) down [] cut cd _ _ _ _ H Ew).
    + by apply carries_app.
    + done.
    + rewrite Eq, <- app_assoc. apply sublist_app; [done|].
      destruct Hfs as [-> | ->]; [apply sublist_skip; case_bool_decide; [done|apply sublist_nil_l]|].
      case_bool_decide as Hi; [by destruct (Hio Hi)|apply sublist_nil_l].
    + rewrite Eq. case_bool_decide as Hi; [|done]. intros _. destruct (Hio Hi) as [-> ->]. split; [done|]. by rewrite <- app_assoc.
  - intros _. exists up, []. apply (sound_written qs c up up down [] [] cd _ _ _ _ H Ew); try done.
    apply sublist_app; [done|apply sublist_nil_l].
Qed.

(** ** The server *)
Lemma sound_stopped qs c up down cu cd : sound qs c up down cu cd -> sound qs (stopped c) up down cu cd.
Proof. intros H. split; try solve [apply H]; [|done]. split_and!; [apply H|apply H|done]. Qed.
Lemma sound_server_reads qs c c' io up down cu cd :
  sound qs c up down cu cd -> server_reads io c = Some c' -> Forall small (sent c') ->
  exists up' down' cd', sound qs c' up' down' cu cd' /\ (serving c' = true -> length up = S (length up')).
Proof.
  intros H. unfold server_reads. destruct (serving c && whole (to_server c)) eqn:Eg; [|done].
  apply andb_true_iff in Eg as [Es _].
  assert (forall x, Some (stopped c) = Some x -> Forall small (sent x) ->
    exists up' down' cd', sound qs x up' down' cu cd' /\ (serving x = true -> length up = S (length up'))) as Hend.
  { intros x [= <-] _. exists up, down, cd. split; [by apply sound_stopped|done]. }
  destruct (read_frame _ _ _) as [[[f rest]|]|e] eqn:Ef; [|by apply Hend..]. clear Hend.
  destruct (serve_frame to_vec table f (world c)) as [[[out continues] w]|] eqn:Esf; [|done]. intros [= <-]. cbn [sent].
  intros (_ & Hb)%Forall_app. apply Forall_cons in Hb as [Hb _].
  destruct (s_up _ _ _ _ _ _ H) as (Hc & Hn & Hcu). destruct (s_down _ _ _ _ _ _ H) as (Hd & Hnd & Hcd).
  rewrite (Hcd Es) in *. clear Hcd. destruct (carries_read _ _ _ _ _ Hc Hn Ef) as (up' & -> & Hc').
  set (c' := Rpc _ _ _ _ _ _ _). assert (line c' up' = line c (f :: up')) as Hline.
  { unfold line. cbn. rewrite fmap_app. simpl. by rewrite <- app_assoc. }
  assert (forall x, served_as c x -> served_as c' x) as Hmore by (intros x; by apply served_as_more with (x := (world c, f))).
  assert (exists fs cut, carries cut fs (cut_at io (default [] out)) /\ no_frame cut /\ Forall (served_as c') fs /\
    (continues && negb (bool_decide (is_Some out /\ is_Some io)) = true ->
       cut = [] /\ forall id, request_of f = Some id -> exists r, r ∈ fs /\ request_id r = id)) as (fs & cut & Hcut & Hnc & Hfs & Hlive).
  { destruct (rpc_serve_frame_inv _ _ _ _ _ Esf Hb) as [(Hk & r & Ha & [(b & -> & -> & Hp)|[-> ->]])|(Hk & -> & ->)].
    - destruct (carries_cut_at r b io Hp) as (fs & cut & Hfs & Hcut & Hnc & Hio). exists fs, cut. split_and!; [done|done| |].
      + assert (served_as c' r) as Hr.
        { exists (world c), f, w. split_and!; [apply elem_of_app; right; by left|done|done]. }
        destruct Hfs as [-> | ->]; by repeat constructor.
      + case_bool_decide as Hi; [done|]. intros _. destruct io as [n|]; [by destruct Hi|]. destruct (Hio eq_refl) as [-> ->].
        split; [done|]. intros id. unfold request_of. rewrite Hk. intros [= <-]. exists r. split; [by left|by eapply answer_id].
    - exists [], []. split_and!; [by destruct io; simpl; rewrite ?take_nil; constructor|done|done|done].
    - exists [], []. split_and!; [by destruct io; simpl; rewrite ?take_nil; constructor|done|done|]. rewrite Hk. done. }
  exists up', (down ++ fs), cut. split; [|done].
  split; rewrite ?Hline; cbn [c' caller_end to_server to_client serving]; try solve [apply H].
  - split_and!; [done..|]. apply (s_up _ _ _ _ _ _ H).
  - split_and!; [by apply carries_app|done|]. by intros [? _]%Hlive.
  - apply Forall_app. split; [|done]. eapply Forall_impl; [apply (s_answers _ _ _ _ _ _ H)|done].
  - intros id a r Ha Hr. eapply explained_more; [exact Hmore|]. by eapply (s_results _ _ _ _ _ _ H).
  - intros id Hw Hsv Hr Ha. destruct (Hlive Hsv) as [_ Hans].
    destruct (s_kept _ _ _ _ _ _ H id Hw Es Hr Ha) as [Hi|(r & Hrd & Hid)].
    + change ((f :: up') ++ write_queue (caller_end c)) with ([f] ++ up' ++ write_queue (caller_end c)) in Hi.
      rewrite rpc_ids_app, ids_one in Hi. apply elem_of_app in Hi as [Hi|Hi]; [|by left]. right.
      destruct (request_of f) as [id'|]; [|by apply elem_of_nil in Hi]. apply list_elem_of_singleton in Hi as ->.
      destruct (Hans id' eq_refl) as (r & Hr' & Hid). exists r. split; [apply elem_of_app; by right|done].
    + right. exists r. split; [apply elem_of_app; by left|done].
Qed.
Lemma sound_elsewhere qs c up down cu cd w :
  sound qs c up down cu cd ->
  sound qs (Rpc (caller_end c) (to_server c) (to_client c) (serving c) w (calls c) (sent c)) up down cu cd.
Proof. intros H. split; apply H. Qed.

(** ** Executions *)
Lemma sent_grows m c c' : run_move m c = Some c' -> exists bs, sent c' = sent c ++ bs.
Proof.
  destruct m as [s|io|io| | | |f]; cbn [run_move].
  - destruct (by_application s); [|done]. intros [= <-]. exists []; by rewrite app_nil_r.
  - unfold client_writes. destruct (write_queue _); [done|]. destruct (writing _); [|done].
    destruct (write_frame _ _ _) as [b|]; intros [= <-]; [by exists [b]|exists []; by rewrite app_nil_r].
  - unfold server_reads. destruct (_ && _); [|done].
    destruct (read_frame _ _ _) as [[[f rest]|]|e]; [|intros [= <-]; exists []; by rewrite app_nil_r..].
    destruct (serve_frame _ _ _ _) as [[[out k] w]|]; [|done]. intros [= <-]. by eexists.
  - unfold client_reads. destruct (_ && _); [|done].
    destruct (read_frame _ _ _) as [[[f rest]|]|e]; intros [= <-]; exists []; by rewrite app_nil_r.
  - intros [= <-]. exists []; by rewrite app_nil_r.
  - intros [= <-]. exists []; by rewrite app_nil_r.
  - destruct (serve_frame _ _ _ _) as [[o w]|]; [|done]. intros [= <-]. exists []; by rewrite app_nil_r.
Qed.
Lemma rpc_run_move_sound qs m c c' up down cu cd :
  sound qs c up down cu cd -> run_move m c = Some c' ->
  Z.of_nat (length (qs ++ omap asked_by [m])) < u64_max -> Forall small (sent c') ->
  exists up' down' cu' cd', sound (qs ++ omap asked_by [m]) c' up' down' cu' cd'.
Proof.
  intros H Hr Hl Hb. destruct m as [s|io|io| | | |f]; cbn [run_move] in Hr; cbn [omap list_omap asked_by] in *;
    rewrite ?app_nil_r.
  - destruct s as [sv p|sv p|id|id|id|id|ok|f|]; cbn [by_application] in Hr; try done; injection Hr as <-;
      rewrite ?app_nil_r; exists up, down, cu, cd.
    + apply rpc_sound_ask; [|done]. rewrite length_app in Hl. simpl in Hl. lia.
    + by apply sound_tell.
    + by apply sound_insert.
    + by apply sound_send.
    + by apply sound_remove.
    + by apply sound_time_out.
  - destruct (sound_client_writes _ _ _ _ _ _ _ _ H Hr Hb) as (up' & cu' & H'). by exists up', down, cu', cd.
  - destruct (sound_server_reads _ _ _ _ _ _ _ _ H Hr Hb) as (up' & down' & cd' & H' & _). by exists up', down', cu, cd'.
  - destruct (sound_client_reads _ _ _ _ _ _ _ H Hr) as (down' & H' & _). by exists up, down', cu, cd.
  - injection Hr as <-. exists up, down, cu, cd. by apply sound_stopped.
  - injection Hr as <-. exists up, down, cu, cd. by apply sound_lost.
  - destruct (serve_frame _ _ _ _) as [[o w]|]; [|done]. injection Hr as <-. exists up, down, cu, cd. by apply sound_elsewhere.
Qed.
Lemma rpc_run_moves_app ms1 ms2 c : run_moves (ms1 ++ ms2) c = (c' ← run_moves ms1 c; run_moves ms2 c').
Proof. revert c. induction ms1 as [|m ms1 IH]; intros c; [done|]. cbn [app run_moves]. destruct (run_move m c); [apply IH|done]. Qed.
Lemma rpc_run_moves_sound ms w c : run_moves ms (accepted w) = Some c ->
  Z.of_nat (length (asks_of ms)) < u64_max -> Forall small (sent c) ->
  exists up down cu cd, sound (asks_of ms) c up down cu cd.
Proof.
  revert c. induction ms as [|m ms IH] using rev_ind; intros c.
  { intros [= <-] _ _. exists [], [], [], []. apply sound_accepted. }
  rewrite rpc_run_moves_app. destruct (run_moves ms (accepted w)) as [c1|]; [|done]. cbn [mbind option_bind run_moves].
  destruct (run_move m c1) as [c2|] eqn:E; [|done]. cbn [mbind option_bind]. intros [= <-].
  unfold asks_of. rewrite omap_app. intros Hl Hb. destruct (sent_grows _ _ _ E) as [bs Hbs].
  destruct (IH c1 eq_refl) as (up & down & cu & cd & H).
  - unfold asks_of. rewrite length_app in Hl. lia.
  - rewrite Hbs in Hb. by apply Forall_app in Hb as [? _].
  - by eapply rpc_run_move_sound.
Qed.
End bounded.

(** * What a caller may conclude *)

(** Calling the service where it is: what the handler returns, with any error
    as the text that travels. *)
Definition called (service : string) (payload : bytes) (w : W) (r : Result bytes) : Prop :=
  match get_handler service table with
  | Some h => exists result w', h payload w = Ret (result, w') /\
      r = match result with Ok p => Ok p | Err e => fail RpcServiceError (error_to_string e) end
  | None => r = fail RpcServiceError ("service '" +:+ service +:+ "' not found")
  end.
Lemma string_bytes s : string_of_bytes (bytes_of_string s) = s.
Proof. apply String.string_of_list_byte_of_string. Qed.
Lemma answer_called f w r w' : answer table f w = Ret (r, w') -> called (service f) (payload f) w (reply_of r).
Proof.
  unfold answer, called. destruct (get_handler _ _) as [h|].
  - intros (x & w1 & Hx & [= <- <-])%M_bind_inv. exists x, w1. split; [done|]. destruct x; [done|].
    unfold reply_of. cbn [kind payload]. by rewrite string_bytes.
  - intros [= <- <-]. unfold reply_of. cbn [kind payload]. by rewrite string_bytes.
Qed.
Lemma genuine_at qs f : kind f = Request -> genuine qs f -> qs !! Z.to_nat (request_id f - 1) = Some (service f, payload f).
Proof. unfold genuine. by intros -> [_ ?]. Qed.
Lemma frame_eta f : kind f = Request -> f = Frame Request (request_id f) (service f) (payload f).
Proof. destruct f. cbn. by intros ->. Qed.

(** C4: a remote call is a call: in every execution - any number of concurrent
    [ask]s and tells, timeouts, frames cut off in the middle, the loss of the
    connection on either side, other connections using the same services -
    an [ask] that ends with a result either ended because the connection is
    closed, or has exactly the result of the service it named applied to its
    own payload in a state in which the server served it; an error arrives as
    its text.  It holds while no frame takes 4 GiB and the identifiers do not
    wrap around. *)
Theorem remote_call_is_a_call (ms : list move) (w : W) (c : rpc) (id : Z) (r : Result bytes) :
  run_moves ms (accepted w) = Some c ->
  Z.of_nat (length (asks_of ms)) < u64_max -> Forall (small u32_max) (sent c) ->
  asks (caller_end c) !! id = Some (Answered r) ->
  exists service payload, 1 <= id /\ asks_of ms !! Z.to_nat (id - 1) = Some (service, payload) /\
    (r = closed_error \/
     exists w', (w', Frame Request id service payload) ∈ calls c /\ called service payload w' r).
Proof.
  intros Hr Hl Hb Ha. destruct (rpc_run_moves_sound _ (Z.le_refl _) _ _ _ Hr Hl Hb) as (up & down & cu & cd & H).
  destruct (s_asks _ _ _ _ _ _ _ H _ _ Ha) as [H1 H2].
  destruct (lookup_lt_is_Some_2 (asks_of ms) (Z.to_nat (id - 1))) as [[service p] Hq]; [lia|].
  exists service, p. split; [done|]. split; [done|].
  destruct (s_results _ _ _ _ _ _ _ H id _ r Ha (or_introl eq_refl)) as [-> |(x & (w' & f & w1 & Hc & Hk & Hans) & Hid & ->)]; [by left|].
  right. exists w'. rewrite (answer_id _ _ _ _ Hans) in Hid. subst id.
  pose proof (s_genuine _ _ _ _ _ _ _ H) as Hg. rewrite Forall_forall in Hg.
  assert (genuine (asks_of ms) f) as Hgf.
  { apply Hg. apply elem_of_app. left. apply list_elem_of_fmap. by exists (w', f). }
  rewrite (genuine_at _ _ Hk Hgf) in Hq. injection Hq as <- <-.
  rewrite <- (frame_eta _ Hk). split; [done|]. by apply answer_called with (w' := w1).
Qed.

(** C5: the server runs what was asked, and no request twice: in every
    execution each request it has served is one of the application's [ask]s
    with its service and payload, and no two have the same identifier, however
    the connection ends. *)
Theorem requests_served_at_most_once (ms : list move) (w : W) (c : rpc) :
  run_moves ms (accepted w) = Some c ->
  Z.of_nat (length (asks_of ms)) < u64_max -> Forall (small u32_max) (sent c) ->
  NoDup (ids (calls c).*2) /\
  forall w' f, (w', f) ∈ calls c ->
    kind f = Tell \/ kind f = Request /\ asks_of ms !! Z.to_nat (request_id f - 1) = Some (service f, payload f).
Proof.
  intros Hr Hl Hb. destruct (rpc_run_moves_sound _ (Z.le_refl _) _ _ _ Hr Hl Hb) as (up & down & cu & cd & H). split.
  - pose proof (s_once _ _ _ _ _ _ _ H) as Hn. unfold line in Hn. rewrite rpc_ids_app in Hn. by apply NoDup_app in Hn as [? _].
  - intros w' f Hf. pose proof (s_genuine _ _ _ _ _ _ _ H) as Hg. rewrite Forall_forall in Hg.
    assert (genuine (asks_of ms) f) as Hgf.
    { apply Hg. apply elem_of_app. left. apply list_elem_of_fmap. by exists (w', f). }
    destruct (kind f) eqn:Ek; [by left|right|by unfold genuine in Hgf; rewrite Ek in Hgf..].
    split; [done|by apply genuine_at].
Qed.

(** No request is lost: while both loops of the client and the server's
    task run, the request of every [ask] that has been sent and waits is in
    the write channel or on its way as a whole frame, or its answer is on its
    way back. *)
Theorem no_request_lost (ms : list move) (w : W) (c : rpc) (id : Z) :
  run_moves ms (accepted w) = Some c ->
  Z.of_nat (length (asks_of ms)) < u64_max -> Forall (small u32_max) (sent c) ->
  writing (caller_end c) = true -> reading (caller_end c) = true -> serving c = true ->
  asks (caller_end c) !! id = Some Waiting ->
  exists requests answers,
    write_frames to_vec requests = Ok (to_server c) /\ write_frames to_vec answers = Ok (to_client c) /\
    ((exists f, f ∈ requests ++ write_queue (caller_end c) /\ kind f = Request /\ request_id f = id) \/
     exists f, f ∈ answers /\ request_id f = id).
Proof.
  intros Hr Hl Hb Hw Hrd Hs Ha. destruct (rpc_run_moves_sound _ (Z.le_refl _) _ _ _ Hr Hl Hb) as (up & down & cu & cd & H).
  destruct (s_up _ _ _ _ _ _ _ H) as (Hu & _ & Hcu). destruct (s_down _ _ _ _ _ _ _ H) as (Hd & _ & Hcd).
  rewrite (Hcu Hw) in Hu. rewrite (Hcd Hs) in Hd. exists up, down.
  split_and!; [by eapply carries_written|by eapply carries_written|].
  destruct (s_kept _ _ _ _ _ _ _ H id Hw Hs Hrd Ha) as [Hi|Hi]; [left|by right].
  unfold ids in Hi. apply list_elem_of_omap in Hi as (f & Hf & Hid). exists f. split; [done|]. unfold request_of in Hid.
  destruct (kind f); try done. by injection Hid.
Qed.

(** ** An answer can always come *)

(** A frame that can be sent and will be accepted *)
Definition fits (f : frame) : Prop := exists b, printed MAX_FRAME_SIZE f b.
Definition alive (c : rpc) : Prop :=
  writing (caller_end c) = true /\ reading (caller_end c) = true /\ serving c = true.
(** The three parts at work, without a failure *)
Definition working (m : move) : Prop := m = ClientWrites None \/ m = ServerReads None \/ m = ClientReads.
Definition sent_off (id : Z) (c : rpc) : Prop :=
  exists a, asks (caller_end c) !! id = Some a /\ (a = Waiting \/ exists r, a = Answered r).

Lemma limit_ok : MAX_FRAME_SIZE <= u32_max.
Proof. done. Qed.
Lemma printed_small f b : printed MAX_FRAME_SIZE f b -> small MAX_FRAME_SIZE b /\ write_frame to_vec None f = Ok b.
Proof.
  intros (data & Hd & Hl & ->). split; [|by rewrite (write_frame_ok _ _ _ Hd)].
  unfold small. rewrite length_app, length_to_be_bytes. lia.
Qed.
Lemma printed_whole f b s : printed MAX_FRAME_SIZE f b ->
  whole (b ++ s) = true /\ read_frame from_slice (b ++ s) EndOfFile = Ok (Some (f, s)).
Proof.
  intros (data & Hd & Hl & ->). pose proof limit_ok as Hu. split.
  - unfold whole. rewrite <- app_assoc, take_app_length' by done.
    assert (as_u32 (Z.of_nat (length data)) = Z.of_nat (length data)) as ->.
    { unfold as_u32. apply Z.mod_small. unfold u32_max in Hu. lia. }
    rewrite be_roundtrip by (unfold in_u32; lia). rewrite !length_app, length_to_be_bytes, Nat2Z.id.
    apply andb_true_iff. split; [apply Nat.leb_le; lia|]. apply orb_true_iff. right. apply Nat.leb_le. lia.
  - rewrite read_prefixed by lia. destruct (_ <? _) eqn:E; bools; [lia|]. by rewrite (reads_back _ _ Hd).
Qed.
Lemma carries_next c fs s f : carries MAX_FRAME_SIZE [] (f :: fs) s -> c = s ->
  exists rest, whole c = true /\ read_frame from_slice c EndOfFile = Ok (Some (f, rest)) /\ fits f.
Proof.
  intros Hc ->. inversion_clear Hc as [|? b ? rest Hp Hr]. exists rest.
  destruct (printed_whole _ _ rest Hp) as [H1 H2]. split_and!; [done..|by exists b].
Qed.

(** The write loop empties the channel. *)
Lemma channel_drains qs id c up down cu cd : sound MAX_FRAME_SIZE qs c up down cu cd -> alive c -> sent_off id c ->
  Forall (small MAX_FRAME_SIZE) (sent c) -> Forall fits (write_queue (caller_end c)) ->
  exists ms c' up' cu', Forall working ms /\ run_moves ms c = Some c' /\ sound MAX_FRAME_SIZE qs c' up' down cu' cd /\
    alive c' /\ sent_off id c' /\ Forall (small MAX_FRAME_SIZE) (sent c') /\ write_queue (caller_end c') = [].
Proof.
  remember (write_queue (caller_end c)) as q eqn:Eq. revert c up cu Eq.
  induction q as [|f q IH]; intros c up cu Eq H Hal Ho Hs Hq.
  { exists [], c, up, cu. by split_and!. }
  apply Forall_cons in Hq as [[b Hb] Hq]. destruct (printed_small _ _ Hb) as [Hsm Hwf].
  assert (client_writes None c = Some (Rpc (write_step true (caller_end c)) (to_server c ++ b)
    (to_client c) (serving c) (world c) (calls c) (sent c ++ [b]))) as Hm.
  { unfold client_writes. destruct Hal as (-> & _ & _). by rewrite <- Eq, Hwf. }
  destruct (sound_client_writes MAX_FRAME_SIZE limit_ok _ _ _ _ _ _ _ _ H Hm) as (up1 & cu1 & H1).
  { apply Forall_app. split; [done|by repeat constructor]. }
  assert (write_step true (caller_end c) = TrpcClient (pending (caller_end c)) (next_id (caller_end c)) q true
    (reading (caller_end c)) (asks (caller_end c))) as Hws by (unfold write_step; rewrite <- Eq; by destruct Hal as (-> & _)).
  rewrite Hws in *.
  set (c1 := Rpc _ _ _ _ _ _ _) in *.
  destruct (IH c1 up1 cu1 eq_refl H1) as (ms & c' & up' & cu' & Hms & Hr & Hrest).
  - destruct Hal as (_ & ? & ?). by split_and!.
  - exact Ho.
  - apply Forall_app. split; [done|by repeat constructor].
  - done.
  - exists (ClientWrites None :: ms), c', up', cu'. split; [constructor; [by left|done]|]. split; [|done].
    cbn [run_moves run_move]. by rewrite Hm.
Qed.
Hypothesis services_answer : forall f w, fits f -> kind f = Request -> exists r w', answer table f w = Ret (r, w') /\ fits r.
Hypothesis tells_return : forall f w, kind f = Tell -> exists w', run_tell table f w = Ret (tt, w').

Lemma serve_frame_fits f w : fits f -> kind f = Request \/ kind f = Tell ->
  exists out w', serve_frame to_vec table f w = Ret ((out, true), w') /\ small MAX_FRAME_SIZE (default [] out).
Proof.
  intros Hf [Hk|Hk]; unfold serve_frame; rewrite Hk.
  - destruct (services_answer f w Hf Hk) as (r & w' & Ha & [b Hb]). destruct (printed_small _ _ Hb) as [Hsm Hwf].
    exists (Some b), w'. split; [|done]. rewrite (M_bind_ret _ _ _ _ _ Ha), Hwf. done.
  - destruct (tells_return f w Hk) as (w' & Ht). exists None, w'. split; [by rewrite (M_bind_ret _ _ _ _ _ Ht)|done].
Qed.
(** The server's task serves all that is on its way to it. *)
Lemma server_drains qs id c up down cu cd : sound MAX_FRAME_SIZE qs c up down cu cd -> alive c -> sent_off id c ->
  Forall (small MAX_FRAME_SIZE) (sent c) -> write_queue (caller_end c) = [] ->
  exists ms c' down' cu' cd', Forall working ms /\ run_moves ms c = Some c' /\ sound MAX_FRAME_SIZE qs c' [] down' cu' cd' /\
    alive c' /\ sent_off id c' /\ write_queue (caller_end c') = [].
Proof.
  remember (length up) as n eqn:Hn. revert c up down cu cd Hn.
  induction n as [|n IH]; intros c up down cu cd Hn H Hal Ho Hs Hq.
  { destruct up; [|done]. exists [], c, down, cu, cd. by split_and!. }
  destruct up as [|f up]; [done|]. pose proof Hal as (Hw & Hr & Hsv).
  destruct (s_up _ _ _ _ _ _ _ H) as (Hc & _ & Hcu). rewrite (Hcu Hw) in Hc.
  destruct (carries_next _ _ _ _ Hc eq_refl) as (rest & Hwh & Hrd & Hf).
  assert (kind f = Request \/ kind f = Tell) as Hk.
  { pose proof (s_genuine _ _ _ _ _ _ _ H) as Hg. unfold line in Hg. rewrite !Forall_app, Forall_cons in Hg.
    destruct Hg as (_ & (Hg & _) & _). unfold genuine in Hg. destruct (kind f); auto; done. }
  destruct (serve_frame_fits f (world c) Hf Hk) as (out & w' & Hsf & Hsm).
  assert (exists c1, server_reads None c = Some c1 /\ caller_end c1 = caller_end c /\ serving c1 = true /\
    sent c1 = sent c ++ [default [] out]) as (c1 & Hm & Hce & Hs1 & Hsent).
  { unfold server_reads. rewrite Hsv, Hwh. cbn [andb]. rewrite Hrd, Hsf. eexists. split; [reflexivity|].
    cbn. rewrite bool_decide_eq_false_2; [done|]. intros [_ [? [=]]]. }
  assert (Forall (small MAX_FRAME_SIZE) (sent c1)) as Hsm1.
  { rewrite Hsent. apply Forall_app. split; [done|by repeat constructor]. }
  destruct (sound_server_reads MAX_FRAME_SIZE limit_ok _ _ _ _ _ _ _ _ H Hm Hsm1) as (up1 & down1 & cd1 & H1 & Hlen).
  destruct (IH c1 up1 down1 cu cd1) as (ms & c' & down' & cu' & cd' & Hms & Hrun & Hrest);
    [specialize (Hlen Hs1); simpl in Hlen, Hn; lia|done|unfold alive; by rewrite Hce|unfold sent_off; by rewrite Hce|done|by rewrite Hce|].
  exists (ServerReads None :: ms), c', down', cu', cd'. split; [constructor; [by right; left|done]|]. split; [|done].
  cbn [run_moves run_move]. by rewrite Hm.
Qed.
(** The read loop hands out all that is on its way back. *)
Lemma read_step_keeps id f cl : reading cl = true ->
  writing (read_step (Some f) cl) = writing cl /\ reading (read_step (Some f) cl) = true /\
  write_queue (read_step (Some f) cl) = write_queue cl /\
  forall a, asks cl !! id = Some a -> (a = Waiting \/ exists r, a = Answered r) ->
    exists a', asks (read_step (Some f) cl) !! id = Some a' /\ (a' = Waiting \/ exists r, a' = Answered r).
Proof.
  intros Hr. unfold read_step. rewrite Hr. cbn [negb].
  assert (forall a x, asks cl !! id = Some a -> (a = Waiting \/ exists r, a = Answered r) ->
    exists a', deliver (request_id f) x (asks cl) !! id = Some a' /\ (a' = Waiting \/ exists r, a' = Answered r)) as Hd.
  { intros a x Ha Hw. unfold deliver. destruct (decide (request_id f = id)) as [<-|Hne].
    - rewrite lookup_alter_eq, Ha. eexists. split; [reflexivity|]. right. destruct Hw as [->|[r ->]]; cbn; eauto.
    - rewrite lookup_alter_ne by done. eauto. }
  destruct (kind f); try case_decide; cbn; (split_and!; [done..|]); eauto.
Qed.
Lemma client_drains qs id c down cu cd : sound MAX_FRAME_SIZE qs c [] down cu cd -> alive c -> sent_off id c ->
  write_queue (caller_end c) = [] ->
  exists ms c' r, Forall working ms /\ run_moves ms c = Some c' /\ asks (caller_end c') !! id = Some (Answered r).
Proof.
  remember (length down) as n eqn:Hn. revert c down Hn.
  induction n as [|n IH]; intros c down Hn H Hal Ho Hq; pose proof Hal as (Hw & Hr & Hsv).
  { destruct Ho as (a & Ho & [-> |[r ->]]); [|by exists [], c, r]. destruct down; [|done].
    destruct (s_kept _ _ _ _ _ _ _ H id Hw Hsv Hr Ho) as [Hi|(x & Hi%elem_of_nil & _)]; [|done].
    rewrite Hq in Hi. by apply elem_of_nil in Hi. }
  destruct down as [|f down]; [done|].
  destruct (s_down _ _ _ _ _ _ _ H) as (Hc & _ & Hcd). rewrite (Hcd Hsv) in Hc.
  destruct (carries_next _ _ _ _ Hc eq_refl) as (rest & Hwh & Hrd & Hf).
  assert (client_reads c = Some (Rpc (read_step (Some f) (caller_end c)) (to_server c) rest (serving c) (world c) (calls c) (sent c))) as Hm.
  { unfold client_reads. by rewrite Hr, Hwh, Hrd. }
  destruct (sound_client_reads MAX_FRAME_SIZE limit_ok _ _ _ _ _ _ _ H Hm) as (down1 & H1 & Hlen).
  destruct (read_step_keeps id f (caller_end c)) as (K1 & K2 & K3 & K4); [done|].
  set (c1 := Rpc _ _ _ _ _ _ _) in *.
  destruct (IH c1 down1) as (ms & c' & r & Hms & Hrun & Ha).
  - cbn [c1 caller_end] in Hlen. rewrite K2 in Hlen. specialize (Hlen eq_refl). simpl in Hlen, Hn. lia.
  - done.
  - unfold alive. cbn [c1 caller_end serving]. by rewrite K1, K2.
  - destruct Ho as (a & Ha & Hw'). by apply (K4 a).
  - cbn [c1 caller_end]. by rewrite K3.
  - exists (ClientReads :: ms), c', r. split; [constructor; [by right; right|done]|]. split; [|done].
    cbn [run_moves run_move]. by rewrite Hm.
Qed.

(** C27: an answer can always come: from any reachable state in which both
    loops and the server's task run, with frames that are accepted and services
    that return, these three alone - without a timeout or another event -
    bring an [ask] that waits to its result. *)
Theorem waiting_ask_completes (ms : list move) (w : W) (c : rpc) (id : Z) :
  run_moves ms (accepted w) = Some c ->
  Z.of_nat (length (asks_of ms)) < u64_max -> Forall (small MAX_FRAME_SIZE) (sent c) ->
  alive c -> Forall fits (write_queue (caller_end c)) -> asks (caller_end c) !! id = Some Waiting ->
  exists more c' r, Forall working more /\ run_moves more c = Some c' /\
    asks (caller_end c') !! id = Some (Answered r).
Proof.
  intros Hr Hl Hb Hal Hq Ha. destruct (rpc_run_moves_sound _ limit_ok _ _ _ Hr Hl Hb) as (up & down & cu & cd & H).
  assert (sent_off id c) as Ho by (exists Waiting; auto).
  destruct (channel_drains _ id _ _ _ _ _ H Hal Ho Hb Hq) as (ms1 & c1 & up1 & cu1 & Hm1 & Hr1 & H1 & Hal1 & Ho1 & Hb1 & Hq1).
  destruct (server_drains _ id _ _ _ _ _ H1 Hal1 Ho1 Hb1 Hq1) as (ms2 & c2 & down2 & cu2 & cd2 & Hm2 & Hr2 & H2 & Hal2 & Ho2 & Hq2).
  destruct (client_drains _ id _ _ _ _ H2 Hal2 Ho2 Hq2) as (ms3 & c3 & r & Hm3 & Hr3 & Ha3).
  exists (ms1 ++ ms2 ++ ms3), c3, r. split; [by rewrite !Forall_app|]. split; [|done].
  rewrite rpc_run_moves_app, Hr1. cbn [mbind option_bind]. rewrite rpc_run_moves_app, Hr2. exact Hr3.
Qed.
End system.

(** * Two requests, one of which fails, over a connection that breaks *)
Module RpcExamples.

(** A serialization of frames: kind, identifier, name with its length, payload. *)
Definition kind_byte (k : frame_kind) : Byte.byte :=
  match k with Tell => Byte.x00 | Request => Byte.x01 | Response => Byte.x02 | ErrorFrame => Byte.x03 end.
Definition byte_kind (b : Byte.byte) : option frame_kind :=
  match b with
  | Byte.x00 => Some Tell | Byte.x01 => Some Request | Byte.x02 => Some Response | Byte.x03 => Some ErrorFrame
  | _ => None
  end.
Definition name_fits (f : frame) : bool :=
  (0 <=? request_id f) && (request_id f <=? u64_max) && (length (bytes_of_string (service f)) <=? 255)%nat.
Definition print (f : frame) : result string bytes :=
  if name_fits f then
    Ok (kind_byte (kind f) :: to_be_bytes (request_id f / 2 ^ 32) ++ to_be_bytes (request_id f mod 2 ^ 32) ++
        byte_of (Z.of_nat (length (bytes_of_string (service f)))) :: bytes_of_string (service f) ++ payload f)
  else Err "frame".
Definition parse (bs : bytes) : result string frame :=
  match bs with
  | k :: h0 :: h1 :: h2 :: h3 :: l0 :: l1 :: l2 :: l3 :: n :: rest =>
      match byte_kind k with
      | Some k =>
          let len := Z.to_nat (of_byte n) in
          Ok (Frame k (from_be_bytes [h0; h1; h2; h3] * 2 ^ 32 + from_be_bytes [l0; l1; l2; l3])
                (string_of_bytes (take len rest)) (drop len rest))
      | None => Err "kind"
      end
  | _ => Err "eof"
  end.
Lemma print_parse f data : print f = Ok data -> parse data = Ok f.
Proof.
  unfold print. destruct (name_fits f) eqn:E; [|done]. intros [= <-]. unfold name_fits in E.
  apply andb_true_iff in E as [[H1 H2]%andb_true_iff H3]. apply Z.leb_le in H1, H2. apply Nat.leb_le in H3.
  unfold parse. change (2 ^ 32) with 4294967296.
  assert (byte_kind (kind_byte (kind f)) = Some (kind f)) as -> by by destruct (kind f).
  assert (forall n, [byte_of (Z.shiftr n 24); byte_of (Z.shiftr n 16); byte_of (Z.shiftr n 8); byte_of n] = to_be_bytes n) as Hb by done.
  unfold u64_max in H2. cbn [to_be_bytes app].
  rewrite !Hb, !be_roundtrip by (unfold in_u32, u32_max; Z.to_euclidean_division_equations; lia).
  rewrite of_byte_of, (Z.mod_small (Z.of_nat _) 256), Nat2Z.id by lia. rewrite take_app_length, drop_app_length, string_bytes.
  rewrite Z.mul_comm, <- Z.div_mod by done. by destruct f.
Qed.

(** A service that counts its calls and refuses an empty payload. *)
Definition echo (p : bytes) : M nat (Result bytes) :=
  fun n => Ret (match p with [] => fail Internal "empty" | _ => Ok p end, S n).
Definition table : services (W := nat) := register "echo" echo ∅.

Definition session : list move :=
  [Does (Ask "echo" [Byte.x07]); Does (Ask "echo" []); Does (Tells "echo" [Byte.x01]); Does (Insert 2); Does (Insert 1);
   Does (Send 2); Does (Send 1);
   ClientWrites None; ServerReads None; Elsewhere (Frame Request 1 "echo" []); ClientWrites None; ClientWrites None;
   ServerReads None; ClientReads; ServerReads None; Does (Ask "echo" [Byte.x09]); Does (Insert 3); Does (Send 3)].
(** The third request breaks off in the middle; the client sees the end. *)
Definition broken : list move := session ++ [ClientReads; ClientWrites (Some 3%nat); ServerStops; ConnectionLost].
Definition after (ms : list move) : rpc := default (accepted 0%nat) (run_moves print parse table ms (accepted 0%nat)).
Definition failed : Result bytes := fail RpcServiceError (error_to_string (AppError Internal "empty" None)).

Definition within (limit : Z) (c : rpc (W := nat)) : bool :=
  forallb (fun b => Z.of_nat (length b) <=? 4 + limit) (sent c).
Lemma within_small limit c : within limit c = true -> Forall (small limit) (sent c).
Proof.
  unfold within. intros H. apply Forall_forall. intros b Hb. rewrite forallb_forall in H.
  apply Z.leb_le. apply H. by apply list_elem_of_In.
Qed.

Lemma remote_call_is_a_call_witness :
  asks (caller_end (after broken)) !! 1 = Some (Answered (Ok [Byte.x07])) /\
  asks (caller_end (after broken)) !! 3 = Some (Answered closed_error) /\
  exists service payload, 1 <= 2 /\ asks_of broken !! 1%nat = Some (service, payload) /\
    (failed = closed_error \/
     exists w', (w', Frame Request 2 service payload) ∈ calls (after broken) /\ called table service payload w' failed).
Proof.
  split; [vm_compute; reflexivity|]. split; [vm_compute; reflexivity|].
  refine (remote_call_is_a_call print parse table print_parse broken 0%nat (after broken) 2 failed _ _ _ _).
  - vm_compute. reflexivity.
  - vm_compute. reflexivity.
  - apply within_small. vm_compute. reflexivity.
  - vm_compute. reflexivity.
Defined.
Lemma requests_served_at_most_once_witness :
  ids (calls (after broken)).*2 = [2; 1] /\ NoDup (ids (calls (after broken)).*2).
Proof.
  split; [vm_compute; reflexivity|].
  refine (proj1 (requests_served_at_most_once print parse table print_parse broken 0%nat (after broken) _ _ _)).
  - vm_compute. reflexivity.
  - vm_compute. reflexivity.
  - apply within_small. vm_compute. reflexivity.
Defined.
Lemma no_request_lost_witness :
  exists requests answers,
    write_frames print requests = Ok (to_server (after session)) /\
    write_frames print answers = Ok (to_client (after session)) /\
    ((exists f, f ∈ requests ++ write_queue (caller_end (after session)) /\ kind f = Request /\ request_id f = 1) \/
     exists f, f ∈ answers /\ request_id f = 1).
Proof.
  refine (no_request_lost print parse table print_parse session 0%nat (after session) 1 _ _ _ _ _ _ _).
  - vm_compute. reflexivity.
  - vm_compute. reflexivity.
  - apply within_small. vm_compute. reflexivity.
  - vm_compute. reflexivity.
  - vm_compute. reflexivity.
  - vm_compute. reflexivity.
  - vm_compute. reflexivity.
Defined.

(** What [fits]: names of up to 255 bytes and payloads well below 16 MB. *)
Lemma fits_iff f : fits print f <-> name_fits f = true /\
  10 + Z.of_nat (length (bytes_of_string (service f)) + length (payload f)) <= MAX_FRAME_SIZE.
Proof.
  unfold fits, printed, print. split.
  - intros (b & data & Hd & Hl & _). destruct (name_fits f); [|done]. injection Hd as <-. split; [done|].
    cbn [length app to_be_bytes] in Hl. rewrite length_app in Hl. lia.
  - intros [-> Hl]. do 2 eexists. split; [reflexivity|]. split; [|reflexivity].
    cbn [length app to_be_bytes]. rewrite length_app. lia.
Qed.
Lemma length_string_app s t : length (bytes_of_string (s +:+ t)) = (length (bytes_of_string s) + length (bytes_of_string t))%nat.
Proof. 
  induction s as [|a s IH]; [done|]. change (S (length (bytes_of_string (s +:+ t))) =
    (S (length (bytes_of_string s)) + length (bytes_of_string t))%nat). by rewrite IH.
Qed.
Lemma table_is_echo name h : get_handler name table = Some h -> h = echo.
Proof.
  unfold get_handler, table, register. rewrite lookup_insert_Some. by intros [[_ <-]|[_ H]].
Qed.
Lemma echo_answers f w : fits print f -> kind f = Request ->
  exists r w', answer table f w = Ret (r, w') /\ fits print r.
Proof.
  rewrite fits_iff. intros [Hn Hl] _. unfold answer. destruct (get_handler (service f) table) as [h|] eqn:E.
  - apply table_is_echo in E as ->. unfold echo.
    destruct (payload f) as [|x p] eqn:Ep.
    + do 2 eexists. split; [reflexivity|]. rewrite fits_iff. split; [exact Hn|]. cbn [fail service payload].
      change (length (bytes_of_string (error_to_string _))) with 16%nat.
      unfold name_fits in Hn. apply andb_true_iff in Hn as [_ Hn]. apply Nat.leb_le in Hn. unfold MAX_FRAME_SIZE. lia.
    + do 2 eexists. split; [reflexivity|]. rewrite fits_iff. split; [exact Hn|exact Hl].
  - do 2 eexists. split; [reflexivity|]. rewrite fits_iff. split; [exact Hn|]. cbn [service payload].
    unfold name_fits in Hn. apply andb_true_iff in Hn as [_ Hn]. apply Nat.leb_le in Hn. rewrite !length_string_app.
    change (length (bytes_of_string "service '")) with 9%nat. change (length (bytes_of_string "' not found")) with 11%nat.
    unfold MAX_FRAME_SIZE. lia.
Qed.
Lemma echo_tells f w : kind f = Tell -> exists w', run_tell table f w = Ret (tt, w').
Proof.
  intros _. unfold run_tell. destruct (get_handler (service f) table) as [h|] eqn:E; [|by eexists].
  apply table_is_echo in E as ->. by eexists.
Qed.
Lemma waiting_ask_completes_witness :
  exists more c' r, Forall working more /\ run_moves print parse table more (after session) = Some c' /\
    asks (caller_end c') !! 3 = Some (Answered r).
Proof.
  refine (waiting_ask_completes print parse table print_parse echo_answers echo_tells session 0%nat (after session) 3 _ _ _ _ _ _).
  - vm_compute. reflexivity.
  - vm_compute. reflexivity.
  - apply within_small. vm_compute. reflexivity.
  - split; [|split]; vm_compute; reflexivity.
  - assert (write_queue (caller_end (after session)) = [Frame Request 3 "echo" [Byte.x09]]) as -> by (vm_compute; reflexivity).
    apply Forall_singleton. apply fits_iff. split; [vm_compute; reflexivity|]. vm_compute. discriminate.
  - vm_compute. reflexivity.
Defined.
End RpcExamples.
