(* ===== verification/WebExample.v ===== *)
(** The page of the web example ([rinfra-examples/src/web.rs]): the [format!]
    string of [index_handler] as it is in the source, the macro's reading of
    it, and what the page shows of the application's configuration. *)

From S2P Require Import Prelude Errors Config Plugins.
Import PluginContext.

(** * [format!] *)

(** A format string is read into text and named arguments; a brace is written
    twice. *)
Inductive piece : Type := Lit (text : string) | Hole (argument : string).
#[export] Instance piece_eq_dec : EqDecision piece.
Proof. solve_decision. Defined.
Definition brace_open : Ascii.ascii := Ascii.ascii_of_nat 123.
Definition brace_close : Ascii.ascii := Ascii.ascii_of_nat 125.
Definition push_char (c : Ascii.ascii) (ps : list piece) : list piece :=
  match ps with
  | Lit t :: ps => Lit (String c t) :: ps
  | _ => Lit (String c "") :: ps
  end.
(** [arg] is the argument begun, if the reader is inside one. *)
Fixpoint format_pieces (s : string) (arg : option string) : option (list piece) :=
  match s, arg with
  | EmptyString, None => Some []
  | EmptyString, Some _ => None
  | String c s, Some a =>
      if Ascii.eqb c brace_close then cons (Hole a) <$> format_pieces s None
      else format_pieces s (Some (a +:+ String c ""))
  | String c s, None =>
      if Ascii.eqb c brace_open then
        match s with
        | String d s' =>
            if Ascii.eqb d brace_open then push_char brace_open <$> format_pieces s' None
            else format_pieces s (Some "")
        | EmptyString => None
        end
      else if Ascii.eqb c brace_close then
        match s with
        | String d s' => if Ascii.eqb d brace_close then push_char brace_close <$> format_pieces s' None else None
        | EmptyString => None
        end
      else push_char c <$> format_pieces s None
  end.
Fixpoint render (args : string -> string) (ps : list piece) : string :=
  match ps with
  | [] => ""
  | Lit t :: ps => t +:+ render args ps
  | Hole a :: ps => args a +:+ render args ps
  end.

(** [{:.0?}] of a [Duration]: the whole units of the largest that fits,
    rounded to the nearest and a tie to the even. *)
Definition round_unit (d unit_ : Z) : Z :=
  let q := d / unit_ in
  let r := d mod unit_ in
  if (unit_ <? 2 * r) || ((unit_ =? 2 * r) && Z.odd q) then q + 1 else q.
Definition debug_duration (d : Z) : string :=
  if nanos_per_sec <=? d then pretty (round_unit d nanos_per_sec) +:+ "s"
  else if nanos_per_milli <=? d then pretty (round_unit d nanos_per_milli) +:+ "ms"
  else if 1000 <=? d then pretty (round_unit d 1000) +:+ "µs"
  else pretty d +:+ "ns".

(** * The page *)

(** The source's text, with a grave accent for the quotation mark. *)
Definition quote_mark : Ascii.ascii := Ascii.ascii_of_nat 34.
Fixpoint quotes (s : string) : string :=
  match s with
  | EmptyString => EmptyString
  | String c s => String (if Ascii.eqb c (Ascii.ascii_of_nat 96) then quote_mark else c) (quotes s)
  end.
Definition index_format : string := quotes "<!DOCTYPE html>
<html lang=`en`>
<head>
    <meta charset=`UTF-8`>
    <meta name=`viewport` content=`width=device-width, initial-scale=1.0`>
    <title>{app_name}</title>
    <style>
        * {{ margin: 0; padding: 0; box-sizing: border-box; }}
        body {{
            font-family: -apple-system, BlinkMacSystemFont, 'Segoe UI', Roboto, sans-serif;
            background: linear-gradient(135deg, #667eea 0%, #764ba2 100%);
            min-height: 100vh;
            display: flex;
            align-items: center;
            justify-content: center;
            color: #333;
        }}
        .card {{
            background: white;
            border-radius: 16px;
            padding: 48px;
            box-shadow: 0 20px 60px rgba(0,0,0,0.2);
            max-width: 480px;
            width: 90%;
            text-align: center;
        }}
        h1 {{ font-size: 2rem; margin-bottom: 8px; color: #1a1a2e; }}
        .subtitle {{ color: #888; margin-bottom: 32px; font-size: 0.95rem; }}
        .info {{ text-align: left; }}
        .info-row {{
            display: flex;
            justify-content: space-between;
            padding: 12px 0;
            border-bottom: 1px solid #eee;
            font-size: 0.9rem;
        }}
        .info-row:last-child {{ border-bottom: none; }}
        .label {{ color: #888; }}
        .value {{ font-weight: 600; color: #1a1a2e; }}
        .badge {{
            display: inline-block;
            background: #e8f5e9;
            color: #2e7d32;
            padding: 2px 10px;
            border-radius: 12px;
            font-size: 0.8rem;
        }}
    </style>
</head>
<body>
    <div class=`card`>
        <h1>rinfra</h1>
        <p class=`subtitle`>Modular Rust Infrastructure Framework</p>
        <div class=`info`>
            <div class=`info-row`>
                <span class=`label`>Service</span>
                <span class=`value`>{app_name}</span>
            </div>
            <div class=`info-row`>
                <span class=`label`>Version</span>
                <span class=`value`>{app_version}</span>
            </div>
            <div class=`info-row`>
                <span class=`label`>Node ID</span>
                <span class=`value`>{node_id}</span>
            </div>
            <div class=`info-row`>
                <span class=`label`>Uptime</span>
                <span class=`value`>{uptime:.0?}</span>
            </div>
            <div class=`info-row`>
                <span class=`label`>Status</span>
                <span class=`value`><span class=`badge`>Online</span></span>
            </div>
        </div>
    </div>
</body>
</html>".
Definition index_pieces : list piece := default [] (format_pieces index_format None).

(** The arguments that the page's format string captures. *)
Definition index_args (config : RinfraConfig.t) (uptime : Z) (arg : string) : string :=
  if String.eqb arg "app_name" then AppConfig.name (RinfraConfig.app config)
  else if String.eqb arg "app_version" then AppConfig.version (RinfraConfig.app config)
  else if String.eqb arg "node_id"
       then ClusterPluginConfigs.node_id (PluginConfigs.cluster (RinfraConfig.plugins config))
  else if String.eqb arg "uptime:.0?" then debug_duration uptime
  else "".
(** [index_handler]; [elapsed] is [started_at.elapsed()] when the request is served. *)
Definition index_handler {component codec : Type}
    (state : app_state RinfraConfig.t codec component unit) (elapsed : Z) : string :=
  render (index_args (state_config state) elapsed) index_pieces.

(** * What the page shows *)

(** A value without markup: no [<]. *)
Fixpoint plain (s : string) : bool :=
  match s with
  | EmptyString => true
  | String c s => negb (Ascii.eqb c (Ascii.ascii_of_nat 60)) && plain s
  end.
(** Every argument is followed by markup. *)
Fixpoint separated (ps : list piece) : bool :=
  match ps with
  | [] => true
  | Lit _ :: ps => separated ps
  | Hole _ :: ((Lit (String c _) :: _) as ps) => Ascii.eqb c (Ascii.ascii_of_nat 60) && separated ps
  | Hole _ :: _ => false
  end.

Lemma render_pieces_app args ps qs : render args (ps ++ qs) = render args ps +:+ render args qs.
Proof. induction ps as [|[t|a] ps IH]; [done| |]; cbn [app render]; by rewrite IH, str_app_assoc. Qed.
Lemma string_app_inj_l (t a b : string) : t +:+ a = t +:+ b -> a = b.
Proof. induction t as [|c t IH]; [done|]. intros H. apply IH. by injection H. Qed.
(** Two texts up to the first markup. *)
Lemma plain_prefix c (a b s t : string) : c = Ascii.ascii_of_nat 60 -> plain a = true -> plain b = true ->
  a +:+ String c s = b +:+ String c t -> a = b /\ s = t.
Proof.
  intros ->. revert b. induction a as [|x a IH]; intros [|y b] Ha Hb H.
  - by injection H as ->.
  - injection H as <- _. by cbn in Hb.
  - injection H as -> _. by cbn in Ha.
  - injection H as <- H. cbn in Ha, Hb. apply andb_true_iff in Ha as [_ Ha], Hb as [_ Hb].
    by destruct (IH b Ha Hb H) as [-> ->].
Qed.
Lemma render_injective (f g : string -> string) ps s t : separated ps = true ->
  (forall a, Hole a ∈ ps -> plain (f a) = true /\ plain (g a) = true) ->
  render f ps +:+ s = render g ps +:+ t -> (forall a, Hole a ∈ ps -> f a = g a) /\ s = t.
Proof.
  induction ps as [|[l|h] ps IH]; intros Hsep Hp H.
  - split; [|done]. by intros a ?%elem_of_nil.
  - cbn [render] in H. rewrite !str_app_assoc in H. apply string_app_inj_l in H.
    destruct IH as [IH1 IH2]; [done| |done|].
    + intros a Ha. apply Hp. by right.
    + split; [|done]. intros a [?|Ha]%elem_of_cons; [done|by apply IH1].
  - destruct ps as [|[[|c l]|] ps]; try done. cbn [separated] in Hsep. apply andb_true_iff in Hsep as [Hc Hsep].
    apply Ascii.eqb_eq in Hc as ->. cbn [render] in H.
    destruct (Hp h) as [Hf Hg]; [by left|].
    set (lt := Ascii.ascii_of_nat 60) in *. rewrite !str_app_assoc in H.
    change (f h +:+ String lt (l +:+ render f ps +:+ s) = g h +:+ String lt (l +:+ render g ps +:+ t)) in H.
    apply plain_prefix in H as [Hh H]; [|done..]. destruct IH as [IH1 IH2]; [done| | |].
    + intros a Ha. apply Hp. by right.
    + cbn [render]. rewrite !str_app_assoc.
      change (String lt (l +:+ render f ps +:+ s) = String lt (l +:+ render g ps +:+ t)). by rewrite H.
    + split; [|done]. intros a [Heq|Ha]%elem_of_cons; [by injection Heq as ->|by apply IH1].
Qed.

(** The page tells the configuration apart: two applications whose
    name, version and node are free of markup show the same page only if all
    three are the same, whatever their uptimes. *)
Theorem page_tells_configuration {component codec : Type}
    (a b : app_state RinfraConfig.t codec component unit) (t u : Z) :
  let shown s := (AppConfig.name (RinfraConfig.app (state_config s)), AppConfig.version (RinfraConfig.app (state_config s)),
    ClusterPluginConfigs.node_id (PluginConfigs.cluster (RinfraConfig.plugins (state_config s)))) in
  (forall s, s = a \/ s = b -> plain (shown s).1.1 = true /\ plain (shown s).1.2 = true /\ plain (shown s).2 = true) ->
  index_handler a t = index_handler b u -> shown a = shown b.
Proof.
  intros shown Hp. unfold index_handler. rewrite <- (take_drop 9 index_pieces), !render_pieces_app.
  assert (forall x, Hole x ∈ take 9 index_pieces -> x = "app_name" \/ x = "app_version" \/ x = "node_id") as Hh.
  { assert (omap (fun p => match p with Hole x => Some x | _ => None end) (take 9 index_pieces) =
      ["app_name"; "app_name"; "app_version"; "node_id"]) as E by (vm_compute; reflexivity).
    intros x Hx. assert (x ∈ ["app_name"; "app_name"; "app_version"; "node_id"]) as Hi.
    { rewrite <- E. apply list_elem_of_omap. by exists (Hole x). }
    rewrite !elem_of_cons, elem_of_nil in Hi. tauto. }
  destruct (Hp a (or_introl eq_refl)) as (A1 & A2 & A3). destruct (Hp b (or_intror eq_refl)) as (B1 & B2 & B3).
  intros [H _]%render_injective.
  - unfold shown. f_equal; [f_equal|]; [apply (H "app_name")|apply (H "app_version")|apply (H "node_id")];
      apply (bool_decide_unpack _); vm_compute; exact I.
  - vm_compute. reflexivity.
  - intros x [-> |[-> | ->]]%Hh; cbn; done.
Qed.

(** The values go into the page as they are: it is the fixed text of the
    source around the name (twice), the version, the node and the uptime, so
    that a name with markup in it becomes part of the page. *)
Theorem values_inserted_verbatim : exists t0 t1 t2 t3 t4 t5 : string,
  forall (component codec : Type) (s : app_state RinfraConfig.t codec component unit) (elapsed : Z),
    let c := state_config s in let name := AppConfig.name (RinfraConfig.app c) in
    index_handler s elapsed =
      t0 +:+ name +:+ t1 +:+ name +:+ t2 +:+ AppConfig.version (RinfraConfig.app c) +:+ t3 +:+
      ClusterPluginConfigs.node_id (PluginConfigs.cluster (RinfraConfig.plugins c)) +:+ t4 +:+
      debug_duration elapsed +:+ t5.
Proof.
  assert (exists t0 t1 t2 t3 t4 t5, index_pieces = [Lit t0; Hole "app_name"; Lit t1; Hole "app_name"; Lit t2;
    Hole "app_version"; Lit t3; Hole "node_id"; Lit t4; Hole "uptime:.0?"; Lit t5]) as (t0 & t1 & t2 & t3 & t4 & t5 & E).
  { vm_compute. do 6 eexists. reflexivity. }
  exists t0, t1, t2, t3, t4, t5. intros component codec s elapsed. cbn zeta. unfold index_handler. rewrite E.
  cbn [render]. by rewrite str_app_nil.
Qed.

Module WebExamples.
Definition named (name : string) : app_state RinfraConfig.t string unit unit :=
  AppState (RinfraConfig.Make "" (AppConfig.Make name "0.1.0") RuntimeConfig.default (PluginConfigs.default "c") JNull) ∅.
Lemma page_tells_configuration_witness :
  index_handler (named "shop") 0 <> index_handler (named "blog") 1500000000 /\
  (let shown s := (AppConfig.name (RinfraConfig.app (state_config s)), AppConfig.version (RinfraConfig.app (state_config s)),
    ClusterPluginConfigs.node_id (PluginConfigs.cluster (RinfraConfig.plugins (state_config s)))) in
   shown (named "shop") = shown (named "shop")).
Proof.
  split; [vm_compute; discriminate|].
  refine (page_tells_configuration (named "shop") (named "shop") 0 0 _ eq_refl).
  intros s [-> | ->]; split_and!; vm_compute; reflexivity.
Defined.
End WebExamples.
